(** * fasttext-ts: a shallow embedding of the worker pool, cache and facade

    The development follows the TypeScript sources:
    - [src/worker.ts]   : [FastTextWorker] (one child process, one request in flight)
    - [src/cache.ts]    : [DetectionCache] (insertion-ordered [Map] with TTL)
    - [src/detector.ts] : [FastTextLanguageDetector] (pool, queue, facade)

    JavaScript runs every callback to completion on a single thread, and the
    promise reactions it schedules run before the next I/O or timer callback.
    A handler together with the reactions it triggers is therefore one atomic
    transition of the model; what remains suspended between transitions (calls
    awaiting a worker, pending timers) is kept explicitly in the state. *)

From Stdlib Require Import List NArith ZArith QArith Bool Lia.
From Stdlib Require Import Strings.Byte.
From stdpp Require Import base list.
Import ListNotations.

(** ** JavaScript strings

    A JavaScript string is a sequence of UTF-16 code units, and the string
    methods the sources call ([trim], [split], [replace], [substring],
    [length]) work on code units. [codeunit] holds the value of one, a
    number below 65536. A string literal of this development stands for its
    characters, which are ASCII; a character literal is one ASCII character
    or, as three decimal digits, the code unit of that value. *)

Definition codeunit : Type := N.

Inductive string : Type :=
| EmptyString
| String (c : codeunit) (r : string).

Declare Scope char_scope.
Delimit Scope char_scope with char.
Bind Scope char_scope with codeunit.

Declare Scope string_scope.
Delimit Scope string_scope with string.
Bind Scope string_scope with string.

Module String.

Definition unit_eqb (a b : codeunit) : bool := N.eqb a b.

Fixpoint append (a b : string) : string :=
  match a with
  | EmptyString => b
  | String c r => String c (append r b)
  end.

Fixpoint length (s : string) : nat :=
  match s with
  | EmptyString => O
  | String _ r => S (length r)
  end.

Fixpoint eqb (a b : string) : bool :=
  match a, b with
  | EmptyString, EmptyString => true
  | String c r, String d r' => (unit_eqb c d && eqb r r')%bool
  | _, _ => false
  end.

(** [substring n m s]: the [m] code units of [s] from position [n], or
    fewer when [s] ends before *)
Fixpoint substring (n m : nat) (s : string) : string :=
  match n, m, s with
  | O, O, _ => EmptyString
  | O, S m', EmptyString => s
  | O, S m', String c r => String c (substring 0 m' r)
  | S n', _, EmptyString => s
  | S n', _, String c r => substring n' m r
  end.

(** [prefix a b]: [b] starts with [a] *)
Fixpoint prefix (a b : string) : bool :=
  match a with
  | EmptyString => true
  | String c r =>
      match b with
      | EmptyString => false
      | String d r' => (unit_eqb c d && prefix r r')%bool
      end
  end.

(** The code units of a string, in order *)
Fixpoint units (s : string) : list codeunit :=
  match s with
  | EmptyString => []
  | String c r => c :: units r
  end.

(** Literals: the ASCII characters of a string literal, and for a character
    literal one ASCII character or three decimal digits *)
Definition ascii_unit (b : Byte.byte) : option codeunit :=
  let n := Byte.to_N b in
  if N.ltb n 128 then Some n else None.

Fixpoint of_bytes (l : list Byte.byte) : option string :=
  match l with
  | [] => Some EmptyString
  | b :: r =>
      match ascii_unit b, of_bytes r with
      | Some c, Some s => Some (String c s)
      | _, _ => None
      end
  end.

Fixpoint to_bytes (s : string) : option (list Byte.byte) :=
  match s with
  | EmptyString => Some []
  | String c r =>
      match (if N.ltb c 128 then Byte.of_N c else None), to_bytes r with
      | Some b, Some l => Some (b :: l)
      | _, _ => None
      end
  end.

Definition decimal (b : Byte.byte) : option N :=
  let n := Byte.to_N b in
  if (N.leb 48 n && N.leb n 57)%bool then Some (n - 48)%N else None.

Definition unit_of_bytes (l : list Byte.byte) : option N :=
  match l with
  | [b] => ascii_unit b
  | [x; y; z] =>
      match decimal x, decimal y, decimal z with
      | Some a, Some b, Some c => Some (100 * a + 10 * b + c)%N
      | _, _, _ => None
      end
  | _ => None
  end.

Definition bytes_of_unit (c : N) : option (list Byte.byte) :=
  if (N.leb 32 c && N.leb c 126 && negb (N.leb 48 c && N.leb c 57))%bool
  then option_map (fun b => [b]) (Byte.of_N c)
  else None.

End String.

String Notation string String.of_bytes String.to_bytes : string_scope.
String Notation N String.unit_of_bytes String.bytes_of_unit : char_scope.
Infix "++" := String.append : string_scope.

Local Open Scope string_scope.
Local Open Scope Z_scope.

(** ** JavaScript values and built-ins used by the sources *)

Module JS.

(** A JavaScript [number]: the finite values are kept as exact rationals
    (rounding to IEEE doubles is not represented), next to [NaN] and the two
    infinities. *)
Inductive number : Type :=
| NaN
| Num (q : Q)
| Inf (negative : bool).

(** [a >= b] on numbers; any comparison with [NaN] is [false]. *)
Definition ge (a b : number) : bool :=
  match a, b with
  | NaN, _ | _, NaN => false
  | Num x, Num y => Qle_bool y x
  | Inf false, _ => true
  | Inf true, Inf true => true
  | Inf true, _ => false
  | Num _, Inf neg => neg
  end.

Definition isNaN (a : number) : bool :=
  match a with NaN => true | _ => false end.

(** A number is falsy exactly when it is zero or [NaN]. *)
Definition truthy_number (a : number) : bool :=
  match a with
  | NaN => false
  | Num q => negb (Qeq_bool q 0)
  | Inf _ => true
  end.

(** [a || b] for a number [a] that may be [undefined]: [b] when [a] is
    [undefined] or falsy, and [a] otherwise *)
Definition or_else (a : option number) (b : number) : number :=
  match a with
  | Some x => if truthy_number x then x else b
  | None => b
  end.

(** White space of [\s] and of [String.prototype.trim]: the code units of
    WhiteSpace and LineTerminator in ECMAScript, that is TAB, LF, VT, FF, CR,
    SPACE, NO-BREAK SPACE (U+00A0), U+1680, U+2000 to U+200A, U+2028, U+2029,
    U+202F, U+205F, U+3000 and U+FEFF. *)
Definition is_space (c : codeunit) : bool :=
  ((N.leb 0x9 c && N.leb c 0xD) || N.eqb c 0x20 || N.eqb c 0xA0 || N.eqb c 0x1680
   || (N.leb 0x2000 c && N.leb c 0x200A) || N.eqb c 0x2028 || N.eqb c 0x2029
   || N.eqb c 0x202F || N.eqb c 0x205F || N.eqb c 0x3000 || N.eqb c 0xFEFF)%bool.

Fixpoint trimStart (s : string) : string :=
  match s with
  | EmptyString => EmptyString
  | String c r => if is_space c then trimStart r else s
  end.

Fixpoint trimEnd (s : string) : string :=
  match s with
  | EmptyString => EmptyString
  | String c r =>
      let r' := trimEnd r in
      if (is_space c && String.eqb r' "")%bool then "" else String c r'
  end.

Definition trim (s : string) : string := trimEnd (trimStart s).

(** A string is falsy exactly when it is empty. *)
Definition truthy (s : string) : bool := negb (String.eqb s "").

(** [s.split(/\s+/)]: the pieces between maximal runs of white space.
    [cur] is the piece being read, [in_gap] tells that the previous
    character was white space. Leading or trailing white space yields an
    empty first or last piece, and the empty string yields [[""]]. *)
Fixpoint split_ws_from (cur : string) (in_gap : bool) (s : string) : list string :=
  match s with
  | EmptyString => [cur]
  | String c r =>
      if is_space c then
        if in_gap then split_ws_from cur true r
        else cur :: split_ws_from "" true r
      else split_ws_from (cur ++ String c "") false r
  end.

Definition split_ws (s : string) : list string := split_ws_from "" false s.

(** [s.replace(pat, rep)] with a string pattern: only the first occurrence
    is replaced ([rep] holds no [$] pattern in the sources). *)
Fixpoint replace (pat rep s : string) : string :=
  if String.prefix pat s
  then rep ++ String.substring (String.length pat) (String.length s - String.length pat) s
  else match s with
       | EmptyString => EmptyString
       | String c r => String c (replace pat rep r)
       end.

(** [s.replace(/c/g, rep)] for a single character [c] *)
Fixpoint replace_all_char (c : codeunit) (rep : codeunit) (s : string) : string :=
  match s with
  | EmptyString => EmptyString
  | String d r => String (if String.unit_eqb d c then rep else d) (replace_all_char c rep r)
  end.

Definition lower (c : codeunit) : codeunit :=
  if (N.leb 65 c && N.leb c 90)%bool then (c + 32)%N else c.

(** [s.toLowerCase()] on the ASCII letters, which is all that the labels of
    fastText have; a letter outside ASCII is left as it is here. *)
Fixpoint toLowerCase (s : string) : string :=
  match s with
  | EmptyString => EmptyString
  | String c r => String (lower c) (toLowerCase r)
  end.

(** [a < b] on numbers; any comparison with [NaN] is [false]. *)
Definition lt (a b : number) : bool :=
  match a, b with
  | NaN, _ | _, NaN => false
  | Num x, Num y => negb (Qle_bool y x)
  | Inf true, Inf true => false
  | Inf true, _ => true
  | Inf false, _ => false
  | Num _, Inf neg => negb neg
  end.

End JS.

Abbreviation number := JS.number.

(** ** [src/types.ts] *)

Record LanguagePrediction : Type := {
  language : string;
  confidence : number;
  (** present only after [applyOptions] enriched the prediction *)
  languageName : option string;
}.

Record DetectionResult : Type := {
  predictions : list LanguagePrediction;
  primary : option LanguagePrediction;
}.

Record DetectionOptions : Type := {
  threshold : option number;
  topK : option Z;
  includeLanguageName : option bool;
  returnAll : option bool;
}.

(** The options of a detector whose sizes are counts and whose durations
    are whole milliseconds, as the pool model has them. [NumericOptions] are
    the options with any number in these places, and [Detector.fields] is
    the constructor on them. *)
Record DetectorOptions : Type := {
  opt_modelPath : option string;
  opt_poolSize : option nat;
  opt_maxQueueSize : option nat;
  opt_timeout : option Z;
  opt_cache : option bool;
  opt_cacheSize : option nat;
  opt_cacheTTL : option Z;
  opt_autoCleanup : option bool;
}.

Record NumericOptions : Type := {
  num_modelPath : option string;
  num_poolSize : option number;
  num_maxQueueSize : option number;
  num_timeout : option number;
  num_cache : option bool;
  num_cacheSize : option number;
  num_cacheTTL : option number;
  num_autoCleanup : option bool;
}.

Record PoolStatistics : Type := {
  totalRequests : Z;
  completedRequests : Z;
  failedRequests : Z;
  queuedRequests : Z;
  averageResponseTime : Q;
  stat_poolSize : Z;
  activeWorkers : Z;
  busyWorkers : Z;
  idleWorkers : Z;
  queueLength : Z;
}.

(** The [Error] values thrown by the sources, one constructor per message. *)
Inductive Error : Type :=
| NotLoaded                      (* 'Model not loaded. Call load() first.' *)
| AlreadyLoading                 (* 'Model is already being loaded' *)
| ModelNotFound                  (* 'Model file not found at ...' *)
| BinaryMissing                  (* 'FastText binary not found. ...' *)
| QueueFull (maxQueueSize : nat) (* 'Request queue is full (N requests)' *)
| ShuttingDown                   (* 'Service shutting down' *)
| WorkerNotReady (id : nat)      (* 'Worker N is not ready' *)
| WorkerBusy (id : nat)          (* 'Worker N is busy' *)
| WorkerNoStreams (id : nat)     (* 'Worker N process streams are not available' *)
| WorkerTimeout (id : nat)       (* 'Worker N timeout' *)
| WorkerStartFailed (id : nat)   (* 'Worker N failed to start' *)
| SystemError.                   (* an error object handed over by Node: spawn or write failure *)

(** The collaborators the sources import but do not define: the global
    [parseFloat], and [getLanguageName] of [src/language-names.ts]. *)
Class Builtins : Type := {
  parseFloat : string -> number;
  getLanguageName : string -> string;
}.

(** JavaScript truthiness of optional values *)
Definition truthy_bool (b : option bool) : bool :=
  match b with Some true => true | _ => false end.

Definition truthy_Z (z : option Z) : bool :=
  match z with Some n => negb (n =? 0) | None => false end.

Definition truthy_nat (n : option nat) : bool :=
  match n with Some (S _) => true | _ => false end.

(** [a || b] on an optional number: [b] when [a] is missing or zero *)
Definition or_default (a : option Z) (b : Z) : Z :=
  if truthy_Z a then default b a else b.

Definition or_default_nat (a : option nat) (b : nat) : nat :=
  if truthy_nat a then default b a else b.

(** ** [src/cache.ts] *)

Module Cache.

Record CacheEntry : Type := {
  result : DetectionResult;
  timestamp : Z;
}.

(** A JavaScript [Map<string, CacheEntry>]: the entries in insertion order,
    each key at most once. *)
Abbreviation JsMap := (list (string * CacheEntry)).

Fixpoint map_get (k : string) (m : JsMap) : option CacheEntry :=
  match m with
  | [] => None
  | (k', v) :: r => if String.eqb k' k then Some v else map_get k r
  end.

(** [Map.prototype.set]: an existing key keeps its position, a new key goes
    to the end. *)
Fixpoint map_set (k : string) (v : CacheEntry) (m : JsMap) : JsMap :=
  match m with
  | [] => [(k, v)]
  | (k', v') :: r =>
      if String.eqb k' k then (k, v) :: r else (k', v') :: map_set k v r
  end.

Fixpoint map_delete (k : string) (m : JsMap) : JsMap :=
  match m with
  | [] => []
  | (k', v') :: r =>
      if String.eqb k' k then r else (k', v') :: map_delete k r
  end.

(** [maxSize] is a number of entries, a natural number here; [ttl] and the
    timestamps are milliseconds. *)
Record DetectionCache : Type := {
  cache : JsMap;
  maxSize : nat;
  ttl : Z;
}.

Definition new (maxSize : nat) (ttl : Z) : DetectionCache :=
  {| cache := []; maxSize := maxSize; ttl := ttl |}.

Definition with_cache (m : JsMap) (c : DetectionCache) : DetectionCache :=
  {| cache := m; maxSize := maxSize c; ttl := ttl c |}.

(** [get(text)], with [now] the value of [Date.now()] *)
Definition get (c : DetectionCache) (text : string) (now : Z)
  : option DetectionResult * DetectionCache :=
  match map_get text (cache c) with
  | None => (None, c)
  | Some entry =>
      if now - timestamp entry >? ttl c
      then (None, with_cache (map_delete text (cache c)) c)
      else (Some (result entry), c)
  end.

(** The first statement of [set]: "If cache is full, remove oldest entry". *)
Definition evict (c : DetectionCache) : DetectionCache :=
  if Nat.leb (maxSize c) (length (cache c)) then
    match cache c with
    | (firstKey, _) :: _ =>
        if JS.truthy firstKey then with_cache (map_delete firstKey (cache c)) c else c
    | [] => c
    end
  else c.

(** [set(text, result)] *)
Definition set (c : DetectionCache) (text : string) (r : DetectionResult) (now : Z)
  : DetectionCache :=
  let c1 := evict c in
  with_cache (map_set text {| result := r; timestamp := now |} (cache c1)) c1.

Definition clear (c : DetectionCache) : DetectionCache := with_cache [] c.

Definition getStats (c : DetectionCache) : nat * nat * Z :=
  (length (cache c), maxSize c, ttl c).

End Cache.

(** ** [src/worker.ts] *)

Module Worker.

(** The handle of a spawned [fasttext] process. [killed] is Node's
    [subprocess.killed]: a signal was sent through this handle. *)
Record ChildProcess : Type := {
  pid : nat;
  killed : bool;
}.

Record FastTextWorker : Type := {
  id : nat;
  modelPath : string;
  process : option ChildProcess;
  isReady : bool;
  isBusy : bool;
  processedRequests : Z;
  timeout : Z;
}.

Definition new (id : nat) (modelPath : string) (timeout : Z) : FastTextWorker :=
  {| id := id; modelPath := modelPath; process := None; isReady := false;
     isBusy := false; processedRequests := 0; timeout := timeout |}.

Definition with_process (p : option ChildProcess) (w : FastTextWorker) : FastTextWorker :=
  {| id := id w; modelPath := modelPath w; process := p; isReady := isReady w;
     isBusy := isBusy w; processedRequests := processedRequests w; timeout := timeout w |}.

Definition with_isReady (b : bool) (w : FastTextWorker) : FastTextWorker :=
  {| id := id w; modelPath := modelPath w; process := process w; isReady := b;
     isBusy := isBusy w; processedRequests := processedRequests w; timeout := timeout w |}.

Definition with_isBusy (b : bool) (w : FastTextWorker) : FastTextWorker :=
  {| id := id w; modelPath := modelPath w; process := process w; isReady := isReady w;
     isBusy := b; processedRequests := processedRequests w; timeout := timeout w |}.

Definition with_processedRequests (n : Z) (w : FastTextWorker) : FastTextWorker :=
  {| id := id w; modelPath := modelPath w; process := process w; isReady := isReady w;
     isBusy := isBusy w; processedRequests := n; timeout := timeout w |}.

(** *** [start()] *)

(** The synchronous part: [this.process = spawn(...)]. *)
Definition start (p : nat) (w : FastTextWorker) : FastTextWorker :=
  with_process (Some {| pid := p; killed := false |}) w.

(** The handlers [start] puts on the process: both clear [isReady] (and
    emit the worker's own event, handled by the detector). *)
Definition onProcessError (w : FastTextWorker) : FastTextWorker := with_isReady false w.
Definition onProcessExit (w : FastTextWorker) : FastTextWorker := with_isReady false w.

(** The 100 ms timer of [start]. *)
Definition onStartTimer (w : FastTextWorker) : FastTextWorker * option Error :=
  match process w with
  | Some p =>
      if negb (killed p) then (with_isReady true w, None)
      else (w, Some (WorkerStartFailed (id w)))
  | None => (w, Some (WorkerStartFailed (id w)))
  end.

(** *** [detect(text)] *)

(** "Clean and send text": the line written to the process. *)
Definition cleanText (text : string) : string :=
  let cleanedText :=
    JS.trim (JS.replace_all_char "013" " " (JS.replace_all_char "010" " " text)) in
  String.substring 0 5000 cleanedText.

(** The synchronous part of [detect]: the three guards, then [isBusy = true]
    and the write. A spawned process has its [stdin] and [stdout]; the
    streams are missing exactly when the handle is. *)
Definition detect (w : FastTextWorker) (text : string) : Error + FastTextWorker * string :=
  if negb (isReady w) then inl (WorkerNotReady (id w))
  else if isBusy w then inl (WorkerBusy (id w))
  else match process w with
       | None => inl (WorkerNoStreams (id w))
       | Some _ => inr (with_isBusy true w, cleanText text)
       end.

(** The timer of a call in flight fired. *)
Definition onTimeout (w : FastTextWorker) : FastTextWorker * Error :=
  (with_isBusy false w, WorkerTimeout (id w)).

(** The callback of [stdin.write] received an error. *)
Definition onWriteError (w : FastTextWorker) : FastTextWorker := with_isBusy false w.

Section Parse.
Context `{Builtins}.

Definition prediction (label confidence : string) : LanguagePrediction :=
  let languageCode := JS.toLowerCase (JS.replace "__label__" "" label) in
  {| language := if String.eqb languageCode "zh" then "chs" else languageCode;
     confidence := parseFloat confidence;
     languageName := None |}.

(** The loop of [parseResult]: [parts[i]] and [parts[i + 1]] for even [i];
    a missing [parts[i + 1]] is [undefined], which is falsy. *)
Fixpoint parsePairs (parts : list string) : list LanguagePrediction :=
  match parts with
  | label :: confidence :: rest =>
      (if (JS.truthy label && JS.truthy confidence)%bool
       then [prediction label confidence] else [])
      ++ parsePairs rest
  | _ => []
  end.

Definition parseResult (result : string) : list LanguagePrediction :=
  parsePairs (JS.split_ws result).

(** [onData]: a chunk arrived on [stdout] while a call is in flight. *)
Definition onData (w : FastTextWorker) (data : string) : FastTextWorker * DetectionResult :=
  let result := JS.trim data in
  let w' := with_processedRequests (processedRequests w + 1) (with_isBusy false w) in
  let predictions := parseResult result in
  (w', {| predictions := predictions; primary := head predictions |}).
End Parse.

(** *** [stop()] *)

(** Whether [stop] sends [SIGTERM] and arms the one-second kill timer. *)
Definition stopSignals (w : FastTextWorker) : bool :=
  match process w with
  | Some p => negb (killed p)
  | None => false
  end.

Definition stop (w : FastTextWorker) : FastTextWorker :=
  match process w with
  | Some _ => with_isReady false (with_process None w)
  | None => w
  end.

(** The kill timer armed by [stop]: [SIGKILL] to whatever process the
    worker holds by then, and [this.process = null]. *)
Definition onKillTimer (w : FastTextWorker) : FastTextWorker := with_process None w.

Definition getStatus (w : FastTextWorker) : nat * bool * bool * Z :=
  (id w, isReady w, isBusy w, processedRequests w).

End Worker.

(** ** [src/detector.ts] *)

Module Detector.

Local Open Scope list_scope.

(** A worker object is named by its place in the store of all workers ever
    created; [this.workers] holds such references. *)
Abbreviation addr := nat.

(** A request waiting for a worker. The source stores the [resolve] and
    [reject] callbacks of the suspended [detect] call; here [call] names that
    call and [options] are the options it applies when it resumes. *)
Record QueuedRequest : Type := {
  text : string;
  call : nat;
  options : DetectionOptions;
  startTime : Z;
}.

(** What a transition does to the outside: to the callers of [detect] and
    [load], and to the child processes. *)
Inductive Action : Type :=
| Dispatched (queued : bool) (call : nat) (worker : addr)
| Wrote (worker : addr) (line : string)
| Enqueued (call : nat)
| Returned (call : nat) (value : DetectionResult)
| Threw (call : nat) (error : Error)
| Restarting (workerId : nat)
| Spawned (worker : addr) (pid : nat)
| Terminated (worker : addr)
| LoadResolved
| LoadRejected (error : Error).

(** Who awaits a [worker.start()]: the [Promise.all] of a [load] call, or
    [restartWorker]. *)
Inductive StartOwner : Type :=
| ByLoad (generation : nat)
| ByRestart (workerId : nat).

(** A [start()] call whose 100 ms timer has not fired yet. [ps_settled] tells
    that its promise was already rejected by the process' [error] event. *)
Record PendingStart : Type := {
  ps_worker : addr;
  ps_pid : nat;
  ps_owner : StartOwner;
  ps_settled : bool;
}.

(** The [readonly] fields set by the constructor; the two sizes are natural
    numbers here. *)
Record Config : Type := {
  modelPath : string;
  poolSize : nat;
  maxQueueSize : nat;
  timeout : Z;
  autoCleanup : bool;
}.

(** The detector object ([config] to [stats]), the store of worker objects,
    and the suspended computations: calls in flight on a worker ([running]),
    pending start, retry and kill timers, and the starts a [load] in progress
    still waits for. *)
Record State : Type := {
  config : Config;
  cache : option Cache.DetectionCache;
  workers : list addr;
  requestQueue : list QueuedRequest;
  isLoaded : bool;
  isLoading : bool;
  stats : PoolStatistics;
  heap : list Worker.FastTextWorker;
  running : list (addr * QueuedRequest);
  starting : list PendingStart;
  loadJoin : option (list nat);
  loadGeneration : nat;
  retryTimers : list nat;
  killTimers : list addr;
  nextPid : nat;
}.

Definition set_cache (v : option Cache.DetectionCache) (s : State) : State :=
  Build_State (config s) v (workers s) (requestQueue s) (isLoaded s)
              (isLoading s) (stats s) (heap s) (running s) (starting s)
              (loadJoin s) (loadGeneration s) (retryTimers s) (killTimers s) (nextPid s).

Definition set_workers (v : list addr) (s : State) : State :=
  Build_State (config s) (cache s) v (requestQueue s) (isLoaded s)
              (isLoading s) (stats s) (heap s) (running s) (starting s)
              (loadJoin s) (loadGeneration s) (retryTimers s) (killTimers s) (nextPid s).

Definition set_requestQueue (v : list QueuedRequest) (s : State) : State :=
  Build_State (config s) (cache s) (workers s) v (isLoaded s)
              (isLoading s) (stats s) (heap s) (running s) (starting s)
              (loadJoin s) (loadGeneration s) (retryTimers s) (killTimers s) (nextPid s).

Definition set_isLoaded (v : bool) (s : State) : State :=
  Build_State (config s) (cache s) (workers s) (requestQueue s) v
              (isLoading s) (stats s) (heap s) (running s) (starting s)
              (loadJoin s) (loadGeneration s) (retryTimers s) (killTimers s) (nextPid s).

Definition set_isLoading (v : bool) (s : State) : State :=
  Build_State (config s) (cache s) (workers s) (requestQueue s) (isLoaded s)
              v (stats s) (heap s) (running s) (starting s)
              (loadJoin s) (loadGeneration s) (retryTimers s) (killTimers s) (nextPid s).

Definition set_stats (v : PoolStatistics) (s : State) : State :=
  Build_State (config s) (cache s) (workers s) (requestQueue s) (isLoaded s)
              (isLoading s) v (heap s) (running s) (starting s)
              (loadJoin s) (loadGeneration s) (retryTimers s) (killTimers s) (nextPid s).

Definition set_heap (v : list Worker.FastTextWorker) (s : State) : State :=
  Build_State (config s) (cache s) (workers s) (requestQueue s) (isLoaded s)
              (isLoading s) (stats s) v (running s) (starting s)
              (loadJoin s) (loadGeneration s) (retryTimers s) (killTimers s) (nextPid s).

Definition set_running (v : list (addr * QueuedRequest)) (s : State) : State :=
  Build_State (config s) (cache s) (workers s) (requestQueue s) (isLoaded s)
              (isLoading s) (stats s) (heap s) v (starting s)
              (loadJoin s) (loadGeneration s) (retryTimers s) (killTimers s) (nextPid s).

Definition set_starting (v : list PendingStart) (s : State) : State :=
  Build_State (config s) (cache s) (workers s) (requestQueue s) (isLoaded s)
              (isLoading s) (stats s) (heap s) (running s) v
              (loadJoin s) (loadGeneration s) (retryTimers s) (killTimers s) (nextPid s).

Definition set_loadJoin (v : option (list nat)) (s : State) : State :=
  Build_State (config s) (cache s) (workers s) (requestQueue s) (isLoaded s)
              (isLoading s) (stats s) (heap s) (running s) (starting s)
              v (loadGeneration s) (retryTimers s) (killTimers s) (nextPid s).

Definition set_loadGeneration (v : nat) (s : State) : State :=
  Build_State (config s) (cache s) (workers s) (requestQueue s) (isLoaded s)
              (isLoading s) (stats s) (heap s) (running s) (starting s)
              (loadJoin s) v (retryTimers s) (killTimers s) (nextPid s).

Definition set_retryTimers (v : list nat) (s : State) : State :=
  Build_State (config s) (cache s) (workers s) (requestQueue s) (isLoaded s)
              (isLoading s) (stats s) (heap s) (running s) (starting s)
              (loadJoin s) (loadGeneration s) v (killTimers s) (nextPid s).

Definition set_killTimers (v : list addr) (s : State) : State :=
  Build_State (config s) (cache s) (workers s) (requestQueue s) (isLoaded s)
              (isLoading s) (stats s) (heap s) (running s) (starting s)
              (loadJoin s) (loadGeneration s) (retryTimers s) v (nextPid s).

Definition set_nextPid (v : nat) (s : State) : State :=
  Build_State (config s) (cache s) (workers s) (requestQueue s) (isLoaded s)
              (isLoading s) (stats s) (heap s) (running s) (starting s)
              (loadJoin s) (loadGeneration s) (retryTimers s) (killTimers s) v.

Definition with_totalRequests (n : Z) (st : PoolStatistics) : PoolStatistics :=
  {| totalRequests := n;
     completedRequests := completedRequests st;
     failedRequests := failedRequests st;
     queuedRequests := queuedRequests st;
     averageResponseTime := averageResponseTime st;
     stat_poolSize := stat_poolSize st;
     activeWorkers := activeWorkers st;
     busyWorkers := busyWorkers st;
     idleWorkers := idleWorkers st;
     queueLength := queueLength st |}.

Definition with_completed (n : Z) (avg : Q) (st : PoolStatistics) : PoolStatistics :=
  {| totalRequests := totalRequests st;
     completedRequests := n;
     failedRequests := failedRequests st;
     queuedRequests := queuedRequests st;
     averageResponseTime := avg;
     stat_poolSize := stat_poolSize st;
     activeWorkers := activeWorkers st;
     busyWorkers := busyWorkers st;
     idleWorkers := idleWorkers st;
     queueLength := queueLength st |}.

Definition with_failedRequests (n : Z) (st : PoolStatistics) : PoolStatistics :=
  {| totalRequests := totalRequests st;
     completedRequests := completedRequests st;
     failedRequests := n;
     queuedRequests := queuedRequests st;
     averageResponseTime := averageResponseTime st;
     stat_poolSize := stat_poolSize st;
     activeWorkers := activeWorkers st;
     busyWorkers := busyWorkers st;
     idleWorkers := idleWorkers st;
     queueLength := queueLength st |}.

Definition with_queuedRequests (n : Z) (st : PoolStatistics) : PoolStatistics :=
  {| totalRequests := totalRequests st;
     completedRequests := completedRequests st;
     failedRequests := failedRequests st;
     queuedRequests := n;
     averageResponseTime := averageResponseTime st;
     stat_poolSize := stat_poolSize st;
     activeWorkers := activeWorkers st;
     busyWorkers := busyWorkers st;
     idleWorkers := idleWorkers st;
     queueLength := queueLength st |}.

Definition with_poolSize (n : Z) (st : PoolStatistics) : PoolStatistics :=
  {| totalRequests := totalRequests st;
     completedRequests := completedRequests st;
     failedRequests := failedRequests st;
     queuedRequests := queuedRequests st;
     averageResponseTime := averageResponseTime st;
     stat_poolSize := n;
     activeWorkers := activeWorkers st;
     busyWorkers := busyWorkers st;
     idleWorkers := idleWorkers st;
     queueLength := queueLength st |}.

Definition emptyStats : PoolStatistics :=
  {| totalRequests := 0; completedRequests := 0; failedRequests := 0;
     queuedRequests := 0; averageResponseTime := 0%Q; stat_poolSize := 0;
     activeWorkers := 0; busyWorkers := 0; idleWorkers := 0; queueLength := 0 |}.

(** [path.join(__dirname, '..', 'models', 'lid.176.bin')] *)
Definition defaultModelPath : string := "../models/lid.176.bin".

(** The constructor. The process hooks of [autoCleanup] only call [unload],
    which the environment may do at any time anyway. *)
Definition new (options : DetectorOptions) : State :=
  {| config :=
       {| modelPath :=
            match opt_modelPath options with
            | Some p => if JS.truthy p then p else defaultModelPath
            | None => defaultModelPath
            end;
          poolSize := or_default_nat (opt_poolSize options) 3;
          maxQueueSize := or_default_nat (opt_maxQueueSize options) 500;
          timeout := or_default (opt_timeout options) 5000;
          autoCleanup := truthy_bool (opt_autoCleanup options) |};
     cache :=
       if truthy_bool (opt_cache options)
       then Some (Cache.new (or_default_nat (opt_cacheSize options) 1000)
                            (or_default (opt_cacheTTL options) 3600000))
       else None;
     workers := [];
     requestQueue := [];
     isLoaded := false;
     isLoading := false;
     stats := emptyStats;
     heap := [];
     running := [];
     starting := [];
     loadJoin := None;
     loadGeneration := 0;
     retryTimers := [];
     killTimers := [];
     nextPid := 0 |}.

(** *** The constructor on arbitrary numbers

    [options.poolSize || 3] and the four assignments like it take the
    default for a missing option, for zero and for [NaN], and keep any other
    number, also a negative or a fractional one. [fields] has what the
    constructor computes from such options: the five [readonly] fields, and
    the two arguments of [new DetectionCache] when [options.cache] is
    truthy. *)
Record Fields : Type := {
  f_modelPath : string;
  f_poolSize : number;
  f_maxQueueSize : number;
  f_timeout : number;
  f_autoCleanup : bool;
  f_cache : option (number * number);
}.

Definition fields (o : NumericOptions) : Fields :=
  {| f_modelPath :=
       match num_modelPath o with
       | Some p => if JS.truthy p then p else defaultModelPath
       | None => defaultModelPath
       end;
     f_poolSize := JS.or_else (num_poolSize o) (JS.Num 3);
     f_maxQueueSize := JS.or_else (num_maxQueueSize o) (JS.Num 500);
     f_timeout := JS.or_else (num_timeout o) (JS.Num 5000);
     f_autoCleanup := truthy_bool (num_autoCleanup o);
     f_cache :=
       if truthy_bool (num_cache o)
       then Some (JS.or_else (num_cacheSize o) (JS.Num 1000),
                  JS.or_else (num_cacheTTL o) (JS.Num 3600000))
       else None |}.

(** A count and a whole number of milliseconds as numbers *)
Definition of_count (n : nat) : number := JS.Num (inject_Z (Z.of_nat n)).
Definition of_integer (z : Z) : number := JS.Num (inject_Z z).

Definition numeric (options : DetectorOptions) : NumericOptions :=
  {| num_modelPath := opt_modelPath options;
     num_poolSize := option_map of_count (opt_poolSize options);
     num_maxQueueSize := option_map of_count (opt_maxQueueSize options);
     num_timeout := option_map of_integer (opt_timeout options);
     num_cache := opt_cache options;
     num_cacheSize := option_map of_count (opt_cacheSize options);
     num_cacheTTL := option_map of_integer (opt_cacheTTL options);
     num_autoCleanup := opt_autoCleanup options |}.

(** The fields of a detector of the pool model, as numbers *)
Definition fieldsOf (s : State) : Fields :=
  {| f_modelPath := modelPath (config s);
     f_poolSize := of_count (poolSize (config s));
     f_maxQueueSize := of_count (maxQueueSize (config s));
     f_timeout := of_integer (timeout (config s));
     f_autoCleanup := autoCleanup (config s);
     f_cache :=
       option_map (fun c => (of_count (Cache.maxSize c), of_integer (Cache.ttl c)))
                  (cache s) |}.

Definition isModelLoaded (s : State) : bool := isLoaded s.

(** *** [getAvailableWorker] *)

(** [this.workers.find(w => w.getIsReady() && !w.getIsBusy())]: the
    reference found, with the object it points to. *)
Fixpoint findAvailable (h : list Worker.FastTextWorker) (ws : list addr)
  : option (addr * Worker.FastTextWorker) :=
  match ws with
  | [] => None
  | a :: rest =>
      match h !! a with
      | Some w =>
          if (Worker.isReady w && negb (Worker.isBusy w))%bool then Some (a, w)
          else findAvailable h rest
      | None => findAvailable h rest
      end
  end.

Definition getAvailableWorker (s : State) : option (addr * Worker.FastTextWorker) :=
  findAvailable (heap s) (workers s).

(** *** [executeRequest], up to its [await] *)

(** A call whose [worker.detect] threw before anything was written; its
    [catch] block runs as a promise reaction, after the current handler. *)
Abbreviation Deferred := (list (QueuedRequest * Error)).

Definition executeRequest (a : addr) (w : Worker.FastTextWorker) (request : QueuedRequest)
  (s : State) : State * list Action * Deferred :=
  match Worker.detect w (text request) with
  | inl e => (s, [], [(request, e)])
  | inr (w', line) =>
      (set_running (running s ++ [(a, request)]) (set_heap (<[a := w']> (heap s)) s),
       [Wrote a line], [])
  end.

(** *** [processQueue] *)

(** The [while] loop of [processQueue], by recursion on the queue [q] held in
    [requestQueue]. *)
Fixpoint drain (q : list QueuedRequest) (s : State) : State * list Action * Deferred :=
  match q with
  | [] => (set_requestQueue [] s, [], [])
  | request :: rest =>
      match getAvailableWorker s with
      | None => (set_requestQueue q s, [], [])
      | Some (a, w) =>
          let s1 := set_stats (with_queuedRequests (queuedRequests (stats s) - 1) (stats s))
                      (set_requestQueue rest s) in
          let '(s2, acts, dfd) := executeRequest a w request s1 in
          let '(s3, acts', dfd') := drain rest s2 in
          (s3, Dispatched true (call request) a :: acts ++ acts', dfd ++ dfd')
      end
  end.

Definition processQueueLoop (s : State) : State * list Action * Deferred :=
  drain (requestQueue s) s.

(** The [catch] blocks of the deferred calls, in the order of the reaction
    queue: [failedRequests++], [reject(error)], [processQueue()], whose own
    deferred calls go to the end of the queue. [fuel] bounds the number of
    blocks run. *)
Fixpoint runCatches (fuel : nat) (pending : Deferred) (s : State) : State * list Action :=
  match pending, fuel with
  | [], _ => (s, [])
  | _ :: _, O => (s, [])
  | (request, e) :: more, S fuel' =>
      let s1 := set_stats (with_failedRequests (failedRequests (stats s) + 1) (stats s)) s in
      let '(s2, acts, new) := processQueueLoop s1 in
      let '(s3, acts') := runCatches fuel' (more ++ new) s2 in
      (s3, Threw (call request) e :: acts ++ acts')
  end.

(** Every deferred call stems from a request that was pending or queued, so
    this much fuel is never used up ([runCatches_enough_fuel]). *)
Definition settle (pending : Deferred) (s : State) : State * list Action :=
  runCatches (length pending + length (requestQueue s)) pending s.

(** [processQueue()] as the last statement of a handler, with the reactions
    that follow it. *)
Definition processQueue (s : State) : State * list Action :=
  let '(s1, acts, dfd) := processQueueLoop s in
  let '(s2, acts') := settle dfd s1 in
  (s2, acts ++ acts').

(** The [catch] block of [executeRequest] *)
Definition executeRequest_catch (request : QueuedRequest) (e : Error) (s : State)
  : State * list Action :=
  settle [(request, e)] s.

(** *** [unload] and the teardown of workers *)

(** [worker.stop()] on the object at [a]; a [SIGTERM] sent arms the kill
    timer of that worker. *)
Definition stopWorker (a : addr) (s : State) : State * list Action :=
  match heap s !! a with
  | Some w =>
      let s1 := set_heap (<[a := Worker.stop w]> (heap s)) s in
      if Worker.stopSignals w
      then (set_killTimers (killTimers s1 ++ [a]) s1, [Terminated a])
      else (s1, [])
  | None => (s, [])
  end.

(** [this.workers.forEach((worker) => worker.stop())] *)
Fixpoint stopWorkers (ws : list addr) (s : State) : State * list Action :=
  match ws with
  | [] => (s, [])
  | a :: rest =>
      let '(s1, acts) := stopWorker a s in
      let '(s2, acts') := stopWorkers rest s1 in
      (s2, acts ++ acts')
  end.

(** "Clear request queue": every queued request is shifted and rejected;
    the suspended [detect] call then throws that error. *)
Definition rejectQueued (q : list QueuedRequest) : list Action :=
  map (fun request => Threw (call request) ShuttingDown) q.

Definition unload (s : State) : State * list Action :=
  let s1 := set_isLoaded false s in
  let acts := rejectQueued (requestQueue s1) in
  let s2 := set_requestQueue [] s1 in
  let '(s3, acts') := stopWorkers (workers s2) s2 in
  (set_workers [] s3, acts ++ acts').

(** *** Starting workers: [load] and [restartWorker] *)

(** [worker.start()] up to the promise it returns: the process is spawned
    and the 100 ms timer is armed. *)
Definition startWorker (a : addr) (owner : StartOwner) (s : State) : State * list Action :=
  match heap s !! a with
  | Some w =>
      let p := nextPid s in
      let s1 := set_heap (<[a := Worker.start p w]> (heap s)) s in
      let s2 := set_starting
                  (starting s1 ++ [{| ps_worker := a; ps_pid := p;
                                      ps_owner := owner; ps_settled := false |}]) s1 in
      (set_nextPid (S p) s2, [Spawned a p])
  | None => (s, [])
  end.

Definition restartWorker (workerId : nat) (s : State) : State * list Action :=
  if negb (isLoaded s) then (s, [])
  else
    match workers s !! workerId with
    | Some a =>
        let '(s1, acts) := stopWorker a s in
        let '(s2, acts') := startWorker a (ByRestart workerId) s1 in
        (s2, Restarting workerId :: acts ++ acts')
    | None => (s, [Restarting workerId])
    end.

(** The [catch] block of [load] *)
Definition load_catch (e : Error) (s : State) : State * list Action :=
  let s1 := set_loadJoin None (set_isLoading false s) in
  let '(s2, acts) := stopWorkers (workers s1) s1 in
  (set_workers [] s2, acts ++ [LoadRejected e]).

(** [load] after [await Promise.all(startPromises)] *)
Definition load_then (s : State) : State * list Action :=
  let s1 := set_loadJoin None s in
  let s2 := set_isLoaded true (set_isLoading false s1) in
  let s3 := set_stats (with_poolSize (Z.of_nat (poolSize (config s2))) (stats s2)) s2 in
  let '(s4, acts) := processQueue s3 in
  (s4, acts ++ [LoadResolved]).

(** The [for] loop of [load], from index [i] with [n] workers to go; it
    returns the pids of the starts the load then waits for. *)
Fixpoint createWorkers (n i generation : nat) (s : State) : State * list nat * list Action :=
  match n with
  | O => (s, [], [])
  | S n' =>
      let a := length (heap s) in
      let worker := Worker.new i (modelPath (config s)) (timeout (config s)) in
      let s1 := set_workers (workers s ++ [a]) (set_heap (heap s ++ [worker]) s) in
      let p := nextPid s1 in
      let '(s2, acts) := startWorker a (ByLoad generation) s1 in
      let '(s3, pids, acts') := createWorkers n' (S i) generation s2 in
      (s3, p :: pids, acts ++ acts')
  end.

(** [load()], with the answers of [fs.existsSync(modelPath)] and of
    [which fasttext] *)
Definition load (modelExists binaryFound : bool) (s : State) : State * list Action :=
  if isLoading s then (s, [LoadRejected AlreadyLoading])
  else if isLoaded s then (s, [LoadResolved])
  else
    let s1 := set_isLoading true s in
    if negb modelExists then load_catch ModelNotFound s1
    else if negb binaryFound then load_catch BinaryMissing s1
    else
      let generation := S (loadGeneration s1) in
      let '(s2, pids, acts) :=
        createWorkers (poolSize (config s1)) 0 generation
                      (set_loadGeneration generation s1) in
      match pids with
      | [] => let '(s3, acts') := load_then s2 in (s3, acts ++ acts')
      | _ :: _ => (set_loadJoin (Some pids) s2, acts)
      end.

(** A start promise was fulfilled: the reaction of whoever awaits it. *)
Definition start_resolved (ps : PendingStart) (s : State) : State * list Action :=
  match ps_owner ps with
  | ByLoad generation =>
      match loadJoin s with
      | Some pids =>
          if Nat.eqb generation (loadGeneration s) then
            match List.filter (fun p => negb (Nat.eqb p (ps_pid ps))) pids with
            | [] => load_then s
            | p :: rest => (set_loadJoin (Some (p :: rest)) s, [])
            end
          else (s, [])
      | None => (s, [])
      end
  | ByRestart _ => processQueue s
  end.

(** A start promise was rejected: [load] fails as a whole, [restartWorker]
    arms the five-second retry timer. *)
Definition start_rejected (e : Error) (ps : PendingStart) (s : State) : State * list Action :=
  match ps_owner ps with
  | ByLoad generation =>
      match loadJoin s with
      | Some _ =>
          if Nat.eqb generation (loadGeneration s) then load_catch e s else (s, [])
      | None => (s, [])
      end
  | ByRestart workerId => (set_retryTimers (retryTimers s ++ [workerId]) s, [])
  end.

(** The first element of [l] that satisfies [f], taken out of [l] *)
Fixpoint extract {A : Type} (f : A -> bool) (l : list A) : option (A * list A) :=
  match l with
  | [] => None
  | x :: rest =>
      if f x then Some (x, rest)
      else match extract f rest with
           | Some (y, rest') => Some (y, x :: rest')
           | None => None
           end
  end.

Definition settled (ps : PendingStart) : PendingStart :=
  {| ps_worker := ps_worker ps; ps_pid := ps_pid ps;
     ps_owner := ps_owner ps; ps_settled := true |}.

(** *** Timers and process events *)

(** The 100 ms timer of the oldest pending [start()] of the worker at [a] *)
Definition onStartTimer (a : addr) (s : State) : State * list Action :=
  match extract (fun ps => Nat.eqb (ps_worker ps) a) (starting s), heap s !! a with
  | Some (ps, rest), Some w =>
      let '(w', r) := Worker.onStartTimer w in
      let s1 := set_heap (<[a := w']> (heap s)) (set_starting rest s) in
      if ps_settled ps then (s1, [])
      else match r with
           | None => start_resolved ps s1
           | Some e => start_rejected e ps s1
           end
  | _, _ => (s, [])
  end.

(** The [error] event of the process held by the worker at [a]: the worker
    clears [isReady] and emits [error], on which the detector calls
    [restartWorker(i)]; then the promise of the [start()] that spawned the
    process is rejected, unless it is settled already. *)
Definition onProcessError (a : addr) (s : State) : State * list Action :=
  match heap s !! a with
  | Some w =>
      let s1 := set_heap (<[a := Worker.onProcessError w]> (heap s)) s in
      let '(s2, acts) := restartWorker (Worker.id w) s1 in
      match Worker.process w with
      | Some p =>
          match extract (fun ps => Nat.eqb (ps_pid ps) (Worker.pid p) && negb (ps_settled ps))%bool
                        (starting s2) with
          | Some (ps, rest) =>
              let '(s3, acts') :=
                start_rejected SystemError ps (set_starting (settled ps :: rest) s2) in
              (s3, acts ++ acts')
          | None => (s2, acts)
          end
      | None => (s2, acts)
      end
  | None => (s, [])
  end.

(** The [exit] event of a process of the worker at [a] *)
Definition onProcessExit (a : addr) (s : State) : State * list Action :=
  match heap s !! a with
  | Some w =>
      restartWorker (Worker.id w) (set_heap (<[a := Worker.onProcessExit w]> (heap s)) s)
  | None => (s, [])
  end.

(** The retry timer armed by a failed restart *)
Definition onRetryTimer (workerId : nat) (s : State) : State * list Action :=
  match extract (Nat.eqb workerId) (retryTimers s) with
  | Some (_, rest) => restartWorker workerId (set_retryTimers rest s)
  | None => (s, [])
  end.

(** A kill timer armed by [stop] on the worker at [a] *)
Definition onKillTimer (a : addr) (s : State) : State * list Action :=
  match extract (Nat.eqb a) (killTimers s), heap s !! a with
  | Some (_, rest), Some w =>
      (set_heap (<[a := Worker.onKillTimer w]> (heap s)) (set_killTimers rest s), [])
  | _, _ => (s, [])
  end.

(** The timer of the call in flight on the worker at [a] fired: the worker
    rejects, and the [catch] block of [executeRequest] runs. *)
Definition onRequestTimer (a : addr) (s : State) : State * list Action :=
  match extract (fun r => Nat.eqb (fst r) a) (running s), heap s !! a with
  | Some ((_, request), rest), Some w =>
      let '(w', e) := Worker.onTimeout w in
      executeRequest_catch request e
        (set_running rest (set_heap (<[a := w']> (heap s)) s))
  | _, _ => (s, [])
  end.

(** The write of the call in flight on the worker at [a] failed. *)
Definition onWriteError (a : addr) (s : State) : State * list Action :=
  match extract (fun r => Nat.eqb (fst r) a) (running s), heap s !! a with
  | Some ((_, request), rest), Some w =>
      executeRequest_catch request SystemError
        (set_running rest (set_heap (<[a := Worker.onWriteError w]> (heap s)) s))
  | _, _ => (s, [])
  end.

Definition getStats (s : State) : PoolStatistics :=
  let ready := List.filter (fun a => match heap s !! a with
                                     | Some w => Worker.isReady w | None => false end)
                           (workers s) in
  let busy := List.filter (fun a => match heap s !! a with
                                    | Some w => Worker.isBusy w | None => false end)
                          (workers s) in
  let active := Z.of_nat (length ready) in
  let busyCount := Z.of_nat (length busy) in
  {| totalRequests := totalRequests (stats s);
     completedRequests := completedRequests (stats s);
     failedRequests := failedRequests (stats s);
     queuedRequests := queuedRequests (stats s);
     averageResponseTime := averageResponseTime (stats s);
     stat_poolSize := Z.of_nat (poolSize (config s));
     activeWorkers := active;
     busyWorkers := busyCount;
     idleWorkers := active - busyCount;
     queueLength := Z.of_nat (length (requestQueue s)) |}.

(** *** The facade: [applyOptions] and [detect] *)

Section Facade.
Context `{Builtins}.

Definition withLanguageName (p : LanguagePrediction) : LanguagePrediction :=
  {| language := language p; confidence := confidence p;
     languageName := Some (getLanguageName (language p)) |}.

Definition applyOptions (result : DetectionResult) (options : DetectionOptions)
  : DetectionResult :=
  let predictions := predictions result in
  (* Apply threshold filter *)
  let predictions :=
    match threshold options with
    | Some threshold => List.filter (fun p => JS.ge (confidence p) threshold) predictions
    | None => predictions
    end in
  (* Limit to topK results *)
  let predictions :=
    match topK options with
    | Some k => if (negb (k =? 0) && (0 <? k))%bool
                then firstn (Z.to_nat k) predictions else predictions
    | None => predictions
    end in
  (* Add language names if requested *)
  let predictions :=
    if truthy_bool (includeLanguageName options)
    then map withLanguageName predictions else predictions in
  (* Return all predictions or just primary *)
  let predictions :=
    match returnAll options, primary result with
    | Some false, Some p => [p]
    | _, _ => predictions
    end in
  {| predictions := predictions; primary := head predictions |}.

(** [detect] after its [await], when the request was resolved with [result]:
    "Store in cache", then the options. *)
Definition detect_then (request : QueuedRequest) (result : DetectionResult) (now : Z)
  (s : State) : State * list Action :=
  let s1 :=
    match cache s, primary result with
    | Some c, Some _ => set_cache (Some (Cache.set c (text request) result now)) s
    | _, _ => s
    end in
  (s1, [Returned (call request) (applyOptions result (options request))]).

(** [executeRequest] after its [await], when the worker answered.
    [resolve(result)] resumes the [detect] call in a reaction that touches
    the cache only, which [processQueue] never reads; it is run here at once. *)
Definition executeRequest_then (request : QueuedRequest) (result : DetectionResult)
  (now : Z) (s : State) : State * list Action :=
  let responseTime := now - startTime request in
  let completed := completedRequests (stats s) + 1 in
  let average :=
    Qred ((averageResponseTime (stats s) * inject_Z (completed - 1) + inject_Z responseTime)
          / inject_Z completed) in
  let s1 := set_stats (with_completed completed average (stats s)) s in
  let '(s2, acts) := detect_then request result now s1 in
  let '(s3, acts') := processQueue s2 in
  (s3, acts ++ acts').

(** A chunk arrived on the [stdout] of the worker at [a] while a call is in
    flight on it. *)
Definition onStdoutData (a : addr) (data : string) (now : Z) (s : State)
  : State * list Action :=
  match extract (fun r => Nat.eqb (fst r) a) (running s), heap s !! a with
  | Some ((_, request), rest), Some w =>
      let '(w', result) := Worker.onData w data in
      executeRequest_then request result now
        (set_running rest (set_heap (<[a := w']> (heap s)) s))
  | _, _ => (s, [])
  end.

Definition emptyResult : DetectionResult := {| predictions := []; primary := None |}.

(** [!text || text.trim().length === 0] *)
Definition isBlank (text : string) : bool :=
  (negb (JS.truthy text) || Nat.eqb (String.length (JS.trim text)) 0)%bool.

(** "Check cache first" *)
Definition cacheLookup (text : string) (now : Z) (s : State) : option DetectionResult * State :=
  match cache s with
  | Some c => let '(r, c') := Cache.get c text now in (r, set_cache (Some c') s)
  | None => (None, s)
  end.

(** [detect(text, options)], the call named [call], up to its [await] and
    with the reactions of the same turn. [text] is a string by its type. *)
Definition detect (call : nat) (text : string) (options : DetectionOptions) (now : Z)
  (s : State) : State * list Action :=
  if isBlank text then (s, [Returned call emptyResult])
  else if negb (isLoaded s) then (s, [Threw call NotLoaded])
  else
    let '(cached, s1) := cacheLookup text now s in
    match cached with
    | Some result => (s1, [Returned call (applyOptions result options)])
    | None =>
        let s2 := set_stats (with_totalRequests (totalRequests (stats s1) + 1) (stats s1)) s1 in
        let request := {| text := text; call := call; options := options; startTime := now |} in
        match getAvailableWorker s2 with
        | Some (a, w) =>
            (* Execute immediately *)
            let '(s3, acts, dfd) := executeRequest a w request s2 in
            let '(s4, acts') := settle dfd s3 in
            (s4, Dispatched false call a :: acts ++ acts')
        | None =>
            (* Queue the request *)
            if Nat.leb (maxQueueSize (config s2)) (length (requestQueue s2))
            then (s2, [Threw call (QueueFull (maxQueueSize (config s2)))])
            else
              (set_requestQueue (requestQueue s2 ++ [request])
                 (set_stats (with_queuedRequests (queuedRequests (stats s2) + 1) (stats s2)) s2),
               [Enqueued call])
        end
    end.

(** *** The transition system *)

(** What the environment does: calls of the public methods, and the
    callbacks Node runs for timers, streams and processes, each with the
    values it supplies ([now] is [Date.now()]). A callback whose timer or
    call in flight does not exist changes nothing. The model lets a chunk of
    output arrive for any call in flight and lets [exit] be reported for any
    worker at any time; Node delivers neither after [stop] detached the
    listeners, so the model has all the runs of the program and some more. *)
Inductive Event : Type :=
| Load (modelExists binaryFound : bool)
| Unload
| Detect (call : nat) (text : string) (options : DetectionOptions) (now : Z)
| StdoutData (worker : addr) (data : string) (now : Z)
| RequestTimer (worker : addr)
| WriteError (worker : addr)
| ProcessError (worker : addr)
| ProcessExit (worker : addr)
| StartTimer (worker : addr)
| RetryTimer (workerId : nat)
| KillTimer (worker : addr).

Definition step (s : State) (e : Event) : State * list Action :=
  match e with
  | Load modelExists binaryFound => load modelExists binaryFound s
  | Unload => unload s
  | Detect call text options now => detect call text options now s
  | StdoutData a data now => onStdoutData a data now s
  | RequestTimer a => onRequestTimer a s
  | WriteError a => onWriteError a s
  | ProcessError a => onProcessError a s
  | ProcessExit a => onProcessExit a s
  | StartTimer a => onStartTimer a s
  | RetryTimer workerId => onRetryTimer workerId s
  | KillTimer a => onKillTimer a s
  end.

(** A run: the state reached and everything done on the way. *)
Fixpoint run (s : State) (events : list Event) : State * list Action :=
  match events with
  | [] => (s, [])
  | e :: rest =>
      let '(s1, acts) := step s e in
      let '(s2, acts') := run s1 rest in
      (s2, acts ++ acts')
  end.

Definition reachable (options : DetectorOptions) (s : State) : Prop :=
  exists events, fst (run (new options) events) = s.

(** *** [detectSimple] and [detectBatch] *)

(** [detectSimple(text, threshold)] calls [this.detect(text)], that is with
    the options [{}]. *)
Definition detectSimple (call : nat) (text : string) (now : Z) (s : State)
  : State * list Action :=
  detect call text
    {| threshold := None; topK := None; includeLanguageName := None; returnAll := None |}
    now s.

(** [detectSimple] after its [await]: what it returns for the value of
    [this.detect(text)]. A missing [threshold] is [0.5]. *)
Definition detectSimple_then (result : DetectionResult) (threshold : option number)
  : option string :=
  let threshold := default (JS.Num (1 # 2)) threshold in
  match primary result with
  | None => None
  | Some p => if JS.lt (confidence p) threshold then None else Some (language p)
  end.

(** [detect] up to its [await], without the reactions that follow: the
    [catch] block of a call whose [worker.detect] threw is handed back. *)
Definition detect_sync (call : nat) (text : string) (options : DetectionOptions) (now : Z)
  (s : State) : State * list Action * Deferred :=
  if isBlank text then (s, [Returned call emptyResult], [])
  else if negb (isLoaded s) then (s, [Threw call NotLoaded], [])
  else
    let '(cached, s1) := cacheLookup text now s in
    match cached with
    | Some result => (s1, [Returned call (applyOptions result options)], [])
    | None =>
        let s2 := set_stats (with_totalRequests (totalRequests (stats s1) + 1) (stats s1)) s1 in
        let request := {| text := text; call := call; options := options; startTime := now |} in
        match getAvailableWorker s2 with
        | Some (a, w) =>
            let '(s3, acts, dfd) := executeRequest a w request s2 in
            (s3, Dispatched false call a :: acts, dfd)
        | None =>
            if Nat.leb (maxQueueSize (config s2)) (length (requestQueue s2))
            then (s2, [Threw call (QueueFull (maxQueueSize (config s2)))], [])
            else
              (set_requestQueue (requestQueue s2 ++ [request])
                 (set_stats (with_queuedRequests (queuedRequests (stats s2) + 1) (stats s2)) s2),
               [Enqueued call], [])
        end
    end.

(** [texts.map((text) => this.detect(text, options))]: the calls are made one
    after the other in a single synchronous run. [calls] gives each call its
    name and the value of [Date.now()] it reads. *)
Fixpoint detectAll (texts : list string) (options : DetectionOptions) (calls : list (nat * Z))
  (s : State) : State * list Action * Deferred :=
  match texts, calls with
  | text :: texts', (call, now) :: calls' =>
      let '(s1, acts, dfd) := detect_sync call text options now s in
      let '(s2, acts', dfd') := detectAll texts' options calls' s1 in
      (s2, acts ++ acts', dfd ++ dfd')
  | _, _ => (s, [], [])
  end.

(** [detectBatch(texts, options)] up to its [await], with the reactions of
    the same turn. *)
Definition detectBatch (texts : list string) (options : DetectionOptions)
  (calls : list (nat * Z)) (s : State) : State * list Action :=
  let '(s1, acts, dfd) := detectAll texts options calls s in
  let '(s2, acts') := settle dfd s1 in
  (s2, acts ++ acts').

(** The first rejection among the calls named [calls], in the order of time *)
Fixpoint firstRejection (calls : list nat) (acts : list Action) : option Error :=
  match acts with
  | [] => None
  | Threw c e :: rest =>
      if existsb (Nat.eqb c) calls then Some e else firstRejection calls rest
  | _ :: rest => firstRejection calls rest
  end.

(** The value a call returned *)
Fixpoint returnedValue (call : nat) (acts : list Action) : option DetectionResult :=
  match acts with
  | [] => None
  | Returned c v :: rest => if Nat.eqb c call then Some v else returnedValue call rest
  | _ :: rest => returnedValue call rest
  end.

Fixpoint returnedValues (calls : list nat) (acts : list Action)
  : option (list DetectionResult) :=
  match calls with
  | [] => Some []
  | c :: rest =>
      match returnedValue c acts, returnedValues rest acts with
      | Some v, Some vs => Some (v :: vs)
      | _, _ => None
      end
  end.

(** [detectBatch] after its [await Promise.all(...)], given what the calls
    did so far: it throws the first rejection, returns the values in the
    order of the texts once every call has returned, and waits otherwise. *)
Definition detectBatch_then (calls : list nat) (acts : list Action)
  : option (Error + list DetectionResult) :=
  match firstRejection calls acts with
  | Some e => Some (inl e)
  | None => option_map inr (returnedValues calls acts)
  end.

End Facade.

End Detector.

(** ** A concrete instance of the collaborators, for running the model *)

Module Node.

Definition digit (c : codeunit) : option Z :=
  if (N.leb 48 c && N.leb c 57)%bool then Some (Z.of_N (c - 48)) else None.

(** The longest prefix of decimal digits: its value after [acc], how many
    digits were read, and the rest of the string *)
Fixpoint digits (s : string) (acc : Z) (count : nat) : Z * nat * string :=
  match s with
  | EmptyString => (acc, count, s)
  | String c r =>
      match digit c with
      | Some d => digits r (10 * acc + d) (S count)
      | None => (acc, count, s)
      end
  end.

Definition sign (s : string) : bool * string :=
  match s with
  | String "-" r => (true, r)
  | String "+" r => (false, r)
  | _ => (false, s)
  end.

(** The exponent part [e±digits], zero when there is none *)
Definition exponent (s : string) : Z :=
  match s with
  | String c r =>
      if (String.unit_eqb c "e" || String.unit_eqb c "E")%bool then
        let '(neg, r1) := sign r in
        let '(e, n, _) := digits r1 0 0 in
        match n with
        | O => 0
        | S _ => if neg then - e else e
        end
      else 0
  | EmptyString => 0
  end.

Definition pow10 (e : Z) : Q :=
  if e <? 0 then 1 # Pos.pow 10 (Z.to_pos (- e)) else inject_Z (10 ^ e).

(** The global [parseFloat]: leading white space, an optional sign, then
    [Infinity] or the longest decimal literal; [NaN] when there is none. The
    value is exact, not rounded to a double. *)
Definition parseFloat (s : string) : number :=
  let '(neg, s1) := sign (JS.trimStart s) in
  if String.prefix "Infinity" s1 then JS.Inf neg
  else
    let '(ip, ni, r) := digits s1 0 0 in
    let '(fp, nf, r') :=
      match r with
      | String "." r1 => digits r1 0 0
      | _ => (0, O, r)
      end in
    match (ni + nf)%nat with
    | O => JS.NaN
    | S _ =>
        let m := (inject_Z ip + inject_Z fp * pow10 (- Z.of_nat nf))%Q in
        let v := (m * pow10 (exponent r'))%Q in
        JS.Num (Qred (if neg then - v else v))
    end.

Definition upper (c : codeunit) : codeunit :=
  if (N.leb 97 c && N.leb c 122)%bool then (c - 32)%N else c.

Fixpoint toUpperCase (s : string) : string :=
  match s with
  | EmptyString => EmptyString
  | String c r => String (upper c) (toUpperCase r)
  end.

(** Modelled from the spec: [getLanguageName] of [src/language-names.ts],
    which is not among the sources. The spec has it as
    [nameLookup(code) -> displayNameOrCodeFallback]; the entries kept here and
    the upper-cased fallback are those checked in [tests/new-features.test.ts]. *)
Definition getLanguageName (code : string) : string :=
  if String.eqb code "en" then "English"
  else if String.eqb code "fr" then "French"
  else if String.eqb code "es" then "Spanish"
  else toUpperCase code.

#[global] Instance builtins : Builtins := Build_Builtins parseFloat getLanguageName.

End Node.

(** ** Vocabulary of the specification *)

Module Spec.

Local Open Scope list_scope.

(** "empty or consists only of whitespace" *)
Definition whitespaceOnly (text : string) : Prop :=
  Forall (fun c => JS.is_space c = true) (String.units text).

(** *** Post-processing, stage by stage as the specification lists it *)

Section Stages.
Context `{Builtins}.

(** "confidence-threshold filtering": keep the predictions with confidence
    at or above the threshold *)
Definition thresholdFiltering (o : DetectionOptions) (ps : list LanguagePrediction)
  : list LanguagePrediction :=
  match threshold o with
  | Some t => List.filter (fun p => JS.ge (confidence p) t) ps
  | None => ps
  end.

(** "top-K truncation": at most [topK] predictions, for a positive [topK] *)
Definition topKTruncation (o : DetectionOptions) (ps : list LanguagePrediction)
  : list LanguagePrediction :=
  match topK o with
  | Some k => if 0 <? k then firstn (Z.to_nat k) ps else ps
  | None => ps
  end.

(** "language-name enrichment": with [includeLanguageName], every prediction
    kept so far gets the display name that the name-lookup collaborator has
    for its language code *)
Definition nameEnrichment (o : DetectionOptions) (ps : list LanguagePrediction)
  : list LanguagePrediction :=
  match includeLanguageName o with
  | Some true =>
      map (fun p => {| language := language p; confidence := confidence p;
                       languageName := Some (getLanguageName (language p)) |}) ps
  | _ => ps
  end.

(** "an only-primary collapse": [returnAll = false] collapses to the primary
    prediction of the result *)
Definition onlyPrimaryCollapse (o : DetectionOptions) (r : DetectionResult)
  (ps : list LanguagePrediction) : list LanguagePrediction :=
  match returnAll o with
  | Some false => match primary r with Some p => [p] | None => ps end
  | _ => ps
  end.

Definition postProcess (r : DetectionResult) (o : DetectionOptions) : DetectionResult :=
  let ps :=
    onlyPrimaryCollapse o r
      (nameEnrichment o (topKTruncation o (thresholdFiltering o (predictions r)))) in
  {| predictions := ps; primary := head ps |}.

End Stages.

(** [new FastTextLanguageDetector()] takes every default. *)
Definition defaults : DetectorOptions :=
  {| opt_modelPath := None; opt_poolSize := None; opt_maxQueueSize := None;
     opt_timeout := None; opt_cache := None; opt_cacheSize := None;
     opt_cacheTTL := None; opt_autoCleanup := None |}.

(** The text ["   \n\t  "] of the test "should handle whitespace-only string" *)
Definition blanks : string :=
  String " " (String " " (String " " (String "010" (String "009" (String " " (String " " "")))))).

(** White space outside ASCII: NO-BREAK SPACE, IDEOGRAPHIC SPACE, the byte
    order mark and LINE SEPARATOR *)
Definition wideBlanks : string :=
  String 0xA0%N (String 0x3000%N (String 0xFEFF%N (String 0x2028%N ""))).

Definition noOptions : DetectionOptions :=
  {| threshold := None; topK := None; includeLanguageName := None; returnAll := None |}.

Definition pred (code : string) (c : Q) : LanguagePrediction :=
  {| language := code; confidence := JS.Num c; languageName := None |}.

(** The same prediction with the display name of its code *)
Definition namedPred `{Builtins} (code : string) (c : Q) : LanguagePrediction :=
  {| language := code; confidence := JS.Num c;
     languageName := Some (getLanguageName code) |}.

(** What [a || b] gives for the option [a] and the default [b]: [v] is
    truthy, it is [a] when [a] is given and truthy, and [b] otherwise. *)
Definition replaced (a : option number) (b v : number) : Prop :=
  JS.truthy_number v = true /\
  (forall x, a = Some x -> JS.truthy_number x = true -> v = x) /\
  (a = None \/ (exists x, a = Some x /\ JS.truthy_number x = false) -> v = b).

(** The predictions [(en,0.9), (fr,0.05), (de,0.05)] of the specification *)
Definition sample : DetectionResult :=
  {| predictions := [pred "en" (9 # 10); pred "fr" (1 # 20); pred "de" (1 # 20)];
     primary := Some (pred "en" (9 # 10)) |}.

(** *** Output lines of the worker *)



(** A well-formed prediction carries a number as its confidence. *)
Definition wellFormed (p : LanguagePrediction) : Prop :=
  JS.isNaN (confidence p) = false.

(** *** The cache *)

Definition keys (c : Cache.DetectionCache) : list string := map fst (Cache.cache c).

(** The entry under [k] is gone after an operation that did not target it. *)
Definition evicted (k : string) (before after : Cache.DetectionCache) : Prop :=
  In k (keys before) /\ ~ In k (keys after).

Definition withinCapacity (c : Cache.DetectionCache) : Prop :=
  (length (Cache.cache c) <= Cache.maxSize c)%nat.

(** A cache of capacity two, filled by two insertions *)
Definition twoEntries : Cache.DetectionCache :=
  Cache.set (Cache.set (Cache.new 2 1000) "a" Detector.emptyResult 0)
            "b" Detector.emptyResult 1.

(** *** Logs of a run *)

(** The calls that entered the queue, in order *)
Fixpoint enqueued (acts : list Detector.Action) : list nat :=
  match acts with
  | [] => []
  | Detector.Enqueued c :: rest => c :: enqueued rest
  | _ :: rest => enqueued rest
  end.

(** The calls that were handed from the queue to a worker, in order *)
Fixpoint dispatchedFromQueue (acts : list Detector.Action) : list nat :=
  match acts with
  | [] => []
  | Detector.Dispatched true c _ :: rest => c :: dispatchedFromQueue rest
  | _ :: rest => dispatchedFromQueue rest
  end.

(** The calls that left the queue, in order: handed to a worker, or rejected
    by [unload] *)
Fixpoint departed (acts : list Detector.Action) : list nat :=
  match acts with
  | [] => []
  | Detector.Dispatched true c _ :: rest => c :: departed rest
  | Detector.Threw c ShuttingDown :: rest => c :: departed rest
  | _ :: rest => departed rest
  end.

Definition isRestarting (a : Detector.Action) : bool :=
  match a with Detector.Restarting _ => true | _ => false end.

(** An action on a child process: spawning it or signalling it *)
Definition touchesProcess (a : Detector.Action) : bool :=
  match a with
  | Detector.Spawned _ _ | Detector.Terminated _ | Detector.Restarting _ => true
  | _ => false
  end.

(** *** What a transition may change *)

(** What a worker keeps when a request is handed to it: everything but
    [isBusy] *)
Definition vitals (w : Worker.FastTextWorker)
  : nat * option Worker.ChildProcess * bool * Z :=
  (Worker.id w, Worker.process w, Worker.isReady w, Worker.processedRequests w).

(** The transition took requests from the front of the queue only, handed
    each of them to a worker, counted them off [queuedRequests], and queued
    nothing. *)
Definition drains (s : Detector.State) (acts : list Detector.Action) (s' : Detector.State)
  : Prop :=
  Detector.config s' = Detector.config s /\
  exists taken,
    Detector.requestQueue s = taken ++ Detector.requestQueue s' /\
    dispatchedFromQueue acts = map Detector.call taken /\
    departed acts = map Detector.call taken /\
    enqueued acts = [] /\
    queuedRequests (Detector.stats s')
      = queuedRequests (Detector.stats s) - Z.of_nat (length taken).

(** Requests enter the queue at its back and leave it from its front. *)
Definition flows (s : Detector.State) (acts : list Detector.Action) (s' : Detector.State)
  : Prop :=
  Detector.config s' = Detector.config s /\
  exists taken added,
    Detector.requestQueue s ++ added = taken ++ Detector.requestQueue s' /\
    departed acts = map Detector.call taken /\
    enqueued acts = map Detector.call added.

(** The transition left the cache, the pool membership, the load state, the
    pending timers and every worker's process and readiness as they were. *)
Definition undisturbed (s s' : Detector.State) : Prop :=
  Detector.cache s' = Detector.cache s /\
  Detector.workers s' = Detector.workers s /\
  Detector.isLoaded s' = Detector.isLoaded s /\
  Detector.isLoading s' = Detector.isLoading s /\
  Detector.starting s' = Detector.starting s /\
  Detector.loadJoin s' = Detector.loadJoin s /\
  Detector.loadGeneration s' = Detector.loadGeneration s /\
  Detector.retryTimers s' = Detector.retryTimers s /\
  Detector.killTimers s' = Detector.killTimers s /\
  Detector.nextPid s' = Detector.nextPid s /\
  map vitals (Detector.heap s') = map vitals (Detector.heap s).

(** Queue work: requests move from the queue to workers, nothing else. *)
Definition works (s : Detector.State) (acts : list Detector.Action) (s' : Detector.State)
  : Prop :=
  drains s acts s' /\ undisturbed s s' /\
  forallb (fun a => negb (touchesProcess a)) acts = true.

(** The transition drains the queue and does not run [restartWorker]. *)
Definition tidy (s : Detector.State) (acts : list Detector.Action) (s' : Detector.State)
  : Prop :=
  drains s acts s' /\ forallb (fun a => negb (isRestarting a)) acts = true.

(** Errors of deferred calls are those of [worker.detect]. *)
Definition okDeferred (dfd : list (Detector.QueuedRequest * Error)) : Prop :=
  Forall (fun x => snd x <> ShuttingDown) dfd.

(** No worker of the pool is ready and idle. *)
Definition noIdleWorker (s : Detector.State) : Prop :=
  forall a w, In a (Detector.workers s) -> Detector.heap s !! a = Some w ->
    Worker.isReady w = false \/ Worker.isBusy w = true.

(** Pool size 1 and [maxQueueSize = 2], as in the test "should throw error
    when queue is full" *)
Definition tinyQueue : DetectorOptions :=
  {| opt_modelPath := None; opt_poolSize := Some 1%nat; opt_maxQueueSize := Some 2%nat;
     opt_timeout := None; opt_cache := None; opt_cacheSize := None;
     opt_cacheTTL := None; opt_autoCleanup := None |}.

(** The same with the cache enabled and room for one queued request *)
Definition tinyQueueCached : DetectorOptions :=
  {| opt_modelPath := None; opt_poolSize := Some 1%nat; opt_maxQueueSize := Some 1%nat;
     opt_timeout := None; opt_cache := Some true; opt_cacheSize := None;
     opt_cacheTTL := None; opt_autoCleanup := None |}.

(** A detector with one worker after [await detector.load()] *)
Definition loadedSingle `{Builtins} (options : DetectorOptions) : Detector.State :=
  fst (Detector.run (Detector.new options) [Detector.Load true true; Detector.StartTimer 0]).

(** One busy worker and a full queue of two, after three calls *)
Definition saturated : Detector.State :=
  fst (Detector.run (loadedSingle tinyQueue)
         [Detector.Detect 0 "Test 0" noOptions 0; Detector.Detect 1 "Test 1" noOptions 0;
          Detector.Detect 2 "Test 2" noOptions 0]).

(** With the cache enabled: the text ["a"] was detected and cached, then one
    call keeps the worker busy and another fills the queue of one. *)
Definition saturatedCached : Detector.State :=
  fst (Detector.run (loadedSingle tinyQueueCached)
         [Detector.Detect 0 "a" noOptions 0;
          Detector.StdoutData 0 "__label__en 0.9" 1;
          Detector.Detect 1 "b" noOptions 2; Detector.Detect 2 "c" noOptions 2]).

(** With the cache enabled: the call for ["a"] is in flight on the worker. *)
Definition awaitingCached : Detector.State :=
  fst (Detector.run (loadedSingle tinyQueueCached) [Detector.Detect 0 "a" noOptions 0]).

(** A run in which two calls are queued and the first of them is handed to
    the worker when it answers the call in flight *)
Definition busyRun : list Detector.Event :=
  [Detector.Load true true; Detector.StartTimer 0;
   Detector.Detect 0 "Test 0" noOptions 0; Detector.Detect 1 "Test 1" noOptions 0;
   Detector.Detect 2 "Test 2" noOptions 0;
   Detector.StdoutData 0 "__label__en 0.9" 5].

(** No restart is under way: no retry timer is armed and every pending
    start belongs to a [load]. *)
Definition dormant (s : Detector.State) : Prop :=
  Detector.retryTimers s = [] /\
  Forall (fun ps => match Detector.ps_owner ps with
                    | Detector.ByLoad _ => True
                    | Detector.ByRestart _ => False
                    end) (Detector.starting s).

(** The [error] or [exit] event of a worker's process *)
Definition isFailure (e : Detector.Event) : bool :=
  match e with
  | Detector.ProcessError _ | Detector.ProcessExit _ => true
  | _ => false
  end.

(** Three calls on one worker, each timing out in turn *)
Definition timeoutRun : list Detector.Event :=
  [Detector.Load true true; Detector.StartTimer 0;
   Detector.Detect 0 "Test 0" noOptions 0; Detector.Detect 1 "Test 1" noOptions 0;
   Detector.Detect 2 "Test 2" noOptions 0;
   Detector.RequestTimer 0; Detector.RequestTimer 0; Detector.RequestTimer 0].

Definition queueBounded (s : Detector.State) : Prop :=
  (length (Detector.requestQueue s) <= Detector.maxQueueSize (Detector.config s))%nat.

(** *** Sequences of cache operations *)

(** An operation on a cache, with the values it receives *)
Inductive CacheOp : Type :=
| CacheGet (text : string) (now : Z)
| CacheSet (text : string) (r : DetectionResult) (now : Z)
| CacheClear.

Definition cacheStep (c : Cache.DetectionCache) (op : CacheOp) : Cache.DetectionCache :=
  match op with
  | CacheGet text now => snd (Cache.get c text now)
  | CacheSet text r now => Cache.set c text r now
  | CacheClear => Cache.clear c
  end.

Definition cacheRun (c : Cache.DetectionCache) (ops : list CacheOp) : Cache.DetectionCache :=
  fold_left cacheStep ops c.

Definition storesEmptyKey (op : CacheOp) : bool :=
  match op with
  | CacheSet text _ _ => String.eqb text ""
  | _ => false
  end.

(** Each key once, none of them empty, and no more entries than [maxSize],
    which is at least one *)
Definition cacheSound (c : Cache.DetectionCache) : Prop :=
  (1 <= Cache.maxSize c)%nat /\ withinCapacity c /\
  List.NoDup (keys c) /\ ~ In "" (keys c).

(** *** Lines exchanged with the [fasttext] process *)

(** A token of an output line: not empty and free of white space *)
Definition isToken (t : string) : Prop :=
  t <> "" /\ Forall (fun c => JS.is_space c = false) (String.units t).

(** The tokens separated by single spaces *)
Fixpoint unwords (tokens : list string) : string :=
  match tokens with
  | [] => ""
  | [t] => t
  | t :: rest => (t ++ String " " (unwords rest))%string
  end.

(** The line [label1 confidence1 label2 confidence2 ...] *)
Definition outputLine (pairs : list (string * string)) : string :=
  unwords (concat (map (fun pair => [fst pair; snd pair]) pairs)).

Definition lineFeed : codeunit := "010"%char.
Definition carriageReturn : codeunit := "013"%char.

(** *** Pool counts *)

Definition readyAt (s : Detector.State) (a : Detector.addr) : bool :=
  match Detector.heap s !! a with Some w => Worker.isReady w | None => false end.

Definition busyAt (s : Detector.State) (a : Detector.addr) : bool :=
  match Detector.heap s !! a with Some w => Worker.isBusy w | None => false end.

(** How many workers of the pool satisfy [f] *)
Definition poolCount (f : Detector.addr -> bool) (s : Detector.State) : Z :=
  Z.of_nat (length (List.filter f (Detector.workers s))).

(** Only a threshold is given. *)
Definition onlyThreshold (t : number) : DetectionOptions :=
  {| threshold := Some t; topK := None; includeLanguageName := None; returnAll := None |}.

(** The first prediction is the primary one and no other is more confident. *)
Definition primaryLeads (r : DetectionResult) : Prop :=
  primary r = head (predictions r) /\
  forall p q, primary r = Some p -> In q (predictions r) ->
    JS.ge (confidence p) (confidence q) = true.

(** *** Batches *)

(** The request a call of [detectBatch] makes for one of its texts, given
    the name of the call and the clock value it reads *)
Definition batchRequest (options : DetectionOptions) (entry : string * (nat * Z))
  : Detector.QueuedRequest :=
  {| Detector.text := fst entry; Detector.call := fst (snd entry);
     Detector.options := options; Detector.startTime := snd (snd entry) |}.

(** What [detect] answers at once on a detector that is not loaded *)
Definition unloadedAnswer (entry : string * (nat * Z)) : Detector.Action :=
  if Detector.isBlank (fst entry)
  then Detector.Returned (fst (snd entry)) Detector.emptyResult
  else Detector.Threw (fst (snd entry)) NotLoaded.

(** *** Calls and their answers *)

(** The calls of [detect] made by the events, in order *)
Fixpoint issued (events : list Detector.Event) : list nat :=
  match events with
  | [] => []
  | Detector.Detect c _ _ _ :: rest => c :: issued rest
  | _ :: rest => issued rest
  end.

(** The calls answered, by a value or by an error, in order *)
Fixpoint answered (acts : list Detector.Action) : list nat :=
  match acts with
  | [] => []
  | Detector.Returned c _ :: rest => c :: answered rest
  | Detector.Threw c _ :: rest => c :: answered rest
  | _ :: rest => answered rest
  end.

(** The calls not answered yet: waiting in the queue, or in flight on a
    worker *)
Definition pendingCalls (s : Detector.State) : list nat :=
  map Detector.call (Detector.requestQueue s)
  ++ map (fun r => Detector.call (snd r)) (Detector.running s).

(** The calls whose [catch] block is still to run *)
Definition deferredCalls (dfd : list (Detector.QueuedRequest * Error)) : list nat :=
  map (fun x => Detector.call (fst x)) dfd.

(** The sum of [f] over a list of calls: how often a call occurs, for an
    indicator; the length, for a constant *)
Definition weigh (f : nat -> nat) (l : list nat) : nat := list_sum (map f l).

(** The rejections that neither [completedRequests] nor [failedRequests]
    records: of a full queue and of [unload] *)
Definition uncounted (e : Error) : bool :=
  match e with
  | QueueFull _ | ShuttingDown => true
  | _ => false
  end.

Fixpoint unserved (acts : list Detector.Action) : Z :=
  match acts with
  | [] => 0
  | Detector.Threw _ e :: rest => (if uncounted e then 1 else 0) + unserved rest
  | _ :: rest => unserved rest
  end.

(** The requests counted in and not yet counted out *)
Definition backlog (s : Detector.State) : Z :=
  totalRequests (Detector.stats s) - completedRequests (Detector.stats s)
  - failedRequests (Detector.stats s).

(** What a transition does with the calls: those that were pending or were
    handed to it ([added]) are afterwards answered, handed back for their
    [catch] block ([deferred]) or still pending, each as often as before;
    and every answer but the uncounted rejections takes one off the
    backlog. *)
Definition accounts (added : list nat) (s : Detector.State) (acts : list Detector.Action)
  (deferred : list nat) (s' : Detector.State) : Prop :=
  (forall f, (weigh f (pendingCalls s) + weigh f added
              = weigh f (answered acts) + weigh f deferred + weigh f (pendingCalls s'))%nat) /\
  backlog s' = backlog s - Z.of_nat (length (answered acts)) + unserved acts.

(** *** Invariants of the detector *)

(** The workers on which a call is in flight *)
Definition inFlight (s : Detector.State) : list Detector.addr :=
  map fst (Detector.running s).

(** At most one call is in flight on a worker, and a worker is busy exactly
    when one is. *)
Definition exclusive (s : Detector.State) : Prop :=
  List.NoDup (inFlight s) /\
  forall a, busyAt s a = true <-> In a (inFlight s).

(** No request in the queue or in flight has a blank text. *)
Definition textual (s : Detector.State) : Prop :=
  Forall (fun r => Detector.isBlank (Detector.text r) = false) (Detector.requestQueue s) /\
  Forall (fun r => Detector.isBlank (Detector.text (snd r)) = false) (Detector.running s).

(** A result as the worker builds it: the primary prediction is the first. *)
Definition wellShaped (r : DetectionResult) : Prop := primary r = head (predictions r).

(** The cache is sound, and every entry is the answer of a worker with a
    primary prediction, stored under a text that is not blank. *)
Definition cacheKept (s : Detector.State) : Prop :=
  match Detector.cache s with
  | Some c =>
      cacheSound c /\
      Forall (fun entry =>
                Detector.isBlank (fst entry) = false /\
                wellShaped (Cache.result (snd entry)) /\
                primary (Cache.result (snd entry)) <> None) (Cache.cache c)
  | None => True
  end.

Definition orderly (s : Detector.State) : Prop :=
  exclusive s /\ textual s /\ cacheKept s.

(** The queue is used only while loaded, the pool exists only while loaded
    or loading, and a pool has [poolSize] workers. *)
Definition poolShape (s : Detector.State) : Prop :=
  (Detector.isLoaded s = false -> Detector.requestQueue s = []) /\
  (Detector.isLoaded s = false -> Detector.isLoading s = false -> Detector.workers s = []) /\
  (Detector.workers s = [] \/
   length (Detector.workers s) = Detector.poolSize (Detector.config s)).

(** The transition answers no call and hands none to a worker. *)
Definition silent (acts : list Detector.Action) : Prop :=
  answered acts = [] /\ unserved acts = 0.

(** The transition looks after the pool only: the queue, the calls in
    flight, the cache and the counters stay as they are, every worker keeps
    its [isBusy]; the pool is kept, or given up as by a failed [load]. *)
Definition housekeeping (s : Detector.State) (acts : list Detector.Action)
  (s' : Detector.State) : Prop :=
  Detector.requestQueue s' = Detector.requestQueue s /\
  Detector.running s' = Detector.running s /\
  Detector.cache s' = Detector.cache s /\
  Detector.stats s' = Detector.stats s /\
  Detector.config s' = Detector.config s /\
  Detector.isLoaded s' = Detector.isLoaded s /\
  (forall a, busyAt s' a = busyAt s a) /\
  silent acts /\
  ((Detector.isLoading s' = Detector.isLoading s /\ Detector.workers s' = Detector.workers s) \/
   (Detector.isLoading s' = false /\ Detector.workers s' = [])).

(** What an unloaded detector may still do: answer calls, signal processes
    it gives up, and settle a [load]. *)
Definition quietAction (a : Detector.Action) : bool :=
  match a with
  | Detector.Returned _ _ | Detector.Threw _ _ | Detector.Terminated _
  | Detector.LoadResolved | Detector.LoadRejected _ => true
  | _ => false
  end.

Definition isLoad (e : Detector.Event) : bool :=
  match e with Detector.Load _ _ => true | _ => false end.

(** A transition that answers pending calls only: what it does with the
    calls is accounted for, and it keeps the invariants. *)
Definition steady (s : Detector.State) (acts : list Detector.Action) (s' : Detector.State)
  : Prop :=
  accounts [] s acts [] s' /\ (orderly s -> orderly s') /\ (poolShape s -> poolShape s').

(** A transition in which the calls [calls] are made: each call that is
    pending or made is afterwards answered or pending, as often as before;
    the backlog follows the number of pending calls, up to the uncounted
    rejections; and the invariants are kept. *)
Definition advances (calls : list nat) (s : Detector.State) (acts : list Detector.Action)
  (s' : Detector.State) : Prop :=
  (forall f, (weigh f (pendingCalls s) + weigh f calls
              = weigh f (answered acts) + weigh f (pendingCalls s'))%nat) /\
  backlog s' - Z.of_nat (length (pendingCalls s'))
    = backlog s - Z.of_nat (length (pendingCalls s)) + unserved acts /\
  (orderly s -> orderly s') /\ (poolShape s -> poolShape s').

(** A call is answered and cached, with the cache enabled. *)
Definition cachedRun : list Detector.Event :=
  [Detector.Load true true; Detector.StartTimer 0;
   Detector.Detect 0 "a" noOptions 0;
   Detector.StdoutData 0 "__label__en 0.9" 1].

(** [unload] while one call is in flight and another is queued *)
Definition unloadRun : list Detector.Event :=
  [Detector.Load true true; Detector.StartTimer 0;
   Detector.Detect 0 "Test 0" noOptions 0; Detector.Detect 1 "Test 1" noOptions 0;
   Detector.Unload].

(** *** The pool of a new detector while [load] runs *)

(** The worker [load] creates at index [i], once [start] has spawned its
    process *)
Definition spawnedWorker (c : Detector.Config) (i : nat) : Worker.FastTextWorker :=
  Worker.start i (Worker.new i (Detector.modelPath c) (Detector.timeout c)).

(** The same once its start timer has fired *)
Definition readyWorker (c : Detector.Config) (i : nat) : Worker.FastTextWorker :=
  Worker.with_isReady true (spawnedWorker c i).

(** The [start()] of worker [i] that the first [load] awaits *)
Definition loadStart (i : nat) : Detector.PendingStart :=
  {| Detector.ps_worker := i; Detector.ps_pid := i;
     Detector.ps_owner := Detector.ByLoad 1; Detector.ps_settled := false |}.

(** The first [load] of a detector in progress: [created] workers exist,
    the start timers of the first [k] of them have fired, and [join] tells
    which starts the load awaits. *)
Definition loadingState (c : Detector.Config) (cache : option Cache.DetectionCache)
  (created k : nat) (join : option (list nat)) : Detector.State :=
  {| Detector.config := c;
     Detector.cache := cache;
     Detector.workers := seq 0 created;
     Detector.requestQueue := [];
     Detector.isLoaded := false;
     Detector.isLoading := true;
     Detector.stats := Detector.emptyStats;
     Detector.heap := map (readyWorker c) (seq 0 k) ++ map (spawnedWorker c) (seq k (created - k));
     Detector.running := [];
     Detector.starting := map loadStart (seq k (created - k));
     Detector.loadJoin := join;
     Detector.loadGeneration := 1;
     Detector.retryTimers := [];
     Detector.killTimers := [];
     Detector.nextPid := created |}.

(** The detector after its first [load] has resolved: every worker of the
    pool is ready and idle. *)
Definition loadedState (c : Detector.Config) (cache : option Cache.DetectionCache)
  : Detector.State :=
  {| Detector.config := c;
     Detector.cache := cache;
     Detector.workers := seq 0 (Detector.poolSize c);
     Detector.requestQueue := [];
     Detector.isLoaded := true;
     Detector.isLoading := false;
     Detector.stats :=
       Detector.with_poolSize (Z.of_nat (Detector.poolSize c)) Detector.emptyStats;
     Detector.heap := map (readyWorker c) (seq 0 (Detector.poolSize c));
     Detector.running := [];
     Detector.starting := [];
     Detector.loadJoin := None;
     Detector.loadGeneration := 1;
     Detector.retryTimers := [];
     Detector.killTimers := [];
     Detector.nextPid := Detector.poolSize c |}.

(** The events of [await detector.load()] when every process starts *)
Definition loadRun (n : nat) : list Detector.Event :=
  Detector.Load true true :: map Detector.StartTimer (seq 0 n).

End Spec.

(** ** The singleton ([getInstance], [unloadInstance]) *)

Module Singleton.

Local Open Scope list_scope.

(** The promise of one initialization, that is of one call of the [async]
    arrow function in [getInstance], by the place its body has reached. The
    value of a fulfilled promise is what [return instance] read from the
    module variable: a detector, or [null]. *)
Inductive Promise : Type :=
| Awaiting                             (* suspended at [await instance.load()] *)
| Resuming (outcome : option Error)    (* [load()] has settled, the rest of the body is queued *)
| Fulfilled (value : option nat)
| Rejected (error : Error).

(** The module: every detector it has created, each with the promise of the
    initialization that created it, and the two module variables, which name
    a detector and a promise by their place in [created]. [waiting] holds the
    calls of [getInstance] that returned a pending promise; [unloading]
    counts the calls of [unloadInstance] suspended at
    [await instance.unload()]. *)
Record State : Type := {
  created : list (Detector.State * Promise);
  instance : option nat;
  initializationPromise : option nat;
  waiting : list (nat * nat);
  unloading : nat;
}.

Definition init : State :=
  {| created := []; instance := None; initializationPromise := None;
     waiting := []; unloading := 0 |}.

(** What the module does to the outside: the promise of a [getInstance] call
    settles, or one of the detectors acts. *)
Inductive Action : Type :=
| Resolved (call : nat) (value : option nat)
| Failed (call : nat) (error : Error)
| Inner (detector : nat) (a : Detector.Action).

(** How the [load()] of a detector settled in a transition, if it did *)
Fixpoint loadOutcome (acts : list Detector.Action) : option (option Error) :=
  match acts with
  | [] => None
  | Detector.LoadResolved :: _ => Some None
  | Detector.LoadRejected e :: _ => Some (Some e)
  | _ :: rest => loadOutcome rest
  end.

Definition afterLoad (acts : list Detector.Action) : Promise :=
  match loadOutcome acts with
  | Some outcome => Resuming outcome
  | None => Awaiting
  end.

(** [instance.isModelLoaded()] for the detector at [d] *)
Definition isModelLoaded (s : State) (d : nat) : bool :=
  match created s !! d with
  | Some (ds, _) => Detector.isLoaded ds
  | None => false
  end.

(** The calls that wait for the promise at [p] *)
Definition callers (p : nat) (s : State) : list nat :=
  map fst (List.filter (fun c => Nat.eqb (snd c) p) (waiting s)).

Definition others (p : nat) (s : State) : list (nat * nat) :=
  List.filter (fun c => negb (Nat.eqb (snd c) p)) (waiting s).

Section Transitions.
Context `{Builtins}.

(** "Start initialization": the arrow function up to its [await], with the
    answers of [fs.existsSync] and [which fasttext] to the [load()] it
    calls, and the assignment of its promise. *)
Definition initialize (call : nat) (options : DetectorOptions)
  (modelExists binaryFound : bool) (s : State) : State * list Action :=
  let d := length (created s) in
  let '(ds, acts) := Detector.load modelExists binaryFound (Detector.new options) in
  ({| created := created s ++ [(ds, afterLoad acts)];
      instance := Some d;
      initializationPromise := Some d;
      waiting := waiting s ++ [(call, d)];
      unloading := unloading s |},
   map (Inner d) acts).

(** "If initialization is in progress, wait for it" *)
Definition join (call : nat) (options : DetectorOptions)
  (modelExists binaryFound : bool) (s : State) : State * list Action :=
  match initializationPromise s with
  | Some p =>
      match created s !! p with
      | Some (_, Fulfilled value) => (s, [Resolved call value])
      | Some (_, Rejected e) => (s, [Failed call e])
      | _ =>
          ({| created := created s; instance := instance s;
              initializationPromise := initializationPromise s;
              waiting := waiting s ++ [(call, p)];
              unloading := unloading s |}, [])
      end
  | None => initialize call options modelExists binaryFound s
  end.

(** [getInstance(options)], the call named [call] *)
Definition getInstance (call : nat) (options : DetectorOptions)
  (modelExists binaryFound : bool) (s : State) : State * list Action :=
  match instance s with
  | Some d =>
      if isModelLoaded s d then (s, [Resolved call (Some d)])
      else join call options modelExists binaryFound s
  | None => join call options modelExists binaryFound s
  end.

(** The rest of the arrow function, once the [load()] it awaits has settled:
    [return instance], or the [catch] block. *)
Definition initContinue (p : nat) (s : State) : State * list Action :=
  match created s !! p with
  | Some (ds, Resuming None) =>
      let value := instance s in
      ({| created := <[p := (ds, Fulfilled value)]> (created s);
          instance := instance s;
          initializationPromise := initializationPromise s;
          waiting := others p s;
          unloading := unloading s |},
       map (fun c => Resolved c value) (callers p s))
  | Some (ds, Resuming (Some e)) =>
      ({| created := <[p := (ds, Rejected e)]> (created s);
          instance := None;
          initializationPromise := None;
          waiting := others p s;
          unloading := unloading s |},
       map (fun c => Failed c e) (callers p s))
  | _ => (s, [])
  end.

(** Something happens to the detector at [d]: a timer or a process event,
    or a call of one of its methods by whoever holds it. A [load()] that
    settles while the initialization of [d] awaits it is the one it awaits:
    a [load()] called in the meantime is rejected at once, to its own
    caller. *)
Definition onDetector (d : nat) (e : Detector.Event) (s : State) : State * list Action :=
  match created s !! d with
  | Some (ds, pr) =>
      let '(ds', acts) := Detector.step ds e in
      let pr' :=
        match pr, e with
        | Awaiting, Detector.Load _ _ => Awaiting
        | Awaiting, _ => afterLoad acts
        | _, _ => pr
        end in
      ({| created := <[d := (ds', pr')]> (created s);
          instance := instance s;
          initializationPromise := initializationPromise s;
          waiting := waiting s;
          unloading := unloading s |},
       map (Inner d) acts)
  | None => (s, [])
  end.

(** [unloadInstance()] up to its [await]: [instance.unload()] has run. *)
Definition unloadInstance (s : State) : State * list Action :=
  match instance s with
  | Some d =>
      let '(s1, acts) := onDetector d Detector.Unload s in
      ({| created := created s1; instance := instance s1;
          initializationPromise := initializationPromise s1;
          waiting := waiting s1;
          unloading := S (unloading s1) |}, acts)
  | None => (s, [])
  end.

(** [unloadInstance()] after its [await] *)
Definition unloadInstanceThen (s : State) : State * list Action :=
  match unloading s with
  | S n =>
      ({| created := created s; instance := None; initializationPromise := None;
          waiting := waiting s; unloading := n |}, [])
  | O => (s, [])
  end.

(** What the environment does. The continuations [InitContinue] and
    [UnloadInstanceThen] are promise reactions: Node runs them before the
    next timer or process event, and after whatever the caller does in the
    same turn. The [SIGINT] and [SIGTERM] hooks of the module call
    [unloadInstance]. *)
Inductive Event : Type :=
| GetInstance (call : nat) (options : DetectorOptions) (modelExists binaryFound : bool)
| UnloadInstance
| UnloadInstanceThen
| InitContinue (p : nat)
| OnDetector (d : nat) (e : Detector.Event).

Definition step (s : State) (e : Event) : State * list Action :=
  match e with
  | GetInstance call options modelExists binaryFound =>
      getInstance call options modelExists binaryFound s
  | UnloadInstance => unloadInstance s
  | UnloadInstanceThen => unloadInstanceThen s
  | InitContinue p => initContinue p s
  | OnDetector d e => onDetector d e s
  end.

Fixpoint run (s : State) (events : list Event) : State * list Action :=
  match events with
  | [] => (s, [])
  | e :: rest =>
      let '(s1, acts) := step s e in
      let '(s2, acts') := run s1 rest in
      (s2, acts ++ acts')
  end.

(** The settlements of [getInstance] calls among [acts] *)
Definition settlements (acts : list Action) : list Action :=
  List.filter (fun a => match a with Inner _ _ => false | _ => true end) acts.

(** What the module variables may refer to: both name the same
    initialization, which exists and has not failed. *)
Definition consistent (s : State) : Prop :=
  instance s = initializationPromise s /\
  forall d, instance s = Some d ->
    exists ds pr, created s !! d = Some (ds, pr) /\ forall e, pr <> Rejected e.

(** A pending initialization awaits a [load()] in progress. *)
Definition attributed (s : State) : Prop :=
  forall d ds, created s !! d = Some (ds, Awaiting) -> Detector.isLoading ds = true.

Definition sound (s : State) : Prop := consistent s /\ attributed s.

(** The module after its first initialization began: one detector, in the
    state [ds], and the calls [w] waiting for its promise. *)
Definition sole (ds : Detector.State) (pr : Promise) (w : list nat) : State :=
  {| created := [(ds, pr)]; instance := Some 0%nat; initializationPromise := Some 0%nat;
     waiting := map (fun c => (c, 0%nat)) w; unloading := 0 |}.

(** Calls of [getInstance] in one turn, each with its own options, and then
    the start timers of the detector at [d], which has [n] workers, and the
    rest of its initialization. *)
Definition getAll (calls : list (nat * DetectorOptions)) (modelExists binaryFound : bool)
  : list Event :=
  map (fun c => GetInstance (fst c) (snd c) modelExists binaryFound) calls.

Definition startTimers (d k n : nat) : list Event :=
  map (fun i => OnDetector d (Detector.StartTimer i)) (seq k n).

(** Things that happen to the detectors only *)
Definition detectorEvents (des : list (nat * Detector.Event)) : list Event :=
  map (fun de => OnDetector (fst de) (snd de)) des.

(** [await getInstance(options)] on a fresh module when every process
    starts: the call, the start timers of the [n] workers, the rest of the
    initialization. *)
Definition getRun (call : nat) (options : DetectorOptions) (n : nat) : list Event :=
  GetInstance call options true true :: startTimers 0 0 n ++ [InitContinue 0].

(** An initialization is given up before its workers are up, and the next
    one begins before the first start timer of the old detector fires:
    [getInstance()], [await unloadInstance()], [getInstance()] within 100 ms. *)
Definition abandonedRun (options : DetectorOptions) : list Event :=
  [GetInstance 0 options true true; UnloadInstance; UnloadInstanceThen;
   GetInstance 1 options true true; OnDetector 0 (Detector.StartTimer 0)].

End Transitions.

End Singleton.

(** * Properties *)

(** ** Equality of strings *)

Section StringEquality.

Lemma unit_eqb_eq (a b : codeunit) : String.unit_eqb a b = true <-> a = b.
Proof. apply N.eqb_eq. Qed.

Lemma unit_eqb_refl (a : codeunit) : String.unit_eqb a a = true.
Proof. apply N.eqb_refl. Qed.

Lemma string_eqb_refl (a : string) : String.eqb a a = true.
Proof.
  induction a as [|c r IH]; simpl; [reflexivity|].
  now rewrite unit_eqb_refl, IH.
Qed.

Lemma string_eqb_eq (a b : string) : String.eqb a b = true <-> a = b.
Proof.
  split; [|intros ->; apply string_eqb_refl].
  revert b. induction a as [|c r IH]; intros [|d r']; simpl; try discriminate; auto.
  intros E. apply andb_true_iff in E as [Ec Er].
  apply unit_eqb_eq in Ec. apply IH in Er. congruence.
Qed.

Lemma string_eqb_neq (a b : string) : String.eqb a b = false <-> a <> b.
Proof.
  split.
  - intros E Hab. apply string_eqb_eq in Hab. congruence.
  - intros Hab. destruct (String.eqb a b) eqn:E; [|reflexivity].
    apply string_eqb_eq in E. contradiction.
Qed.

End StringEquality.

(** ** The cache ([DetectionCache.set]) *)

Section CacheFacts.

Local Open Scope list_scope.
Import Cache.

Lemma map_get_set_same (k : string) (v : CacheEntry) (m : JsMap) :
  map_get k (map_set k v m) = Some v.
Proof.
  induction m as [|[k' v'] m IH]; simpl.
  - now rewrite string_eqb_refl.
  - destruct (String.eqb k' k) eqn:E; simpl.
    + now rewrite string_eqb_refl.
    + now rewrite E.
Qed.

Lemma map_get_set_other (k k0 : string) (v : CacheEntry) (m : JsMap) :
  k0 <> k -> map_get k0 (map_set k v m) = map_get k0 m.
Proof.
  intros Hne. induction m as [|[k' v'] m IH]; simpl.
  - destruct (String.eqb k k0) eqn:E; [apply string_eqb_eq in E; congruence | reflexivity].
  - destruct (String.eqb k' k) eqn:E; simpl.
    + apply string_eqb_eq in E; subst k'.
      destruct (String.eqb k k0) eqn:E'; [apply string_eqb_eq in E'; congruence | reflexivity].
    + now rewrite IH.
Qed.

Lemma map_set_length (k : string) (v : CacheEntry) (m : JsMap) :
  (length (map_set k v m) <= S (length m))%nat.
Proof.
  induction m as [|[k' v'] m IH]; simpl; [lia|].
  destruct (String.eqb k' k); simpl; lia.
Qed.

Lemma map_set_keys (k : string) (v : CacheEntry) (m : JsMap) (k0 : string) :
  In k0 (map fst (map_set k v m)) <-> k0 = k \/ In k0 (map fst m).
Proof.
  induction m as [|[k' v'] m IH]; simpl.
  - intuition.
  - destruct (String.eqb k' k) eqn:E; simpl.
    + apply string_eqb_eq in E; subst k'. intuition.
    + rewrite IH. intuition.
Qed.

(** A full cache with a non-empty oldest key loses exactly its head. *)
Lemma evict_full (c : DetectionCache) (k : string) (e : CacheEntry) (rest : JsMap) :
  cache c = (k, e) :: rest -> (maxSize c <= length (cache c))%nat -> k <> "" ->
  evict c = with_cache rest c.
Proof.
  intros Hc Hfull Hk. unfold evict.
  apply Nat.leb_le in Hfull. rewrite Hfull, Hc. unfold JS.truthy.
  destruct (String.eqb k "") eqn:E; [apply string_eqb_eq in E; congruence|].
  simpl. now rewrite string_eqb_refl.
Qed.

Lemma evict_spare (c : DetectionCache) :
  (length (cache c) < maxSize c)%nat -> evict c = c.
Proof.
  intros Hlt. unfold evict.
  destruct (Nat.leb (maxSize c) (length (cache c))) eqn:E; [|reflexivity].
  apply Nat.leb_le in E. lia.
Qed.

End CacheFacts.

Section CacheSet.

Local Open Scope list_scope.
Import Cache.

(** C6, as amended. [set] always leaves the new entry under [text]. With
    spare capacity it evicts nothing. When the cache is full (its size has
    reached [maxSize]) and the oldest key is a non-empty string, it removes
    exactly the first-inserted entry before inserting, whether or not [text]
    is already a key. A cache within its capacity of at least one entry, all
    of whose keys are non-empty, stays within its capacity. *)
Theorem cache_set_evicts_oldest_when_full
  (c : DetectionCache) (text : string) (r : DetectionResult) (now : Z) :
  let entry := {| result := r; timestamp := now |} in
  let c' := Cache.set c text r now in
  map_get text (cache c') = Some entry /\
  ((length (cache c) < maxSize c)%nat ->
     cache c' = map_set text entry (cache c) /\
     forall k, ~ Spec.evicted k c c') /\
  (forall k e rest,
     cache c = (k, e) :: rest -> (maxSize c <= length (cache c))%nat -> k <> "" ->
     cache c' = map_set text entry rest) /\
  (Spec.withinCapacity c -> (1 <= maxSize c)%nat ->
     (forall k, In k (Spec.keys c) -> k <> "") ->
     Spec.withinCapacity c').
Proof.
  intros entry c'. subst c'. unfold Cache.set. fold entry.
  split; [|split; [|split]].
  - simpl. apply map_get_set_same.
  - intros Hlt. rewrite (evict_spare c Hlt). simpl. split; [reflexivity|].
    intros k [Hin Hout]. apply Hout. unfold Spec.keys in *. simpl.
    apply map_set_keys. now right.
  - intros k e rest Hc Hfull Hk. rewrite (evict_full c k e rest Hc Hfull Hk). reflexivity.
  - unfold Spec.withinCapacity. intros Hcap Hmax Hkeys.
    destruct (Nat.ltb (length (cache c)) (maxSize c)) eqn:E.
    + apply Nat.ltb_lt in E. rewrite (evict_spare c E). simpl.
      pose proof (map_set_length text entry (cache c)). lia.
    + apply Nat.ltb_ge in E.
      destruct (cache c) as [|[k e] rest] eqn:Hc; [simpl in E; lia|].
      assert (Hk : k <> "") by (apply Hkeys; unfold Spec.keys; rewrite Hc; now left).
      assert (Hfull : (maxSize c <= length (cache c))%nat) by (rewrite Hc; exact E).
      rewrite (evict_full c k e rest Hc Hfull Hk). simpl.
      pose proof (map_set_length text entry rest). simpl in Hcap. lia.
Qed.

Lemma cache_set_evicts_oldest_when_full_witness :
  Spec.withinCapacity (Cache.set Spec.twoEntries "c" Detector.emptyResult 2) /\
  cache (Cache.set Spec.twoEntries "c" Detector.emptyResult 2) =
    [("b", {| result := Detector.emptyResult; timestamp := 1 |});
     ("c", {| result := Detector.emptyResult; timestamp := 2 |})].
Proof.
  pose proof (cache_set_evicts_oldest_when_full Spec.twoEntries "c" Detector.emptyResult 2)
    as (_ & _ & Hfull & Hcap).
  split.
  - apply Hcap.
    + unfold Spec.withinCapacity. simpl. lia.
    + simpl. lia.
    + simpl. intros k [<-|[<-|[]]]; discriminate.
  - apply (Hfull "a" {| result := Detector.emptyResult; timestamp := 0 |}
                 [("b", {| result := Detector.emptyResult; timestamp := 1 |})]).
    + reflexivity.
    + simpl. lia.
    + discriminate.
Defined.

(** C6 as stated fails: overwriting the key ["b"] of a full cache evicts the
    oldest entry ["a"], although no new entry is added; one entry is left. *)
Lemma cache_set_overwrite_evicts :
  In "b" (Spec.keys Spec.twoEntries) /\
  Spec.withinCapacity Spec.twoEntries /\
  Spec.evicted "a" Spec.twoEntries (Cache.set Spec.twoEntries "b" Detector.emptyResult 2) /\
  cache (Cache.set Spec.twoEntries "b" Detector.emptyResult 2) =
    [("b", {| result := Detector.emptyResult; timestamp := 2 |})].
Proof.
  split; [simpl; auto|]. split; [unfold Spec.withinCapacity; simpl; lia|].
  split; [|reflexivity].
  split; [simpl; auto|].
  simpl. intros [H|[]]. discriminate.
Qed.

End CacheSet.

(** ** The output line of a worker ([parseResult]) *)

Section ParseResult.

Local Open Scope list_scope.
Context `{Builtins}.





End ParseResult.



(** ** Post-processing ([applyOptions]) *)

Section ApplyOptions.

Local Open Scope list_scope.
Context `{Builtins}.

Lemma positive_test (k : Z) : (negb (k =? 0) && (0 <? k))%bool = (0 <? k).
Proof.
  destruct (0 <? k) eqn:E; [|now rewrite andb_false_r].
  apply Z.ltb_lt in E. rewrite andb_true_r.
  destruct (k =? 0) eqn:E0; [apply Z.eqb_eq in E0; lia | reflexivity].
Qed.

(** C5. [applyOptions] is the composition of the four stages in the order
    threshold filtering, top-K truncation, name enrichment, only-primary
    collapse; on [(en,0.9), (fr,0.05), (de,0.05)] a threshold of 0.5 keeps
    [(en,0.9)], [topK = 2] keeps the first two in their order, and
    [returnAll = false] yields the primary alone. The fourth equation shows
    that filtering comes before truncation, the fifth that the predictions
    left by the truncation get the names of the name lookup, and the sixth
    that the collapse comes after the enrichment and yields the primary of
    the result as it was, without a name. *)
Theorem applyOptions_stage_order :
  (forall result options,
     Detector.applyOptions result options = Spec.postProcess result options) /\
  Detector.applyOptions Spec.sample
    {| threshold := Some (JS.Num (1 # 2)); topK := None;
       includeLanguageName := None; returnAll := None |}
  = {| predictions := [Spec.pred "en" (9 # 10)];
       primary := Some (Spec.pred "en" (9 # 10)) |} /\
  Detector.applyOptions Spec.sample
    {| threshold := None; topK := Some 2;
       includeLanguageName := None; returnAll := None |}
  = {| predictions := [Spec.pred "en" (9 # 10); Spec.pred "fr" (1 # 20)];
       primary := Some (Spec.pred "en" (9 # 10)) |} /\
  Detector.applyOptions Spec.sample
    {| threshold := None; topK := None;
       includeLanguageName := None; returnAll := Some false |}
  = {| predictions := [Spec.pred "en" (9 # 10)];
       primary := Some (Spec.pred "en" (9 # 10)) |} /\
  predictions
    (Detector.applyOptions
       {| predictions := [Spec.pred "fr" (1 # 20); Spec.pred "en" (9 # 10);
                          Spec.pred "de" (4 # 5)];
          primary := Some (Spec.pred "fr" (1 # 20)) |}
       {| threshold := Some (JS.Num (1 # 2)); topK := Some 2;
          includeLanguageName := None; returnAll := None |})
  = [Spec.pred "en" (9 # 10); Spec.pred "de" (4 # 5)] /\
  Detector.applyOptions Spec.sample
    {| threshold := None; topK := Some 2;
       includeLanguageName := Some true; returnAll := None |}
  = {| predictions := [Spec.namedPred "en" (9 # 10); Spec.namedPred "fr" (1 # 20)];
       primary := Some (Spec.namedPred "en" (9 # 10)) |} /\
  Detector.applyOptions Spec.sample
    {| threshold := None; topK := None;
       includeLanguageName := Some true; returnAll := Some false |}
  = {| predictions := [Spec.pred "en" (9 # 10)];
       primary := Some (Spec.pred "en" (9 # 10)) |}.
Proof.
  split; [|repeat split; reflexivity].
  intros result options.
  unfold Detector.applyOptions, Spec.postProcess, Spec.onlyPrimaryCollapse,
    Spec.nameEnrichment, Spec.topKTruncation, Spec.thresholdFiltering.
  destruct (threshold options) as [t|], (topK options) as [k|],
    (includeLanguageName options) as [[|]|], (returnAll options) as [[|]|],
    (primary result) as [p|]; cbn [truthy_bool]; rewrite ?positive_test; reflexivity.
Qed.

End ApplyOptions.

(** ** Blank input ([detect]) *)

Section BlankInput.

Local Open Scope list_scope.
Context `{Builtins}.

Lemma whitespaceOnly_trimStart (text : string) :
  Spec.whitespaceOnly text -> JS.trimStart text = "".
Proof.
  unfold Spec.whitespaceOnly.
  induction text as [|c text IH]; simpl; intros Hall; [reflexivity|].
  inversion Hall as [|? ? Hc Hrest]; subst. rewrite Hc. now apply IH.
Qed.

Lemma whitespaceOnly_isBlank (text : string) :
  Spec.whitespaceOnly text -> Detector.isBlank text = true.
Proof.
  intros Hws. unfold Detector.isBlank, JS.trim.
  rewrite (whitespaceOnly_trimStart text Hws). simpl. apply orb_true_r.
Qed.

(** C9. For a text that is empty or made of white space only, [detect]
    returns the empty result and leaves the whole state as it is (cache,
    queue, statistics, workers), whatever the state: loaded, never loaded or
    unloaded. In particular it does not throw the not-loaded error. *)
Theorem detect_blank_returns_empty
  (s : Detector.State) (call : nat) (text : string) (options : DetectionOptions) (now : Z) :
  Spec.whitespaceOnly text ->
  Detector.detect call text options now s
    = (s, [Detector.Returned call {| predictions := []; primary := None |}]) /\
  ~ In (Detector.Threw call NotLoaded) (snd (Detector.detect call text options now s)).
Proof.
  intros Hws. unfold Detector.detect.
  rewrite (whitespaceOnly_isBlank text Hws). split; [reflexivity|].
  simpl. intros [Habs|[]]. discriminate.
Qed.

End BlankInput.

(** The blanks of the test, and white space outside ASCII, on a detector
    that was never loaded *)
Lemma detect_blank_returns_empty_witness :
  Spec.whitespaceOnly Spec.blanks /\
  Spec.whitespaceOnly Spec.wideBlanks /\
  Detector.isLoaded (Detector.new Spec.defaults) = false /\
  Detector.detect 0 Spec.blanks Spec.noOptions 0 (Detector.new Spec.defaults)
    = (Detector.new Spec.defaults,
       [Detector.Returned 0 {| predictions := []; primary := None |}]) /\
  Detector.detect 1 Spec.wideBlanks Spec.noOptions 0 (Detector.new Spec.defaults)
    = (Detector.new Spec.defaults,
       [Detector.Returned 1 {| predictions := []; primary := None |}]).
Proof.
  assert (Hws : Spec.whitespaceOnly Spec.blanks)
    by (unfold Spec.whitespaceOnly; simpl; repeat constructor).
  assert (Hwide : Spec.whitespaceOnly Spec.wideBlanks)
    by (unfold Spec.whitespaceOnly; simpl; repeat constructor).
  split; [exact Hws|]. split; [exact Hwide|]. split; [reflexivity|]. split.
  - exact (proj1 (detect_blank_returns_empty
                    (Detector.new Spec.defaults) 0 Spec.blanks Spec.noOptions 0 Hws)).
  - exact (proj1 (detect_blank_returns_empty
                    (Detector.new Spec.defaults) 1 Spec.wideBlanks Spec.noOptions 0 Hwide)).
Defined.

(** ** The dispatcher: logs and frames *)

Section Logs.

Local Open Scope list_scope.
Import Detector.

Lemma enqueued_app (a b : list Action) :
  Spec.enqueued (a ++ b) = Spec.enqueued a ++ Spec.enqueued b.
Proof.
  induction a as [|x a IH]; [reflexivity|].
  destruct x; simpl; rewrite ?IH; reflexivity.
Qed.

Lemma dispatchedFromQueue_app (a b : list Action) :
  Spec.dispatchedFromQueue (a ++ b) = Spec.dispatchedFromQueue a ++ Spec.dispatchedFromQueue b.
Proof.
  induction a as [|x a IH]; [reflexivity|].
  destruct x as [[|] ? ?| | | | | | | | |]; simpl; rewrite ?IH; reflexivity.
Qed.

Lemma departed_app (a b : list Action) :
  Spec.departed (a ++ b) = Spec.departed a ++ Spec.departed b.
Proof.
  induction a as [|x a IH]; [reflexivity|].
  destruct x as [[|] ? ?| | | |? []| | | | |]; simpl; rewrite ?IH; reflexivity.
Qed.

Lemma drains_same (s s' : State) (acts : list Action) :
  config s' = config s -> requestQueue s' = requestQueue s ->
  queuedRequests (stats s') = queuedRequests (stats s) ->
  Spec.dispatchedFromQueue acts = [] -> Spec.departed acts = [] -> Spec.enqueued acts = [] ->
  Spec.drains s acts s'.
Proof.
  intros Hc Hq Hs H1 H2 H3. split; [exact Hc|]. exists []. rewrite Hq, Hs.
  simpl. repeat split; auto. lia.
Qed.

Lemma drains_trans (s s1 s2 : State) (a1 a2 : list Action) :
  Spec.drains s a1 s1 -> Spec.drains s1 a2 s2 -> Spec.drains s (a1 ++ a2) s2.
Proof.
  intros (Hc1 & t1 & Hq1 & Hd1 & Hp1 & He1 & Hs1) (Hc2 & t2 & Hq2 & Hd2 & Hp2 & He2 & Hs2).
  split; [congruence|]. exists (t1 ++ t2).
  rewrite dispatchedFromQueue_app, departed_app, enqueued_app, map_app.
  rewrite Hq1, Hq2, Hd1, Hd2, Hp1, Hp2, He1, He2, Hs2, Hs1, app_assoc, length_app.
  repeat split; auto. lia.
Qed.

Lemma undisturbed_refl (s : State) : Spec.undisturbed s s.
Proof. unfold Spec.undisturbed. repeat split; reflexivity. Qed.

Lemma undisturbed_trans (s s1 s2 : State) :
  Spec.undisturbed s s1 -> Spec.undisturbed s1 s2 -> Spec.undisturbed s s2.
Proof.
  unfold Spec.undisturbed.
  intros (?&?&?&?&?&?&?&?&?&?&?) (?&?&?&?&?&?&?&?&?&?&?).
  repeat split; congruence.
Qed.

Lemma works_trans (s s1 s2 : State) (a1 a2 : list Action) :
  Spec.works s a1 s1 -> Spec.works s1 a2 s2 -> Spec.works s (a1 ++ a2) s2.
Proof.
  intros (Hd1 & Hu1 & Hp1) (Hd2 & Hu2 & Hp2). split; [|split].
  - eapply drains_trans; eauto.
  - eapply undisturbed_trans; eauto.
  - rewrite forallb_app, Hp1, Hp2. reflexivity.
Qed.

Lemma tidy_trans (s s1 s2 : State) (a1 a2 : list Action) :
  Spec.tidy s a1 s1 -> Spec.tidy s1 a2 s2 -> Spec.tidy s (a1 ++ a2) s2.
Proof.
  intros (Hd1 & Hp1) (Hd2 & Hp2). split.
  - eapply drains_trans; eauto.
  - rewrite forallb_app, Hp1, Hp2. reflexivity.
Qed.

Lemma works_tidy (s s' : State) (acts : list Action) :
  Spec.works s acts s' -> Spec.tidy s acts s'.
Proof.
  intros (Hd & _ & Hp). split; [exact Hd|].
  rewrite forallb_forall in *. intros x Hx. specialize (Hp x Hx).
  destruct x; simpl in *; congruence.
Qed.

Lemma findAvailable_Some (h : list Worker.FastTextWorker) (ws : list addr)
  (a : addr) (w : Worker.FastTextWorker) :
  findAvailable h ws = Some (a, w) ->
  In a ws /\ h !! a = Some w /\ Worker.isReady w = true /\ Worker.isBusy w = false.
Proof.
  induction ws as [|a0 ws IH]; simpl; [discriminate|].
  destruct (h !! a0) as [w0|] eqn:E.
  - destruct (Worker.isReady w0 && negb (Worker.isBusy w0))%bool eqn:Eb.
    + intros [= <- <-]. apply andb_true_iff in Eb as [Hr Hb].
      apply negb_true_iff in Hb. auto.
    + intros H. destruct (IH H) as (?&?&?&?). auto.
  - intros H. destruct (IH H) as (?&?&?&?). auto.
Qed.

Lemma findAvailable_None (h : list Worker.FastTextWorker) (ws : list addr) :
  findAvailable h ws = None <->
  (forall a w, In a ws -> h !! a = Some w ->
     Worker.isReady w = false \/ Worker.isBusy w = true).
Proof.
  induction ws as [|a0 ws IH]; simpl.
  - split; [intros _ a w []|reflexivity].
  - destruct (h !! a0) as [w0|] eqn:E.
    + destruct (Worker.isReady w0 && negb (Worker.isBusy w0))%bool eqn:Eb.
      * split; [discriminate|]. intros Hall. exfalso.
        apply andb_true_iff in Eb as [Hr Hb]. apply negb_true_iff in Hb.
        destruct (Hall a0 w0 (or_introl eq_refl) E); congruence.
      * rewrite IH. split.
        -- intros Hall a w [<-|Hin] Hw; [|eauto].
           rewrite E in Hw. injection Hw as <-.
           apply andb_false_iff in Eb as [Hr|Hb]; [auto|].
           apply negb_false_iff in Hb. auto.
        -- intros Hall a w Hin Hw. eauto.
    + rewrite IH. split.
      * intros Hall a w [<-|Hin] Hw; [congruence|eauto].
      * intros Hall a w Hin Hw. eauto.
Qed.

Lemma worker_detect_accepts (w w' : Worker.FastTextWorker) (text line : string) :
  Worker.detect w text = inr (w', line) ->
  Spec.vitals w' = Spec.vitals w /\ Worker.isBusy w' = true /\
  Worker.processedRequests w' = Worker.processedRequests w /\
  line = Worker.cleanText text.
Proof.
  unfold Worker.detect.
  destruct (negb (Worker.isReady w)); [discriminate|].
  destruct (Worker.isBusy w); [discriminate|].
  destruct (Worker.process w); [|discriminate].
  intros [= <- <-]. auto.
Qed.

Lemma worker_detect_rejects (w : Worker.FastTextWorker) (text : string) (e : Error) :
  Worker.detect w text = inl e -> e <> ShuttingDown.
Proof.
  unfold Worker.detect.
  destruct (negb (Worker.isReady w)); [intros [= <-]; discriminate|].
  destruct (Worker.isBusy w); [intros [= <-]; discriminate|].
  destruct (Worker.process w); [discriminate|intros [= <-]; discriminate].
Qed.

Lemma vitals_insert (h : list Worker.FastTextWorker) (a : addr)
  (w w' : Worker.FastTextWorker) :
  h !! a = Some w -> Spec.vitals w' = Spec.vitals w ->
  map Spec.vitals (<[a := w']> h) = map Spec.vitals h.
Proof.
  intros Hw Hv.
  change (Spec.vitals <$> <[a := w']> h = Spec.vitals <$> h).
  rewrite list_fmap_insert, Hv. apply list_insert_id.
  rewrite list_lookup_fmap, Hw. reflexivity.
Qed.

End Logs.

Section QueueWork.

Local Open Scope list_scope.
Import Detector.

Lemma set_requestQueue_same (s : State) : set_requestQueue (requestQueue s) s = s.
Proof. destruct s; reflexivity. Qed.

Lemma works_same (s s' : State) (acts : list Action) :
  config s' = config s -> requestQueue s' = requestQueue s ->
  queuedRequests (stats s') = queuedRequests (stats s) -> Spec.undisturbed s s' ->
  Spec.dispatchedFromQueue acts = [] -> Spec.departed acts = [] -> Spec.enqueued acts = [] ->
  forallb (fun a => negb (Spec.touchesProcess a)) acts = true ->
  Spec.works s acts s'.
Proof.
  intros Hc Hq Hs Hu H1 H2 H3 H4. split; [|split]; [|exact Hu|exact H4].
  now apply drains_same.
Qed.

Lemma executeRequest_works (a : addr) (w : Worker.FastTextWorker) (request : QueuedRequest)
  (s s' : State) (acts : list Action) (dfd : Deferred) :
  heap s !! a = Some w ->
  executeRequest a w request s = (s', acts, dfd) ->
  Spec.works s acts s' /\ requestQueue s' = requestQueue s /\ stats s' = stats s /\
  Spec.okDeferred dfd /\ (length dfd <= 1)%nat.
Proof.
  intros Hw. unfold executeRequest.
  destruct (Worker.detect w (text request)) as [e|[w' line]] eqn:E; intros [= <- <- <-].
  - refine (conj _ (conj eq_refl (conj eq_refl (conj _ _)))).
    + apply works_same; try reflexivity. apply undisturbed_refl.
    + constructor; [|constructor]. simpl. eapply worker_detect_rejects; eauto.
    + simpl. lia.
  - apply worker_detect_accepts in E as (Hv & _).
    refine (conj _ (conj eq_refl (conj eq_refl (conj _ _)))).
    + apply works_same; try reflexivity.
      unfold Spec.undisturbed. simpl.
      rewrite (vitals_insert (heap s) a w w' Hw Hv). repeat split; reflexivity.
    + constructor.
    + simpl. lia.
Qed.

Lemma drain_works (q : list QueuedRequest) :
  forall (s s' : State) (acts : list Action) (dfd : Deferred),
  drain q s = (s', acts, dfd) ->
  Spec.works (set_requestQueue q s) acts s' /\
  Spec.okDeferred dfd /\
  (length dfd + length (requestQueue s') <= length q)%nat /\
  (requestQueue s' = [] \/ getAvailableWorker s' = None) /\
  queuedRequests (stats s') - Z.of_nat (length (requestQueue s'))
    = queuedRequests (stats s) - Z.of_nat (length q).
Proof.
  induction q as [|request rest IH]; intros s s' acts dfd; simpl.
  - intros [= <- <- <-].
    refine (conj _ (conj _ (conj _ (conj _ _)))).
    + apply works_same; try reflexivity. apply undisturbed_refl.
    + constructor.
    + simpl. lia.
    + left. reflexivity.
    + reflexivity.
  - destruct (getAvailableWorker s) as [[a w]|] eqn:Ea.
    + destruct (executeRequest a w request _) as [[s2 acts2] dfd2] eqn:E2.
      destruct (drain rest s2) as [[s3 acts3] dfd3] eqn:E3.
      intros [= <- <- <-].
      apply findAvailable_Some in Ea as (_ & Hw & _).
      apply executeRequest_works in E2 as (Hw2 & Hq2 & Hs2 & Hok2 & Hl2);
        [|exact Hw].
      apply IH in E3 as (Hw3 & Hok3 & Hl3 & Hex3 & Hst3).
      simpl in Hq2. rewrite <- Hq2 in Hw3.
      rewrite set_requestQueue_same in Hw3.
      refine (conj _ (conj _ (conj _ (conj _ _)))).
      * change (Dispatched true (call request) a :: acts2 ++ acts3)
          with ([Dispatched true (call request) a] ++ acts2 ++ acts3).
        eapply works_trans; [|eapply works_trans; [exact Hw2|exact Hw3]].
        split; [|split]; [| |reflexivity].
        -- split; [reflexivity|]. exists [request]. simpl. repeat split; auto.
        -- unfold Spec.undisturbed. simpl. repeat split; reflexivity.
      * apply Forall_app. auto.
      * rewrite length_app. simpl. lia.
      * exact Hex3.
      * rewrite Hst3, Hs2. simpl. lia.
    + intros [= <- <- <-].
      refine (conj _ (conj _ (conj _ (conj _ _)))).
      * apply works_same; try reflexivity. apply undisturbed_refl.
      * constructor.
      * simpl. lia.
      * right. exact Ea.
      * reflexivity.
Qed.

Lemma processQueueLoop_works (s s' : State) (acts : list Action) (dfd : Deferred) :
  processQueueLoop s = (s', acts, dfd) ->
  Spec.works s acts s' /\
  Spec.okDeferred dfd /\
  (length dfd + length (requestQueue s') <= length (requestQueue s))%nat /\
  (requestQueue s' = [] \/ getAvailableWorker s' = None) /\
  queuedRequests (stats s') - Z.of_nat (length (requestQueue s'))
    = queuedRequests (stats s) - Z.of_nat (length (requestQueue s)).
Proof.
  unfold processQueueLoop. intros E. apply drain_works in E.
  rewrite set_requestQueue_same in E. exact E.
Qed.

Lemma threw_works (s : State) (c : nat) (e : Error) :
  e <> ShuttingDown ->
  Spec.works s [Threw c e]
    (set_stats (with_failedRequests (failedRequests (stats s) + 1) (stats s)) s).
Proof.
  intros He. apply works_same; try reflexivity.
  - unfold Spec.undisturbed. simpl. repeat split; reflexivity.
  - destruct e; try reflexivity. congruence.
Qed.

Lemma runCatches_works (n : nat) :
  forall (pending : Deferred) (s s' : State) (acts : list Action),
  Spec.okDeferred pending ->
  runCatches n pending s = (s', acts) ->
  Spec.works s acts s' /\
  (requestQueue s = [] \/ getAvailableWorker s = None ->
   requestQueue s' = [] \/ getAvailableWorker s' = None) /\
  queuedRequests (stats s') - Z.of_nat (length (requestQueue s'))
    = queuedRequests (stats s) - Z.of_nat (length (requestQueue s)).
Proof.
  induction n as [|n IH]; intros pending s s' acts Hok; simpl.
  - destruct pending as [|[request e] more]; intros [= <- <-];
      (split; [apply works_same; try reflexivity; apply undisturbed_refl | auto]).
  - destruct pending as [|[request e] more].
    + intros [= <- <-].
      split; [apply works_same; try reflexivity; apply undisturbed_refl | auto].
    + destruct (processQueueLoop _) as [[s2 acts2] new] eqn:E2.
      destruct (runCatches n (more ++ new) s2) as [s3 acts3] eqn:E3.
      intros [= <- <-].
      inversion Hok as [|? ? He Hmore]; subst. simpl in He.
      apply processQueueLoop_works in E2 as (Hw2 & Hok2 & _ & Hex2 & Hst2).
      apply IH in E3 as (Hw3 & Hex3 & Hst3); [|apply Forall_app; auto].
      split; [|split].
      * change (Threw (call request) e :: acts2 ++ acts3)
          with ([Threw (call request) e] ++ acts2 ++ acts3).
        eapply works_trans; [apply threw_works; exact He|].
        eapply works_trans; eauto.
      * intros _. auto.
      * rewrite Hst3, Hst2. reflexivity.
Qed.

(** The fuel of [settle] is enough: with that much or more, [runCatches]
    never stops before the pending list is empty, and its result does not
    depend on the fuel. *)
Lemma runCatches_enough_fuel (n : nat) :
  forall (m : nat) (pending : Deferred) (s : State),
  (length pending + length (requestQueue s) <= n)%nat ->
  (length pending + length (requestQueue s) <= m)%nat ->
  runCatches n pending s = runCatches m pending s.
Proof.
  induction n as [|n IH]; intros m pending s Hn Hm.
  - destruct pending; [destruct m; reflexivity | simpl in Hn; lia].
  - destruct pending as [|[request e] more]; [destruct m; reflexivity|].
    destruct m as [|m]; [simpl in Hm; lia|].
    simpl. destruct (processQueueLoop _) as [[s2 acts2] new] eqn:E2.
    apply processQueueLoop_works in E2 as (_ & _ & Hl & _).
    cbn in Hl, Hn, Hm.
    rewrite (IH m (more ++ new) s2); [reflexivity| |]; rewrite length_app; lia.
Qed.

Lemma settle_works (pending : Deferred) (s s' : State) (acts : list Action) :
  Spec.okDeferred pending ->
  settle pending s = (s', acts) ->
  Spec.works s acts s' /\
  (requestQueue s = [] \/ getAvailableWorker s = None ->
   requestQueue s' = [] \/ getAvailableWorker s' = None) /\
  queuedRequests (stats s') - Z.of_nat (length (requestQueue s'))
    = queuedRequests (stats s) - Z.of_nat (length (requestQueue s)).
Proof. unfold settle. apply runCatches_works. Qed.

Lemma processQueue_works (s s' : State) (acts : list Action) :
  processQueue s = (s', acts) ->
  Spec.works s acts s' /\
  (requestQueue s' = [] \/ getAvailableWorker s' = None) /\
  queuedRequests (stats s') - Z.of_nat (length (requestQueue s'))
    = queuedRequests (stats s) - Z.of_nat (length (requestQueue s)).
Proof.
  unfold processQueue.
  destruct (processQueueLoop s) as [[s1 acts1] dfd] eqn:E1.
  destruct (settle dfd s1) as [s2 acts2] eqn:E2.
  intros [= <- <-].
  apply processQueueLoop_works in E1 as (Hw1 & Hok & _ & Hex1 & Hst1).
  apply settle_works in E2 as (Hw2 & Hex2 & Hst2); [|exact Hok].
  split; [eapply works_trans; eauto|]. split; [auto|].
  rewrite Hst2, Hst1. reflexivity.
Qed.

Lemma executeRequest_catch_works (request : QueuedRequest) (e : Error)
  (s s' : State) (acts : list Action) :
  e <> ShuttingDown ->
  executeRequest_catch request e s = (s', acts) ->
  Spec.works s acts s' /\
  queuedRequests (stats s') - Z.of_nat (length (requestQueue s'))
    = queuedRequests (stats s) - Z.of_nat (length (requestQueue s)).
Proof.
  intros He E. unfold executeRequest_catch in E.
  apply settle_works in E as (Hw & _ & Hst); [auto|].
  constructor; [exact He|constructor].
Qed.

End QueueWork.

Section Handlers.

Local Open Scope list_scope.
Import Detector.

Ltac break_in E :=
  repeat match type of E with
         | context [match ?x with _ => _ end] => destruct x eqn:?
         end.

(** A transition may be preceded or followed by changes that leave the
    configuration, the queue and its counter alone. *)
Lemma drains_pre (s s1 s' : State) (acts : list Action) :
  Spec.drains s1 acts s' ->
  config s1 = config s -> requestQueue s1 = requestQueue s ->
  queuedRequests (stats s1) = queuedRequests (stats s) ->
  Spec.drains s acts s'.
Proof.
  intros (Hc' & taken & H) Hc Hq Hs. split; [congruence|].
  exists taken. rewrite <- Hq, <- Hs. exact H.
Qed.

Lemma drains_post (s s1 s' : State) (acts : list Action) :
  Spec.drains s acts s1 ->
  config s' = config s1 -> requestQueue s' = requestQueue s1 ->
  queuedRequests (stats s') = queuedRequests (stats s1) ->
  Spec.drains s acts s'.
Proof.
  intros (Hc' & taken & H) Hc Hq Hs. split; [congruence|].
  exists taken. rewrite Hq, Hs. exact H.
Qed.

Lemma tidy_pre (s s1 s' : State) (acts : list Action) :
  Spec.tidy s1 acts s' ->
  config s1 = config s -> requestQueue s1 = requestQueue s ->
  queuedRequests (stats s1) = queuedRequests (stats s) ->
  Spec.tidy s acts s'.
Proof. intros [Hd Hr] Hc Hq Hs. split; [eapply drains_pre; eauto | exact Hr]. Qed.

Lemma tidy_post (s s1 s' : State) (acts : list Action) :
  Spec.tidy s acts s1 ->
  config s' = config s1 -> requestQueue s' = requestQueue s1 ->
  queuedRequests (stats s') = queuedRequests (stats s1) ->
  Spec.tidy s acts s'.
Proof. intros [Hd Hr] Hc Hq Hs. split; [eapply drains_post; eauto | exact Hr]. Qed.

Lemma tidy_same (s s' : State) (acts : list Action) :
  config s' = config s -> requestQueue s' = requestQueue s ->
  queuedRequests (stats s') = queuedRequests (stats s) ->
  Spec.dispatchedFromQueue acts = [] -> Spec.departed acts = [] -> Spec.enqueued acts = [] ->
  forallb (fun a => negb (Spec.isRestarting a)) acts = true ->
  Spec.tidy s acts s'.
Proof. intros. split; [now apply drains_same | assumption]. Qed.

Lemma stopWorker_tidy (a : addr) (s s' : State) (acts : list Action) :
  stopWorker a s = (s', acts) -> Spec.tidy s acts s'.
Proof.
  unfold stopWorker. intros E. break_in E; injection E as <- <-;
    apply tidy_same; reflexivity.
Qed.

Lemma stopWorkers_tidy (ws : list addr) :
  forall (s s' : State) (acts : list Action),
  stopWorkers ws s = (s', acts) -> Spec.tidy s acts s'.
Proof.
  induction ws as [|a ws IH]; intros s s' acts; simpl.
  - intros [= <- <-]. apply tidy_same; reflexivity.
  - destruct (stopWorker a s) as [s1 acts1] eqn:E1.
    destruct (stopWorkers ws s1) as [s2 acts2] eqn:E2.
    intros [= <- <-]. eapply tidy_trans; eauto using stopWorker_tidy.
Qed.

Lemma startWorker_tidy (a : addr) (owner : StartOwner) (s s' : State) (acts : list Action) :
  startWorker a owner s = (s', acts) -> Spec.tidy s acts s'.
Proof.
  unfold startWorker. intros E. break_in E; injection E as <- <-;
    apply tidy_same; reflexivity.
Qed.

Lemma restartWorker_drains (workerId : nat) (s s' : State) (acts : list Action) :
  restartWorker workerId s = (s', acts) -> Spec.drains s acts s'.
Proof.
  unfold restartWorker. intros E.
  destruct (negb (isLoaded s)); [injection E as <- <-; now apply drains_same|].
  destruct (workers s !! workerId) as [a|]; [|injection E as <- <-; now apply drains_same].
  destruct (stopWorker a s) as [s1 acts1] eqn:E1.
  destruct (startWorker a (ByRestart workerId) s1) as [s2 acts2] eqn:E2.
  injection E as <- <-.
  apply stopWorker_tidy in E1 as [H1 _]. apply startWorker_tidy in E2 as [H2 _].
  change (Restarting workerId :: acts1 ++ acts2) with ([Restarting workerId] ++ acts1 ++ acts2).
  eapply drains_trans; [apply (drains_same s s); reflexivity|].
  eapply drains_trans; eauto.
Qed.

Lemma load_catch_tidy (e : Error) (s s' : State) (acts : list Action) :
  load_catch e s = (s', acts) -> Spec.tidy s acts s'.
Proof.
  unfold load_catch. intros E.
  destruct (stopWorkers _ _) as [s2 acts2] eqn:E2. injection E as <- <-.
  apply stopWorkers_tidy in E2.
  eapply tidy_trans; [|apply (tidy_same s2 (set_workers [] s2)); reflexivity].
  eapply tidy_pre; [exact E2|..]; reflexivity.
Qed.

Lemma load_then_tidy (s s' : State) (acts : list Action) :
  load_then s = (s', acts) -> Spec.tidy s acts s'.
Proof.
  unfold load_then. intros E.
  destruct (processQueue _) as [s4 acts4] eqn:E4. injection E as <- <-.
  apply processQueue_works in E4 as [Hw _]. apply works_tidy in Hw.
  eapply tidy_trans; [|apply (tidy_same s4 s4); reflexivity].
  eapply tidy_pre; [exact Hw|..]; reflexivity.
Qed.

Lemma createWorkers_tidy (n : nat) :
  forall (i generation : nat) (s s' : State) (pids : list nat) (acts : list Action),
  createWorkers n i generation s = (s', pids, acts) -> Spec.tidy s acts s'.
Proof.
  induction n as [|n IH]; intros i generation s s' pids acts; simpl.
  - intros [= <- <- <-]. apply tidy_same; reflexivity.
  - destruct (startWorker _ _ _) as [s2 acts2] eqn:E2.
    destruct (createWorkers n (S i) generation s2) as [[s3 pids3] acts3] eqn:E3.
    intros [= <- <- <-].
    apply startWorker_tidy in E2. apply IH in E3.
    eapply tidy_trans; [|exact E3].
    eapply tidy_pre; [exact E2|..]; reflexivity.
Qed.

Lemma load_tidy (modelExists binaryFound : bool) (s s' : State) (acts : list Action) :
  load modelExists binaryFound s = (s', acts) -> Spec.tidy s acts s'.
Proof.
  unfold load. intros E.
  destruct (isLoading s); [injection E as <- <-; apply tidy_same; reflexivity|].
  destruct (isLoaded s); [injection E as <- <-; apply tidy_same; reflexivity|].
  destruct (negb modelExists);
    [apply load_catch_tidy in E; eapply tidy_pre; [exact E|..]; reflexivity|].
  destruct (negb binaryFound);
    [apply load_catch_tidy in E; eapply tidy_pre; [exact E|..]; reflexivity|].
  destruct (createWorkers _ _ _ _) as [[s2 pids] acts2] eqn:E2.
  apply createWorkers_tidy in E2.
  assert (H2 : Spec.tidy s acts2 s2) by (eapply tidy_pre; [exact E2|..]; reflexivity).
  destruct pids as [|p pids].
  - destruct (load_then s2) as [s3 acts3] eqn:E3. injection E as <- <-.
    apply load_then_tidy in E3. eapply tidy_trans; eauto.
  - injection E as <- <-. eapply tidy_post; [exact H2|..]; reflexivity.
Qed.

Lemma start_resolved_tidy (ps : PendingStart) (s s' : State) (acts : list Action) :
  start_resolved ps s = (s', acts) -> Spec.tidy s acts s'.
Proof.
  unfold start_resolved. intros E.
  destruct (ps_owner ps).
  - destruct (loadJoin s); [|injection E as <- <-; apply tidy_same; reflexivity].
    destruct (Nat.eqb _ _); [|injection E as <- <-; apply tidy_same; reflexivity].
    destruct (List.filter _ _).
    + now apply load_then_tidy.
    + injection E as <- <-; apply tidy_same; reflexivity.
  - apply processQueue_works in E as [Hw _]. now apply works_tidy.
Qed.

Lemma start_rejected_tidy (e : Error) (ps : PendingStart) (s s' : State)
  (acts : list Action) :
  start_rejected e ps s = (s', acts) -> Spec.tidy s acts s'.
Proof.
  unfold start_rejected. intros E.
  destruct (ps_owner ps).
  - destruct (loadJoin s); [|injection E as <- <-; apply tidy_same; reflexivity].
    destruct (Nat.eqb _ _); [|injection E as <- <-; apply tidy_same; reflexivity].
    now apply load_catch_tidy in E.
  - injection E as <- <-; apply tidy_same; reflexivity.
Qed.

Lemma onStartTimer_tidy (a : addr) (s s' : State) (acts : list Action) :
  onStartTimer a s = (s', acts) -> Spec.tidy s acts s'.
Proof.
  unfold onStartTimer. intros E.
  destruct (extract _ _) as [[ps rest]|]; [|injection E as <- <-; apply tidy_same; reflexivity].
  destruct (heap s !! a) as [w|]; [|injection E as <- <-; apply tidy_same; reflexivity].
  destruct (Worker.onStartTimer w) as [w' r].
  destruct (ps_settled ps); [injection E as <- <-; apply tidy_same; reflexivity|].
  destruct r as [e|].
  - apply start_rejected_tidy in E. eapply tidy_pre; [exact E|..]; reflexivity.
  - apply start_resolved_tidy in E. eapply tidy_pre; [exact E|..]; reflexivity.
Qed.

Lemma onKillTimer_tidy (a : addr) (s s' : State) (acts : list Action) :
  onKillTimer a s = (s', acts) -> Spec.tidy s acts s'.
Proof.
  unfold onKillTimer. intros E. break_in E; injection E as <- <-;
    apply tidy_same; reflexivity.
Qed.

Lemma onProcessExit_drains (a : addr) (s s' : State) (acts : list Action) :
  onProcessExit a s = (s', acts) -> Spec.drains s acts s'.
Proof.
  unfold onProcessExit. intros E.
  destruct (heap s !! a) as [w|]; [|injection E as <- <-; now apply drains_same].
  apply restartWorker_drains in E. eapply drains_pre; [exact E|..]; reflexivity.
Qed.

Lemma onRetryTimer_drains (workerId : nat) (s s' : State) (acts : list Action) :
  onRetryTimer workerId s = (s', acts) -> Spec.drains s acts s'.
Proof.
  unfold onRetryTimer. intros E.
  destruct (extract _ _) as [[x rest]|]; [|injection E as <- <-; now apply drains_same].
  apply restartWorker_drains in E. eapply drains_pre; [exact E|..]; reflexivity.
Qed.

Lemma onProcessError_drains (a : addr) (s s' : State) (acts : list Action) :
  onProcessError a s = (s', acts) -> Spec.drains s acts s'.
Proof.
  unfold onProcessError. intros E.
  destruct (heap s !! a) as [w|]; [|injection E as <- <-; now apply drains_same].
  destruct (restartWorker _ _) as [s2 acts2] eqn:E2.
  apply restartWorker_drains in E2.
  assert (H2 : Spec.drains s acts2 s2) by (eapply drains_pre; [exact E2|..]; reflexivity).
  destruct (Worker.process w) as [p|]; [|injection E as <- <-; exact H2].
  destruct (extract _ _) as [[ps rest]|]; [|injection E as <- <-; exact H2].
  destruct (start_rejected _ _ _) as [s3 acts3] eqn:E3. injection E as <- <-.
  apply start_rejected_tidy in E3 as [H3 _].
  eapply drains_trans; [exact H2|]. eapply drains_pre; [exact H3|..]; reflexivity.
Qed.

Lemma onRequestTimer_tidy (a : addr) (s s' : State) (acts : list Action) :
  onRequestTimer a s = (s', acts) -> Spec.tidy s acts s'.
Proof.
  unfold onRequestTimer. intros E.
  destruct (extract _ _) as [[[a0 request] rest]|];
    [|injection E as <- <-; apply tidy_same; reflexivity].
  destruct (heap s !! a) as [w|]; [|injection E as <- <-; apply tidy_same; reflexivity].
  simpl in E. apply executeRequest_catch_works in E as [Hw _]; [|discriminate].
  apply works_tidy in Hw. eapply tidy_pre; [exact Hw|..]; reflexivity.
Qed.

Lemma onWriteError_tidy (a : addr) (s s' : State) (acts : list Action) :
  onWriteError a s = (s', acts) -> Spec.tidy s acts s'.
Proof.
  unfold onWriteError. intros E.
  destruct (extract _ _) as [[[a0 request] rest]|];
    [|injection E as <- <-; apply tidy_same; reflexivity].
  destruct (heap s !! a) as [w|]; [|injection E as <- <-; apply tidy_same; reflexivity].
  apply executeRequest_catch_works in E as [Hw _]; [|discriminate].
  apply works_tidy in Hw. eapply tidy_pre; [exact Hw|..]; reflexivity.
Qed.

End Handlers.

Section Steps.

Local Open Scope list_scope.
Import Detector.
Context `{Builtins}.

Lemma drains_flows (s s' : State) (acts : list Action) :
  Spec.drains s acts s' -> Spec.flows s acts s'.
Proof.
  intros (Hc & taken & Hq & _ & Hd & He & _). split; [exact Hc|].
  exists taken, []. rewrite app_nil_r, He. auto.
Qed.

Lemma flows_trans (s s1 s2 : State) (a1 a2 : list Action) :
  Spec.flows s a1 s1 -> Spec.flows s1 a2 s2 -> Spec.flows s (a1 ++ a2) s2.
Proof.
  intros (Hc1 & t1 & d1 & Hq1 & Hd1 & He1) (Hc2 & t2 & d2 & Hq2 & Hd2 & He2).
  split; [congruence|]. exists (t1 ++ t2), (d1 ++ d2).
  rewrite departed_app, enqueued_app, !map_app, Hd1, Hd2, He1, He2.
  repeat split; auto.
  rewrite app_assoc, Hq1, <- !app_assoc, Hq2. reflexivity.
Qed.

Lemma drains_bounded (s s' : State) (acts : list Action) :
  Spec.drains s acts s' -> Spec.queueBounded s -> Spec.queueBounded s'.
Proof.
  unfold Spec.queueBounded. intros (Hc & taken & Hq & _) Hb.
  rewrite Hc. rewrite Hq, length_app in Hb. lia.
Qed.

Lemma drains_counter (s s' : State) (acts : list Action) :
  Spec.drains s acts s' ->
  queuedRequests (stats s') - Z.of_nat (length (requestQueue s'))
    = queuedRequests (stats s) - Z.of_nat (length (requestQueue s)).
Proof.
  intros (_ & taken & Hq & _ & _ & _ & Hs). rewrite Hs, Hq, length_app. lia.
Qed.

Lemma calm_not_in (acts : list Action) (workerId : nat) :
  forallb (fun a => negb (Spec.isRestarting a)) acts = true ->
  ~ In (Restarting workerId) acts.
Proof.
  intros Hall Hin. rewrite forallb_forall in Hall.
  specialize (Hall _ Hin). discriminate.
Qed.

Lemma detect_then_tidy (request : QueuedRequest) (result : DetectionResult) (now : Z)
  (s s' : State) (acts : list Action) :
  detect_then request result now s = (s', acts) -> Spec.tidy s acts s'.
Proof.
  unfold detect_then. intros E.
  destruct (cache s), (primary result); injection E as <- <-; apply tidy_same; reflexivity.
Qed.

Lemma executeRequest_then_tidy (request : QueuedRequest) (result : DetectionResult)
  (now : Z) (s s' : State) (acts : list Action) :
  executeRequest_then request result now s = (s', acts) -> Spec.tidy s acts s'.
Proof.
  unfold executeRequest_then. intros E.
  destruct (detect_then _ _ _ _) as [s2 acts2] eqn:E2.
  destruct (processQueue s2) as [s3 acts3] eqn:E3. injection E as <- <-.
  apply detect_then_tidy in E2. apply processQueue_works in E3 as [Hw _].
  apply works_tidy in Hw.
  eapply tidy_trans; [|exact Hw]. eapply tidy_pre; [exact E2|..]; reflexivity.
Qed.

Lemma onStdoutData_tidy (a : addr) (data : string) (now : Z)
  (s s' : State) (acts : list Action) :
  onStdoutData a data now s = (s', acts) -> Spec.tidy s acts s'.
Proof.
  unfold onStdoutData. intros E.
  destruct (extract _ _) as [[[a0 request] rest]|];
    [|injection E as <- <-; apply tidy_same; reflexivity].
  destruct (heap s !! a) as [w|]; [|injection E as <- <-; apply tidy_same; reflexivity].
  destruct (Worker.onData w data) as [w' result].
  apply executeRequest_then_tidy in E. eapply tidy_pre; [exact E|..]; reflexivity.
Qed.

Lemma rejectQueued_logs (q : list QueuedRequest) :
  Spec.departed (rejectQueued q) = map call q /\
  Spec.dispatchedFromQueue (rejectQueued q) = [] /\
  Spec.enqueued (rejectQueued q) = [] /\
  forallb (fun a => negb (Spec.isRestarting a)) (rejectQueued q) = true.
Proof.
  induction q as [|r q (IH1 & IH2 & IH3 & IH4)]; simpl; [auto|].
  rewrite IH1. auto.
Qed.

Lemma unload_flows (s s' : State) (acts : list Action) :
  unload s = (s', acts) ->
  Spec.flows s acts s' /\ requestQueue s' = [] /\
  forallb (fun a => negb (Spec.isRestarting a)) acts = true.
Proof.
  unfold unload. intros E.
  destruct (stopWorkers _ _) as [s3 acts3] eqn:E3. injection E as <- <-.
  apply stopWorkers_tidy in E3 as ((Hc & taken & Hq & _ & Hd & He & _) & Hr).
  destruct (rejectQueued_logs (requestQueue s)) as (R1 & R2 & R3 & R4).
  simpl in *. destruct taken; [|discriminate]. simpl in Hq.
  split; [|split].
  - split; [exact Hc|]. exists (requestQueue s), [].
    rewrite departed_app, enqueued_app, R1, R3, Hd, He, app_nil_r.
    simpl. rewrite <- Hq, !app_nil_r. auto.
  - simpl. auto.
  - rewrite forallb_app, R4, Hr. reflexivity.
Qed.

Lemma cacheLookup_frame (text : string) (now : Z) (s s1 : State)
  (r : option DetectionResult) :
  cacheLookup text now s = (r, s1) ->
  exists c, s1 = set_cache c s.
Proof.
  unfold cacheLookup. intros E. destruct (cache s) as [c|] eqn:Ec.
  - destruct (Cache.get c text now) as [r' c']. injection E as <- <-. eauto.
  - injection E as <- <-. exists None. destruct s; simpl in *. now subst.
Qed.

Lemma detect_flows (c : nat) (text : string) (options : DetectionOptions) (now : Z)
  (s s' : State) (acts : list Action) :
  detect c text options now s = (s', acts) ->
  Spec.flows s acts s' /\
  (Spec.queueBounded s -> Spec.queueBounded s') /\
  forallb (fun a => negb (Spec.isRestarting a)) acts = true /\
  queuedRequests (stats s') - Z.of_nat (length (requestQueue s'))
    = queuedRequests (stats s) - Z.of_nat (length (requestQueue s)).
Proof.
  assert (Hsame : forall s0 acts0,
    config s0 = config s -> requestQueue s0 = requestQueue s ->
    queuedRequests (stats s0) = queuedRequests (stats s) ->
    Spec.dispatchedFromQueue acts0 = [] -> Spec.departed acts0 = [] ->
    Spec.enqueued acts0 = [] ->
    forallb (fun a => negb (Spec.isRestarting a)) acts0 = true ->
    Spec.flows s acts0 s0 /\
    (Spec.queueBounded s -> Spec.queueBounded s0) /\
    forallb (fun a => negb (Spec.isRestarting a)) acts0 = true /\
    queuedRequests (stats s0) - Z.of_nat (length (requestQueue s0))
      = queuedRequests (stats s) - Z.of_nat (length (requestQueue s))).
  { intros s0 acts0 Hc Hq Hs H1 H2 H3 H4.
    assert (Hd : Spec.drains s acts0 s0) by now apply drains_same.
    split; [now apply drains_flows|]. split; [now apply drains_bounded with acts0|].
    split; [exact H4|]. now apply drains_counter with acts0. }
  unfold detect. intros E.
  destruct (isBlank text); [injection E as <- <-; apply Hsame; reflexivity|].
  destruct (negb (isLoaded s)); [injection E as <- <-; apply Hsame; reflexivity|].
  destruct (cacheLookup text now s) as [cached s1] eqn:E1.
  apply cacheLookup_frame in E1 as [c1 ->].
  destruct cached as [result|]; [injection E as <- <-; apply Hsame; reflexivity|].
  set (s2 := set_stats _ (set_cache c1 s)) in E.
  set (request := {| text := text; call := c; options := options; startTime := now |}) in E.
  destruct (getAvailableWorker s2) as [[a w]|] eqn:Ea.
  - destruct (executeRequest a w request s2) as [[s3 acts3] dfd] eqn:E3.
    destruct (settle dfd s3) as [s4 acts4] eqn:E4. injection E as <- <-.
    apply findAvailable_Some in Ea as (_ & Hw & _).
    apply executeRequest_works in E3 as (Hw3 & _ & _ & Hok & _); [|exact Hw].
    apply settle_works in E4 as (Hw4 & _); [|exact Hok].
    pose proof (works_trans _ _ _ _ _ Hw3 Hw4) as Hw34.
    apply works_tidy in Hw34 as [Hd Hr].
    assert (Hd' : Spec.drains s (Dispatched false c a :: acts3 ++ acts4) s4).
    { change (Dispatched false c a :: acts3 ++ acts4)
        with ([Dispatched false c a] ++ acts3 ++ acts4).
      eapply drains_trans; [apply (drains_same s s); reflexivity|].
      eapply drains_pre; [exact Hd|..]; reflexivity. }
    split; [now apply drains_flows|]. split; [now apply drains_bounded with (1 := Hd')|].
    split; [exact Hr|]. now apply drains_counter with (1 := Hd').
  - destruct (Nat.leb (maxQueueSize (config s2)) (length (requestQueue s2))) eqn:Efull.
    + injection E as <- <-. apply Hsame; reflexivity.
    + injection E as <- <-. apply Nat.leb_gt in Efull. subst s2. simpl in Efull.
      split; [|split; [|split]].
      * split; [reflexivity|]. exists [], [request]. simpl. auto.
      * unfold Spec.queueBounded. simpl. rewrite length_app. simpl. lia.
      * reflexivity.
      * simpl. rewrite length_app. simpl. lia.
Qed.

Lemma step_flows (s s' : State) (e : Event) (acts : list Action) :
  step s e = (s', acts) -> Spec.flows s acts s'.
Proof.
  destruct e; simpl; intros E.
  - apply load_tidy in E as [Hd _]. now apply drains_flows.
  - now apply unload_flows in E.
  - now apply detect_flows in E.
  - apply onStdoutData_tidy in E as [Hd _]. now apply drains_flows.
  - apply onRequestTimer_tidy in E as [Hd _]. now apply drains_flows.
  - apply onWriteError_tidy in E as [Hd _]. now apply drains_flows.
  - apply onProcessError_drains in E. now apply drains_flows.
  - apply onProcessExit_drains in E. now apply drains_flows.
  - apply onStartTimer_tidy in E as [Hd _]. now apply drains_flows.
  - apply onRetryTimer_drains in E. now apply drains_flows.
  - apply onKillTimer_tidy in E as [Hd _]. now apply drains_flows.
Qed.

Lemma step_drains (s s' : State) (e : Event) (acts : list Action) :
  step s e = (s', acts) ->
  match e with
  | Unload | Detect _ _ _ _ => True
  | _ => Spec.drains s acts s'
  end.
Proof.
  destruct e; simpl; intros E; auto.
  - now apply load_tidy in E as [Hd _].
  - now apply onStdoutData_tidy in E as [Hd _].
  - now apply onRequestTimer_tidy in E as [Hd _].
  - now apply onWriteError_tidy in E as [Hd _].
  - now apply onProcessError_drains in E.
  - now apply onProcessExit_drains in E.
  - now apply onStartTimer_tidy in E as [Hd _].
  - now apply onRetryTimer_drains in E.
  - now apply onKillTimer_tidy in E as [Hd _].
Qed.

Lemma step_bounded (s s' : State) (e : Event) (acts : list Action) :
  step s e = (s', acts) -> Spec.queueBounded s -> Spec.queueBounded s'.
Proof.
  intros E. pose proof (step_drains s s' e acts E) as Hd.
  destruct e; try (now apply drains_bounded with acts).
  - simpl in E. apply unload_flows in E as (_ & Hq & _).
    intros _. unfold Spec.queueBounded. rewrite Hq. simpl. lia.
  - simpl in E. now apply detect_flows in E.
Qed.

Lemma step_restarting (s s' : State) (e : Event) (acts : list Action) (workerId : nat) :
  step s e = (s', acts) -> In (Restarting workerId) acts ->
  match e with
  | ProcessError _ | ProcessExit _ | RetryTimer _ => True
  | _ => False
  end.
Proof.
  destruct e; simpl; intros E Hin; auto; apply (calm_not_in acts workerId); auto.
  - now apply load_tidy in E as [_ Hr].
  - now apply unload_flows in E as (_ & _ & Hr).
  - now apply detect_flows in E as (_ & _ & Hr & _).
  - now apply onStdoutData_tidy in E as [_ Hr].
  - now apply onRequestTimer_tidy in E as [_ Hr].
  - now apply onWriteError_tidy in E as [_ Hr].
  - now apply onStartTimer_tidy in E as [_ Hr].
  - now apply onKillTimer_tidy in E as [_ Hr].
Qed.

End Steps.

(** ** Runs *)

Section Runs.

Local Open Scope list_scope.
Import Detector.
Context `{Builtins}.

Lemma flows_refl (s : State) : Spec.flows s [] s.
Proof. split; [reflexivity|]. exists [], []. rewrite app_nil_r. auto. Qed.

Lemma run_flows (events : list Event) :
  forall (s s' : State) (acts : list Action),
  run s events = (s', acts) -> Spec.flows s acts s'.
Proof.
  induction events as [|e events IH]; intros s s' acts; simpl.
  - intros [= <- <-]. apply flows_refl.
  - destruct (step s e) as [s1 acts1] eqn:E1.
    destruct (run s1 events) as [s2 acts2] eqn:E2. intros [= <- <-].
    eapply flows_trans; eauto using step_flows.
Qed.

Lemma run_bounded (events : list Event) :
  forall (s s' : State) (acts : list Action),
  run s events = (s', acts) -> Spec.queueBounded s -> Spec.queueBounded s'.
Proof.
  induction events as [|e events IH]; intros s s' acts; simpl.
  - intros [= <- <-]. auto.
  - destruct (step s e) as [s1 acts1] eqn:E1.
    destruct (run s1 events) as [s2 acts2] eqn:E2. intros [= <- <-] Hb.
    eapply IH; eauto using step_bounded.
Qed.

(** As long as [unload] is not called, [queuedRequests] is the length of the
    queue. *)
Lemma run_counter (events : list Event) :
  forall (s s' : State) (acts : list Action),
  Forall (fun e => e <> Unload) events ->
  run s events = (s', acts) ->
  queuedRequests (stats s') - Z.of_nat (length (requestQueue s'))
    = queuedRequests (stats s) - Z.of_nat (length (requestQueue s)).
Proof.
  induction events as [|e events IH]; intros s s' acts Hall; simpl.
  - intros [= <- <-]. reflexivity.
  - destruct (step s e) as [s1 acts1] eqn:E1.
    destruct (run s1 events) as [s2 acts2] eqn:E2. intros [= <- <-].
    inversion Hall as [|? ? He Hrest]; subst.
    rewrite (IH _ _ _ Hrest E2).
    pose proof (step_drains _ _ _ _ E1) as Hd.
    destruct e; simpl in Hd; try (apply drains_counter with acts1; exact Hd).
    + congruence.
    + simpl in E1. now apply detect_flows in E1.
Qed.

Lemma runCatches_exhausts (n : nat) (request : QueuedRequest) (e : Error)
  (more : Deferred) (s : State) :
  e <> ShuttingDown -> Spec.okDeferred more ->
  let s' := fst (runCatches (S n) ((request, e) :: more) s) in
  requestQueue s' = [] \/ getAvailableWorker s' = None.
Proof.
  intros He Hmore. simpl.
  destruct (processQueueLoop _) as [[s2 acts2] new] eqn:E2.
  destruct (runCatches n (more ++ new) s2) as [s3 acts3] eqn:E3. simpl.
  apply processQueueLoop_works in E2 as (_ & Hok & _ & Hex & _).
  apply runCatches_works in E3 as (_ & Hkeep & _); [auto|].
  apply Forall_app. auto.
Qed.

End Runs.

(** ** FIFO dispatch *)

Section Fifo.

Local Open Scope list_scope.
Import Detector.
Context `{Builtins}.

Lemma processQueue_exhausts (s : State) :
  let s' := fst (processQueue s) in
  requestQueue s' = [] \/ getAvailableWorker s' = None.
Proof.
  simpl. destruct (processQueue s) as [s' acts] eqn:E.
  now apply processQueue_works in E as (_ & Hex & _).
Qed.

(** When a call in flight on the worker at [a] completes, with an answer,
    by its timer or by a write error, the queue is drained until it is empty
    or no worker is available. *)
Lemma completion_exhausts (s : State) (a : addr) (e : Event)
  (request : QueuedRequest) (rest : list (addr * QueuedRequest)) (w : Worker.FastTextWorker) :
  extract (fun r => Nat.eqb (fst r) a) (running s) = Some ((a, request), rest) ->
  heap s !! a = Some w ->
  (exists data now, e = StdoutData a data now) \/ e = RequestTimer a \/ e = WriteError a ->
  let s' := fst (step s e) in
  requestQueue s' = [] \/ getAvailableWorker s' = None.
Proof.
  intros Hrun Hw [(data & now & ->)|[->| ->]]; simpl.
  - unfold onStdoutData. rewrite Hrun, Hw.
    destruct (Worker.onData w data) as [w' result].
    unfold executeRequest_then.
    destruct (detect_then _ _ _ _) as [s2 acts2].
    pose proof (processQueue_exhausts s2) as Hex.
    destruct (processQueue s2) as [s3 acts3]. exact Hex.
  - unfold onRequestTimer. rewrite Hrun, Hw.
    unfold Worker.onTimeout, executeRequest_catch, settle.
    apply (runCatches_exhausts _ request (WorkerTimeout (Worker.id w)) []);
      [discriminate|constructor].
  - unfold onWriteError. rewrite Hrun, Hw.
    unfold executeRequest_catch, settle.
    apply (runCatches_exhausts _ request SystemError []); [discriminate|constructor].
Qed.

(** When a restart succeeds (the start timer of a restarted worker finds its
    process alive), the queue is drained likewise. *)
Lemma restart_exhausts (s : State) (a workerId : nat) (ps : PendingStart)
  (rest : list PendingStart) (w : Worker.FastTextWorker) (p : Worker.ChildProcess) :
  extract (fun ps => Nat.eqb (ps_worker ps) a) (starting s) = Some (ps, rest) ->
  ps_owner ps = ByRestart workerId -> ps_settled ps = false ->
  heap s !! a = Some w -> Worker.process w = Some p -> Worker.killed p = false ->
  let s' := fst (step s (StartTimer a)) in
  requestQueue s' = [] \/ getAvailableWorker s' = None.
Proof.
  intros Hps Hown Hset Hw Hp Hk. simpl.
  unfold onStartTimer. rewrite Hps, Hw.
  unfold Worker.onStartTimer. rewrite Hp, Hk. simpl. rewrite Hset.
  unfold start_resolved. rewrite Hown. apply processQueue_exhausts.
Qed.

Lemma run_queue_log (options : DetectorOptions) (events : list Event) :
  let s := fst (run (new options) events) in
  let acts := snd (run (new options) events) in
  Spec.enqueued acts = Spec.departed acts ++ map call (requestQueue s).
Proof.
  simpl. destruct (run (new options) events) as [s acts] eqn:E. simpl.
  apply run_flows in E as (_ & taken & added & Hq & Hd & He).
  simpl in Hq. rewrite Hd, He, Hq, map_app. reflexivity.
Qed.

(** C4. The queue is first-in first-out. A transition in which a worker
    completes a request (an answer, a timeout, a write error) or a start
    timer fires hands a prefix of the queue to workers, in queue order, and
    on a completion or a successful restart it goes on until the queue is
    empty or no worker is available. Along every run from a new detector the
    calls that left the queue are a prefix of the calls that entered it: if
    the [j]-th call queued has left the queue, every call queued before it
    has left it earlier, in the order of queuing. *)
Theorem queued_requests_leave_in_fifo_order :
  (forall s e,
     match e with
     | StdoutData _ _ _ | RequestTimer _ | WriteError _ | StartTimer _ =>
         exists taken,
           requestQueue s = taken ++ requestQueue (fst (step s e)) /\
           Spec.dispatchedFromQueue (snd (step s e)) = map call taken
     | _ => True
     end) /\
  (forall s a e request rest w,
     extract (fun r => Nat.eqb (fst r) a) (running s) = Some ((a, request), rest) ->
     heap s !! a = Some w ->
     (exists data now, e = StdoutData a data now) \/ e = RequestTimer a \/ e = WriteError a ->
     requestQueue (fst (step s e)) = [] \/ getAvailableWorker (fst (step s e)) = None) /\
  (forall s a workerId ps rest w p,
     extract (fun ps => Nat.eqb (ps_worker ps) a) (starting s) = Some (ps, rest) ->
     ps_owner ps = ByRestart workerId -> ps_settled ps = false ->
     heap s !! a = Some w -> Worker.process w = Some p -> Worker.killed p = false ->
     requestQueue (fst (step s (StartTimer a))) = [] \/
     getAvailableWorker (fst (step s (StartTimer a))) = None) /\
  (forall options events,
     let s := fst (run (new options) events) in
     let acts := snd (run (new options) events) in
     Spec.enqueued acts = Spec.departed acts ++ map call (requestQueue s) /\
     forall i j, (i <= j)%nat -> (j < length (Spec.departed acts))%nat ->
       Spec.departed acts !! i = Spec.enqueued acts !! i /\
       is_Some (Spec.departed acts !! i)).
Proof.
  split; [|split; [|split]].
  - intros s e. destruct (step s e) as [s' acts] eqn:E.
    pose proof (step_drains _ _ _ _ E) as Hd.
    destruct e; auto; destruct Hd as (_ & taken & Hq & Hdq & _); exists taken; auto.
  - intros s a e request rest w. apply completion_exhausts.
  - intros s a workerId ps rest w p. apply restart_exhausts.
  - intros options events s acts.
    pose proof (run_queue_log options events) as Hlog. fold s acts in Hlog.
    split; [exact Hlog|]. intros i j Hij Hj. rewrite Hlog.
    rewrite lookup_app_l by lia. split; [reflexivity|].
    apply lookup_lt_is_Some. lia.
Qed.

End Fifo.

(** ** Admission ([detect]) *)

Section Admission.

Local Open Scope list_scope.
Import Detector.
Context `{Builtins}.

Lemma trimEnd_empty (x : string) : JS.trimEnd x = "" -> Spec.whitespaceOnly x.
Proof.
  unfold Spec.whitespaceOnly. induction x as [|c x IH]; simpl; intros E.
  - constructor.
  - destruct (JS.is_space c) eqn:Ec; simpl in E; [|discriminate].
    destruct (String.eqb (JS.trimEnd x) "") eqn:Ex; [|discriminate].
    apply string_eqb_eq in Ex. constructor; auto.
Qed.

Lemma trimStart_whitespaceOnly (x : string) :
  Spec.whitespaceOnly (JS.trimStart x) -> Spec.whitespaceOnly x.
Proof.
  unfold Spec.whitespaceOnly. induction x as [|c x IH]; simpl; intros E.
  - constructor.
  - destruct (JS.is_space c) eqn:Ec; [constructor; auto | exact E].
Qed.

Lemma length_zero_empty (x : string) : String.length x = 0%nat -> x = "".
Proof. destruct x; [reflexivity|discriminate]. Qed.

Lemma isBlank_whitespaceOnly (text : string) :
  isBlank text = true -> Spec.whitespaceOnly text.
Proof.
  unfold isBlank, JS.truthy, JS.trim. intros E. apply orb_true_iff in E as [E|E].
  - apply negb_true_iff, negb_false_iff, string_eqb_eq in E. subst. constructor.
  - apply Nat.eqb_eq, length_zero_empty in E.
    apply trimStart_whitespaceOnly, trimEnd_empty, E.
Qed.

Lemma not_blank (text : string) : ~ Spec.whitespaceOnly text -> isBlank text = false.
Proof.
  intros Hn. destruct (isBlank text) eqn:E; [|reflexivity].
  exfalso. apply Hn, isBlank_whitespaceOnly, E.
Qed.

Lemma noIdleWorker_None (s : State) :
  Spec.noIdleWorker s <-> getAvailableWorker s = None.
Proof. unfold getAvailableWorker. symmetry. apply findAvailable_None. Qed.

(** Over capacity and without an idle worker, a call the cache does not
    answer is rejected at once; only [totalRequests] (and an expired cache
    entry) changes. *)
Lemma detect_rejects_when_full (s : State) (c : nat) (text : string)
  (options : DetectionOptions) (now : Z) :
  ~ Spec.whitespaceOnly text -> isLoaded s = true ->
  fst (cacheLookup text now s) = None ->
  Spec.noIdleWorker s ->
  (maxQueueSize (config s) <= length (requestQueue s))%nat ->
  let s' := fst (detect c text options now s) in
  snd (detect c text options now s) = [Threw c (QueueFull (maxQueueSize (config s)))] /\
  requestQueue s' = requestQueue s /\ running s' = running s /\ heap s' = heap s /\
  queuedRequests (stats s') = queuedRequests (stats s).
Proof.
  intros Hnb Hl Hmiss Hidle Hfull. simpl. unfold detect.
  rewrite (not_blank text Hnb), Hl. simpl.
  destruct (cacheLookup text now s) as [cached s1] eqn:E1. simpl in Hmiss. subst cached.
  apply cacheLookup_frame in E1 as [c1 ->].
  apply noIdleWorker_None in Hidle. unfold getAvailableWorker in *. simpl.
  rewrite Hidle. apply Nat.leb_le in Hfull. rewrite Hfull. simpl. auto.
Qed.

Lemma settle_nil (s : State) : settle [] s = (s, []).
Proof. unfold settle. destruct (_ + _)%nat; reflexivity. Qed.

(** Without a cache: an idle worker takes the call at once. *)
Lemma detect_dispatches (s : State) (c : nat) (text : string)
  (options : DetectionOptions) (now : Z) (a : addr) (w w' : Worker.FastTextWorker) :
  ~ Spec.whitespaceOnly text -> isLoaded s = true -> cache s = None ->
  getAvailableWorker s = Some (a, w) ->
  Worker.detect w text = inr (w', Worker.cleanText text) ->
  detect c text options now s =
    (set_running (running s ++ [(a, {| text := text; call := c; options := options;
                                       startTime := now |})])
       (set_heap (<[a := w']> (heap s))
          (set_stats (with_totalRequests (totalRequests (stats s) + 1) (stats s)) s)),
     [Dispatched false c a; Wrote a (Worker.cleanText text)]).
Proof.
  intros Hnb Hl Hc Ha Hd. unfold detect.
  rewrite (not_blank text Hnb), Hl. simpl.
  unfold cacheLookup. rewrite Hc.
  unfold getAvailableWorker in *. simpl. rewrite Ha.
  unfold executeRequest. simpl. rewrite Hd, settle_nil. reflexivity.
Qed.

(** Without a cache and without an idle worker: the call is queued while
    the queue has room. *)
Lemma detect_enqueues (s : State) (c : nat) (text : string)
  (options : DetectionOptions) (now : Z) :
  ~ Spec.whitespaceOnly text -> isLoaded s = true -> cache s = None ->
  getAvailableWorker s = None ->
  (length (requestQueue s) < maxQueueSize (config s))%nat ->
  detect c text options now s =
    (set_requestQueue
       (requestQueue s ++ [{| text := text; call := c; options := options;
                              startTime := now |}])
       (set_stats (with_queuedRequests (queuedRequests (stats s) + 1)
                     (with_totalRequests (totalRequests (stats s) + 1) (stats s))) s),
     [Enqueued c]).
Proof.
  intros Hnb Hl Hc Ha Hlt. unfold detect.
  rewrite (not_blank text Hnb), Hl. simpl.
  unfold cacheLookup. rewrite Hc.
  unfold getAvailableWorker in *. simpl. rewrite Ha.
  apply Nat.leb_gt in Hlt. rewrite Hlt. reflexivity.
Qed.

(** Pool size 1, [maxQueueSize = 2], four calls in one turn: the first is
    dispatched, the next two are queued, the fourth is rejected. *)
Lemma four_calls_on_tiny_queue (t0 t1 t2 t3 : string) (o0 o1 o2 o3 : DetectionOptions)
  (now : Z) :
  ~ Spec.whitespaceOnly t0 -> ~ Spec.whitespaceOnly t1 ->
  ~ Spec.whitespaceOnly t2 -> ~ Spec.whitespaceOnly t3 ->
  let r := run (Spec.loadedSingle Spec.tinyQueue)
               [Detect 0 t0 o0 now; Detect 1 t1 o1 now; Detect 2 t2 o2 now;
                Detect 3 t3 o3 now] in
  snd r = [Dispatched false 0 0; Wrote 0 (Worker.cleanText t0);
           Enqueued 1; Enqueued 2; Threw 3 (QueueFull 2)] /\
  map call (requestQueue (fst r)) = [1%nat; 2%nat] /\
  map (fun x => call (snd x)) (running (fst r)) = [0%nat].
Proof.
  intros H0 H1 H2 H3.
  set (s0 := Spec.loadedSingle Spec.tinyQueue).
  cbn [run step].
  rewrite (detect_dispatches s0 0 t0 o0 now 0
             (Worker.with_isReady true (Worker.start 0 (Worker.new 0 defaultModelPath 5000)))
             (Worker.with_isBusy true
                (Worker.with_isReady true (Worker.start 0 (Worker.new 0 defaultModelPath 5000)))));
    try reflexivity; [|exact H0].
  match goal with |- context [detect 1 t1 o1 now ?s] => set (s1 := s) end.
  rewrite (detect_enqueues s1 1 t1 o1 now); try reflexivity; [|exact H1|vm_compute; lia].
  match goal with |- context [detect 2 t2 o2 now ?s] => set (s2 := s) end.
  rewrite (detect_enqueues s2 2 t2 o2 now); try reflexivity; [|exact H2|vm_compute; lia].
  match goal with |- context [detect 3 t3 o3 now ?s] => set (s3 := s) end.
  assert (Hidle : Spec.noIdleWorker s3) by (apply noIdleWorker_None; reflexivity).
  assert (Hfull : (maxQueueSize (config s3) <= length (requestQueue s3))%nat)
    by (vm_compute; lia).
  destruct (detect_rejects_when_full s3 3 t3 o3 now H3 eq_refl eq_refl Hidle Hfull)
    as (Hacts & Hq & Hr & _).
  destruct (detect 3 t3 o3 now s3) as [s4 acts4]. simpl in Hacts, Hq, Hr. subst acts4.
  simpl. rewrite Hq, Hr. auto.
Qed.

(** C1, as amended. When [detect] is called with a text that is not blank
    and that the cache does not answer, the pool loaded, no worker ready and
    idle, and the queue holding [maxQueueSize] requests or more, it throws
    the queue-full error in the same turn and queues nothing. Hence along
    every run from a new detector the queue never holds more than
    [maxQueueSize] requests; and with pool size 1 and [maxQueueSize = 2],
    of four calls in one turn the first is dispatched, the next two are
    queued and the fourth is rejected with the queue-full error. *)
Theorem detect_fails_fast_when_queue_is_full :
  (forall s c text options now,
     ~ Spec.whitespaceOnly text -> isLoaded s = true ->
     fst (cacheLookup text now s) = None ->
     Spec.noIdleWorker s ->
     (maxQueueSize (config s) <= length (requestQueue s))%nat ->
     snd (detect c text options now s) = [Threw c (QueueFull (maxQueueSize (config s)))] /\
     requestQueue (fst (detect c text options now s)) = requestQueue s /\
     running (fst (detect c text options now s)) = running s) /\
  (forall options s, reachable options s -> Spec.queueBounded s) /\
  (forall t0 t1 t2 t3 o0 o1 o2 o3 now,
     ~ Spec.whitespaceOnly t0 -> ~ Spec.whitespaceOnly t1 ->
     ~ Spec.whitespaceOnly t2 -> ~ Spec.whitespaceOnly t3 ->
     let r := run (Spec.loadedSingle Spec.tinyQueue)
                  [Detect 0 t0 o0 now; Detect 1 t1 o1 now; Detect 2 t2 o2 now;
                   Detect 3 t3 o3 now] in
     snd r = [Dispatched false 0 0; Wrote 0 (Worker.cleanText t0);
              Enqueued 1; Enqueued 2; Threw 3 (QueueFull 2)] /\
     map call (requestQueue (fst r)) = [1%nat; 2%nat] /\
     map (fun x => call (snd x)) (running (fst r)) = [0%nat]).
Proof.
  split; [|split].
  - intros s c text options now Hnb Hl Hmiss Hidle Hfull.
    destruct (detect_rejects_when_full s c text options now Hnb Hl Hmiss Hidle Hfull)
      as (Ha & Hq & Hr & _). auto.
  - intros options s [events <-].
    destruct (run (new options) events) as [s acts] eqn:E. simpl.
    apply run_bounded in E; [exact E|].
    unfold Spec.queueBounded. simpl. lia.
  - apply four_calls_on_tiny_queue.
Qed.

End Admission.

Lemma detect_fails_fast_when_queue_is_full_witness :
  Detector.isLoaded Spec.saturated = true /\
  length (Detector.requestQueue Spec.saturated) = 2%nat /\
  Spec.queueBounded Spec.saturated /\
  snd (Detector.detect 3 "Test 3" Spec.noOptions 0 Spec.saturated)
    = [Detector.Threw 3 (QueueFull 2)] /\
  Detector.requestQueue (fst (Detector.detect 3 "Test 3" Spec.noOptions 0 Spec.saturated))
    = Detector.requestQueue Spec.saturated.
Proof.
  split; [reflexivity|]. split; [reflexivity|].
  split.
  { apply (proj1 (proj2 detect_fails_fast_when_queue_is_full) Spec.tinyQueue).
    exists [Detector.Load true true; Detector.StartTimer 0;
            Detector.Detect 0 "Test 0" Spec.noOptions 0;
            Detector.Detect 1 "Test 1" Spec.noOptions 0;
            Detector.Detect 2 "Test 2" Spec.noOptions 0].
    vm_compute. reflexivity. }
  pose proof (proj1 detect_fails_fast_when_queue_is_full
                Spec.saturated 3%nat "Test 3" Spec.noOptions 0) as Hw.
  destruct Hw as (Ha & Hq & _).
  - intros Hws. inversion Hws as [|? ? Hc _]. discriminate Hc.
  - reflexivity.
  - reflexivity.
  - apply noIdleWorker_None. reflexivity.
  - vm_compute. lia.
  - split; [exact Ha | exact Hq].
Defined.

(** C1 as stated fails: with the cache enabled, a call for a cached text is
    answered from the cache although no worker is idle and the queue is
    full; it is not rejected. *)
Lemma detect_full_queue_cache_hit :
  Detector.isLoaded Spec.saturatedCached = true /\
  Spec.noIdleWorker Spec.saturatedCached /\
  length (Detector.requestQueue Spec.saturatedCached)
    = Detector.maxQueueSize (Detector.config Spec.saturatedCached) /\
  Detector.detect 3 "a" Spec.noOptions 3 Spec.saturatedCached
    = (Spec.saturatedCached,
       [Detector.Returned 3
          {| predictions := [Spec.pred "en" (9 # 10)];
             primary := Some (Spec.pred "en" (9 # 10)) |}]) /\
  snd (Detector.detect 3 "a" Spec.noOptions 3 Spec.saturatedCached)
    <> [Detector.Threw 3 (QueueFull 1)].
Proof.
  split; [vm_compute; reflexivity|].
  split; [apply noIdleWorker_None; vm_compute; reflexivity|].
  split; [vm_compute; reflexivity|].
  split; [vm_compute; reflexivity|].
  vm_compute. discriminate.
Qed.

(** ** Where restarts come from *)

Section RestartOrigin.

Local Open Scope list_scope.
Import Detector.
Context `{Builtins}.

Lemma onRequestTimer_works (a : addr) (s s' : State) (acts : list Action) :
  onRequestTimer a s = (s', acts) -> Spec.works s acts s'.
Proof.
  unfold onRequestTimer. intros E.
  destruct (extract _ _) as [[[a0 request] rest]|];
    [|injection E as <- <-; apply works_same; try reflexivity; apply undisturbed_refl].
  destruct (heap s !! a) as [w|] eqn:Hw;
    [|injection E as <- <-; apply works_same; try reflexivity; apply undisturbed_refl].
  simpl in E. apply executeRequest_catch_works in E as [(Hd & Hu & Hp) _]; [|discriminate].
  split; [|split]; [| |exact Hp].
  - eapply drains_pre; [exact Hd|..]; reflexivity.
  - eapply undisturbed_trans; [|exact Hu].
    unfold Spec.undisturbed. simpl.
    rewrite (vitals_insert (heap s) a w (Worker.with_isBusy false w) Hw eq_refl).
    repeat split; reflexivity.
Qed.

Lemma dormant_same (s s' : State) :
  starting s' = starting s -> retryTimers s' = retryTimers s ->
  Spec.dormant s -> Spec.dormant s'.
Proof. unfold Spec.dormant. intros -> ->. auto. Qed.

Lemma undisturbed_dormant (s s' : State) :
  Spec.undisturbed s s' -> Spec.dormant s -> Spec.dormant s'.
Proof.
  intros (_ & _ & _ & _ & Hst & _ & _ & Hrt & _). now apply dormant_same.
Qed.

Lemma extract_In {A : Type} (f : A -> bool) (l : list A) (x : A) (rest : list A) :
  extract f l = Some (x, rest) -> In x l /\ (forall y, In y rest -> In y l).
Proof.
  revert x rest. induction l as [|z l IH]; simpl; intros x rest; [discriminate|].
  destruct (f z).
  - intros [= <- <-]. auto.
  - destruct (extract f l) as [[y rest']|]; [|discriminate].
    intros [= <- <-]. destruct (IH y rest' eq_refl) as [Hy Hrest].
    split; [auto|]. intros y0 [<-|Hin]; auto.
Qed.

Lemma stopWorkers_dormant (ws : list addr) :
  forall (s s' : State) (acts : list Action),
  stopWorkers ws s = (s', acts) -> Spec.dormant s -> Spec.dormant s'.
Proof.
  induction ws as [|a ws IH]; intros s s' acts; simpl.
  - intros [= <- <-]. auto.
  - destruct (stopWorker a s) as [s1 acts1] eqn:E1.
    destruct (stopWorkers ws s1) as [s2 acts2] eqn:E2. intros [= <- <-] Hd.
    eapply IH; [exact E2|].
    unfold stopWorker in E1. destruct (heap s !! a) as [w|].
    + destruct (Worker.stopSignals w); injection E1 as <- <-;
        (eapply dormant_same; [| |exact Hd]; reflexivity).
    + now injection E1 as <- <-.
Qed.

Lemma load_catch_dormant (e : Error) (s s' : State) (acts : list Action) :
  load_catch e s = (s', acts) -> Spec.dormant s -> Spec.dormant s'.
Proof.
  unfold load_catch. intros E Hd.
  destruct (stopWorkers _ _) as [s2 acts2] eqn:E2. injection E as <- <-.
  apply stopWorkers_dormant in E2; [|eapply dormant_same; [| |exact Hd]; reflexivity].
  eapply dormant_same; [| |exact E2]; reflexivity.
Qed.

Lemma processQueue_dormant (s s' : State) (acts : list Action) :
  processQueue s = (s', acts) -> Spec.dormant s -> Spec.dormant s'.
Proof.
  intros E. apply processQueue_works in E as ((_ & Hu & _) & _).
  now apply undisturbed_dormant.
Qed.

Lemma load_then_dormant (s s' : State) (acts : list Action) :
  load_then s = (s', acts) -> Spec.dormant s -> Spec.dormant s'.
Proof.
  unfold load_then. intros E Hd.
  destruct (processQueue _) as [s4 acts4] eqn:E4. injection E as <- <-.
  eapply processQueue_dormant; [exact E4|].
  eapply dormant_same; [| |exact Hd]; reflexivity.
Qed.

Lemma startWorker_dormant (a : addr) (generation : nat) (s s' : State)
  (acts : list Action) :
  startWorker a (ByLoad generation) s = (s', acts) -> Spec.dormant s -> Spec.dormant s'.
Proof.
  unfold startWorker. intros E [Hr Hs].
  destruct (heap s !! a) as [w|]; injection E as <- <-; [|split; auto].
  split; [exact Hr|]. simpl. apply Forall_app. split; [exact Hs|].
  constructor; [exact I|constructor].
Qed.

Lemma createWorkers_dormant (n : nat) :
  forall (i generation : nat) (s s' : State) (pids : list nat) (acts : list Action),
  createWorkers n i generation s = (s', pids, acts) -> Spec.dormant s -> Spec.dormant s'.
Proof.
  induction n as [|n IH]; intros i generation s s' pids acts; simpl.
  - intros [= <- <- <-]. auto.
  - destruct (startWorker _ _ _) as [s2 acts2] eqn:E2.
    destruct (createWorkers n (S i) generation s2) as [[s3 pids3] acts3] eqn:E3.
    intros [= <- <- <-] Hd.
    eapply IH; [exact E3|]. eapply startWorker_dormant; [exact E2|].
    eapply dormant_same; [| |exact Hd]; reflexivity.
Qed.

Lemma load_dormant (modelExists binaryFound : bool) (s s' : State) (acts : list Action) :
  load modelExists binaryFound s = (s', acts) -> Spec.dormant s -> Spec.dormant s'.
Proof.
  unfold load. intros E Hd.
  destruct (isLoading s); [now injection E as <- <-|].
  destruct (isLoaded s); [now injection E as <- <-|].
  assert (Hd1 : Spec.dormant (set_isLoading true s))
    by (eapply dormant_same; [| |exact Hd]; reflexivity).
  destruct (negb modelExists); [eapply load_catch_dormant; eauto|].
  destruct (negb binaryFound); [eapply load_catch_dormant; eauto|].
  destruct (createWorkers _ _ _ _) as [[s2 pids] acts2] eqn:E2.
  apply createWorkers_dormant in E2;
    [|eapply dormant_same; [| |exact Hd]; reflexivity].
  destruct pids as [|p pids].
  - destruct (load_then s2) as [s3 acts3] eqn:E3. injection E as <- <-.
    eapply load_then_dormant; eauto.
  - injection E as <- <-. eapply dormant_same; [| |exact E2]; reflexivity.
Qed.

Lemma onStartTimer_dormant (a : addr) (s s' : State) (acts : list Action) :
  onStartTimer a s = (s', acts) -> Spec.dormant s -> Spec.dormant s'.
Proof.
  unfold onStartTimer. intros E Hd.
  destruct (extract _ _) as [[ps rest]|] eqn:Ex; [|now injection E as <- <-].
  destruct (heap s !! a) as [w|]; [|now injection E as <- <-].
  destruct (Worker.onStartTimer w) as [w' r].
  apply extract_In in Ex as [Hps Hrest].
  destruct Hd as [Hr Hs].
  assert (Hown : match ps_owner ps with ByLoad _ => True | ByRestart _ => False end)
    by (rewrite List.Forall_forall in Hs; now apply Hs).
  assert (Hd1 : Spec.dormant (set_heap (<[a := w']> (heap s)) (set_starting rest s))).
  { split; [exact Hr|]. simpl. rewrite List.Forall_forall in *.
    intros x Hx. apply Hs, Hrest, Hx. }
  destruct (ps_settled ps); [now injection E as <- <-|].
  destruct (ps_owner ps) as [generation|workerId] eqn:Eo; [|contradiction].
  destruct r as [e|].
  - unfold start_rejected in E. rewrite Eo in E.
    destruct (loadJoin _); [|now injection E as <- <-].
    destruct (Nat.eqb _ _); [|now injection E as <- <-].
    eapply load_catch_dormant; eauto.
  - unfold start_resolved in E. rewrite Eo in E.
    destruct (loadJoin _); [|now injection E as <- <-].
    destruct (Nat.eqb _ _); [|now injection E as <- <-].
    destruct (List.filter _ _).
    + eapply load_then_dormant; eauto.
    + injection E as <- <-. eapply dormant_same; [| |exact Hd1]; reflexivity.
Qed.

Lemma onStdoutData_dormant (a : addr) (data : string) (now : Z)
  (s s' : State) (acts : list Action) :
  onStdoutData a data now s = (s', acts) -> Spec.dormant s -> Spec.dormant s'.
Proof.
  unfold onStdoutData. intros E Hd.
  destruct (extract _ _) as [[[a0 request] rest]|]; [|now injection E as <- <-].
  destruct (heap s !! a) as [w|]; [|now injection E as <- <-].
  destruct (Worker.onData w data) as [w' result].
  unfold executeRequest_then in E.
  destruct (detect_then _ _ _ _) as [s2 acts2] eqn:E2.
  destruct (processQueue s2) as [s3 acts3] eqn:E3. injection E as <- <-.
  eapply processQueue_dormant; [exact E3|].
  unfold detect_then in E2.
  destruct (cache _), (primary result); injection E2 as <- <-;
    (eapply dormant_same; [| |exact Hd]; reflexivity).
Qed.

Lemma onWriteError_dormant (a : addr) (s s' : State) (acts : list Action) :
  onWriteError a s = (s', acts) -> Spec.dormant s -> Spec.dormant s'.
Proof.
  unfold onWriteError. intros E Hd.
  destruct (extract _ _) as [[[a0 request] rest]|]; [|now injection E as <- <-].
  destruct (heap s !! a) as [w|]; [|now injection E as <- <-].
  apply executeRequest_catch_works in E as [(_ & Hu & _) _]; [|discriminate].
  eapply undisturbed_dormant; [exact Hu|].
  eapply dormant_same; [| |exact Hd]; reflexivity.
Qed.

Lemma detect_dormant (c : nat) (text : string) (options : DetectionOptions) (now : Z)
  (s s' : State) (acts : list Action) :
  detect c text options now s = (s', acts) -> Spec.dormant s -> Spec.dormant s'.
Proof.
  unfold detect. intros E Hd.
  destruct (isBlank text); [now injection E as <- <-|].
  destruct (negb (isLoaded s)); [now injection E as <- <-|].
  destruct (cacheLookup text now s) as [cached s1] eqn:E1.
  apply cacheLookup_frame in E1 as [c1 ->].
  assert (Hd1 : Spec.dormant (set_cache c1 s))
    by (eapply dormant_same; [| |exact Hd]; reflexivity).
  destruct cached as [result|]; [now injection E as <- <-|].
  set (s2 := set_stats _ (set_cache c1 s)) in E.
  set (request := {| text := text; call := c; options := options; startTime := now |}) in E.
  assert (Hd2 : Spec.dormant s2) by (eapply dormant_same; [| |exact Hd]; reflexivity).
  destruct (getAvailableWorker s2) as [[a w]|] eqn:Ea.
  - destruct (executeRequest a w request s2) as [[s3 acts3] dfd] eqn:E3.
    destruct (settle dfd s3) as [s4 acts4] eqn:E4. injection E as <- <-.
    apply findAvailable_Some in Ea as (_ & Hw & _).
    apply executeRequest_works in E3 as ((_ & Hu3 & _) & _ & _ & Hok & _); [|exact Hw].
    apply settle_works in E4 as ((_ & Hu4 & _) & _); [|exact Hok].
    eapply undisturbed_dormant; [exact Hu4|]. eapply undisturbed_dormant; eauto.
  - destruct (Nat.leb _ _); injection E as <- <-; [exact Hd2|].
    eapply dormant_same; [| |exact Hd2]; reflexivity.
Qed.

Lemma unload_dormant (s s' : State) (acts : list Action) :
  unload s = (s', acts) -> Spec.dormant s -> Spec.dormant s'.
Proof.
  unfold unload. intros E Hd.
  destruct (stopWorkers _ _) as [s3 acts3] eqn:E3. injection E as <- <-.
  apply stopWorkers_dormant in E3; [|eapply dormant_same; [| |exact Hd]; reflexivity].
  eapply dormant_same; [| |exact E3]; reflexivity.
Qed.

(** Without an [error] or [exit] event, a transition keeps the detector
    dormant and does not run [restartWorker]. *)
Lemma step_dormant (s s' : State) (e : Event) (acts : list Action) :
  Spec.isFailure e = false -> step s e = (s', acts) -> Spec.dormant s ->
  Spec.dormant s' /\ forallb (fun a => negb (Spec.isRestarting a)) acts = true.
Proof.
  intros He E Hd. destruct e; simpl in He, E; try discriminate.
  - split; [eapply load_dormant; eauto | now apply load_tidy in E as [_ Hr]].
  - split; [eapply unload_dormant; eauto | now apply unload_flows in E as (_ & _ & Hr)].
  - split; [eapply detect_dormant; eauto | now apply detect_flows in E as (_ & _ & Hr & _)].
  - split; [eapply onStdoutData_dormant; eauto | now apply onStdoutData_tidy in E as [_ Hr]].
  - apply onRequestTimer_works in E as (_ & Hu & Hp).
    split; [eapply undisturbed_dormant; eauto|].
    rewrite forallb_forall in *. intros x Hx. specialize (Hp x Hx).
    destruct x; simpl in *; congruence.
  - split; [eapply onWriteError_dormant; eauto | now apply onWriteError_tidy in E as [_ Hr]].
  - split; [eapply onStartTimer_dormant; eauto | now apply onStartTimer_tidy in E as [_ Hr]].
  - unfold onRetryTimer in E. destruct Hd as [Hr Hs]. rewrite Hr in E. simpl in E.
    injection E as <- <-. split; [split; auto|reflexivity].
  - split; [|now apply onKillTimer_tidy in E as [_ Hr]].
    unfold onKillTimer in E.
    destruct (extract _ _) as [[x rest]|]; [|now injection E as <- <-].
    destruct (heap s !! worker) as [w|]; injection E as <- <-; [|exact Hd].
    eapply dormant_same; [| |exact Hd]; reflexivity.
Qed.

Lemma run_dormant (events : list Event) :
  forall (s s' : State) (acts : list Action),
  forallb (fun e => negb (Spec.isFailure e)) events = true ->
  run s events = (s', acts) -> Spec.dormant s ->
  Spec.dormant s' /\ forallb (fun a => negb (Spec.isRestarting a)) acts = true.
Proof.
  induction events as [|e events IH]; intros s s' acts Hall; simpl.
  - intros [= <- <-]. auto.
  - destruct (step s e) as [s1 acts1] eqn:E1.
    destruct (run s1 events) as [s2 acts2] eqn:E2. intros [= <- <-] Hd.
    simpl in Hall. apply andb_true_iff in Hall as [He Hrest].
    apply negb_true_iff in He.
    destruct (step_dormant _ _ _ _ He E1 Hd) as [Hd1 Hr1].
    destruct (IH _ _ _ Hrest E2 Hd1) as [Hd2 Hr2].
    split; [exact Hd2|]. rewrite forallb_app, Hr1, Hr2. reflexivity.
Qed.

End RestartOrigin.

(** ** Timeouts and restarts *)

Section Timeout.

Local Open Scope list_scope.
Import Detector.
Context `{Builtins}.

(** C7. A timeout makes the worker reject with the timeout error, clears
    [isBusy], and leaves the counter of processed requests, the process and
    [isReady] as they are. In the detector the call in flight is rejected
    with that error; the transition spawns and signals no process, does not
    run [restartWorker], arms no timer, and leaves the process, the
    readiness and the counter of every worker unchanged. [restartWorker]
    runs only in transitions for the [error] and [exit] events of a process
    and for the retry timer that a failed restart arms; hence along a run
    from a new detector in which no process emits [error] or [exit],
    [restartWorker] never runs, whatever timers fire. *)
Theorem timeout_does_not_restart_worker :
  (forall w,
     snd (Worker.onTimeout w) = WorkerTimeout (Worker.id w) /\
     Worker.isBusy (fst (Worker.onTimeout w)) = false /\
     Worker.processedRequests (fst (Worker.onTimeout w)) = Worker.processedRequests w /\
     Worker.process (fst (Worker.onTimeout w)) = Worker.process w /\
     Worker.isReady (fst (Worker.onTimeout w)) = Worker.isReady w) /\
  (forall s a request rest w,
     extract (fun r => Nat.eqb (fst r) a) (running s) = Some ((a, request), rest) ->
     heap s !! a = Some w ->
     head (snd (step s (RequestTimer a)))
       = Some (Threw (call request) (WorkerTimeout (Worker.id w)))) /\
  (forall s a,
     let s' := fst (step s (RequestTimer a)) in
     let acts := snd (step s (RequestTimer a)) in
     forallb (fun x => negb (Spec.touchesProcess x)) acts = true /\
     map Spec.vitals (heap s') = map Spec.vitals (heap s) /\
     starting s' = starting s /\ retryTimers s' = retryTimers s /\
     killTimers s' = killTimers s /\ workers s' = workers s) /\
  (forall s e workerId,
     In (Restarting workerId) (snd (step s e)) ->
     match e with
     | ProcessError _ | ProcessExit _ | RetryTimer _ => True
     | _ => False
     end) /\
  (forall options events workerId,
     forallb (fun e => negb (Spec.isFailure e)) events = true ->
     ~ In (Restarting workerId) (snd (run (new options) events))).
Proof.
  split; [|split; [|split; [|split]]].
  - intros w. repeat split.
  - intros s a request rest w Hrun Hw. simpl.
    unfold onRequestTimer. rewrite Hrun, Hw.
    unfold Worker.onTimeout, executeRequest_catch, settle. simpl.
    destruct (processQueueLoop _) as [[s2 acts2] new].
    destruct (runCatches _ _ _) as [s3 acts3]. reflexivity.
  - intros s a. simpl. destruct (onRequestTimer a s) as [s' acts] eqn:E.
    apply onRequestTimer_works in E as (_ & Hu & Hp).
    destruct Hu as (_ & Hws & _ & _ & Hst & _ & _ & Hrt & Hkt & _ & Hv).
    simpl. repeat split; assumption.
  - intros s e workerId Hin. destruct (step s e) as [s' acts] eqn:E.
    eapply step_restarting; eauto.
  - intros options events workerId Hall.
    destruct (run (new options) events) as [s acts] eqn:E. simpl.
    apply run_dormant in E as [_ Hcalm]; [now apply calm_not_in|exact Hall|].
    split; [reflexivity|constructor].
Qed.

End Timeout.

Lemma timeout_does_not_restart_worker_witness :
  head (snd (Detector.step Spec.saturated (Detector.RequestTimer 0)))
    = Some (Detector.Threw 0 (WorkerTimeout 0)) /\
  snd (Detector.step Spec.saturated (Detector.RequestTimer 0))
    = [Detector.Threw 0 (WorkerTimeout 0);
       Detector.Dispatched true 1 0; Detector.Wrote 0 "Test 1"] /\
  ~ In (Detector.Restarting 0)
       (snd (Detector.run (Detector.new Spec.tinyQueue) Spec.timeoutRun)).
Proof.
  split; [|split; [reflexivity|]];
    [|apply (proj2 (proj2 (proj2 (proj2 timeout_does_not_restart_worker)))
               Spec.tinyQueue Spec.timeoutRun 0%nat); reflexivity].
  apply (proj1 (proj2 timeout_does_not_restart_worker) Spec.saturated 0%nat
           {| Detector.text := "Test 0"; Detector.call := 0;
              Detector.options := Spec.noOptions; Detector.startTime := 0 |}
           []
           (Worker.with_isBusy true
              (Worker.with_isReady true
                 (Worker.start 0 (Worker.new 0 Detector.defaultModelPath 5000)))));
    reflexivity.
Defined.

(** ** Shutdown ([unload]) *)

Section Unload.

Local Open Scope list_scope.
Import Detector.
Context `{Builtins}.

Lemma stop_stop (w : Worker.FastTextWorker) : Worker.stop (Worker.stop w) = Worker.stop w.
Proof. unfold Worker.stop. destruct (Worker.process w) eqn:E; simpl; [reflexivity|now rewrite E]. Qed.

Lemma stop_releases (w : Worker.FastTextWorker) :
  Worker.process (Worker.stop w) = None /\
  (Worker.process w <> None -> Worker.isReady (Worker.stop w) = false).
Proof.
  unfold Worker.stop. destruct (Worker.process w) eqn:E; simpl; [auto|].
  split; [exact E|congruence].
Qed.

Lemma stopWorker_heap (a0 : addr) (s s' : State) (acts : list Action) :
  stopWorker a0 s = (s', acts) ->
  forall a w, heap s !! a = Some w ->
    heap s' !! a = Some (if Nat.eqb a a0 then Worker.stop w else w).
Proof.
  unfold stopWorker. intros E a w Hw.
  destruct (heap s !! a0) as [w0|] eqn:E0.
  - assert (Hh : heap s' = <[a0 := Worker.stop w0]> (heap s))
      by (destruct (Worker.stopSignals w0); injection E as <- <-; reflexivity).
    rewrite Hh. destruct (Nat.eqb a a0) eqn:Ea.
    + apply Nat.eqb_eq in Ea. subst a0. rewrite Hw in E0. injection E0 as <-.
      apply list_lookup_insert_eq. eapply lookup_lt_Some; eauto.
    + apply Nat.eqb_neq in Ea. rewrite list_lookup_insert_ne by congruence. exact Hw.
  - injection E as <- <-. destruct (Nat.eqb a a0) eqn:Ea; [|exact Hw].
    apply Nat.eqb_eq in Ea. congruence.
Qed.

Lemma stopWorkers_heap (ws : list addr) :
  forall (s s' : State) (acts : list Action),
  stopWorkers ws s = (s', acts) ->
  (forall a w, heap s !! a = Some w ->
     (In a ws -> heap s' !! a = Some (Worker.stop w)) /\
     (~ In a ws -> heap s' !! a = Some w)) /\
  Forall (fun x => exists a, x = Terminated a) acts /\
  isLoaded s' = isLoaded s /\ stats s' = stats s.
Proof.
  induction ws as [|a0 ws IH]; intros s s' acts; simpl.
  - intros [= <- <-]. repeat split; auto. intros [].
  - destruct (stopWorker a0 s) as [s1 acts1] eqn:E1.
    destruct (stopWorkers ws s1) as [s2 acts2] eqn:E2. intros [= <- <-].
    pose proof (stopWorker_heap a0 s s1 acts1 E1) as H1.
    apply IH in E2 as (H2 & Ha2 & Hl2 & Hs2).
    assert (Hfr : Forall (fun x => exists a, x = Terminated a) acts1 /\
                  isLoaded s1 = isLoaded s /\ stats s1 = stats s).
    { unfold stopWorker in E1. destruct (heap s !! a0) as [w0|].
      - destruct (Worker.stopSignals w0); injection E1 as <- <-; repeat split; eauto.
      - injection E1 as <- <-. repeat split; auto. }
    destruct Hfr as (Ha1 & Hl1 & Hs1).
    split; [|split; [apply Forall_app; auto|split; congruence]].
    intros a w Hw. specialize (H1 a w Hw).
    destruct (Nat.eqb a a0) eqn:Ea.
    + apply Nat.eqb_eq in Ea. subst a0.
      destruct (H2 a (Worker.stop w) H1) as [Hin Hout].
      split; [intros _|intros Hn; exfalso; apply Hn; now left].
      destruct (in_dec Nat.eq_dec a ws) as [Hi|Hi].
      * rewrite (Hin Hi). now rewrite stop_stop.
      * exact (Hout Hi).
    + apply Nat.eqb_neq in Ea. destruct (H2 a w H1) as [Hin Hout].
      split.
      * intros [Heq|Hi]; [congruence|auto].
      * intros Hn. apply Hout. intros Hi. apply Hn. now right.
Qed.

(** C3. [unload] clears the loaded flag, rejects every queued request with
    the shutting-down error (each once, in queue order; besides these
    rejections it only signals processes, so no request is dropped silently
    and none is resolved), applies [stop] to every worker of the pool, which
    releases its process, and empties the pool. On a detector that was never
    loaded it changes nothing and rejects nothing. *)
Theorem unload_rejects_queued_and_stops_workers :
  (forall s,
     let s' := fst (unload s) in
     let acts := snd (unload s) in
     isLoaded s' = false /\ requestQueue s' = [] /\ workers s' = [] /\
     (exists signals,
        acts = map (fun request => Threw (call request) ShuttingDown) (requestQueue s)
                 ++ signals /\
        Forall (fun x => exists a, x = Terminated a) signals) /\
     (forall c v, ~ In (Returned c v) acts) /\
     (forall a w, In a (workers s) -> heap s !! a = Some w ->
        heap s' !! a = Some (Worker.stop w) /\
        Worker.process (Worker.stop w) = None /\
        (Worker.process w <> None -> Worker.isReady (Worker.stop w) = false))) /\
  (forall options, unload (new options) = (new options, [])).
Proof.
  split; [|reflexivity].
  intros s. unfold unload. simpl.
  destruct (stopWorkers _ _) as [s3 acts3] eqn:E3. simpl.
  pose proof (stopWorkers_tidy _ _ _ _ E3) as ((_ & taken & Hq & _) & _).
  apply stopWorkers_heap in E3 as (Hh & Ha & Hl & _). simpl in *.
  destruct taken; [|discriminate]. simpl in Hq.
  split; [exact Hl|]. split; [auto|]. split; [reflexivity|].
  split; [eexists; split; [reflexivity|exact Ha]|]. split.
  - intros c v Hin. apply in_app_or in Hin as [Hin|Hin].
    + unfold rejectQueued in Hin. apply in_map_iff in Hin as (r & Hr & _). discriminate.
    + rewrite List.Forall_forall in Ha. destruct (Ha _ Hin) as [a Hx]. discriminate.
  - intros a w Hin Hw. destruct (Hh a w Hw) as [Hs _].
    split; [auto|apply stop_releases].
Qed.

End Unload.

Lemma unload_rejects_queued_and_stops_workers_witness :
  snd (Detector.unload Spec.saturated)
    = [Detector.Threw 1 ShuttingDown; Detector.Threw 2 ShuttingDown; Detector.Terminated 0] /\
  (Detector.heap (fst (Detector.unload Spec.saturated)) !! 0%nat
     = Some (Worker.stop
               (Worker.with_isBusy true
                  (Worker.with_isReady true
                     (Worker.start 0 (Worker.new 0 Detector.defaultModelPath 5000))))) /\
   Worker.process
     (Worker.stop
        (Worker.with_isBusy true
           (Worker.with_isReady true
              (Worker.start 0 (Worker.new 0 Detector.defaultModelPath 5000))))) = None /\
   (Worker.process
      (Worker.with_isBusy true
         (Worker.with_isReady true
            (Worker.start 0 (Worker.new 0 Detector.defaultModelPath 5000)))) <> None ->
    Worker.isReady
      (Worker.stop
         (Worker.with_isBusy true
            (Worker.with_isReady true
               (Worker.start 0 (Worker.new 0 Detector.defaultModelPath 5000))))) = false)).
Proof.
  split; [reflexivity|].
  destruct (proj1 unload_rejects_queued_and_stops_workers Spec.saturated)
    as (_ & _ & _ & _ & _ & Hstop).
  apply Hstop.
  - simpl. left. reflexivity.
  - reflexivity.
Defined.

(** ** The counter of queued requests *)

Section QueuedCounter.

Local Open Scope list_scope.
Import Detector.
Context `{Builtins}.

Lemma unload_stats (s : State) :
  stats (fst (unload s)) = stats s /\ requestQueue (fst (unload s)) = [].
Proof.
  unfold unload. destruct (stopWorkers _ _) as [s3 acts3] eqn:E3. simpl.
  pose proof (stopWorkers_tidy _ _ _ _ E3) as ((_ & taken & Hq & _) & _).
  apply stopWorkers_heap in E3 as (_ & _ & _ & Hs). simpl in *.
  destruct taken; [|discriminate]. simpl in Hq. auto.
Qed.

(** C2 fails on the code, in [unload] only. Along a run without [unload]
    the counter [queuedRequests] equals the length of the queue. [unload]
    empties the queue and leaves the statistics as they are: after three
    calls on a pool of one worker (one dispatched, two queued), [unload]
    rejects the two queued requests and [queuedRequests] is still 2, while
    the queue length reported next to it is 0. *)
Theorem unload_leaves_queuedRequests_stale :
  (forall options events,
     Forall (fun e => e <> Unload) events ->
     queuedRequests (stats (fst (run (new options) events)))
       = Z.of_nat (length (requestQueue (fst (run (new options) events))))) /\
  (forall s, stats (fst (unload s)) = stats s /\ requestQueue (fst (unload s)) = []) /\
  (snd (unload Spec.saturated)
     = [Threw 1 ShuttingDown; Threw 2 ShuttingDown; Terminated 0] /\
   requestQueue (fst (unload Spec.saturated)) = [] /\
   queuedRequests (getStats (fst (unload Spec.saturated))) = 2 /\
   queueLength (getStats (fst (unload Spec.saturated))) = 0).
Proof.
  split; [|split].
  - intros options events Hall.
    destruct (run (new options) events) as [s acts] eqn:E. simpl.
    apply run_counter in E; [|exact Hall]. simpl in E. lia.
  - apply unload_stats.
  - split; [vm_compute; reflexivity|]. split; [vm_compute; reflexivity|].
    split; vm_compute; reflexivity.
Qed.

End QueuedCounter.

Lemma unload_leaves_queuedRequests_stale_witness :
  let events := [Detector.Load true true; Detector.StartTimer 0;
                 Detector.Detect 0 "Test 0" Spec.noOptions 0;
                 Detector.Detect 1 "Test 1" Spec.noOptions 0;
                 Detector.Detect 2 "Test 2" Spec.noOptions 0] in
  queuedRequests (Detector.stats (fst (Detector.run (Detector.new Spec.tinyQueue) events)))
    = Z.of_nat (length (Detector.requestQueue
                          (fst (Detector.run (Detector.new Spec.tinyQueue) events)))).
Proof.
  intros events.
  apply (proj1 unload_leaves_queuedRequests_stale Spec.tinyQueue events).
  repeat constructor; discriminate.
Defined.
(** ** The cache in front of the pool *)

Section CachedDetect.

Local Open Scope list_scope.
Import Detector.
Context `{Builtins}.

Lemma set_cache_same (s : State) : set_cache (cache s) s = s.
Proof. destruct s; reflexivity. Qed.

Lemma cache_set_get (c : Cache.DetectionCache) (text : string) (r : DetectionResult)
  (now : Z) :
  Cache.map_get text (Cache.cache (Cache.set c text r now))
    = Some {| Cache.result := r; Cache.timestamp := now |}.
Proof. unfold Cache.set. simpl. apply map_get_set_same. Qed.

Lemma cache_set_ttl (c : Cache.DetectionCache) (text : string) (r : DetectionResult)
  (now : Z) :
  Cache.ttl (Cache.set c text r now) = Cache.ttl c.
Proof.
  unfold Cache.set, Cache.evict.
  destruct (Nat.leb _ _); [|reflexivity].
  destruct (Cache.cache c) as [|[k e] rest]; [reflexivity|].
  destruct (JS.truthy k); reflexivity.
Qed.

(** C10. When the worker answers a call of [detect] that missed the cache,
    the call returns the options applied to the raw result; the raw result
    itself is stored under the text as it was passed, if it has a primary
    prediction, and otherwise the cache is left alone. While the entry has
    not expired, a later call for the same text with any options is answered
    from the cache, without touching the pool, with those options applied to
    the raw result: the value the miss path returns for them. *)
Theorem cache_keeps_raw_result
  (s : State) (a : addr) (data : string) (t1 : Z)
  (request : QueuedRequest) (rest : list (addr * QueuedRequest))
  (w : Worker.FastTextWorker) (c : Cache.DetectionCache) :
  extract (fun r => Nat.eqb (fst r) a) (running s) = Some ((a, request), rest) ->
  heap s !! a = Some w ->
  cache s = Some c ->
  let raw := snd (Worker.onData w data) in
  let s1 := fst (onStdoutData a data t1 s) in
  In (Returned (call request) (applyOptions raw (options request)))
     (snd (onStdoutData a data t1 s)) /\
  (primary raw = None -> cache s1 = Some c) /\
  (primary raw <> None ->
     cache s1 = Some (Cache.set c (text request) raw t1) /\
     (forall call2 options2 t2,
        ~ Spec.whitespaceOnly (text request) -> isLoaded s = true ->
        t2 - t1 <= Cache.ttl c ->
        detect call2 (text request) options2 t2 s1
          = (s1, [Returned call2 (applyOptions raw options2)]))).
Proof.
  intros Hrun Hw Hc raw s1. subst raw s1.
  unfold onStdoutData. rewrite Hrun, Hw.
  destruct (Worker.onData w data) as [w' raw] eqn:Ed. simpl.
  unfold executeRequest_then.
  destruct (detect_then _ _ _ _) as [s2 acts2] eqn:E2.
  destruct (processQueue s2) as [s3 acts3] eqn:E3. simpl.
  apply processQueue_works in E3 as ((_ & Hu & _) & _).
  destruct Hu as (Hcache & _ & Hloaded & _).
  unfold detect_then in E2. simpl in E2. rewrite Hc in E2.
  split; [|split].
  - destruct (primary raw); injection E2 as <- <-; simpl; auto.
  - intros Hnone. rewrite Hnone in E2. injection E2 as <- <-.
    rewrite Hcache. simpl. exact Hc.
  - intros Hsome. destruct (primary raw) as [p|] eqn:Ep; [|congruence].
    injection E2 as <- <-. simpl in Hcache, Hloaded.
    split; [exact Hcache|].
    intros call2 options2 t2 Hnb Hl Hfresh.
    unfold detect. rewrite (not_blank _ Hnb), Hloaded, Hl. simpl.
    unfold cacheLookup. rewrite Hcache. unfold Cache.get.
    rewrite cache_set_get. cbn [Cache.timestamp Cache.result].
    rewrite cache_set_ttl.
    destruct (t2 - t1 >? Cache.ttl c) eqn:Et; [apply Z.gtb_lt in Et; lia|].
    rewrite <- Hcache, set_cache_same. reflexivity.
Qed.

End CachedDetect.

Lemma cache_keeps_raw_result_witness :
  let request := {| Detector.text := "a"; Detector.call := 0;
                    Detector.options := Spec.noOptions; Detector.startTime := 0 |} in
  let w := Worker.with_isBusy true
             (Worker.with_isReady true
                (Worker.start 0 (Worker.new 0 Detector.defaultModelPath 5000))) in
  let raw := snd (Worker.onData w "__label__en 0.9") in
  let s1 := fst (Detector.onStdoutData 0 "__label__en 0.9" 1 Spec.awaitingCached) in
  raw = {| predictions := [Spec.pred "en" (9 # 10)];
           primary := Some (Spec.pred "en" (9 # 10)) |} /\
  Detector.detect 1 "a"
    {| threshold := Some (JS.Num (1 # 2)); topK := Some 1;
       includeLanguageName := Some true; returnAll := None |} 2 s1
  = (s1, [Detector.Returned 1
            {| predictions := [{| language := "en"; confidence := JS.Num (9 # 10);
                                  languageName := Some "English" |}];
               primary := Some {| language := "en"; confidence := JS.Num (9 # 10);
                                  languageName := Some "English" |} |}]).
Proof.
  intros request w raw s1. split; [reflexivity|].
  destruct (cache_keeps_raw_result Spec.awaitingCached 0%nat "__label__en 0.9" 1
              request [] w (Cache.new 1000 3600000) eq_refl eq_refl eq_refl)
    as (_ & _ & Hhit).
  destruct Hhit as [_ Hhit]; [discriminate|].
  apply (Hhit 1%nat
           {| threshold := Some (JS.Num (1 # 2)); topK := Some 1;
              includeLanguageName := Some true; returnAll := None |} 2).
  - intros Hws. inversion Hws as [|? ? Hc _]. discriminate Hc.
  - reflexivity.
  - simpl. lia.
Defined.

Lemma queued_requests_leave_in_fifo_order_witness :
  let acts := snd (Detector.run (Detector.new Spec.tinyQueue) Spec.busyRun) in
  Spec.enqueued acts = [1%nat; 2%nat] /\
  Spec.departed acts = [1%nat] /\
  Spec.departed acts !! 0%nat = Spec.enqueued acts !! 0%nat /\
  is_Some (Spec.departed acts !! 0%nat).
Proof.
  intros acts. split; [reflexivity|]. split; [reflexivity|].
  destruct (proj2 (proj2 (proj2 queued_requests_leave_in_fifo_order))
              Spec.tinyQueue Spec.busyRun) as [_ Hpos].
  apply (Hpos 0%nat 0%nat).
  - lia.
  - vm_compute. lia.
Defined.

(** The cache key is the text as it was passed, not the line written to the
    worker: for ["a\nb"] the worker receives ["a b"]. *)
Lemma cache_key_is_text_as_passed :
  let text := String "a" (String "010" "b") in
  let r := Detector.run (Spec.loadedSingle Spec.tinyQueueCached)
             [Detector.Detect 0 text Spec.noOptions 0;
              Detector.StdoutData 0 "__label__en 0.9" 1] in
  In (Detector.Wrote 0 "a b") (snd r) /\
  option_map Spec.keys (Detector.cache (fst r)) = Some [text].
Proof. vm_compute. auto. Qed.

(** ** The cache as a whole ([get], [set], [clear], [getStats]) *)

Section CacheMore.
Local Open Scope list_scope.
Import Cache.

Lemma map_get_None (k : string) (m : JsMap) :
  map_get k m = None <-> ~ In k (map fst m).
Proof.
  induction m as [|[k' v'] m IH]; simpl; [tauto|].
  destruct (String.eqb k' k) eqn:E.
  - apply string_eqb_eq in E. split; [discriminate|]. intros Hn. exfalso. auto.
  - apply string_eqb_neq in E. rewrite IH. tauto.
Qed.

Lemma map_delete_keys (k k0 : string) (m : JsMap) :
  In k0 (map fst (map_delete k m)) -> In k0 (map fst m).
Proof.
  induction m as [|[k' v'] m IH]; simpl; [tauto|].
  destruct (String.eqb k' k); simpl; tauto.
Qed.

Lemma map_delete_NoDup (k : string) (m : JsMap) :
  List.NoDup (map fst m) -> List.NoDup (map fst (map_delete k m)).
Proof.
  induction m as [|[k' v'] m IH]; simpl; [auto|].
  intros Hnd. apply List.NoDup_cons_iff in Hnd as [Hni Hnd].
  destruct (String.eqb k' k); simpl; [assumption|].
  apply List.NoDup_cons_iff. split; [|auto].
  intros Hin. apply Hni. eapply map_delete_keys; eauto.
Qed.

Lemma map_delete_length (k : string) (m : JsMap) :
  (length (map_delete k m) <= length m)%nat.
Proof.
  induction m as [|[k' v'] m IH]; simpl; [lia|].
  destruct (String.eqb k' k); simpl; lia.
Qed.

Lemma map_get_delete_same (k : string) (m : JsMap) :
  List.NoDup (map fst m) -> map_get k (map_delete k m) = None.
Proof.
  induction m as [|[k' v'] m IH]; simpl; [auto|].
  intros Hnd. apply List.NoDup_cons_iff in Hnd as [Hni Hnd].
  destruct (String.eqb k' k) eqn:E; simpl.
  - apply string_eqb_eq in E. subst k'. now apply map_get_None.
  - rewrite E. auto.
Qed.

Lemma map_get_delete_other (k k0 : string) (m : JsMap) :
  k0 <> k -> map_get k0 (map_delete k m) = map_get k0 m.
Proof.
  intros Hne. induction m as [|[k' v'] m IH]; simpl; [auto|].
  destruct (String.eqb k' k) eqn:E; simpl.
  - apply string_eqb_eq in E. subst k'.
    destruct (String.eqb k k0) eqn:E0; [|reflexivity].
    apply string_eqb_eq in E0. congruence.
  - now rewrite IH.
Qed.

Lemma map_set_NoDup (k : string) (v : CacheEntry) (m : JsMap) :
  List.NoDup (map fst m) -> List.NoDup (map fst (map_set k v m)).
Proof.
  induction m as [|[k' v'] m IH]; simpl.
  - intros _. repeat constructor. simpl. tauto.
  - intros Hnd. apply List.NoDup_cons_iff in Hnd as [Hni Hnd].
    destruct (String.eqb k' k) eqn:E; simpl.
    + apply string_eqb_eq in E. subst k'. apply List.NoDup_cons_iff. auto.
    + apply string_eqb_neq in E. apply List.NoDup_cons_iff. split; [|auto].
      intros Hin. apply map_set_keys in Hin as [Hin|Hin]; auto.
Qed.

Lemma evict_fields (c : DetectionCache) :
  maxSize (evict c) = maxSize c /\ ttl (evict c) = ttl c.
Proof.
  unfold evict. destruct (Nat.leb _ _); [|auto].
  destruct (cache c) as [|[k e] rest]; [auto|].
  destruct (JS.truthy k); auto.
Qed.

Lemma set_fields (c : DetectionCache) (text : string) (r : DetectionResult) (now : Z) :
  maxSize (Cache.set c text r now) = maxSize c /\ ttl (Cache.set c text r now) = ttl c.
Proof. unfold Cache.set. simpl. apply evict_fields. Qed.

Lemma get_fields (c : DetectionCache) (text : string) (now : Z) :
  maxSize (snd (get c text now)) = maxSize c /\ ttl (snd (get c text now)) = ttl c.
Proof.
  unfold get. destruct (map_get text (cache c)); [|auto].
  destruct (_ >? _); auto.
Qed.

Lemma evict_sound (c : DetectionCache) :
  Spec.cacheSound c ->
  Spec.cacheSound (evict c) /\ (length (cache (evict c)) < maxSize c)%nat.
Proof.
  intros (Hmax & Hcap & Hnd & Hne). unfold Spec.withinCapacity in Hcap.
  destruct (Nat.leb (maxSize c) (length (cache c))) eqn:E.
  - apply Nat.leb_le in E.
    destruct (cache c) as [|[k e] rest] eqn:Ec; [simpl in E; lia|].
    assert (Hk : k <> "").
    { intros ->. apply Hne. unfold Spec.keys. rewrite Ec. simpl. auto. }
    rewrite (evict_full c k e rest Ec); [|rewrite Ec; exact E|exact Hk].
    unfold Spec.cacheSound, Spec.withinCapacity, Spec.keys in *. simpl.
    rewrite Ec in Hnd, Hne. simpl in *.
    apply List.NoDup_cons_iff in Hnd as [_ Hnd].
    repeat split; auto; lia.
  - apply Nat.leb_gt in E. rewrite evict_spare by exact E.
    unfold Spec.cacheSound, Spec.withinCapacity. auto.
Qed.

Lemma set_sound (c : DetectionCache) (text : string) (r : DetectionResult) (now : Z) :
  Spec.cacheSound c -> text <> "" -> Spec.cacheSound (Cache.set c text r now).
Proof.
  intros Hs Htext. destruct (evict_sound c Hs) as [(Hmax & Hcap & Hnd & Hne) Hlt].
  destruct (evict_fields c) as [Hm _].
  unfold Cache.set, Spec.cacheSound, Spec.withinCapacity, Spec.keys in *. simpl.
  pose proof (map_set_length text {| result := r; timestamp := now |} (cache (evict c))).
  refine (conj Hmax (conj _ (conj _ _))).
  - lia.
  - now apply map_set_NoDup.
  - intros Hin. apply map_set_keys in Hin as [Hin|Hin]; [congruence|auto].
Qed.

Lemma get_sound (c : DetectionCache) (text : string) (now : Z) :
  Spec.cacheSound c -> Spec.cacheSound (snd (get c text now)).
Proof.
  intros (Hmax & Hcap & Hnd & Hne). unfold get.
  destruct (map_get text (cache c)); [|repeat split; auto].
  destruct (_ >? _); [|repeat split; auto].
  unfold Spec.cacheSound, Spec.withinCapacity, Spec.keys in *. simpl.
  pose proof (map_delete_length text (cache c)).
  refine (conj Hmax (conj _ (conj _ _))).
  - lia.
  - now apply map_delete_NoDup.
  - intros Hin. apply Hne. eapply map_delete_keys; eauto.
Qed.

(** X1. [get] serves an entry as long as its age does not exceed the TTL (an
    entry exactly [ttl] old is still served) and leaves the cache as it is;
    an older entry is deleted by the lookup that finds it; no other key is
    touched. *)
Theorem cache_get_expires_lazily (c : DetectionCache) (text : string) (now : Z) :
  List.NoDup (Spec.keys c) ->
  let r := fst (get c text now) in
  let c' := snd (get c text now) in
  (forall res, r = Some res <->
     exists e, map_get text (cache c) = Some e /\ result e = res /\
               now - timestamp e <= ttl c) /\
  (r <> None -> c' = c) /\
  (r = None -> map_get text (cache c') = None) /\
  (forall k, k <> text -> map_get k (cache c') = map_get k (cache c)) /\
  maxSize c' = maxSize c /\ ttl c' = ttl c /\ List.NoDup (Spec.keys c').
Proof.
  intros Hnd r c'. subst r c'. unfold get, Spec.keys in *.
  destruct (map_get text (cache c)) as [e|] eqn:Eg; simpl.
  - destruct (now - timestamp e >? ttl c) eqn:Et; simpl.
    + apply Z.gtb_lt in Et. refine (conj _ (conj _ (conj _ (conj _ (conj _ (conj _ _)))))); auto.
      * intros res. split; [discriminate|]. intros (e' & [= <-] & _ & Hle). lia.
      * congruence.
      * intros _. now apply map_get_delete_same.
      * intros k Hk. now apply map_get_delete_other.
      * now apply map_delete_NoDup.
    + assert (Hle : now - timestamp e <= ttl c).
      { destruct (Z.gtb_spec (now - timestamp e) (ttl c)); [discriminate|lia]. }
      refine (conj _ (conj _ (conj _ (conj _ (conj _ (conj _ _)))))); auto.
      * intros res. split.
        -- intros [= <-]. eauto.
        -- intros (e' & [= <-] & <- & _). reflexivity.
      * discriminate.
  - refine (conj _ (conj _ (conj _ (conj _ (conj _ (conj _ _)))))); auto.
    intros res. split; [discriminate|]. intros (e' & He & _). discriminate.
Qed.

(** X2. What [set] stored under a key is what [get] returns for that key
    until the TTL has passed, whatever the cache held before and whether or
    not [set] evicted; a hit changes nothing. *)
Theorem cache_get_after_set (c : DetectionCache) (text : string) (r : DetectionResult)
  (stored now : Z) :
  fst (get (Cache.set c text r stored) text now)
    = (if now - stored >? ttl c then None else Some r) /\
  (now - stored <= ttl c ->
   snd (get (Cache.set c text r stored) text now) = Cache.set c text r stored).
Proof.
  unfold get.
  pose proof (set_fields c text r stored) as [_ Httl].
  assert (Hget : map_get text (cache (Cache.set c text r stored))
                 = Some {| result := r; timestamp := stored |}).
  { unfold Cache.set. simpl. apply map_get_set_same. }
  rewrite Hget, Httl. simpl. split.
  - destruct (_ >? _); reflexivity.
  - intros Hle. destruct (Z.gtb_spec (now - stored) (ttl c)); [lia|reflexivity].
Qed.

Lemma cacheRun_sound (ops : list Spec.CacheOp) :
  forall c, Spec.cacheSound c ->
  Forall (fun op => Spec.storesEmptyKey op = false) ops ->
  Spec.cacheSound (Spec.cacheRun c ops) /\
  maxSize (Spec.cacheRun c ops) = maxSize c /\ ttl (Spec.cacheRun c ops) = ttl c.
Proof.
  induction ops as [|op ops IH]; intros c Hs Hall; simpl; [auto|].
  inversion Hall as [|? ? Hop Hrest]; subst.
  assert (Hstep : Spec.cacheSound (Spec.cacheStep c op) /\
                  maxSize (Spec.cacheStep c op) = maxSize c /\
                  ttl (Spec.cacheStep c op) = ttl c).
  { destruct op as [text now|text r now|]; simpl in Hop.
    - split; [now apply get_sound|exact (get_fields c text now)].
    - split; [|exact (set_fields c text r now)]. apply set_sound; [assumption|].
      now apply string_eqb_neq.
    - destruct Hs as (Hmax & _). unfold Spec.cacheSound, Spec.withinCapacity, Spec.keys.
      simpl. repeat split; auto; [lia|constructor]. }
  destruct Hstep as (Hs1 & Hm1 & Ht1).
  destruct (IH _ Hs1 Hrest) as (Hs2 & Hm2 & Ht2).
  unfold Spec.cacheRun in *. simpl.
  refine (conj Hs2 (conj _ _)); congruence.
Qed.

(** X3. Along every sequence of [get], [set] and [clear] on a new cache of
    capacity at least one, with no empty key stored, the cache holds at most
    [maxSize] entries, each key once, and [getStats] reports the capacity
    and TTL given to the constructor. *)
Theorem cache_stays_within_capacity (size : nat) (lifetime : Z) (ops : list Spec.CacheOp) :
  (1 <= size)%nat ->
  Forall (fun op => Spec.storesEmptyKey op = false) ops ->
  let c := Spec.cacheRun (Cache.new size lifetime) ops in
  (length (cache c) <= size)%nat /\ List.NoDup (Spec.keys c) /\
  fst (fst (getStats c)) = length (cache c) /\
  snd (fst (getStats c)) = size /\ snd (getStats c) = lifetime.
Proof.
  intros Hsize Hall c.
  destruct (cacheRun_sound ops (Cache.new size lifetime)) as ((_ & Hcap & Hnd & _) & Hm & Ht).
  - unfold Spec.cacheSound, Spec.withinCapacity, Spec.keys. simpl.
    repeat split; auto; [lia|constructor].
  - exact Hall.
  - unfold Spec.withinCapacity in Hcap. fold c in Hcap, Hnd, Hm, Ht. simpl in Hm, Ht.
    unfold getStats. simpl. repeat split; auto. lia.
Qed.
End CacheMore.

Lemma cache_get_expires_lazily_witness :
  List.NoDup (Spec.keys Spec.twoEntries) /\
  fst (Cache.get Spec.twoEntries "a" 5000) = None /\
  Cache.map_get "a" (Cache.cache (snd (Cache.get Spec.twoEntries "a" 5000))) = None /\
  Cache.map_get "b" (Cache.cache (snd (Cache.get Spec.twoEntries "a" 5000)))
    = Cache.map_get "b" (Cache.cache Spec.twoEntries).
Proof.
  assert (Hnd : List.NoDup (Spec.keys Spec.twoEntries)).
  { vm_compute. repeat constructor; simpl; intuition discriminate. }
  split; [exact Hnd|].
  destruct (cache_get_expires_lazily Spec.twoEntries "a" 5000 Hnd)
    as (_ & _ & Hmiss & Hother & _).
  split; [reflexivity|].
  split; [apply Hmiss; reflexivity|apply Hother; discriminate].
Defined.

Lemma cache_stays_within_capacity_witness :
  let ops := [Spec.CacheSet "a" Detector.emptyResult 0;
              Spec.CacheSet "b" Detector.emptyResult 1;
              Spec.CacheSet "c" Detector.emptyResult 2;
              Spec.CacheGet "b" 5000;
              Spec.CacheSet "d" Detector.emptyResult 5001] in
  Spec.keys (Spec.cacheRun (Cache.new 2 1000) ops) = ["c"; "d"] /\
  (length (Cache.cache (Spec.cacheRun (Cache.new 2 1000) ops)) <= 2)%nat.
Proof.
  intros ops. split; [reflexivity|].
  apply (cache_stays_within_capacity 2 1000 ops).
  - lia.
  - repeat constructor.
Defined.

(** ** The worker's side of a request ([detect], [stop]) *)

Section WorkerLines.

Local Open Scope list_scope.

Lemma substring_length (m : nat) (s : string) :
  (String.length (String.substring 0 m s) <= m)%nat.
Proof.
  revert s. induction m as [|m IH]; intros [|c s]; simpl; try lia.
  specialize (IH s). lia.
Qed.

Lemma substring_chars (m : nat) (s : string) (x : codeunit) :
  In x (String.units (String.substring 0 m s)) -> In x (String.units s).
Proof.
  revert s. induction m as [|m IH]; intros [|c s]; simpl; try tauto.
  intros [->|Hin]; auto.
Qed.

Lemma substring_whole (m : nat) (s : string) :
  (String.length s <= m)%nat -> String.substring 0 m s = s.
Proof.
  revert s. induction m as [|m IH]; intros [|c s]; simpl; intros Hle; try reflexivity; try lia.
  f_equal. apply IH. lia.
Qed.

Lemma substring_nonempty (m : nat) (s : string) :
  s <> "" -> String.substring 0 (S m) s <> "".
Proof. destruct s; simpl; [congruence|discriminate]. Qed.

Lemma trimStart_chars (s : string) (x : codeunit) :
  In x (String.units (JS.trimStart s)) -> In x (String.units s).
Proof.
  induction s as [|c s IH]; simpl; [tauto|].
  destruct (JS.is_space c); simpl; tauto.
Qed.

Lemma trimEnd_chars (s : string) (x : codeunit) :
  In x (String.units (JS.trimEnd s)) -> In x (String.units s).
Proof.
  induction s as [|c s IH]; simpl; [tauto|].
  destruct (JS.is_space c && String.eqb (JS.trimEnd s) "")%bool; simpl; tauto.
Qed.

Lemma replace_all_char_chars (c rep : codeunit) (s : string) :
  String.units (JS.replace_all_char c rep s)
    = map (fun d => if String.unit_eqb d c then rep else d) (String.units s).
Proof. induction s as [|d s IH]; simpl; [reflexivity|now rewrite IH]. Qed.

Lemma replace_all_char_absent (c rep : codeunit) (s : string) :
  ~ In c (String.units s) -> JS.replace_all_char c rep s = s.
Proof.
  induction s as [|d s IH]; simpl; [reflexivity|]. intros Hn.
  destruct (String.unit_eqb d c) eqn:E.
  - apply unit_eqb_eq in E. exfalso. auto.
  - rewrite IH; auto.
Qed.

(** Replacing a white-space character by another one commutes with trimming. *)
Lemma trimStart_replace (c rep : codeunit) (s : string) :
  JS.is_space c = true -> JS.is_space rep = true ->
  JS.trimStart (JS.replace_all_char c rep s) = JS.replace_all_char c rep (JS.trimStart s).
Proof.
  intros Hc Hrep. induction s as [|d s IH]; simpl; [reflexivity|].
  destruct (String.unit_eqb d c) eqn:E.
  - apply unit_eqb_eq in E. subst d. rewrite Hc, Hrep. exact IH.
  - destruct (JS.is_space d); [exact IH|]. simpl. now rewrite E.
Qed.

Lemma replace_all_char_empty (c rep : codeunit) (s : string) :
  JS.replace_all_char c rep s = "" <-> s = "".
Proof. destruct s; simpl; split; congruence. Qed.

Lemma trimEnd_replace (c rep : codeunit) (s : string) :
  JS.is_space c = true -> JS.is_space rep = true ->
  JS.trimEnd (JS.replace_all_char c rep s) = JS.replace_all_char c rep (JS.trimEnd s).
Proof.
  intros Hc Hrep. induction s as [|d s IH]; simpl; [reflexivity|].
  rewrite IH.
  assert (Hsp : JS.is_space (if String.unit_eqb d c then rep else d) = JS.is_space d).
  { destruct (String.unit_eqb d c) eqn:E; [|reflexivity].
    apply unit_eqb_eq in E. subst d. congruence. }
  rewrite Hsp.
  assert (He : String.eqb (JS.replace_all_char c rep (JS.trimEnd s)) ""
               = String.eqb (JS.trimEnd s) "").
  { destruct (JS.trimEnd s); reflexivity. }
  rewrite He.
  destruct (JS.is_space d && String.eqb (JS.trimEnd s) "")%bool; reflexivity.
Qed.

Lemma trim_replace (c rep : codeunit) (s : string) :
  JS.is_space c = true -> JS.is_space rep = true ->
  JS.trim (JS.replace_all_char c rep s) = JS.replace_all_char c rep (JS.trim s).
Proof.
  intros Hc Hrep. unfold JS.trim.
  now rewrite trimStart_replace, trimEnd_replace.
Qed.

Lemma cleanText_trim (text : string) :
  Worker.cleanText text
    = String.substring 0 5000
        (JS.replace_all_char "013" " " (JS.replace_all_char "010" " " (JS.trim text))).
Proof.
  unfold Worker.cleanText. now rewrite !trim_replace by reflexivity.
Qed.

(** X4. The line written to the process for a request: at most 5000
    characters, free of line feeds and carriage returns, not empty when the
    text is not blank, and the text itself when the text needs no cleaning. *)
Theorem cleanText_is_one_bounded_line (text : string) :
  let line := Worker.cleanText text in
  (String.length line <= 5000)%nat /\
  ~ In Spec.lineFeed (String.units line) /\
  ~ In Spec.carriageReturn (String.units line) /\
  (Detector.isBlank text = false -> line <> "") /\
  (~ In Spec.lineFeed (String.units text) ->
   ~ In Spec.carriageReturn (String.units text) ->
   JS.trim text = text -> (String.length text <= 5000)%nat -> line = text).
Proof.
  intros line. subst line.
  refine (conj _ (conj _ (conj _ (conj _ _)))).
  - apply substring_length.
  - unfold Worker.cleanText. intros Hin.
    apply substring_chars in Hin. unfold JS.trim in Hin.
    apply trimEnd_chars, trimStart_chars in Hin.
    rewrite !replace_all_char_chars, map_map in Hin.
    apply in_map_iff in Hin as (d & Hd & _). revert Hd.
    destruct (String.unit_eqb d "010") eqn:E1; [discriminate|].
    destruct (String.unit_eqb d "013") eqn:E2; [discriminate|].
    intros ->. discriminate E1.
  - unfold Worker.cleanText. intros Hin.
    apply substring_chars in Hin. unfold JS.trim in Hin.
    apply trimEnd_chars, trimStart_chars in Hin.
    rewrite replace_all_char_chars in Hin.
    apply in_map_iff in Hin as (d & Hd & _). revert Hd.
    destruct (String.unit_eqb d "013") eqn:E2; [discriminate|].
    intros ->. discriminate E2.
  - intros Hblank. rewrite cleanText_trim.
    apply substring_nonempty. intros E.
    apply replace_all_char_empty, replace_all_char_empty in E.
    unfold Detector.isBlank in Hblank. rewrite E in Hblank. simpl in Hblank.
    now rewrite orb_true_r in Hblank.
  - intros Hlf Hcr Htrim Hlen. rewrite cleanText_trim, Htrim.
    rewrite (replace_all_char_absent "010") by exact Hlf.
    rewrite (replace_all_char_absent "013") by exact Hcr.
    now apply substring_whole.
Qed.

End WorkerLines.

Lemma cleanText_is_one_bounded_line_witness :
  let text := String "009" (String "a" (String "010" (String "b" (String "013" "")))) in
  Worker.cleanText text = "a b" /\ Worker.cleanText text <> "" /\
  Worker.cleanText "a b" = "a b".
Proof.
  intros text.
  destruct (cleanText_is_one_bounded_line text) as (_ & _ & _ & Hne & _).
  destruct (cleanText_is_one_bounded_line "a b") as (_ & _ & _ & _ & Hid).
  split; [reflexivity|]. split.
  - apply Hne. reflexivity.
  - apply Hid.
    + simpl. unfold Spec.lineFeed. intuition discriminate.
    + simpl. unfold Spec.carriageReturn. intuition discriminate.
    + reflexivity.
    + simpl. lia.
Defined.

Section WorkerCalls.

Local Open Scope list_scope.
Import Worker.
Context `{Builtins}.


(** X6. [stop] releases the process handle and is idempotent; it leaves
    [isBusy] and the request counter alone, and a stopped worker accepts no
    call: [detect] on it throws before anything is written. *)
Theorem stop_takes_worker_out_of_service (w : FastTextWorker) :
  stop (stop w) = stop w /\
  process (stop w) = None /\
  stopSignals (stop w) = false /\
  isBusy (stop w) = isBusy w /\
  processedRequests (stop w) = processedRequests w /\
  (process w = None -> stop w = w) /\
  (process w <> None -> isReady (stop w) = false) /\
  (forall text, exists e, detect (stop w) text = inl e).
Proof.
  unfold stop, stopSignals, detect.
  destruct (process w) as [p|] eqn:Ep; simpl.
  - refine (conj eq_refl (conj eq_refl (conj eq_refl (conj eq_refl (conj eq_refl
             (conj _ (conj _ _))))))).
    + discriminate.
    + reflexivity.
    + intros text. eauto.
  - rewrite Ep.
    refine (conj eq_refl (conj eq_refl (conj eq_refl (conj eq_refl (conj eq_refl
             (conj _ (conj _ _))))))).
    + reflexivity.
    + congruence.
    + intros text. destruct (isReady w); simpl; [|eauto].
      destruct (isBusy w); eauto.
Qed.

End WorkerCalls.


Lemma stop_takes_worker_out_of_service_witness :
  let w := Worker.with_isReady true
             (Worker.start 0 (Worker.new 0 Detector.defaultModelPath 5000)) in
  Worker.process w <> None /\ Worker.isReady (Worker.stop w) = false /\
  Worker.stop (Worker.new 0 Detector.defaultModelPath 5000)
    = Worker.new 0 Detector.defaultModelPath 5000.
Proof.
  intros w.
  destruct (stop_takes_worker_out_of_service w) as (_ & _ & _ & _ & _ & _ & Hready & _).
  destruct (stop_takes_worker_out_of_service (Worker.new 0 Detector.defaultModelPath 5000))
    as (_ & _ & _ & _ & _ & Hnone & _).
  split; [discriminate|]. split; [apply Hready; discriminate|apply Hnone; reflexivity].
Defined.

(** ** Reading the answer of the process ([onData], [parseResult]) *)

Section OutputLines.

Local Open Scope list_scope.
Context `{Builtins}.

Lemma append_assoc_char (a : string) (c : codeunit) (b : string) :
  ((a ++ String c "") ++ b = a ++ String c b)%string.
Proof. induction a as [|d a IH]; simpl; [reflexivity|now rewrite IH]. Qed.

Lemma append_assoc (a b c : string) : ((a ++ b) ++ c = a ++ (b ++ c))%string.
Proof. induction a as [|d a IH]; simpl; [reflexivity|now rewrite IH]. Qed.

Lemma append_empty_r (a : string) : (a ++ "")%string = a.
Proof. induction a as [|d a IH]; simpl; [reflexivity|now rewrite IH]. Qed.

Lemma append_nonempty (a b : string) : a <> "" -> (a ++ b)%string <> "".
Proof. destruct a; simpl; [congruence|discriminate]. Qed.

(** Reading a token: its characters go to the piece being read. *)
Lemma split_ws_from_token (t : string) :
  Forall (fun c => JS.is_space c = false) (String.units t) ->
  forall (cur : string) (in_gap : bool) (rest : string),
  t <> "" \/ in_gap = false ->
  JS.split_ws_from cur in_gap (t ++ rest)%string
    = JS.split_ws_from (cur ++ t)%string false rest.
Proof.
  induction t as [|c t IH]; simpl; intros Hall cur in_gap rest Hne.
  - destruct Hne as [Hne| ->]; [congruence|]. now rewrite append_empty_r.
  - inversion Hall as [|? ? Hc Hrest]; subst. rewrite Hc.
    rewrite (IH Hrest (cur ++ String c "")%string false rest) by auto.
    now rewrite append_assoc_char.
Qed.

Lemma unwords_nonempty (t : string) (tokens : list string) :
  Forall Spec.isToken (t :: tokens) -> Spec.unwords (t :: tokens) <> "".
Proof.
  intros Hall. inversion Hall as [|? ? [Ht _] _]; subst.
  destruct tokens; simpl; [exact Ht|now apply append_nonempty].
Qed.

Lemma split_ws_from_unwords (tokens : list string) :
  Forall Spec.isToken tokens ->
  forall (t : string) (in_gap : bool),
  Spec.isToken t ->
  JS.split_ws_from "" in_gap (Spec.unwords (t :: tokens)) = t :: tokens.
Proof.
  induction tokens as [|t' tokens IH]; intros Hall t in_gap [Hne Hchars].
  - simpl. rewrite <- (append_empty_r t) at 1.
    rewrite split_ws_from_token by auto. reflexivity.
  - inversion Hall as [|? ? Ht' Hrest]; subst.
    change (Spec.unwords (t :: t' :: tokens))
      with (t ++ String " " (Spec.unwords (t' :: tokens)))%string.
    rewrite split_ws_from_token by auto.
    change (JS.split_ws_from ("" ++ t)%string false (String " " (Spec.unwords (t' :: tokens))))
      with (t :: JS.split_ws_from "" true (Spec.unwords (t' :: tokens))).
    now rewrite (IH Hrest t' true Ht').
Qed.

Lemma split_ws_unwords (tokens : list string) :
  Forall Spec.isToken tokens -> tokens <> [] ->
  JS.split_ws (Spec.unwords tokens) = tokens.
Proof.
  intros Hall Hne. destruct tokens as [|t tokens]; [congruence|].
  inversion Hall; subst. now apply split_ws_from_unwords.
Qed.

Lemma trimStart_token (t rest : string) :
  Spec.isToken t -> JS.trimStart (t ++ rest)%string = (t ++ rest)%string.
Proof.
  intros [Hne Hchars]. destruct t as [|c t]; [congruence|].
  inversion Hchars as [|? ? Hc _]; subst. simpl. now rewrite Hc.
Qed.

Lemma trimEnd_token (t rest : string) :
  Forall (fun c => JS.is_space c = false) (String.units t) ->
  JS.trimEnd (t ++ rest)%string = (t ++ JS.trimEnd rest)%string.
Proof.
  induction t as [|c t IH]; simpl; intros Hall; [reflexivity|].
  inversion Hall as [|? ? Hc Hrest]; subst. rewrite Hc. simpl. now rewrite IH.
Qed.

Lemma trimEnd_whitespaceOnly (padding : string) :
  Spec.whitespaceOnly padding -> JS.trimEnd padding = "".
Proof.
  unfold Spec.whitespaceOnly. induction padding as [|c p IH]; simpl; intros Hall; [reflexivity|].
  inversion Hall as [|? ? Hc Hrest]; subst. now rewrite Hc, IH.
Qed.

Lemma trimEnd_unwords (tokens : list string) (padding : string) :
  Forall Spec.isToken tokens -> Spec.whitespaceOnly padding ->
  JS.trimEnd (Spec.unwords tokens ++ padding)%string = Spec.unwords tokens.
Proof.
  intros Hall Hpad. induction tokens as [|t tokens IH].
  - simpl. now apply trimEnd_whitespaceOnly.
  - inversion Hall as [|? ? [Hne Hchars] Hrest]; subst.
    destruct tokens as [|t' tokens].
    + simpl. rewrite trimEnd_token by exact Hchars.
      rewrite trimEnd_whitespaceOnly by exact Hpad. apply append_empty_r.
    + change (Spec.unwords (t :: t' :: tokens))
        with (t ++ String " " (Spec.unwords (t' :: tokens)))%string.
      rewrite append_assoc.
      rewrite trimEnd_token by exact Hchars. f_equal.
      change (String " " (Spec.unwords (t' :: tokens)) ++ padding)%string
        with (String " " (Spec.unwords (t' :: tokens) ++ padding))%string.
      cbn [JS.trimEnd]. rewrite (IH Hrest).
      destruct (String.eqb (Spec.unwords (t' :: tokens)) "") eqn:E.
      * apply string_eqb_eq in E. exfalso. revert E. now apply unwords_nonempty.
      * now rewrite andb_false_r.
Qed.

Lemma trim_unwords (tokens : list string) (padding : string) :
  Forall Spec.isToken tokens -> Spec.whitespaceOnly padding ->
  JS.trim (Spec.unwords tokens ++ padding)%string = Spec.unwords tokens.
Proof.
  intros Hall Hpad. unfold JS.trim.
  destruct tokens as [|t tokens].
  - simpl. assert (E : JS.trimStart padding = "").
    { clear Hall. unfold Spec.whitespaceOnly in Hpad.
      induction padding as [|c p IH]; simpl; [reflexivity|].
      inversion Hpad as [|? ? Hc Hrest]; subst. rewrite Hc. auto. }
    now rewrite E.
  - assert (E : JS.trimStart (Spec.unwords (t :: tokens) ++ padding)%string
                = (Spec.unwords (t :: tokens) ++ padding)%string).
    { inversion Hall as [|? ? Ht _]; subst. destruct tokens as [|t' tokens].
      - simpl. now apply trimStart_token.
      - change (Spec.unwords (t :: t' :: tokens))
          with (t ++ String " " (Spec.unwords (t' :: tokens)))%string.
        rewrite append_assoc. now apply trimStart_token. }
    rewrite E. now apply trimEnd_unwords.
Qed.

Lemma parsePairs_complete (pairs : list (string * string)) :
  Forall (fun pair => Spec.isToken (fst pair) /\ Spec.isToken (snd pair)) pairs ->
  Worker.parsePairs (concat (map (fun pair => [fst pair; snd pair]) pairs))
    = map (fun pair => Worker.prediction (fst pair) (snd pair)) pairs.
Proof.
  induction pairs as [|[l c] pairs IH]; simpl; intros Hall; [reflexivity|].
  inversion Hall as [|? ? [[Hl _] [Hc _]] Hrest]; subst. simpl in *.
  unfold JS.truthy. apply string_eqb_neq in Hl, Hc. rewrite Hl, Hc. simpl.
  now rewrite IH.
Qed.

(** X7. An output line made of complete label/confidence pairs separated by
    single spaces, followed by any white space (the line break), is read as
    one prediction per pair, in the order of the line; the first one is the
    primary prediction, and [processedRequests] grows by one. *)
Theorem onData_reads_every_complete_pair
    (w : Worker.FastTextWorker) (pairs : list (string * string)) (padding : string) :
  Forall (fun pair => Spec.isToken (fst pair) /\ Spec.isToken (snd pair)) pairs ->
  Spec.whitespaceOnly padding ->
  let answer := Worker.onData w (Spec.outputLine pairs ++ padding)%string in
  predictions (snd answer)
    = map (fun pair => Worker.prediction (fst pair) (snd pair)) pairs /\
  primary (snd answer)
    = head (map (fun pair => Worker.prediction (fst pair) (snd pair)) pairs) /\
  Worker.isBusy (fst answer) = false /\
  Worker.processedRequests (fst answer) = Worker.processedRequests w + 1.
Proof.
  intros Hall Hpad answer. subst answer. unfold Worker.onData. simpl.
  assert (Htokens : Forall Spec.isToken (concat (map (fun pair => [fst pair; snd pair]) pairs))).
  { clear Hpad. induction pairs as [|[l c] pairs IH]; simpl; [constructor|].
    inversion Hall as [|? ? [Hl Hc] Hrest]; subst. simpl in *. auto. }
  assert (Hparse : Worker.parseResult (JS.trim (Spec.outputLine pairs ++ padding)%string)
                   = map (fun pair => Worker.prediction (fst pair) (snd pair)) pairs).
  { unfold Spec.outputLine. rewrite trim_unwords by assumption.
    unfold Worker.parseResult.
    destruct pairs as [|pair pairs]; [reflexivity|].
    rewrite split_ws_unwords; [|assumption|simpl; discriminate].
    now apply parsePairs_complete. }
  rewrite Hparse. auto.
Qed.

End OutputLines.

Lemma onData_reads_every_complete_pair_witness :
  let w := Worker.with_isBusy true
             (Worker.with_isReady true
                (Worker.start 0 (Worker.new 0 Detector.defaultModelPath 5000))) in
  let pairs := [("__label__en", "0.9"); ("__label__ZH", "0.05")] in
  Spec.outputLine pairs = "__label__en 0.9 __label__ZH 0.05" /\
  predictions (snd (Worker.onData w (Spec.outputLine pairs ++ String "010" "")%string))
    = [Spec.pred "en" (9 # 10); Spec.pred "chs" (1 # 20)].
Proof.
  intros w pairs. split; [reflexivity|].
  destruct (onData_reads_every_complete_pair w pairs (String "010" "")) as (Hp & _).
  - repeat constructor; simpl; discriminate.
  - repeat constructor.
  - rewrite Hp. reflexivity.
Defined.

(** ** The facade: [detectSimple], [applyOptions], the constructor, [getStats] *)

Section Simple.

Local Open Scope list_scope.
Import Detector.
Context `{Builtins}.

Lemma lt_is_not_ge (a b : number) :
  JS.isNaN a = false -> JS.isNaN b = false -> JS.lt a b = negb (JS.ge a b).
Proof.
  destruct a as [|x|[|]], b as [|y|[|]]; simpl; intros; try discriminate; reflexivity.
Qed.

Lemma ge_below (p q t : number) :
  JS.isNaN q = false ->
  JS.ge p q = true -> JS.ge p t = false -> JS.ge q t = false.
Proof.
  destruct p as [|x|[|]], q as [|y|[|]], t as [|z|[|]]; simpl; intros;
    try discriminate; try reflexivity.
  destruct (Qle_bool z y) eqn:E; [|reflexivity].
  apply Qle_bool_iff in E. apply Qle_bool_iff in H1.
  assert (Hzx : Qle_bool z x = true) by (apply Qle_bool_iff; eapply Qle_trans; eauto).
  congruence.
Qed.

Lemma filter_none {A : Type} (f : A -> bool) (l : list A) :
  (forall x, In x l -> f x = false) -> List.filter f l = [].
Proof.
  induction l as [|x l IH]; simpl; intros Hall; [reflexivity|].
  rewrite (Hall x) by auto. auto.
Qed.

(** X8. [detectSimple] returns the language of the primary prediction unless
    its confidence is below the threshold. A confidence that is not a number
    is below no threshold, so that language is returned whatever the
    threshold; otherwise, when the threshold [t] is a number (not [NaN]) and
    no prediction is more confident than the primary one,
    [detectSimple(text, t)] is the language of the primary prediction of
    [detect(text, {threshold: t})]; for a result without predictions it is
    [null]. *)
Theorem detectSimple_matches_threshold_option :
  (forall result threshold p,
     primary result = Some p -> confidence p = JS.NaN ->
     detectSimple_then result threshold = Some (language p)) /\
  (forall result t,
     Spec.primaryLeads result -> Forall Spec.wellFormed (predictions result) ->
     JS.isNaN t = false ->
     detectSimple_then result (Some t)
       = option_map language (primary (applyOptions result (Spec.onlyThreshold t)))) /\
  (forall result, detectSimple_then result None
                  = detectSimple_then result (Some (JS.Num (1 # 2)))) /\
  (forall threshold, detectSimple_then emptyResult threshold = None).
Proof.
  refine (conj _ (conj _ (conj _ _))).
  - intros result threshold p Hp Hnan. unfold detectSimple_then.
    rewrite Hp, Hnan. reflexivity.
  - intros result t [Hhead Hmax] Hwf Ht.
    unfold detectSimple_then, applyOptions, Spec.onlyThreshold. simpl.
    destruct (primary result) as [p|] eqn:Hp.
    + destruct (predictions result) as [|p' rest] eqn:Hps; [discriminate|].
      simpl in Hhead. injection Hhead as <-.
      inversion Hwf as [|? ? Hwp Hwrest]; subst. unfold Spec.wellFormed in Hwp.
      rewrite lt_is_not_ge by assumption.
      destruct (JS.ge (confidence p) t) eqn:Eg; simpl; rewrite Eg; [reflexivity|].
      rewrite filter_none; [reflexivity|].
      intros q Hq. apply ge_below with (confidence p); auto.
      * rewrite List.Forall_forall in Hwrest. apply Hwrest, Hq.
      * apply (Hmax p q eq_refl). right. exact Hq.
    + destruct (predictions result); [reflexivity|discriminate].
  - reflexivity.
  - reflexivity.
Qed.

End Simple.

Lemma detectSimple_matches_threshold_option_witness :
  Spec.primaryLeads Spec.sample /\
  Detector.detectSimple_then Spec.sample (Some (JS.Num (1 # 2))) = Some "en" /\
  Detector.detectSimple_then Spec.sample (Some (JS.Num (19 # 20))) = None /\
  Detector.detectSimple_then
    {| predictions := Worker.parseResult "__label__en abc";
       primary := head (Worker.parseResult "__label__en abc") |}
    (Some (JS.Num (19 # 20))) = Some "en".
Proof.
  assert (Hlead : Spec.primaryLeads Spec.sample).
  { split; [reflexivity|]. intros p q [= <-] Hq. simpl in Hq.
    destruct Hq as [<-|[<-|[<-|[]]]]; reflexivity. }
  assert (Hwf : Forall Spec.wellFormed (predictions Spec.sample)).
  { repeat constructor. }
  destruct detectSimple_matches_threshold_option as (Hnan & Hagree & _).
  split; [exact Hlead|]. split; [|split].
  - rewrite (Hagree Spec.sample (JS.Num (1 # 2)) Hlead Hwf eq_refl). reflexivity.
  - rewrite (Hagree Spec.sample (JS.Num (19 # 20)) Hlead Hwf eq_refl). reflexivity.
  - apply (Hnan _ _ {| language := "en"; confidence := JS.NaN; languageName := None |});
      reflexivity.
Defined.

Section Construction.

Local Open Scope list_scope.
Import Detector.

Lemma or_else_replaced (a : option number) (b : number) :
  JS.truthy_number b = true -> Spec.replaced a b (JS.or_else a b).
Proof.
  intros Hb. unfold Spec.replaced, JS.or_else. destruct a as [x|].
  - destruct (JS.truthy_number x) eqn:Ex.
    + split; [exact Ex|]. split; [now intros y [= <-]|].
      intros [Hn|(y & [= <-] & Hy)]; [discriminate|congruence].
    + split; [exact Hb|]. split; [intros y [= <-]; congruence|reflexivity].
  - split; [exact Hb|]. split; [discriminate|reflexivity].
Qed.

Lemma or_else_count (a : option nat) (b : nat) :
  b <> 0%nat ->
  JS.or_else (option_map of_count a) (of_count b) = of_count (or_default_nat a b).
Proof. intros Hb. destruct a as [[|n]|]; reflexivity. Qed.

Lemma or_else_integer (a : option Z) (b : Z) :
  JS.or_else (option_map of_integer a) (of_integer b) = of_integer (or_default a b).
Proof. destruct a as [[|p|p]|]; reflexivity. Qed.

(** X9. The constructor takes the default for a size or a duration that is
    missing, zero or [NaN], and keeps any other number as it is, also a
    negative or a fractional one: [poolSize], [maxQueueSize], [timeout] and
    the two arguments of the cache are never zero or [NaN]. The cache exists
    exactly when [cache] is [true]. On options whose sizes are counts and
    whose durations are whole milliseconds, the constructor of the pool
    model computes the same fields, and the new detector is unloaded, with
    an empty pool, an empty queue and an empty cache. *)
Theorem constructor_replaces_zero_by_default (o : NumericOptions) :
  let f := fields o in
  Spec.replaced (num_poolSize o) (JS.Num 3) (f_poolSize f) /\
  Spec.replaced (num_maxQueueSize o) (JS.Num 500) (f_maxQueueSize f) /\
  Spec.replaced (num_timeout o) (JS.Num 5000) (f_timeout f) /\
  match f_cache f with
  | Some (size, ttl) =>
      num_cache o = Some true /\
      Spec.replaced (num_cacheSize o) (JS.Num 1000) size /\
      Spec.replaced (num_cacheTTL o) (JS.Num 3600000) ttl
  | None => num_cache o <> Some true
  end /\
  forall options : DetectorOptions,
    let s := new options in
    fields (numeric options) = fieldsOf s /\
    match cache s with Some c => Cache.cache c = [] | None => True end /\
    isLoaded s = false /\ isLoading s = false /\
    workers s = [] /\ requestQueue s = [] /\ running s = [].
Proof.
  intros f. subst f. unfold fields. cbn [f_poolSize f_maxQueueSize f_timeout f_cache].
  refine (conj (or_else_replaced _ (JS.Num 3) eq_refl)
            (conj (or_else_replaced _ (JS.Num 500) eq_refl)
               (conj (or_else_replaced _ (JS.Num 5000) eq_refl) (conj _ _)))).
  - destruct (num_cache o) as [[|]|]; cbn [truthy_bool]; try discriminate.
    exact (conj eq_refl (conj (or_else_replaced _ (JS.Num 1000) eq_refl)
                           (or_else_replaced _ (JS.Num 3600000) eq_refl))).
  - intros options. split.
    + unfold fields, fieldsOf, numeric, new.
      cbn [num_modelPath num_poolSize num_maxQueueSize num_timeout num_cache
           num_cacheSize num_cacheTTL num_autoCleanup config cache modelPath poolSize
           maxQueueSize timeout autoCleanup].
      change (JS.Num 3) with (of_count 3). change (JS.Num 500) with (of_count 500).
      change (JS.Num 1000) with (of_count 1000).
      change (JS.Num 5000) with (of_integer 5000).
      change (JS.Num 3600000) with (of_integer 3600000).
      rewrite !or_else_count by discriminate. rewrite !or_else_integer.
      destruct (truthy_bool (opt_cache options)); reflexivity.
    + simpl. destruct (truthy_bool (opt_cache options)); simpl; auto 10.
Qed.

Lemma filter_split_length {A : Type} (f g : A -> bool) (l : list A) :
  length (List.filter f l)
    = (length (List.filter (fun x => f x && g x)%bool l)
       + length (List.filter (fun x => f x && negb (g x))%bool l))%nat.
Proof.
  induction l as [|x l IH]; simpl; [reflexivity|].
  destruct (f x), (g x); simpl; lia.
Qed.

Lemma filter_ext_length {A : Type} (f g : A -> bool) (l : list A) :
  (forall x, f x = g x) -> length (List.filter f l) = length (List.filter g l).
Proof.
  intros Hfg. induction l as [|x l IH]; simpl; [reflexivity|].
  rewrite Hfg. destruct (g x); simpl; lia.
Qed.

Lemma findAvailable_filter (h : list Worker.FastTextWorker) (ws : list addr) :
  findAvailable h ws = None ->
  List.filter (fun a => match h !! a with
                        | Some w => (Worker.isReady w && negb (Worker.isBusy w))%bool
                        | None => false
                        end) ws = [].
Proof.
  induction ws as [|a ws IH]; simpl; [reflexivity|].
  destruct (h !! a) as [w|]; [|exact IH].
  destruct (Worker.isReady w && negb (Worker.isBusy w))%bool; [discriminate|exact IH].
Qed.

(** X10. [getStats] counts the ready and the busy workers of the pool
    separately, so [idleWorkers] is the number of workers that are ready and
    not busy minus the number of workers that are busy and not ready (a
    worker whose process exited during a call); a positive [idleWorkers]
    means that [getAvailableWorker] finds a worker. [queueLength] is the
    length of the queue and [poolSize] the configured size. *)
Theorem getStats_derives_counts_from_pool (s : State) :
  let st := getStats s in
  activeWorkers st = Spec.poolCount (Spec.readyAt s) s /\
  busyWorkers st = Spec.poolCount (Spec.busyAt s) s /\
  idleWorkers st
    = Spec.poolCount (fun a => Spec.readyAt s a && negb (Spec.busyAt s a))%bool s
      - Spec.poolCount (fun a => Spec.busyAt s a && negb (Spec.readyAt s a))%bool s /\
  (0 < idleWorkers st -> getAvailableWorker s <> None) /\
  0 <= activeWorkers st <= Z.of_nat (length (workers s)) /\
  0 <= busyWorkers st <= Z.of_nat (length (workers s)) /\
  queueLength st = Z.of_nat (length (requestQueue s)) /\
  stat_poolSize st = Z.of_nat (poolSize (config s)) /\
  totalRequests st = totalRequests (stats s) /\
  completedRequests st = completedRequests (stats s) /\
  failedRequests st = failedRequests (stats s) /\
  queuedRequests st = queuedRequests (stats s).
Proof.
  intros st. subst st. unfold getStats, Spec.poolCount. simpl.
  fold (Spec.readyAt s) (Spec.busyAt s).
  pose proof (filter_split_length (Spec.readyAt s) (Spec.busyAt s) (workers s)) as Hr.
  pose proof (filter_split_length (Spec.busyAt s) (Spec.readyAt s) (workers s)) as Hb.
  pose proof (filter_ext_length
                (fun a => Spec.readyAt s a && Spec.busyAt s a)%bool
                (fun a => Spec.busyAt s a && Spec.readyAt s a)%bool (workers s)
                (fun a => andb_comm _ _)) as Hc.
  pose proof (List.filter_length_le (Spec.readyAt s) (workers s)) as Hlr.
  pose proof (List.filter_length_le (Spec.busyAt s) (workers s)) as Hlb.
  refine (conj eq_refl (conj eq_refl (conj _ (conj _ _)))); [lia| |repeat split; lia].
  intros Hpos Hnone. unfold getAvailableWorker in Hnone.
  apply findAvailable_filter in Hnone.
  assert (Ha : length (List.filter
                         (fun a => Spec.readyAt s a && negb (Spec.busyAt s a))%bool
                         (workers s)) = 0%nat).
  { rewrite <- (length_zero_iff_nil _) in Hnone. rewrite <- Hnone.
    apply filter_ext_length. intros a. unfold Spec.readyAt, Spec.busyAt.
    destruct (heap s !! a); reflexivity. }
  lia.
Qed.

End Construction.

(** A pool size of -1 and a queue bound of one half are kept; a timeout of
    zero and a cache size of [NaN] take the defaults. *)
Lemma constructor_replaces_zero_by_default_witness :
  let o :=
    {| num_modelPath := None; num_poolSize := Some (JS.Num (-1));
       num_maxQueueSize := Some (JS.Num (1 # 2)); num_timeout := Some (JS.Num 0);
       num_cache := Some true; num_cacheSize := Some JS.NaN;
       num_cacheTTL := None; num_autoCleanup := None |} in
  Detector.f_poolSize (Detector.fields o) = JS.Num (-1) /\
  Detector.f_maxQueueSize (Detector.fields o) = JS.Num (1 # 2) /\
  Detector.f_timeout (Detector.fields o) = JS.Num 5000 /\
  Detector.fields (Detector.numeric Spec.tinyQueue)
    = Detector.fieldsOf (Detector.new Spec.tinyQueue).
Proof.
  intros o.
  destruct (constructor_replaces_zero_by_default o) as (Hp & Hq & Ht & _ & Hnew).
  split; [exact (proj1 (proj2 Hp) _ eq_refl eq_refl)|].
  split; [exact (proj1 (proj2 Hq) _ eq_refl eq_refl)|].
  split; [apply (proj2 (proj2 Ht)); right; exists (JS.Num 0); split; reflexivity|].
  exact (proj1 (Hnew Spec.tinyQueue)).
Defined.

(** The worker's process exits while a call is in flight: the restarted
    worker is busy and not ready, and [idleWorkers] is negative. *)
Lemma getStats_derives_counts_from_pool_witness :
  let s := fst (Detector.run (Spec.loadedSingle Spec.tinyQueue)
                  [Detector.Detect 0 "Test 0" Spec.noOptions 0; Detector.ProcessExit 0]) in
  idleWorkers (Detector.getStats s) = -1 /\
  (0 < idleWorkers (Detector.getStats (Spec.loadedSingle Spec.tinyQueue)) ->
   Detector.getAvailableWorker (Spec.loadedSingle Spec.tinyQueue) <> None) /\
  idleWorkers (Detector.getStats (Spec.loadedSingle Spec.tinyQueue)) = 1.
Proof.
  intros s. split; [vm_compute; reflexivity|].
  destruct (getStats_derives_counts_from_pool (Spec.loadedSingle Spec.tinyQueue))
    as (_ & _ & _ & Hidle & _).
  split; [exact Hidle|vm_compute; reflexivity].
Defined.

Section OptionsOutput.

Local Open Scope list_scope.
Import Detector.
Context `{Builtins}.

Lemma filter_sublist {A : Type} (f : A -> bool) (l : list A) :
  sublist (List.filter f l) l.
Proof.
  induction l as [|x l IH]; simpl; [constructor|].
  destruct (f x); now constructor.
Qed.

Lemma sublist_In {A : Type} (l1 l2 : list A) (x : A) :
  sublist l1 l2 -> In x l1 -> In x l2.
Proof. induction 1; simpl; tauto. Qed.

Lemma filter_holds {A : Type} (f : A -> bool) (l : list A) (x : A) :
  In x (List.filter f l) -> f x = true.
Proof. intros Hin. now apply List.filter_In in Hin. Qed.

(** X11. What [applyOptions] returns, whatever the options: [primary] is the
    first prediction; a positive [topK] bounds the number of predictions.
    Unless [returnAll: false] collapses the result to the primary prediction
    it was given, the predictions are a subsequence of those given (order
    kept), each at or above the threshold, and each carries its language
    name exactly when [includeLanguageName] is set. The collapsed result is
    the given primary prediction as it is: not filtered, not named. *)
Theorem applyOptions_output_respects_options
    (result : DetectionResult) (options : DetectionOptions) :
  let out := applyOptions result options in
  primary out = head (predictions out) /\
  (forall k, topK options = Some k -> 0 < k ->
     (length (predictions out) <= Z.to_nat k)%nat) /\
  (forall p, returnAll options = Some false -> primary result = Some p ->
     out = {| predictions := [p]; primary := Some p |}) /\
  (returnAll options <> Some false \/ primary result = None ->
   (exists kept,
      sublist kept (predictions result) /\
      predictions out
        = if truthy_bool (includeLanguageName options)
          then map withLanguageName kept else kept) /\
   (forall t p, threshold options = Some t -> In p (predictions out) ->
      JS.ge (confidence p) t = true) /\
   (forall p, includeLanguageName options = Some true -> In p (predictions out) ->
      languageName p = Some (getLanguageName (language p)))).
Proof.
  intros out. subst out. unfold applyOptions.
  set (filtered := match threshold options with
                   | Some t => List.filter (fun p => JS.ge (confidence p) t) (predictions result)
                   | None => predictions result
                   end).
  set (cut := match topK options with
              | Some k => if (negb (k =? 0) && (0 <? k))%bool
                          then firstn (Z.to_nat k) filtered else filtered
              | None => filtered
              end).
  set (named := if truthy_bool (includeLanguageName options)
                then map withLanguageName cut else cut).
  assert (Hcut_len : forall k, topK options = Some k -> 0 < k ->
                               (length cut <= Z.to_nat k)%nat).
  { intros k Hk Hpos. subst cut. rewrite Hk.
    destruct (Z.eqb_spec k 0); [lia|]. destruct (Z.ltb_spec 0 k); [|lia]. simpl.
    rewrite length_firstn. lia. }
  assert (Hnamed_len : length named = length cut).
  { subst named. destruct (truthy_bool _); [apply length_map|reflexivity]. }
  assert (Hfiltered : sublist filtered (predictions result)).
  { subst filtered. destruct (threshold options); [apply filter_sublist|reflexivity]. }
  assert (Hcut : sublist cut filtered).
  { subst cut. destruct (topK options) as [k|]; [|reflexivity].
    destruct (negb (k =? 0) && (0 <? k))%bool; [apply sublist_take|reflexivity]. }
  refine (conj eq_refl (conj _ (conj _ _))).
  - intros k Hk Hpos. simpl.
    destruct (returnAll options) as [[|]|]; simpl; try (rewrite Hnamed_len; auto).
    destruct (primary result); simpl; [lia|rewrite Hnamed_len; auto].
  - intros p Hra Hp. rewrite Hra, Hp. reflexivity.
  - intros Hall.
    assert (Hout : match returnAll options, primary result with
                   | Some false, Some p => [p]
                   | _, _ => named
                   end = named).
    { destruct Hall as [Hra|Hp]; [|rewrite Hp; now destruct (returnAll options) as [[|]|]].
      destruct (returnAll options) as [[|]|]; congruence. }
    simpl. rewrite Hout.
    refine (conj _ (conj _ _)).
    + exists cut. split; [etrans; eauto|reflexivity].
    + intros t p Ht Hin.
      assert (Hin' : exists q, In q filtered /\ confidence q = confidence p).
      { subst named. destruct (truthy_bool _).
        - apply in_map_iff in Hin as (q & <- & Hq). exists q. split; [|reflexivity].
          eapply sublist_In; eauto.
        - exists p. split; [|reflexivity].
          eapply sublist_In; eauto. }
      destruct Hin' as (q & Hq & <-). subst filtered. rewrite Ht in Hq.
      apply (filter_holds _ _ _ Hq).
    + intros p Hname Hin. subst named. rewrite Hname in Hin. simpl in Hin.
      apply in_map_iff in Hin as (q & <- & _). reflexivity.
Qed.

End OptionsOutput.

Lemma applyOptions_output_respects_options_witness :
  let options := {| threshold := Some (JS.Num (19 # 20)); topK := Some 1;
                    includeLanguageName := Some true; returnAll := Some false |} in
  Detector.applyOptions Spec.sample options
    = {| predictions := [Spec.pred "en" (9 # 10)];
         primary := Some (Spec.pred "en" (9 # 10)) |} /\
  (length (predictions (Detector.applyOptions Spec.sample options)) <= 1)%nat.
Proof.
  intros options.
  destruct (applyOptions_output_respects_options Spec.sample options)
    as (_ & Hk & Hcollapse & _).
  split.
  - apply Hcollapse; reflexivity.
  - apply (Hk 1); [reflexivity|lia].
Defined.

(** ** Batches ([detectBatch]) *)

Section Batch.

Local Open Scope list_scope.
Import Detector.
Context `{Builtins}.

Lemma settle_empty (s : State) : settle [] s = (s, []).
Proof. unfold settle. destruct (_ + _)%nat; reflexivity. Qed.

(** [detect] is its synchronous part followed by the reactions. *)
Lemma detect_sync_settle (c : nat) (text : string) (options : DetectionOptions) (now : Z)
  (s : State) :
  detect c text options now s
    = let '(s1, acts, dfd) := detect_sync c text options now s in
      let '(s2, acts') := settle dfd s1 in
      (s2, acts ++ acts').
Proof.
  unfold detect, detect_sync.
  destruct (isBlank text); [now rewrite settle_empty|].
  destruct (negb (isLoaded s)); [now rewrite settle_empty|].
  destruct (cacheLookup text now s) as [[r|] s1]; [now rewrite settle_empty|].
  destruct (getAvailableWorker _) as [[a w]|].
  - destruct (executeRequest _ _ _ _) as [[s3 acts] dfd].
    destruct (settle dfd s3) as [s4 acts']. reflexivity.
  - destruct (Nat.leb _ _); now rewrite settle_empty.
Qed.

Lemma detectAll_unloaded (texts : list string) (options : DetectionOptions) :
  forall (calls : list (nat * Z)) (s : State),
  isLoaded s = false \/ Forall (fun text => isBlank text = true) texts ->
  detectAll texts options calls s
    = (s, map Spec.unloadedAnswer (combine texts calls), []).
Proof.
  induction texts as [|text texts IH]; intros calls s Hs; simpl; [reflexivity|].
  destruct calls as [|[c now] calls]; [reflexivity|].
  assert (Hrest : isLoaded s = false \/ Forall (fun text => isBlank text = true) texts).
  { destruct Hs as [Hs|Hs]; [auto|]. inversion Hs; auto. }
  assert (Hone : detect_sync c text options now s
                 = (s, [Spec.unloadedAnswer (text, (c, now))], [])).
  { unfold detect_sync, Spec.unloadedAnswer. simpl.
    destruct (isBlank text) eqn:Eb; [reflexivity|].
    destruct Hs as [->|Hs]; [reflexivity|]. inversion Hs; congruence. }
  rewrite Hone, (IH calls s Hrest). reflexivity.
Qed.

Lemma map_const_length {A B C : Type} (v : C) (l1 : list A) (l2 : list B) :
  length l1 = length l2 -> map (fun _ => v) l1 = map (fun _ => v) l2.
Proof.
  revert l2. induction l1 as [|x l1 IH]; intros [|y l2]; simpl; intros Hlen;
    try discriminate; [reflexivity|]. f_equal. apply IH. lia.
Qed.

Lemma firstRejection_none (calls : list nat) (acts : list Action) :
  (forall c e, ~ In (Threw c e) acts) -> firstRejection calls acts = None.
Proof.
  induction acts as [|a acts IH]; simpl; intros Hno; [reflexivity|].
  assert (Hrest : forall c e, ~ In (Threw c e) acts).
  { intros c e Hin. apply (Hno c e). auto. }
  destruct a as [q0 c0 w0|w0 l0|c0|c0 v0|c0 e0|i0|w0 p0|w0| |e0]; auto. exfalso. apply (Hno c0 e0). auto.
Qed.

Lemma firstRejection_some (calls : list nat) (acts : list Action) (e : Error) :
  (forall c e', In (Threw c e') acts -> In c calls /\ e' = e) ->
  (exists c, In (Threw c e) acts) ->
  firstRejection calls acts = Some e.
Proof.
  induction acts as [|a acts IH]; simpl; intros Hall [c Hin]; [contradiction|].
  assert (Hrest : forall c e', In (Threw c e') acts -> In c calls /\ e' = e).
  { intros c' e' Hin'. apply Hall. auto. }
  destruct a as [q0 c0 w0|w0 l0|c0|c0 v0|c0 e0|i0|w0 p0|w0| |e0];
    try (destruct Hin as [Hin|Hin]; [discriminate|]; eauto).
  destruct (Hall c0 e0) as [Hc ->]; [auto|].
  assert (Hex : existsb (Nat.eqb c0) calls = true).
  { apply existsb_exists. exists c0. split; [exact Hc|apply Nat.eqb_refl]. }
  now rewrite Hex.
Qed.

Lemma returnedValues_all (v : DetectionResult) (acts : list Action) :
  (forall c v', In (Returned c v') acts -> v' = v) ->
  forall (calls : list nat),
  (forall c, In c calls -> exists v', In (Returned c v') acts) ->
  returnedValues calls acts = Some (map (fun _ => v) calls).
Proof.
  intros Hall. 
  assert (Hone : forall c, (exists v', In (Returned c v') acts) ->
                           returnedValue c acts = Some v).
  { intros c. clear - Hall. induction acts as [|a acts IH]; simpl; intros [v' Hin]; [contradiction|].
    assert (Hrest : forall c v', In (Returned c v') acts -> v' = v).
    { intros c' v'' Hin'. apply (Hall c'). right. exact Hin'. }
    destruct a as [q0 c0 w0|w0 l0|c0|c0 v0|c0 e0|i0|w0 p0|w0| |e0];
      try (destruct Hin as [Hin|Hin]; [discriminate|]; eauto).
    destruct (Nat.eqb_spec c0 c) as [->|Hne].
    - f_equal. apply (Hall c). left. reflexivity.
    - destruct Hin as [[= -> _]|Hin]; [congruence|]. eauto. }
  induction calls as [|c calls IH]; simpl; intros Hin; [reflexivity|].
  rewrite Hone by auto. rewrite IH by auto. reflexivity.
Qed.

(** X12. A batch whose texts are all blank resolves to one empty result per
    text, in any state of the detector; on a detector that is not loaded a
    batch with a text that is not blank is rejected with the not-loaded
    error. In both cases each call is answered at once and the detector is
    left as it was. *)
Theorem detectBatch_without_a_pool
    (s : State) (texts : list string) (options : DetectionOptions) (calls : list (nat * Z)) :
  length calls = length texts ->
  isLoaded s = false \/ Forall (fun text => isBlank text = true) texts ->
  detectBatch texts options calls s
    = (s, map Spec.unloadedAnswer (combine texts calls)) /\
  detectBatch_then (map fst calls) (snd (detectBatch texts options calls s))
    = if forallb isBlank texts
      then Some (inr (map (fun _ => emptyResult) texts))
      else Some (inl NotLoaded).
Proof.
  intros Hlen Hs.
  assert (Hrun : detectBatch texts options calls s
                 = (s, map Spec.unloadedAnswer (combine texts calls))).
  { unfold detectBatch. rewrite detectAll_unloaded by exact Hs.
    rewrite settle_empty, app_nil_r. reflexivity. }
  split; [exact Hrun|]. rewrite Hrun. simpl. unfold detectBatch_then.
  clear Hrun Hs.
  assert (Hanswers : forall a, In a (map Spec.unloadedAnswer (combine texts calls)) ->
            exists text c now, In (text, (c, now)) (combine texts calls) /\
                               a = Spec.unloadedAnswer (text, (c, now))).
  { intros a Hin. apply in_map_iff in Hin as ([text [c now]] & <- & Hin). eauto. }
  destruct (forallb isBlank texts) eqn:Eall.
  - rewrite firstRejection_none.
    + simpl. rewrite (returnedValues_all emptyResult).
      * rewrite !map_map. simpl. do 2 f_equal. now apply map_const_length.
      * intros c v Hin. apply Hanswers in Hin as (text & c' & now & _ & Ha).
        unfold Spec.unloadedAnswer in Ha. simpl in Ha.
        destruct (isBlank text); congruence.
      * intros c Hc. apply in_map_iff in Hc as ([c' now] & <- & Hc). simpl.
        exists emptyResult. apply in_map_iff.
        assert (Hex : exists text, In (text, (c', now)) (combine texts calls)).
        { clear - Hlen Hc. revert texts Hlen.
          induction calls as [|c0 calls IH]; intros [|t texts] Hlen; simpl in *;
            try discriminate; [contradiction|].
          destruct Hc as [->|Hc]; [eauto|].
          destruct (IH Hc texts) as [text Hin]; [lia|eauto]. }
        destruct Hex as [text Hin]. exists (text, (c', now)). split; [|exact Hin].
        unfold Spec.unloadedAnswer. simpl.
        rewrite forallb_forall in Eall. rewrite Eall; [reflexivity|].
        apply (in_combine_l _ _ _ _ Hin).
    + intros c e Hin. apply Hanswers in Hin as (text & c' & now & Hin & Ha).
      unfold Spec.unloadedAnswer in Ha. simpl in Ha.
      rewrite forallb_forall in Eall. rewrite Eall in Ha; [discriminate|].
      apply (in_combine_l _ _ _ _ Hin).
  - rewrite (firstRejection_some _ _ NotLoaded); [reflexivity| |].
    + intros c e Hin. apply Hanswers in Hin as (text & c' & now & Hin & Ha).
      unfold Spec.unloadedAnswer in Ha. simpl in Ha.
      destruct (isBlank text); [discriminate|]. injection Ha as -> ->.
      split; [|reflexivity]. apply in_map_iff. exists (c', now). split; [reflexivity|].
      apply (in_combine_r _ _ _ _ Hin).
    + assert (Hex : exists text, In text texts /\ isBlank text = false).
      { clear - Eall. induction texts as [|t texts IH]; simpl in Eall; [discriminate|].
        destruct (isBlank t) eqn:Et; simpl in Eall.
        - destruct (IH Eall) as (text & Hin & Hb). exists text. simpl. auto.
        - exists t. simpl. auto. }
      destruct Hex as (text & Hin & Hb).
      assert (Hentry : exists c now, In (text, (c, now)) (combine texts calls)).
      { clear - Hlen Hin. revert calls Hlen.
        induction texts as [|t texts IH]; intros [|[c0 n0] calls] Hlen; simpl in *;
          try discriminate; [contradiction|].
        destruct Hin as [->|Hin]; [eauto|].
        destruct (IH Hin calls) as (c & now & Hin'); [lia|eauto]. }
      destruct Hentry as (c & now & Hentry). exists c. apply in_map_iff.
      exists (text, (c, now)). split; [|exact Hentry].
      unfold Spec.unloadedAnswer. simpl. now rewrite Hb.
Qed.

End Batch.

Section BatchOverflow.

Local Open Scope list_scope.
Import Detector.
Context `{Builtins}.

Lemma skipn_incl {A : Type} (n : nat) (l : list A) (x : A) :
  In x (skipn n l) -> In x l.
Proof.
  revert l. induction n as [|n IH]; intros [|y l]; simpl; auto.
Qed.

Lemma detectAll_without_idle_worker (options : DetectionOptions) (texts : list string) :
  forall (calls : list (nat * Z)) (s : State) (free : nat),
  isLoaded s = true -> cache s = None -> getAvailableWorker s = None ->
  Forall (fun text => isBlank text = false) texts ->
  length calls = length texts ->
  free = (maxQueueSize (config s) - length (requestQueue s))%nat ->
  exists s',
    detectAll texts options calls s
      = (s',
         map (fun c => Enqueued (fst c)) (firstn free calls)
         ++ map (fun c => Threw (fst c) (QueueFull (maxQueueSize (config s))))
                (skipn free calls),
         []) /\
    requestQueue s'
      = requestQueue s ++ map (Spec.batchRequest options) (firstn free (combine texts calls)) /\
    running s' = running s /\ heap s' = heap s /\ workers s' = workers s /\
    isLoaded s' = true /\
    totalRequests (stats s') = totalRequests (stats s) + Z.of_nat (length texts).
Proof.
  induction texts as [|text texts IH]; intros calls s free Hl Hc Ha Hnb Hlen Hfree.
  - destruct calls; [|discriminate]. exists s. simpl.
    rewrite firstn_nil, skipn_nil, Z.add_0_r. simpl. rewrite firstn_nil, app_nil_r.
    simpl. auto 10.
  - destruct calls as [|[c now] calls]; [discriminate|].
    apply List.Forall_cons_iff in Hnb as [Hb Hrest].
    simpl in Hlen. injection Hlen as Hlen.
    cbn [detectAll]. unfold detect_sync. rewrite Hb, Hl. simpl.
    unfold cacheLookup. rewrite Hc.
    unfold getAvailableWorker in *. simpl. rewrite Ha.
    destruct (Nat.leb (maxQueueSize (config s)) (length (requestQueue s))) eqn:Efull.
    + apply Nat.leb_le in Efull.
      assert (Hzero : free = 0%nat) by lia. subst free. rewrite Hzero.
      set (s2 := set_stats _ s).
      destruct (IH calls s2 0%nat) as (s' & Hrun & Hq & Hr & Hh & Hw & Hl' & Ht);
        try assumption; try reflexivity; [simpl; lia|].
      exists s'. rewrite Hrun. simpl in *. rewrite Hq.
      refine (conj eq_refl (conj eq_refl (conj Hr (conj Hh (conj Hw (conj Hl' _)))))).
      rewrite Ht. lia.
    + apply Nat.leb_gt in Efull.
      destruct free as [|free']; [lia|].
      set (request := {| text := text; call := c; options := options; startTime := now |}).
      set (s2 := set_requestQueue _ _).
      destruct (IH calls s2 free') as (s' & Hrun & Hq & Hr & Hh & Hw & Hl' & Ht);
        try assumption; try reflexivity.
      { subst s2. simpl. rewrite length_app. simpl. lia. }
      exists s'. rewrite Hrun. simpl in *. rewrite Hq, <- app_assoc.
      refine (conj eq_refl (conj eq_refl (conj Hr (conj Hh (conj Hw (conj Hl' _)))))).
      rewrite Ht. lia.
Qed.

(** X13. On a loaded detector without cache whose workers are all taken, a
    batch of texts none of which is blank is taken in text by text: the
    first calls fill the free places of the queue, in the order of the texts,
    and each further call is rejected as the queue is full. A batch with
    more texts than free places is therefore rejected as a whole, while the
    requests it queued stay in the queue; a smaller batch waits. *)
Theorem detectBatch_fills_queue_then_rejects
    (s : State) (texts : list string) (options : DetectionOptions) (calls : list (nat * Z)) :
  isLoaded s = true -> cache s = None -> Spec.noIdleWorker s ->
  Forall (fun text => isBlank text = false) texts ->
  length calls = length texts ->
  let free := (maxQueueSize (config s) - length (requestQueue s))%nat in
  let s' := fst (detectBatch texts options calls s) in
  let acts := snd (detectBatch texts options calls s) in
  acts = map (fun c => Enqueued (fst c)) (firstn free calls)
         ++ map (fun c => Threw (fst c) (QueueFull (maxQueueSize (config s))))
                (skipn free calls) /\
  requestQueue s'
    = requestQueue s ++ map (Spec.batchRequest options) (firstn free (combine texts calls)) /\
  running s' = running s /\
  totalRequests (stats s') = totalRequests (stats s) + Z.of_nat (length texts) /\
  ((free < length texts)%nat ->
   detectBatch_then (map fst calls) acts = Some (inl (QueueFull (maxQueueSize (config s))))) /\
  ((0 < length texts <= free)%nat -> detectBatch_then (map fst calls) acts = None).
Proof.
  intros Hl Hc Hidle Hnb Hlen free s' acts. subst s' acts.
  assert (Ha : getAvailableWorker s = None).
  { unfold getAvailableWorker. apply findAvailable_None. exact Hidle. }
  destruct (detectAll_without_idle_worker options texts calls s free Hl Hc Ha Hnb Hlen eq_refl)
    as (s' & Hrun & Hq & Hr & _ & _ & _ & Ht).
  unfold detectBatch. rewrite Hrun, settle_empty, app_nil_r. simpl.
  refine (conj eq_refl (conj Hq (conj Hr (conj Ht (conj _ _))))).
  - intros Hover. unfold detectBatch_then.
    rewrite (firstRejection_some _ _ (QueueFull (maxQueueSize (config s)))); [reflexivity| |].
    + intros c e Hin. apply in_app_iff in Hin as [Hin|Hin].
      * apply in_map_iff in Hin as (x & Hx & _). discriminate.
      * apply in_map_iff in Hin as (x & [= <- <-] & Hx).
        split; [|reflexivity]. apply in_map. eapply skipn_incl; eauto.
    + destruct (skipn free calls) as [|x rest] eqn:Es.
      * apply (f_equal (@length _)) in Es. rewrite length_skipn in Es. simpl in Es. lia.
      * exists (fst x). apply in_app_iff. right. simpl. auto.
  - intros [Hpos Hfit]. unfold detectBatch_then.
    rewrite firstRejection_none.
    + simpl. destruct calls as [|[c now] calls]; [simpl in Hlen; lia|]. simpl.
      assert (Hnone : forall acts, (forall c v, ~ In (Returned c v) acts) ->
                                   returnedValue c acts = None).
      { induction acts as [|a acts IHa]; simpl; intros Hno; [reflexivity|].
        assert (Hrest : forall c v, ~ In (Returned c v) acts).
        { intros c' v Hin. apply (Hno c' v). auto. }
        destruct a as [q0 c0 w0|w0 l0|c0|c0 v0|c0 e0|i0|w0 p0|w0| |e0]; auto.
        exfalso. apply (Hno c0 v0). auto. }
      rewrite Hnone; [reflexivity|].
      intros c' v Hin. apply in_app_iff in Hin as [Hin|Hin];
        apply in_map_iff in Hin as (x & Hx & _); discriminate.
    + intros c e Hin. apply in_app_iff in Hin as [Hin|Hin].
      * apply in_map_iff in Hin as (x & Hx & _). discriminate.
      * rewrite skipn_all2 in Hin by lia. contradiction.
Qed.

End BatchOverflow.

Lemma detectBatch_without_a_pool_witness :
  let calls := [(0%nat, 0); (1%nat, 0)] in
  Detector.detectBatch ["Hello"; Spec.blanks] Spec.noOptions calls (Detector.new Spec.defaults)
    = (Detector.new Spec.defaults,
       [Detector.Threw 0 NotLoaded; Detector.Returned 1 Detector.emptyResult]) /\
  Detector.detectBatch_then [0%nat; 1%nat]
    (snd (Detector.detectBatch ["Hello"; Spec.blanks] Spec.noOptions calls
            (Detector.new Spec.defaults)))
    = Some (inl NotLoaded) /\
  Detector.detectBatch_then [0%nat; 1%nat]
    (snd (Detector.detectBatch [Spec.wideBlanks; Spec.blanks] Spec.noOptions calls
            (Detector.new Spec.defaults)))
    = Some (inr [Detector.emptyResult; Detector.emptyResult]).
Proof.
  intros calls.
  destruct (detectBatch_without_a_pool (Detector.new Spec.defaults) ["Hello"; Spec.blanks]
              Spec.noOptions calls eq_refl (or_introl eq_refl)) as [Hrun Hthen].
  destruct (detectBatch_without_a_pool (Detector.new Spec.defaults)
              [Spec.wideBlanks; Spec.blanks] Spec.noOptions calls eq_refl
              (or_introl eq_refl)) as [_ Hblank].
  split; [exact Hrun|]. split; [exact Hthen|exact Hblank].
Defined.

(** One worker, busy, and a queue of two with one request: a batch of three
    texts queues its first text and is rejected. *)
Lemma detectBatch_fills_queue_then_rejects_witness :
  let s := fst (Detector.run (Spec.loadedSingle Spec.tinyQueue)
                  [Detector.Detect 0 "Test 0" Spec.noOptions 0;
                   Detector.Detect 1 "Test 1" Spec.noOptions 0]) in
  let calls := [(2%nat, 1); (3%nat, 1); (4%nat, 1)] in
  snd (Detector.detectBatch ["a"; "b"; "c"] Spec.noOptions calls s)
    = [Detector.Enqueued 2; Detector.Threw 3 (QueueFull 2); Detector.Threw 4 (QueueFull 2)] /\
  Detector.detectBatch_then [2%nat; 3%nat; 4%nat]
    (snd (Detector.detectBatch ["a"; "b"; "c"] Spec.noOptions calls s))
    = Some (inl (QueueFull 2)) /\
  map Detector.call (Detector.requestQueue
                       (fst (Detector.detectBatch ["a"; "b"; "c"] Spec.noOptions calls s)))
    = [1%nat; 2%nat].
Proof.
  intros s calls.
  assert (Hidle : Spec.noIdleWorker s).
  { intros a w Hin Hw. simpl in Hin. destruct Hin as [<-|[]].
    vm_compute in Hw. injection Hw as <-. right. reflexivity. }
  assert (Hnb : Forall (fun text => Detector.isBlank text = false) ["a"; "b"; "c"]).
  { repeat constructor. }
  destruct (detectBatch_fills_queue_then_rejects s ["a"; "b"; "c"] Spec.noOptions calls
              eq_refl eq_refl Hidle Hnb eq_refl) as (Hacts & Hq & _ & _ & Hover & _).
  split; [exact Hacts|]. split.
  - apply Hover. vm_compute. lia.
  - rewrite Hq. vm_compute. reflexivity.
Defined.

(** ** Accounting for calls, and invariants of the detector *)

Section Weighing.

Local Open Scope list_scope.

Lemma weigh_nil (f : nat -> nat) : Spec.weigh f [] = 0%nat.
Proof. reflexivity. Qed.

Lemma weigh_cons (f : nat -> nat) (c : nat) (l : list nat) :
  Spec.weigh f (c :: l) = (f c + Spec.weigh f l)%nat.
Proof. reflexivity. Qed.

Lemma weigh_app (f : nat -> nat) (l1 l2 : list nat) :
  Spec.weigh f (l1 ++ l2) = (Spec.weigh f l1 + Spec.weigh f l2)%nat.
Proof. unfold Spec.weigh. now rewrite map_app, list_sum_app. Qed.

Lemma weigh_length (l : list nat) : Spec.weigh (fun _ => 1%nat) l = length l.
Proof. induction l as [|c l IH]; [reflexivity|]. rewrite weigh_cons, IH. reflexivity. Qed.

Lemma weigh_count (c : nat) (l : list nat) :
  Spec.weigh (fun x => if Nat.eq_dec x c then 1%nat else 0%nat) l = count_occ Nat.eq_dec l c.
Proof.
  induction l as [|x l IH]; [reflexivity|]. rewrite weigh_cons, IH. simpl.
  destruct (Nat.eq_dec x c); reflexivity.
Qed.

End Weighing.

Create Rewrite HintDb weigh.
#[global] Hint Rewrite weigh_nil weigh_cons weigh_app : weigh.

Section Accounting.

Local Open Scope list_scope.
Import Detector.

Lemma answered_app (a b : list Action) :
  Spec.answered (a ++ b) = Spec.answered a ++ Spec.answered b.
Proof.
  induction a as [|x a IH]; [reflexivity|].
  destruct x; simpl; rewrite ?IH; reflexivity.
Qed.

Lemma unserved_app (a b : list Action) :
  Spec.unserved (a ++ b) = Spec.unserved a + Spec.unserved b.
Proof.
  induction a as [|x a IH]; [reflexivity|].
  destruct x; simpl; rewrite ?IH; lia.
Qed.

Lemma pendingCalls_weigh (f : nat -> nat) (s : State) :
  Spec.weigh f (Spec.pendingCalls s)
    = (Spec.weigh f (map call (requestQueue s))
       + Spec.weigh f (map (fun r => call (snd r)) (running s)))%nat.
Proof. unfold Spec.pendingCalls. apply weigh_app. Qed.

Lemma silent_app (a b : list Action) : Spec.silent a -> Spec.silent b -> Spec.silent (a ++ b).
Proof.
  intros [Ha1 Ha2] [Hb1 Hb2]. split.
  - now rewrite answered_app, Ha1, Hb1.
  - rewrite unserved_app. lia.
Qed.

Lemma silent_nil : Spec.silent [].
Proof. split; reflexivity. Qed.

Lemma busyAt_insert (s s' : State) (a : addr) (w w' : Worker.FastTextWorker) :
  heap s' = <[a := w']> (heap s) -> heap s !! a = Some w ->
  Worker.isBusy w' = Worker.isBusy w ->
  forall x, Spec.busyAt s' x = Spec.busyAt s x.
Proof.
  intros Hh Hw Hb x. unfold Spec.busyAt. rewrite Hh.
  destruct (Nat.eq_dec x a) as [->|Hne].
  - rewrite list_lookup_insert_eq by (eapply lookup_lt_Some; eauto). now rewrite Hw.
  - now rewrite list_lookup_insert_ne by auto.
Qed.

Lemma busyAt_heap (s s' : State) :
  heap s' = heap s -> forall x, Spec.busyAt s' x = Spec.busyAt s x.
Proof. intros Hh x. unfold Spec.busyAt. now rewrite Hh. Qed.

Lemma housekeeping_trans (s s1 s2 : State) (a1 a2 : list Action) :
  Spec.housekeeping s a1 s1 -> Spec.housekeeping s1 a2 s2 ->
  Spec.housekeeping s (a1 ++ a2) s2.
Proof.
  intros (Hq1 & Hr1 & Hc1 & Hs1 & Hg1 & Hl1 & Hb1 & Hsil1 & Hp1)
         (Hq2 & Hr2 & Hc2 & Hs2 & Hg2 & Hl2 & Hb2 & Hsil2 & Hp2).
  unfold Spec.housekeeping.
  refine (conj (eq_trans Hq2 Hq1) (conj (eq_trans Hr2 Hr1) (conj (eq_trans Hc2 Hc1)
           (conj (eq_trans Hs2 Hs1) (conj (eq_trans Hg2 Hg1) (conj (eq_trans Hl2 Hl1)
           (conj (fun a => eq_trans (Hb2 a) (Hb1 a))
           (conj (silent_app _ _ Hsil1 Hsil2) _)))))))).
  destruct Hp2 as [[Hi2 Hw2]|[Hi2 Hw2]]; [|auto].
  destruct Hp1 as [[Hi1 Hw1]|[Hi1 Hw1]]; [left|right]; split; congruence.
Qed.

(** A transition that changes nothing but worker objects and timers *)
Lemma housekeeping_same (s s' : State) (acts : list Action) :
  requestQueue s' = requestQueue s -> running s' = running s -> cache s' = cache s ->
  stats s' = stats s -> config s' = config s -> isLoaded s' = isLoaded s ->
  isLoading s' = isLoading s -> workers s' = workers s ->
  (forall a, Spec.busyAt s' a = Spec.busyAt s a) -> Spec.silent acts ->
  Spec.housekeeping s acts s'.
Proof.
  intros Hq Hr Hc Hs Hg Hl Hi Hw Hb Hsil.
  exact (conj Hq (conj Hr (conj Hc (conj Hs (conj Hg (conj Hl (conj Hb (conj Hsil
           (or_introl (conj Hi Hw)))))))))).
Qed.

Lemma housekeeping_refl (s : State) : Spec.housekeeping s [] s.
Proof. apply housekeeping_same; try reflexivity. apply silent_nil. Qed.

Lemma stopWorker_housekeeping (a : addr) (s s' : State) (acts : list Action) :
  stopWorker a s = (s', acts) -> Spec.housekeeping s acts s'.
Proof.
  unfold stopWorker. destruct (heap s !! a) as [w|] eqn:Hw.
  - assert (Hb : Worker.isBusy (Worker.stop w) = Worker.isBusy w).
    { unfold Worker.stop. destruct (Worker.process w); reflexivity. }
    destruct (Worker.stopSignals w); intros [= <- <-];
      apply housekeeping_same; try reflexivity;
      try (eapply busyAt_insert; eauto; reflexivity); split; reflexivity.
  - intros [= <- <-]. apply housekeeping_refl.
Qed.

Lemma stopWorkers_housekeeping (ws : list addr) :
  forall (s s' : State) (acts : list Action),
  stopWorkers ws s = (s', acts) -> Spec.housekeeping s acts s'.
Proof.
  induction ws as [|a ws IH]; intros s s' acts; simpl.
  - intros [= <- <-]. apply housekeeping_refl.
  - destruct (stopWorker a s) as [s1 acts1] eqn:E1.
    destruct (stopWorkers ws s1) as [s2 acts2] eqn:E2. intros [= <- <-].
    eapply housekeeping_trans; eauto using stopWorker_housekeeping.
Qed.

Lemma startWorker_housekeeping (a : addr) (owner : StartOwner) (s s' : State)
  (acts : list Action) :
  startWorker a owner s = (s', acts) -> Spec.housekeeping s acts s'.
Proof.
  unfold startWorker. destruct (heap s !! a) as [w|] eqn:Hw.
  - intros [= <- <-]. apply housekeeping_same; try reflexivity.
    + eapply busyAt_insert; eauto; reflexivity.
    + split; reflexivity.
  - intros [= <- <-]. apply housekeeping_refl.
Qed.

Lemma housekeeping_cons (s s' : State) (x : Action) (acts : list Action) :
  Spec.silent [x] -> Spec.housekeeping s acts s' -> Spec.housekeeping s (x :: acts) s'.
Proof.
  intros Hx Hk. change (x :: acts) with ([x] ++ acts).
  eapply housekeeping_trans; [|exact Hk].
  apply housekeeping_same; auto.
Qed.

Lemma restartWorker_housekeeping (workerId : nat) (s s' : State) (acts : list Action) :
  restartWorker workerId s = (s', acts) -> Spec.housekeeping s acts s'.
Proof.
  unfold restartWorker. destruct (negb (isLoaded s)).
  - intros [= <- <-]. apply housekeeping_refl.
  - destruct (workers s !! workerId) as [a|].
    + destruct (stopWorker a s) as [s1 acts1] eqn:E1.
      destruct (startWorker a (ByRestart workerId) s1) as [s2 acts2] eqn:E2.
      intros [= <- <-]. apply housekeeping_cons; [split; reflexivity|].
      eapply housekeeping_trans; eauto using stopWorker_housekeeping, startWorker_housekeeping.
    + intros [= <- <-]. apply housekeeping_cons; [split; reflexivity|].
      apply housekeeping_refl.
Qed.

Lemma load_catch_housekeeping (e : Error) (s s' : State) (acts : list Action) :
  load_catch e s = (s', acts) -> Spec.housekeeping s acts s'.
Proof.
  unfold load_catch.
  destruct (stopWorkers _ _) as [s2 acts2] eqn:E2. intros [= <- <-].
  apply stopWorkers_housekeeping in E2
    as (Hq & Hr & Hc & Hs & Hg & Hl & Hb & Hsil & Hp).
  simpl in *. unfold Spec.housekeeping. simpl.
  refine (conj Hq (conj Hr (conj Hc (conj Hs (conj Hg (conj Hl (conj Hb (conj _ _)))))))).
  - apply silent_app; [exact Hsil|split; reflexivity].
  - right. split; [|reflexivity].
    destruct Hp as [[Hi _]|[Hi _]]; exact Hi.
Qed.

Lemma start_rejected_housekeeping (e : Error) (ps : PendingStart) (s s' : State)
  (acts : list Action) :
  start_rejected e ps s = (s', acts) -> Spec.housekeeping s acts s'.
Proof.
  unfold start_rejected. destruct (ps_owner ps) as [generation|workerId].
  - destruct (loadJoin s); [|intros [= <- <-]; apply housekeeping_refl].
    destruct (Nat.eqb _ _); [apply load_catch_housekeeping|].
    intros [= <- <-]. apply housekeeping_refl.
  - intros [= <- <-]. apply housekeeping_same; try reflexivity. apply silent_nil.
Qed.

Lemma onKillTimer_housekeeping (a : addr) (s s' : State) (acts : list Action) :
  onKillTimer a s = (s', acts) -> Spec.housekeeping s acts s'.
Proof.
  unfold onKillTimer.
  destruct (extract _ _) as [[x rest]|]; [|intros [= <- <-]; apply housekeeping_refl].
  destruct (heap s !! a) as [w|] eqn:Hw; [|intros [= <- <-]; apply housekeeping_refl].
  intros [= <- <-]. apply housekeeping_same; try reflexivity.
  - eapply busyAt_insert; eauto; reflexivity.
  - apply silent_nil.
Qed.

Lemma onProcessExit_housekeeping (a : addr) (s s' : State) (acts : list Action) :
  onProcessExit a s = (s', acts) -> Spec.housekeeping s acts s'.
Proof.
  unfold onProcessExit.
  destruct (heap s !! a) as [w|] eqn:Hw; [|intros [= <- <-]; apply housekeeping_refl].
  intros E. apply restartWorker_housekeeping in E.
  rewrite <- (app_nil_l acts). eapply housekeeping_trans; [|exact E].
  apply housekeeping_same; try reflexivity.
  - eapply busyAt_insert; eauto; reflexivity.
  - apply silent_nil.
Qed.

Lemma onRetryTimer_housekeeping (workerId : nat) (s s' : State) (acts : list Action) :
  onRetryTimer workerId s = (s', acts) -> Spec.housekeeping s acts s'.
Proof.
  unfold onRetryTimer.
  destruct (extract _ _) as [[x rest]|]; [|intros [= <- <-]; apply housekeeping_refl].
  intros E. apply restartWorker_housekeeping in E.
  rewrite <- (app_nil_l acts). eapply housekeeping_trans; [|exact E].
  apply housekeeping_same; try reflexivity. apply silent_nil.
Qed.

Lemma onProcessError_housekeeping (a : addr) (s s' : State) (acts : list Action) :
  onProcessError a s = (s', acts) -> Spec.housekeeping s acts s'.
Proof.
  unfold onProcessError.
  destruct (heap s !! a) as [w|] eqn:Hw; [|intros [= <- <-]; apply housekeeping_refl].
  destruct (restartWorker _ _) as [s2 acts2] eqn:E2.
  apply restartWorker_housekeeping in E2.
  assert (H02 : Spec.housekeeping s acts2 s2).
  { rewrite <- (app_nil_l acts2). eapply housekeeping_trans; [|exact E2].
    apply housekeeping_same; try reflexivity.
    - eapply busyAt_insert; eauto; reflexivity.
    - apply silent_nil. }
  destruct (Worker.process w) as [p|]; [|intros [= <- <-]; exact H02].
  destruct (extract _ _) as [[ps rest]|]; [|intros [= <- <-]; exact H02].
  destruct (start_rejected _ _ _) as [s3 acts3] eqn:E3. intros [= <- <-].
  apply start_rejected_housekeeping in E3.
  eapply housekeeping_trans; [exact H02|].
  rewrite <- (app_nil_l acts3). eapply housekeeping_trans; [|exact E3].
  apply housekeeping_same; try reflexivity. apply silent_nil.
Qed.

Lemma accounts_trans (add1 add2 d1 d2 : list nat) (s s1 s2 : State) (a1 a2 : list Action) :
  Spec.accounts add1 s a1 d1 s1 -> Spec.accounts add2 s1 a2 d2 s2 ->
  Spec.accounts (add1 ++ add2) s (a1 ++ a2) (d1 ++ d2) s2.
Proof.
  intros [Hw1 Hb1] [Hw2 Hb2]. split.
  - intros f. specialize (Hw1 f). specialize (Hw2 f).
    rewrite answered_app, !weigh_app. lia.
  - rewrite answered_app, length_app, unserved_app. lia.
Qed.

(** The state changed only where neither the calls nor the counters are. *)
Lemma accounts_same (s s' : State) (acts : list Action) :
  requestQueue s' = requestQueue s -> running s' = running s ->
  Spec.backlog s' = Spec.backlog s -> Spec.silent acts ->
  Spec.accounts [] s acts [] s'.
Proof.
  intros Hq Hr Hb [Ha Hu]. split.
  - intros f. unfold Spec.pendingCalls. rewrite Hq, Hr, Ha, !weigh_nil. lia.
  - rewrite Ha, Hu, Hb. simpl. lia.
Qed.

Lemma exclusive_same (s s' : State) :
  running s' = running s -> (forall a, Spec.busyAt s' a = Spec.busyAt s a) ->
  Spec.exclusive s -> Spec.exclusive s'.
Proof.
  intros Hr Hb [Hnd Hiff]. unfold Spec.exclusive, Spec.inFlight in *. rewrite Hr.
  split; [exact Hnd|]. intros a. rewrite Hb. apply Hiff.
Qed.

Lemma textual_same (s s' : State) :
  requestQueue s' = requestQueue s -> running s' = running s ->
  Spec.textual s -> Spec.textual s'.
Proof. intros Hq Hr. unfold Spec.textual. now rewrite Hq, Hr. Qed.

Lemma cacheKept_same (s s' : State) :
  cache s' = cache s -> Spec.cacheKept s -> Spec.cacheKept s'.
Proof. intros Hc. unfold Spec.cacheKept. now rewrite Hc. Qed.

Lemma housekeeping_steady (s s' : State) (acts : list Action) :
  Spec.housekeeping s acts s' -> Spec.steady s acts s'.
Proof.
  intros (Hq & Hr & Hc & Hs & Hg & Hl & Hb & Hsil & Hp).
  refine (conj _ (conj _ _)).
  - apply accounts_same; auto. unfold Spec.backlog. now rewrite Hs.
  - intros (He & Ht & Hk). refine (conj _ (conj _ _)).
    + now apply (exclusive_same s).
    + now apply (textual_same s).
    + now apply (cacheKept_same s).
  - intros (H1 & H2 & H3). unfold Spec.poolShape. rewrite Hq, Hl, Hg.
    destruct Hp as [[Hi Hw]|[Hi Hw]]; rewrite Hw; [rewrite Hi|]; auto.
Qed.

Lemma steady_trans (s s1 s2 : State) (a1 a2 : list Action) :
  Spec.steady s a1 s1 -> Spec.steady s1 a2 s2 -> Spec.steady s (a1 ++ a2) s2.
Proof.
  intros (Ha1 & Ho1 & Hp1) (Ha2 & Ho2 & Hp2). refine (conj _ (conj _ _)); auto.
  apply (accounts_trans [] [] [] [] s s1 s2); assumption.
Qed.

Lemma worker_detect_error (w : Worker.FastTextWorker) (text : string) (e : Error) :
  Worker.detect w text = inl e -> Spec.uncounted e = false.
Proof.
  unfold Worker.detect. destruct (negb _); [intros [= <-]; reflexivity|].
  destruct (Worker.isBusy w); [intros [= <-]; reflexivity|].
  destruct (Worker.process w); [discriminate|intros [= <-]; reflexivity].
Qed.

Lemma worker_detect_idle (w w' : Worker.FastTextWorker) (text line : string) :
  Worker.detect w text = inr (w', line) ->
  Worker.isBusy w = false /\ Worker.isBusy w' = true.
Proof.
  unfold Worker.detect. destruct (negb _); [discriminate|].
  destruct (Worker.isBusy w); [discriminate|].
  destruct (Worker.process w); [|discriminate]. intros [= <- _]. auto.
Qed.

(** What [executeRequest] does with the request handed to it *)
Lemma executeRequest_serves (a : addr) (w : Worker.FastTextWorker) (request : QueuedRequest)
  (s s' : State) (acts : list Action) (dfd : Deferred) :
  heap s !! a = Some w ->
  executeRequest a w request s = (s', acts, dfd) ->
  Spec.accounts [call request] s acts (Spec.deferredCalls dfd) s' /\
  (Spec.exclusive s -> Spec.exclusive s') /\
  (Spec.textual s -> isBlank (text request) = false -> Spec.textual s') /\
  Forall (fun x => Spec.uncounted (snd x) = false) dfd.
Proof.
  intros Hw. unfold executeRequest.
  destruct (Worker.detect w (text request)) as [e|[w' line]] eqn:Ed; intros [= <- <- <-].
  - refine (conj _ (conj _ (conj _ _))); auto.
    + split; [|simpl; lia]. intros f. simpl. rewrite !weigh_cons, weigh_nil. lia.
    + constructor; [|constructor]. simpl. eapply worker_detect_error; eauto.
  - apply worker_detect_idle in Ed as [Hidle Hbusy].
    refine (conj _ (conj _ (conj _ _))); [| | |constructor].
    + split; [|unfold Spec.backlog; simpl; lia]. intros f. unfold Spec.pendingCalls. simpl.
      rewrite map_app, !weigh_app. simpl. rewrite !weigh_cons, !weigh_nil. lia.
    + intros [Hnd Hiff]. unfold Spec.exclusive, Spec.inFlight in *. simpl.
      rewrite map_app. simpl.
      assert (Hfree : ~ In a (map fst (running s))).
      { intros Hin. apply Hiff in Hin. unfold Spec.busyAt in Hin.
        rewrite Hw in Hin. congruence. }
      split.
      * apply List.NoDup_app; [exact Hnd| |].
        -- repeat constructor. simpl. tauto.
        -- intros x Hx [<-|[]]. auto.
      * intros x. rewrite in_app_iff. simpl. unfold Spec.busyAt in *. simpl.
        destruct (Nat.eq_dec x a) as [->|Hne].
        -- rewrite list_lookup_insert_eq by (eapply lookup_lt_Some; eauto).
           rewrite Hbusy. tauto.
        -- rewrite list_lookup_insert_ne by auto. rewrite Hiff.
           split; [auto|]. intros [Hin|[Heq|[]]]; [exact Hin|congruence].
    + intros [Hq Hr] Hnb. split; [exact Hq|]. simpl.
      apply Forall_app. split; [exact Hr|]. constructor; [exact Hnb|constructor].
Qed.


Lemma deferredCalls_app (d1 d2 : Deferred) :
  Spec.deferredCalls (d1 ++ d2) = Spec.deferredCalls d1 ++ Spec.deferredCalls d2.
Proof. apply map_app. Qed.

Lemma drain_serves (q : list QueuedRequest) :
  forall (s s' : State) (acts : list Action) (dfd : Deferred),
  drain q s = (s', acts, dfd) ->
  Spec.accounts [] (set_requestQueue q s) acts (Spec.deferredCalls dfd) s' /\
  (Spec.exclusive s -> Spec.exclusive s') /\
  (Spec.textual (set_requestQueue q s) -> Spec.textual s') /\
  Forall (fun x => Spec.uncounted (snd x) = false) dfd.
Proof.
  induction q as [|request rest IH]; intros s s' acts dfd; simpl.
  - intros [= <- <- <-]. refine (conj _ (conj _ (conj _ _))); auto.
    apply accounts_same; try reflexivity. apply silent_nil.
  - destruct (getAvailableWorker s) as [[a w]|] eqn:Ea.
    + set (s1 := set_stats _ (set_requestQueue rest s)).
      destruct (executeRequest a w request s1) as [[s2 acts2] dfd2] eqn:E2.
      destruct (drain rest s2) as [[s3 acts3] dfd3] eqn:E3.
      intros [= <- <- <-].
      apply findAvailable_Some in Ea as (_ & Hw & _).
      assert (Hw1 : heap s1 !! a = Some w) by exact Hw.
      destruct (executeRequest_works a w request s1 s2 acts2 dfd2 Hw1 E2)
        as (_ & Hq2 & _).
      apply executeRequest_serves in E2 as ([Hf2 Hb2] & Hex2 & Htx2 & Hun2); [|exact Hw1].
      apply IH in E3 as ([Hf3 Hb3] & Hex3 & Htx3 & Hun3).
      assert (Hsame : set_requestQueue rest s2 = s2).
      { replace rest with (requestQueue s2) by exact Hq2. apply set_requestQueue_same. }
      rewrite Hsame in Hf3, Hb3, Htx3.
      refine (conj _ (conj _ (conj _ _))).
      * split.
        -- intros f. specialize (Hf2 f). specialize (Hf3 f).
           unfold Spec.pendingCalls in *. simpl in *.
           rewrite deferredCalls_app, answered_app.
           rewrite ?Hq2 in *. autorewrite with weigh in *. lia.
        -- simpl. rewrite answered_app, length_app, unserved_app.
           unfold Spec.backlog in *. simpl in *. lia.
      * auto.
      * intros [Hq Hr]. simpl in Hq, Hr. apply List.Forall_cons_iff in Hq as [Hnb Hq].
        apply Htx3, Htx2; [split; assumption|exact Hnb].
      * apply Forall_app. auto.
    + intros [= <- <- <-]. refine (conj _ (conj _ (conj _ _))); auto.
      apply accounts_same; try reflexivity. apply silent_nil.
Qed.

Lemma processQueueLoop_serves (s s' : State) (acts : list Action) (dfd : Deferred) :
  processQueueLoop s = (s', acts, dfd) ->
  Spec.accounts [] s acts (Spec.deferredCalls dfd) s' /\
  (Spec.exclusive s -> Spec.exclusive s') /\
  (Spec.textual s -> Spec.textual s') /\
  Forall (fun x => Spec.uncounted (snd x) = false) dfd.
Proof.
  unfold processQueueLoop. intros E. apply drain_serves in E.
  now rewrite set_requestQueue_same in E.
Qed.

Lemma runCatches_serves (n : nat) :
  forall (pending : Deferred) (s s' : State) (acts : list Action),
  (length pending + length (requestQueue s) <= n)%nat ->
  Forall (fun x => Spec.uncounted (snd x) = false) pending ->
  runCatches n pending s = (s', acts) ->
  Spec.accounts (Spec.deferredCalls pending) s acts [] s' /\
  (Spec.exclusive s -> Spec.exclusive s') /\
  (Spec.textual s -> Spec.textual s').
Proof.
  induction n as [|n IH]; intros pending s s' acts Hfuel Hun.
  - destruct pending as [|x pending]; [|simpl in Hfuel; lia].
    simpl. intros [= <- <-]. refine (conj _ (conj _ _)); auto.
    apply accounts_same; try reflexivity. apply silent_nil.
  - destruct pending as [|[request e] more]; simpl.
    + intros [= <- <-]. refine (conj _ (conj _ _)); auto.
      apply accounts_same; try reflexivity. apply silent_nil.
    + set (s1 := set_stats _ s).
      destruct (processQueueLoop s1) as [[s2 acts2] new] eqn:E2.
      destruct (runCatches n (more ++ new) s2) as [s3 acts3] eqn:E3.
      intros [= <- <-].
      apply List.Forall_cons_iff in Hun as [He Hun]. simpl in He.
      pose proof (processQueueLoop_works _ _ _ _ E2) as (_ & _ & Hlen & _).
      apply processQueueLoop_serves in E2 as ([Hf2 Hb2] & Hex2 & Htx2 & Hun2).
      apply IH in E3 as ([Hf3 Hb3] & Hex3 & Htx3).
      * refine (conj _ (conj _ _)); [|auto|auto].
        split.
        -- intros f. specialize (Hf2 f). specialize (Hf3 f).
           unfold Spec.pendingCalls in *. simpl in *.
           rewrite deferredCalls_app in Hf3. rewrite answered_app.
           rewrite ?Hq2 in *. autorewrite with weigh in *. lia.
        -- simpl. rewrite He, answered_app, length_app, unserved_app.
           unfold Spec.backlog in *. simpl in *. lia.
      * rewrite length_app. simpl in Hfuel, Hlen. lia.
      * apply Forall_app. auto.
Qed.

Lemma settle_serves (pending : Deferred) (s s' : State) (acts : list Action) :
  Forall (fun x => Spec.uncounted (snd x) = false) pending ->
  settle pending s = (s', acts) ->
  Spec.accounts (Spec.deferredCalls pending) s acts [] s' /\
  (Spec.exclusive s -> Spec.exclusive s') /\
  (Spec.textual s -> Spec.textual s').
Proof. unfold settle. intros Hun E. eapply runCatches_serves; eauto. Qed.

Lemma processQueue_serves (s s' : State) (acts : list Action) :
  processQueue s = (s', acts) ->
  Spec.accounts [] s acts [] s' /\
  (Spec.exclusive s -> Spec.exclusive s') /\
  (Spec.textual s -> Spec.textual s').
Proof.
  unfold processQueue.
  destruct (processQueueLoop s) as [[s1 acts1] dfd] eqn:E1.
  destruct (settle dfd s1) as [s2 acts2] eqn:E2. intros [= <- <-].
  apply processQueueLoop_serves in E1 as (Ha1 & Hex1 & Htx1 & Hun1).
  apply settle_serves in E2 as (Ha2 & Hex2 & Htx2); [|exact Hun1].
  refine (conj _ (conj _ _)); auto.
  pose proof (accounts_trans _ _ _ _ _ _ _ _ _ Ha1 Ha2) as [Hf Hb].
  split; [|exact Hb]. intros f. specialize (Hf f).
  autorewrite with weigh in *. lia.
Qed.

(** Queue work keeps the cache and the shape of the pool. *)
Lemma works_keeps (s s' : State) (acts : list Action) :
  Spec.works s acts s' ->
  (Spec.cacheKept s -> Spec.cacheKept s') /\ (Spec.poolShape s -> Spec.poolShape s').
Proof.
  intros ((Hg & taken & Hq & _) & (Hc & Hw & Hl & Hi & _) & _). split.
  - now apply cacheKept_same.
  - intros (H1 & H2 & H3). unfold Spec.poolShape. rewrite Hl, Hi, Hw, Hg.
    refine (conj _ (conj H2 H3)). intros Hu. specialize (H1 Hu).
    rewrite H1 in Hq. symmetry in Hq. now apply app_eq_nil in Hq.
Qed.

Lemma processQueue_steady (s s' : State) (acts : list Action) :
  processQueue s = (s', acts) -> Spec.steady s acts s'.
Proof.
  intros E. pose proof (processQueue_works _ _ _ E) as (Hworks & _).
  apply works_keeps in Hworks as [Hk Hp].
  apply processQueue_serves in E as (Ha & Hex & Htx).
  refine (conj Ha (conj _ Hp)). intros (He & Ht & Hc).
  exact (conj (Hex He) (conj (Htx Ht) (Hk Hc))).
Qed.

Lemma executeRequest_catch_steady (request : QueuedRequest) (e : Error)
  (s s' : State) (acts : list Action) :
  Spec.uncounted e = false -> e <> ShuttingDown ->
  executeRequest_catch request e s = (s', acts) ->
  Spec.accounts [call request] s acts [] s' /\
  (Spec.orderly s -> Spec.orderly s') /\ (Spec.poolShape s -> Spec.poolShape s').
Proof.
  intros Hun Hne E.
  pose proof (executeRequest_catch_works _ _ _ _ _ Hne E) as (Hworks & _).
  apply works_keeps in Hworks as [Hk Hp].
  unfold executeRequest_catch in E.
  apply settle_serves in E as (Ha & Hex & Htx); [|repeat constructor; exact Hun].
  refine (conj Ha (conj _ Hp)). intros (He & Ht & Hc).
  exact (conj (Hex He) (conj (Htx Ht) (Hk Hc))).
Qed.

Lemma steady_refl (s : State) : Spec.steady s [] s.
Proof. apply housekeeping_steady, housekeeping_refl. Qed.

Lemma steady_silent (s s' : State) (acts more : list Action) :
  Spec.steady s acts s' -> Spec.silent more -> Spec.steady s (acts ++ more) s'.
Proof.
  intros Hs Hm. eapply steady_trans; [exact Hs|].
  apply housekeeping_steady, housekeeping_same; auto.
Qed.

(** A change of the load state alone *)
Lemma steady_flags (s s' : State) :
  requestQueue s' = requestQueue s -> running s' = running s -> cache s' = cache s ->
  Spec.backlog s' = Spec.backlog s -> heap s' = heap s ->
  (Spec.poolShape s -> Spec.poolShape s') ->
  Spec.steady s [] s'.
Proof.
  intros Hq Hr Hc Hb Hh Hp. refine (conj _ (conj _ Hp)).
  - apply accounts_same; auto. apply silent_nil.
  - intros (He & Ht & Hk). refine (conj _ (conj _ _)).
    + apply (exclusive_same s); auto. now apply busyAt_heap.
    + now apply (textual_same s).
    + now apply (cacheKept_same s).
Qed.

Lemma load_then_steady (s s' : State) (acts : list Action) :
  load_then s = (s', acts) -> Spec.steady s acts s'.
Proof.
  unfold load_then.
  destruct (processQueue _) as [s4 acts4] eqn:E4. intros [= <- <-].
  apply processQueue_steady in E4.
  apply steady_silent; [|split; reflexivity].
  rewrite <- (app_nil_l acts4). eapply steady_trans; [|exact E4].
  apply steady_flags; try reflexivity.
  intros (H1 & H2 & H3). unfold Spec.poolShape. simpl.
  refine (conj _ (conj _ H3)); discriminate.
Qed.

Lemma startWorker_pool (a : addr) (owner : StartOwner) (s s' : State) (acts : list Action) :
  startWorker a owner s = (s', acts) ->
  isLoading s' = isLoading s /\ workers s' = workers s.
Proof.
  unfold startWorker. destruct (heap s !! a); intros [= <- <-]; auto.
Qed.

Lemma createWorkers_housekeeping (n : nat) :
  forall (i generation : nat) (s s' : State) (pids : list nat) (acts : list Action),
  createWorkers n i generation s = (s', pids, acts) ->
  requestQueue s' = requestQueue s /\ running s' = running s /\ cache s' = cache s /\
  stats s' = stats s /\ config s' = config s /\ isLoaded s' = isLoaded s /\
  isLoading s' = isLoading s /\
  (forall a, Spec.busyAt s' a = Spec.busyAt s a) /\ Spec.silent acts /\
  length pids = n /\
  exists new, workers s' = workers s ++ new /\ length new = n.
Proof.
  induction n as [|n IH]; intros i generation s s' pids acts; simpl.
  - intros [= <- <- <-]. repeat split; auto. exists []. now rewrite app_nil_r.
  - set (s1 := set_workers _ _).
    destruct (startWorker _ _ s1) as [s2 acts2] eqn:E2.
    destruct (createWorkers n (S i) generation s2) as [[s3 pids3] acts3] eqn:E3.
    intros [= <- <- <-].
    destruct (startWorker_pool _ _ _ _ _ E2) as [Hi2 Hw2].
    apply startWorker_housekeeping in E2
      as (Hq2 & Hr2 & Hc2 & Hs2 & Hg2 & Hl2 & Hb2 & Hsil2 & _).
    apply IH in E3
      as (Hq3 & Hr3 & Hc3 & Hs3 & Hg3 & Hl3 & Hi3 & Hb3 & Hsil3 & Hlen3 & new & Hw3 & Hn3).
    assert (Hb1 : forall a, Spec.busyAt s1 a = Spec.busyAt s a).
    { intros a. unfold Spec.busyAt. subst s1. simpl.
      destruct (Nat.lt_ge_cases a (length (heap s))) as [Hlt|Hge].
      - now rewrite lookup_app_l by exact Hlt.
      - rewrite (lookup_ge_None_2 (heap s)) by exact Hge.
        destruct (Nat.eq_dec a (length (heap s))) as [->|Hne].
        + rewrite list_lookup_middle by reflexivity. reflexivity.
        + rewrite lookup_ge_None_2; [reflexivity|].
          rewrite length_app. simpl. lia. }
    assert (Hb : forall a, Spec.busyAt s3 a = Spec.busyAt s a).
    { intros a. now rewrite Hb3, Hb2, Hb1. }
    assert (Hw : exists new', workers s3 = workers s ++ new' /\ length new' = S n).
    { exists (length (heap s) :: new). rewrite Hw3, Hw2. subst s1. simpl.
      rewrite <- app_assoc. simpl. split; [reflexivity|lia]. }
    assert (Hlen : length (nextPid s1 :: pids3) = S n) by (simpl; lia).
    subst s1. simpl in *.
    refine (conj (eq_trans Hq3 Hq2) (conj (eq_trans Hr3 Hr2) (conj (eq_trans Hc3 Hc2)
             (conj (eq_trans Hs3 Hs2) (conj (eq_trans Hg3 Hg2) (conj (eq_trans Hl3 Hl2)
             (conj (eq_trans Hi3 Hi2) (conj Hb (conj (silent_app _ _ Hsil2 Hsil3)
             (conj Hlen Hw)))))))))).
Qed.

Lemma load_steady (modelExists binaryFound : bool) (s s' : State) (acts : list Action) :
  load modelExists binaryFound s = (s', acts) -> Spec.steady s acts s'.
Proof.
  unfold load.
  destruct (isLoading s) eqn:Ei.
  { intros [= <- <-]. apply housekeeping_steady, housekeeping_same; try reflexivity.
    split; reflexivity. }
  destruct (isLoaded s) eqn:El.
  { intros [= <- <-]. apply housekeeping_steady, housekeeping_same; try reflexivity.
    split; reflexivity. }
  assert (H01 : Spec.steady s [] (set_isLoading true s)).
  { apply steady_flags; try reflexivity.
    intros (H1 & H2 & H3). unfold Spec.poolShape. simpl.
    refine (conj H1 (conj _ H3)). discriminate. }
  destruct (negb modelExists).
  { intros E. apply load_catch_housekeeping, housekeeping_steady in E.
    rewrite <- (app_nil_l acts). eapply steady_trans; eauto. }
  destruct (negb binaryFound).
  { intros E. apply load_catch_housekeeping, housekeeping_steady in E.
    rewrite <- (app_nil_l acts). eapply steady_trans; eauto. }
  simpl.
  destruct (createWorkers _ _ _ _) as [[s2 pids] acts2] eqn:E2.
  apply createWorkers_housekeeping in E2
    as (Hq & Hr & Hc & Hs & Hg & Hl & Hi & Hb & Hsil & Hlen & new & Hw & Hn).
  simpl in *.
  assert (H02 : Spec.steady s acts2 s2).
  { refine (conj _ (conj _ _)).
    - apply accounts_same; auto. unfold Spec.backlog. now rewrite Hs.
    - intros (He & Ht & Hk). refine (conj _ (conj _ _)).
      + now apply (exclusive_same s).
      + now apply (textual_same s).
      + now apply (cacheKept_same s).
    - intros (H1 & H2 & H3). unfold Spec.poolShape. rewrite Hq, Hl, Hi, Hg, Hw.
      rewrite (H2 El Ei). simpl.
      refine (conj H1 (conj _ _)); [discriminate|auto]. }
  destruct pids as [|p pids].
  - destruct (load_then s2) as [s3 acts3] eqn:E3. intros [= <- <-].
    eapply steady_trans; eauto using load_then_steady.
  - intros [= <- <-]. rewrite <- (app_nil_r acts2).
    eapply steady_trans; [exact H02|].
    apply steady_flags; try reflexivity. auto.
Qed.

Lemma start_resolved_steady (ps : PendingStart) (s s' : State) (acts : list Action) :
  start_resolved ps s = (s', acts) -> Spec.steady s acts s'.
Proof.
  unfold start_resolved. destruct (ps_owner ps) as [generation|workerId].
  - destruct (loadJoin s); [|intros [= <- <-]; apply steady_refl].
    destruct (Nat.eqb _ _); [|intros [= <- <-]; apply steady_refl].
    destruct (List.filter _ _).
    + apply load_then_steady.
    + intros [= <- <-]. apply steady_flags; try reflexivity. auto.
  - apply processQueue_steady.
Qed.

Lemma onStartTimer_steady (a : addr) (s s' : State) (acts : list Action) :
  onStartTimer a s = (s', acts) -> Spec.steady s acts s'.
Proof.
  unfold onStartTimer.
  destruct (extract _ _) as [[ps rest]|]; [|intros [= <- <-]; apply steady_refl].
  destruct (heap s !! a) as [w|] eqn:Hw; [|intros [= <- <-]; apply steady_refl].
  destruct (Worker.onStartTimer w) as [w' r] eqn:Er.
  set (s1 := set_heap _ _).
  assert (Hbusy : Worker.isBusy w' = Worker.isBusy w).
  { unfold Worker.onStartTimer in Er. destruct (Worker.process w) as [p|].
    - destruct (negb (Worker.killed p)); injection Er as <- _; reflexivity.
    - injection Er as <- _. reflexivity. }
  assert (H01 : Spec.steady s [] s1).
  { apply housekeeping_steady, housekeeping_same; try reflexivity.
    - eapply busyAt_insert; [reflexivity|exact Hw|exact Hbusy].
    - apply silent_nil. }
  destruct (ps_settled ps).
  - intros [= <- <-]. exact H01.
  - destruct r as [e|]; intros E.
    + apply start_rejected_housekeeping, housekeeping_steady in E.
      rewrite <- (app_nil_l acts). eapply steady_trans; eauto.
    + apply start_resolved_steady in E.
      rewrite <- (app_nil_l acts). eapply steady_trans; eauto.
Qed.

Lemma rejectQueued_answers (q : list QueuedRequest) :
  Spec.answered (rejectQueued q) = map call q /\
  Spec.unserved (rejectQueued q) = Z.of_nat (length q).
Proof.
  induction q as [|r q [IH1 IH2]]; [split; reflexivity|].
  simpl. rewrite IH1, IH2. split; [reflexivity|lia].
Qed.

Lemma unload_steady (s s' : State) (acts : list Action) :
  unload s = (s', acts) -> Spec.steady s acts s'.
Proof.
  unfold unload. simpl.
  destruct (stopWorkers _ _) as [s3 acts3] eqn:E3. intros [= <- <-].
  apply stopWorkers_housekeeping in E3
    as (Hq & Hr & Hc & Hs & Hg & Hl & Hb & [Ha Hu] & _). simpl in *.
  destruct (rejectQueued_answers (requestQueue s)) as [Hra Hru].
  refine (conj _ (conj _ _)).
  - split.
    + intros f. unfold Spec.pendingCalls. simpl.
      rewrite answered_app, Hra, Ha, Hq, Hr. autorewrite with weigh. simpl. lia.
    + rewrite answered_app, length_app, unserved_app, Hra, Ha, Hu, Hru, length_map.
      unfold Spec.backlog. simpl. rewrite Hs. simpl. lia.
  - intros (He & (_ & Ht) & Hk). refine (conj _ (conj _ _)).
    + apply (exclusive_same s); auto.
    + split; simpl; [rewrite Hq; constructor|now rewrite Hr].
    + now apply (cacheKept_same s).
  - intros _. unfold Spec.poolShape. simpl. rewrite Hq, Hl. simpl. auto.
Qed.

Lemma extract_split {A : Type} (f : A -> bool) (l : list A) (x : A) (rest : list A) :
  extract f l = Some (x, rest) ->
  f x = true /\ exists l1 l2, l = l1 ++ x :: l2 /\ rest = l1 ++ l2.
Proof.
  revert x rest. induction l as [|z l IH]; simpl; intros x rest; [discriminate|].
  destruct (f z) eqn:Ez.
  - intros [= <- <-]. split; [exact Ez|]. exists [], l. auto.
  - destruct (extract f l) as [[y rest']|]; [|discriminate].
    intros [= <- <-]. destruct (IH y rest' eq_refl) as (Hy & l1 & l2 & -> & ->).
    split; [exact Hy|]. exists (z :: l1), l2. auto.
Qed.

(** The call in flight on the worker at [a] is taken off the worker. *)
Lemma release_call (a a0 : addr) (w w' : Worker.FastTextWorker) (request : QueuedRequest)
  (rest : list (addr * QueuedRequest)) (s : State) :
  extract (fun r => Nat.eqb (fst r) a) (running s) = Some ((a0, request), rest) ->
  heap s !! a = Some w -> Worker.isBusy w' = false ->
  let s1 := set_running rest (set_heap (<[a := w']> (heap s)) s) in
  (forall f, Spec.weigh f (Spec.pendingCalls s)
             = (f (call request) + Spec.weigh f (Spec.pendingCalls s1))%nat) /\
  (Spec.exclusive s -> Spec.exclusive s1) /\
  (Spec.textual s -> Spec.textual s1 /\ isBlank (text request) = false).
Proof.
  intros Hex Hw Hidle s1.
  apply extract_split in Hex as (Ha & l1 & l2 & Hrun & ->).
  simpl in Ha. apply Nat.eqb_eq in Ha. subst a0.
  refine (conj _ (conj _ _)).
  - intros f. unfold Spec.pendingCalls. subst s1. simpl. rewrite Hrun.
    rewrite !map_app. simpl. autorewrite with weigh. lia.
  - intros [Hnd Hiff]. unfold Spec.exclusive, Spec.inFlight in *. subst s1. simpl.
    rewrite Hrun in Hnd, Hiff. rewrite map_app in *. simpl in *.
    pose proof (List.NoDup_remove _ _ _ Hnd) as [Hnd' Hnot].
    split; [exact Hnd'|]. intros x. unfold Spec.busyAt in *. simpl.
    destruct (Nat.eq_dec x a) as [->|Hne].
    + rewrite list_lookup_insert_eq by (eapply lookup_lt_Some; eauto).
      rewrite Hidle. split; [discriminate|contradiction].
    + rewrite list_lookup_insert_ne by auto. rewrite Hiff, !in_app_iff. simpl.
      split; [intros [|[|]]; auto; congruence|tauto].
  - intros [Hq Hr]. rewrite Hrun in Hr. apply Forall_app in Hr as [Hr1 Hr2].
    apply List.Forall_cons_iff in Hr2 as [Hnb Hr2].
    split; [|exact Hnb]. split; [exact Hq|]. subst s1. simpl.
    apply Forall_app. auto.
Qed.

Lemma release_steady (a a0 : addr) (w w' : Worker.FastTextWorker) (request : QueuedRequest)
  (rest : list (addr * QueuedRequest)) (s s' : State) (acts : list Action) :
  extract (fun r => Nat.eqb (fst r) a) (running s) = Some ((a0, request), rest) ->
  heap s !! a = Some w -> Worker.isBusy w' = false ->
  let s1 := set_running rest (set_heap (<[a := w']> (heap s)) s) in
  Spec.accounts [call request] s1 acts [] s' ->
  (Spec.orderly s1 -> isBlank (text request) = false -> Spec.orderly s') ->
  (Spec.poolShape s1 -> Spec.poolShape s') ->
  Spec.steady s acts s'.
Proof.
  intros Hex Hw Hidle s1 [Hf Hb] Ho Hp.
  destruct (release_call a a0 w w' request rest s Hex Hw Hidle) as (Hrel & Hexc & Htx).
  fold s1 in Hrel, Hexc, Htx.
  refine (conj _ (conj _ _)).
  - split.
    + intros f. specialize (Hf f). specialize (Hrel f).
      autorewrite with weigh in *. lia.
    + rewrite Hb. reflexivity.
  - intros (He & Ht & Hk). destruct (Htx Ht) as [Ht1 Hnb].
    apply Ho; [|exact Hnb]. exact (conj (Hexc He) (conj Ht1 Hk)).
  - exact Hp.
Qed.

Lemma onRequestTimer_steady (a : addr) (s s' : State) (acts : list Action) :
  onRequestTimer a s = (s', acts) -> Spec.steady s acts s'.
Proof.
  unfold onRequestTimer.
  destruct (extract _ _) as [[[a0 request] rest]|] eqn:Ex;
    [|intros [= <- <-]; apply steady_refl].
  destruct (heap s !! a) as [w|] eqn:Hw; [|intros [= <- <-]; apply steady_refl].
  simpl. intros E.
  apply executeRequest_catch_steady in E as (Ha & Ho & Hp); [|reflexivity|discriminate].
  eapply release_steady; eauto. reflexivity.
Qed.

Lemma onWriteError_steady (a : addr) (s s' : State) (acts : list Action) :
  onWriteError a s = (s', acts) -> Spec.steady s acts s'.
Proof.
  unfold onWriteError.
  destruct (extract _ _) as [[[a0 request] rest]|] eqn:Ex;
    [|intros [= <- <-]; apply steady_refl].
  destruct (heap s !! a) as [w|] eqn:Hw; [|intros [= <- <-]; apply steady_refl].
  intros E.
  apply executeRequest_catch_steady in E as (Ha & Ho & Hp); [|reflexivity|discriminate].
  eapply release_steady; eauto. reflexivity.
Qed.
End Accounting.

Section Ledger.

Local Open Scope list_scope.
Import Detector.
Context `{Builtins}.

Lemma map_set_entries (k : string) (v : Cache.CacheEntry) (m : Cache.JsMap)
  (x : string * Cache.CacheEntry) :
  In x (Cache.map_set k v m) -> x = (k, v) \/ In x m.
Proof.
  induction m as [|[k' v'] m IH]; simpl; [intuition auto|].
  destruct (String.eqb k' k); simpl; intuition auto.
Qed.

Lemma map_delete_entries (k : string) (m : Cache.JsMap) (x : string * Cache.CacheEntry) :
  In x (Cache.map_delete k m) -> In x m.
Proof.
  induction m as [|[k' v'] m IH]; simpl; [tauto|].
  destruct (String.eqb k' k); simpl; tauto.
Qed.

Lemma evict_entries (c : Cache.DetectionCache) (x : string * Cache.CacheEntry) :
  In x (Cache.cache (Cache.evict c)) -> In x (Cache.cache c).
Proof.
  unfold Cache.evict. destruct (Nat.leb _ _); [|auto].
  destruct (Cache.cache c) as [|[k e] rest] eqn:Ec; [rewrite Ec; auto|].
  destruct (JS.truthy k); simpl; [|rewrite Ec; auto].
  rewrite string_eqb_refl. simpl. auto.
Qed.

Lemma blank_empty (text : string) : isBlank text = false -> text <> "".
Proof. intros Hb ->. discriminate Hb. Qed.

Lemma detect_then_orderly (request : QueuedRequest) (result : DetectionResult) (now : Z)
  (s s' : State) (acts : list Action) :
  detect_then request result now s = (s', acts) ->
  isBlank (text request) = false -> Spec.wellShaped result ->
  Spec.orderly s -> Spec.orderly s'.
Proof.
  unfold detect_then. intros [= <- <-] Hnb Hshape (He & Ht & Hk).
  destruct (cache s) as [c|] eqn:Ec; [|exact (conj He (conj Ht Hk))].
  destruct (primary result) as [p|] eqn:Ep; [|exact (conj He (conj Ht Hk))].
  refine (conj _ (conj _ _)).
  - apply (exclusive_same s); auto.
  - apply (textual_same s); auto.
  - unfold Spec.cacheKept in *. rewrite Ec in Hk. simpl. destruct Hk as [Hs Hall].
    split; [apply set_sound; [exact Hs|now apply blank_empty]|].
    apply List.Forall_forall. intros x Hx. unfold Cache.set in Hx. simpl in Hx.
    apply map_set_entries in Hx as [->|Hx].
    + simpl. rewrite Ep. refine (conj Hnb (conj Hshape _)). discriminate.
    + rewrite List.Forall_forall in Hall. apply Hall, evict_entries, Hx.
Qed.

Lemma detect_then_frame (request : QueuedRequest) (result : DetectionResult) (now : Z)
  (s s' : State) (acts : list Action) :
  detect_then request result now s = (s', acts) ->
  exists c, s' = set_cache c s /\
            acts = [Returned (call request) (applyOptions result (options request))].
Proof.
  unfold detect_then. intros [= <- <-].
  destruct (cache s) as [c|] eqn:Ec.
  - destruct (primary result); [eauto|].
    exists (Some c). rewrite <- Ec. now rewrite set_cache_same.
  - exists None. rewrite <- Ec. now rewrite set_cache_same.
Qed.

Lemma executeRequest_then_steady (request : QueuedRequest) (result : DetectionResult)
  (now : Z) (s s' : State) (acts : list Action) :
  executeRequest_then request result now s = (s', acts) ->
  Spec.accounts [call request] s acts [] s' /\
  (Spec.orderly s -> isBlank (text request) = false -> Spec.wellShaped result ->
   Spec.orderly s') /\
  (Spec.poolShape s -> Spec.poolShape s').
Proof.
  unfold executeRequest_then.
  set (s1 := set_stats _ s).
  destruct (detect_then request result now s1) as [s2 acts2] eqn:E2.
  destruct (processQueue s2) as [s3 acts3] eqn:E3. intros [= <- <-].
  pose proof (detect_then_orderly _ _ _ _ _ _ E2) as Ho2.
  assert (Hframe : requestQueue s2 = requestQueue s /\ running s2 = running s /\
                   stats s2 = stats s1 /\ isLoaded s2 = isLoaded s /\
                   isLoading s2 = isLoading s /\ workers s2 = workers s /\
                   config s2 = config s /\
                   acts2 = [Returned (call request) (applyOptions result (options request))]).
  { destruct (detect_then_frame _ _ _ _ _ _ E2) as (c & -> & ->).
    simpl. auto 10. }
  destruct Hframe as (Hq & Hr & Hs & Hl & Hi & Hw & Hg & ->).
  apply processQueue_steady in E3 as ([Hf Hb] & Ho3 & Hp3).
  refine (conj _ (conj _ _)).
  - split.
    + intros f. specialize (Hf f). unfold Spec.pendingCalls in *.
      rewrite Hq, Hr in Hf. simpl. autorewrite with weigh in *. lia.
    + rewrite Hb. simpl. unfold Spec.backlog. rewrite Hs. subst s1. simpl. lia.
  - intros (He & Ht & Hk) Hnb Hshape. apply Ho3, Ho2; auto.
    refine (conj _ (conj _ _)).
    + apply (exclusive_same s); auto.
    + apply (textual_same s); auto.
    + apply (cacheKept_same s); auto.
  - intros (H1 & H2 & H3). apply Hp3. unfold Spec.poolShape.
    rewrite Hq, Hl, Hi, Hw, Hg. auto.
Qed.

Lemma onStdoutData_steady (a : addr) (data : string) (now : Z)
  (s s' : State) (acts : list Action) :
  onStdoutData a data now s = (s', acts) -> Spec.steady s acts s'.
Proof.
  unfold onStdoutData.
  destruct (extract _ _) as [[[a0 request] rest]|] eqn:Ex;
    [|intros [= <- <-]; apply steady_refl].
  destruct (heap s !! a) as [w|] eqn:Hw; [|intros [= <- <-]; apply steady_refl].
  simpl. intros E.
  apply executeRequest_then_steady in E as (Ha & Ho & Hp).
  eapply release_steady; eauto.
  - reflexivity.
  - intros Ho1 Hnb. apply Ho; auto. reflexivity.
Qed.

Lemma steady_advances (s s' : State) (acts : list Action) :
  Spec.steady s acts s' -> Spec.advances [] s acts s'.
Proof.
  intros ([Hf Hb] & Ho & Hp). refine (conj _ (conj _ (conj Ho Hp))).
  - intros f. specialize (Hf f). autorewrite with weigh in *. lia.
  - specialize (Hf (fun _ => 1%nat)). rewrite !weigh_length in Hf. simpl in Hf. lia.
Qed.

Lemma advances_trans (c1 c2 : list nat) (s s1 s2 : State) (a1 a2 : list Action) :
  Spec.advances c1 s a1 s1 -> Spec.advances c2 s1 a2 s2 ->
  Spec.advances (c1 ++ c2) s (a1 ++ a2) s2.
Proof.
  intros (Hf1 & Hb1 & Ho1 & Hp1) (Hf2 & Hb2 & Ho2 & Hp2).
  refine (conj _ (conj _ (conj _ _))); auto.
  - intros f. specialize (Hf1 f). specialize (Hf2 f).
    rewrite answered_app. autorewrite with weigh. lia.
  - rewrite unserved_app. lia.
Qed.

Lemma cacheLookup_kept (text : string) (now : Z) (s s1 : State)
  (r : option DetectionResult) :
  cacheLookup text now s = (r, s1) ->
  requestQueue s1 = requestQueue s /\ running s1 = running s /\ stats s1 = stats s /\
  heap s1 = heap s /\ workers s1 = workers s /\ isLoaded s1 = isLoaded s /\
  isLoading s1 = isLoading s /\ config s1 = config s /\
  (Spec.cacheKept s -> Spec.cacheKept s1).
Proof.
  unfold cacheLookup. destruct (cache s) as [c|] eqn:Ec.
  - destruct (Cache.get c text now) as [r' c'] eqn:Eg. intros [= <- <-].
    refine (conj eq_refl (conj eq_refl (conj eq_refl (conj eq_refl (conj eq_refl
             (conj eq_refl (conj eq_refl (conj eq_refl _)))))))).
    unfold Spec.cacheKept. rewrite Ec. simpl. intros [Hs Hall].
    replace c' with (snd (Cache.get c text now)) by now rewrite Eg.
    split; [now apply get_sound|].
    unfold Cache.get. destruct (Cache.map_get text (Cache.cache c)); [|exact Hall].
    destruct (_ >? _); [|exact Hall]. simpl.
    apply List.Forall_forall. intros x Hx. rewrite List.Forall_forall in Hall.
    apply Hall. eapply map_delete_entries; eauto.
  - intros [= <- <-]. auto 10.
Qed.

Lemma detect_advances (c : nat) (text : string) (options : DetectionOptions) (now : Z)
  (s s' : State) (acts : list Action) :
  detect c text options now s = (s', acts) -> Spec.advances [c] s acts s'.
Proof.
  unfold detect.
  destruct (isBlank text) eqn:Eb.
  { intros [= <- <-]. refine (conj _ (conj _ (conj _ _))); auto.
    - intros f. simpl. autorewrite with weigh. lia.
    - simpl. lia. }
  destruct (isLoaded s) eqn:El; simpl.
  2:{ intros [= <- <-]. refine (conj _ (conj _ (conj _ _))); auto.
      - intros f. simpl. autorewrite with weigh. lia.
      - simpl. lia. }
  destruct (cacheLookup text now s) as [cached s1] eqn:Ec.
  apply cacheLookup_kept in Ec as (Hq & Hr & Hs & Hh & Hw & Hl & Hi & Hg & Hk).
  assert (Ho1 : Spec.orderly s -> Spec.orderly s1).
  { intros (He & Ht & Hc). refine (conj _ (conj _ (Hk Hc))).
    - apply (exclusive_same s); auto. now apply busyAt_heap.
    - now apply (textual_same s). }
  assert (Hp1 : Spec.poolShape s -> Spec.poolShape s1).
  { unfold Spec.poolShape. now rewrite Hq, Hl, Hi, Hw, Hg. }
  assert (Hpend : Spec.pendingCalls s1 = Spec.pendingCalls s).
  { unfold Spec.pendingCalls. now rewrite Hq, Hr. }
  assert (Hback : Spec.backlog s1 = Spec.backlog s).
  { unfold Spec.backlog. now rewrite Hs. }
  destruct cached as [result|].
  { intros [= <- <-]. refine (conj _ (conj _ (conj Ho1 Hp1))).
    - intros f. rewrite Hpend. simpl. autorewrite with weigh. lia.
    - rewrite Hpend, Hback. simpl. lia. }
  set (s2 := set_stats _ s1).
  set (request := {| text := text; call := c; options := options; startTime := now |}).
  destruct (getAvailableWorker s2) as [[a w]|] eqn:Ea.
  - destruct (executeRequest a w request s2) as [[s3 acts3] dfd] eqn:E3.
    destruct (settle dfd s3) as [s4 acts4] eqn:E4. intros [= <- <-].
    apply findAvailable_Some in Ea as (_ & Hwa & _).
    pose proof (executeRequest_works a w request s2 s3 acts3 dfd Hwa E3)
      as (Hworks3 & _ & _ & Hok & _).
    pose proof (settle_works dfd s3 s4 acts4 Hok E4) as (Hworks4 & _).
    pose proof (works_keeps _ _ _ (works_trans _ _ _ _ _ Hworks3 Hworks4)) as [Hk24 Hp24].
    apply executeRequest_serves in E3 as ([Hf3 Hb3] & Hex3 & Htx3 & Hun3); [|exact Hwa].
    apply settle_serves in E4 as ([Hf4 Hb4] & Hex4 & Htx4); [|exact Hun3].
    assert (Hf : forall f, (Spec.weigh f (Spec.pendingCalls s) + f c
                            = Spec.weigh f (Spec.answered (acts3 ++ acts4))
                              + Spec.weigh f (Spec.pendingCalls s4))%nat).
    { intros f. specialize (Hf3 f). specialize (Hf4 f). rewrite answered_app.
      change (Spec.pendingCalls s2) with (Spec.pendingCalls s1) in Hf3.
      rewrite Hpend in Hf3. simpl in Hf3. autorewrite with weigh in *. lia. }
    refine (conj _ (conj _ (conj _ _))).
    + intros f. specialize (Hf f). simpl. autorewrite with weigh. lia.
    + specialize (Hf (fun _ => 1%nat)). rewrite !weigh_length in Hf.
      rewrite answered_app, length_app in Hf. simpl.
      rewrite unserved_app. 
      assert (Hb2 : Spec.backlog s2 = Spec.backlog s + 1).
      { rewrite <- Hback. unfold Spec.backlog. subst s2. simpl. lia. }
      lia.
    + intros Ho. destruct (Ho1 Ho) as (He & Ht & Hc).
      refine (conj _ (conj _ _)).
      * apply Hex4, Hex3. exact He.
      * apply Htx4, Htx3; [exact Ht|exact Eb].
      * apply Hk24. exact Hc.
    + intros Hp. apply Hp24. apply Hp1 in Hp. exact Hp.
  - assert (Hb2 : Spec.backlog s2 = Spec.backlog s + 1).
    { rewrite <- Hback. unfold Spec.backlog. subst s2. simpl. lia. }
    destruct (Nat.leb _ _); intros [= <- <-].
    + refine (conj _ (conj _ (conj _ _))).
      * intros f. change (Spec.pendingCalls s2) with (Spec.pendingCalls s1).
        rewrite Hpend. simpl. autorewrite with weigh. lia.
      * change (Spec.pendingCalls s2) with (Spec.pendingCalls s1).
        rewrite Hpend, Hb2. simpl. lia.
      * intros Ho. exact (Ho1 Ho).
      * intros Hp. exact (Hp1 Hp).
    + refine (conj _ (conj _ (conj _ _))).
      * intros f. unfold Spec.pendingCalls in *. simpl. rewrite Hq, Hr.
        rewrite map_app. simpl. autorewrite with weigh. lia.
      * unfold Spec.pendingCalls in *. simpl. rewrite Hq, Hr.
        rewrite !length_app, !length_map, !length_app. simpl.
        unfold Spec.backlog in *. simpl in *. rewrite Hs. lia.
      * intros Ho. destruct (Ho1 Ho) as (He & [Htq Htr] & Hc).
        refine (conj He (conj _ Hc)). split; simpl; [|exact Htr].
        apply Forall_app. split; [exact Htq|]. repeat constructor. exact Eb.
      * intros Hp. apply Hp1 in Hp as (H1 & H2 & H3).
        unfold Spec.poolShape. simpl. rewrite Hl, El.
        refine (conj _ (conj _ H3)); discriminate.
Qed.

Lemma step_advances (s s' : State) (e : Event) (acts : list Action) :
  step s e = (s', acts) -> Spec.advances (Spec.issued [e]) s acts s'.
Proof.
  destruct e; simpl; intros E;
    [apply steady_advances|apply steady_advances|
     |apply steady_advances|apply steady_advances|apply steady_advances
     |apply steady_advances|apply steady_advances|apply steady_advances
     |apply steady_advances|apply steady_advances].
  - eapply load_steady; eauto.
  - eapply unload_steady; eauto.
  - eapply detect_advances; eauto.
  - eapply onStdoutData_steady; eauto.
  - eapply onRequestTimer_steady; eauto.
  - eapply onWriteError_steady; eauto.
  - eapply housekeeping_steady, onProcessError_housekeeping; eauto.
  - eapply housekeeping_steady, onProcessExit_housekeeping; eauto.
  - eapply onStartTimer_steady; eauto.
  - eapply housekeeping_steady, onRetryTimer_housekeeping; eauto.
  - eapply housekeeping_steady, onKillTimer_housekeeping; eauto.
Qed.

Lemma issued_app (e1 e2 : list Event) :
  Spec.issued (e1 ++ e2) = Spec.issued e1 ++ Spec.issued e2.
Proof.
  induction e1 as [|e e1 IH]; [reflexivity|].
  destruct e; simpl; rewrite ?IH; reflexivity.
Qed.

Lemma run_advances (events : list Event) :
  forall (s s' : State) (acts : list Action),
  run s events = (s', acts) -> Spec.advances (Spec.issued events) s acts s'.
Proof.
  induction events as [|e events IH]; intros s s' acts.
  - intros [= <- <-]. apply steady_advances, steady_refl.
  - change (e :: events) with ([e] ++ events). rewrite issued_app. cbn [run app].
    destruct (step s e) as [s1 acts1] eqn:E1.
    destruct (run s1 events) as [s2 acts2] eqn:E2. intros [= <- <-].
    eapply advances_trans; eauto using step_advances.
Qed.

Lemma new_sound (options : DetectorOptions) :
  Spec.orderly (new options) /\ Spec.poolShape (new options) /\
  Spec.pendingCalls (new options) = [] /\ Spec.backlog (new options) = 0.
Proof.
  refine (conj _ (conj _ (conj eq_refl eq_refl))).
  - refine (conj _ (conj _ _)).
    + split; [constructor|]. intros a. unfold Spec.busyAt. simpl.
      split; [intros Hb; destruct a; discriminate Hb|contradiction].
    + split; constructor.
    + unfold Spec.cacheKept. simpl.
      destruct (truthy_bool (opt_cache options)); [|exact I].
      split; [|constructor].
      unfold Spec.cacheSound, Spec.withinCapacity, Spec.keys. simpl.
      assert (Hsize : (1 <= or_default_nat (opt_cacheSize options) 1000)%nat).
      { unfold or_default_nat. destruct (opt_cacheSize options) as [[|n]|]; simpl; lia. }
      repeat split; auto; [lia|constructor].
  - unfold Spec.poolShape. simpl. auto.
Qed.

End Ledger.

Section Conservation.

Local Open Scope list_scope.
Import Detector.
Context `{Builtins}.

(** X14. No call of [detect] is lost and none is answered twice: along
    every run, the calls that were pending at the start or made since are,
    each as often as it was made, the calls answered (by a value or an
    error) and the calls still pending, in the queue or in flight. From a
    new detector, calls with distinct names are answered at most once, and
    an answered call is no longer pending. *)
Theorem every_call_is_answered_or_pending (events : list Event) :
  (forall s,
     Permutation (Spec.pendingCalls s ++ Spec.issued events)
                 (Spec.answered (snd (run s events))
                  ++ Spec.pendingCalls (fst (run s events)))) /\
  (forall options,
     let s' := fst (run (new options) events) in
     let acts := snd (run (new options) events) in
     Permutation (Spec.issued events) (Spec.answered acts ++ Spec.pendingCalls s') /\
     (List.NoDup (Spec.issued events) ->
      List.NoDup (Spec.answered acts) /\ List.NoDup (Spec.pendingCalls s') /\
      forall c, In c (Spec.answered acts) -> ~ In c (Spec.pendingCalls s'))).
Proof.
  assert (Hgen : forall s,
            Permutation (Spec.pendingCalls s ++ Spec.issued events)
                        (Spec.answered (snd (run s events))
                         ++ Spec.pendingCalls (fst (run s events)))).
  { intros s. destruct (run s events) as [s' acts] eqn:E. simpl.
    apply run_advances in E as (Hf & _).
    apply (Permutation_count_occ Nat.eq_dec). intros c.
    specialize (Hf (fun x => if Nat.eq_dec x c then 1%nat else 0%nat)).
    rewrite !count_occ_app, <- !weigh_count. exact Hf. }
  split; [exact Hgen|].
  intros options s' acts. specialize (Hgen (new options)). fold s' acts in Hgen.
  simpl in Hgen. split; [exact Hgen|].
  intros Hnd. apply (Permutation_NoDup Hgen) in Hnd.
  refine (conj (List.NoDup_app_remove_r _ _ Hnd) (conj (List.NoDup_app_remove_l _ _ Hnd) _)).
  intros c Hc Hp. revert Hnd Hc Hp. clear.
  induction (Spec.answered acts) as [|x l IH]; simpl; [contradiction|].
  intros Hnd. apply List.NoDup_cons_iff in Hnd as [Hx Hnd].
  intros [->|Hc] Hp; [|eauto]. apply Hx. apply in_app_iff. auto.
Qed.

(** X15. The counters account for every request: along every run from a
    new detector, [totalRequests] is the sum of [completedRequests],
    [failedRequests], the requests in the queue, the requests in flight, and
    the requests rejected because the queue was full or by [unload]; these
    rejections are in no other counter. *)
Theorem totalRequests_accounts_for_every_request
    (options : DetectorOptions) (events : list Event) :
  let s := fst (run (new options) events) in
  let acts := snd (run (new options) events) in
  totalRequests (stats s)
    = completedRequests (stats s) + failedRequests (stats s)
      + Z.of_nat (length (requestQueue s)) + Z.of_nat (length (running s))
      + Spec.unserved acts.
Proof.
  intros s acts. subst s acts.
  destruct (run (new options) events) as [s acts] eqn:E. simpl.
  apply run_advances in E as (_ & Hb & _).
  unfold Spec.backlog, Spec.pendingCalls in Hb. simpl in Hb.
  rewrite length_app, !length_map in Hb. lia.
Qed.

Lemma reachable_sound (options : DetectorOptions) (s : State) :
  reachable options s -> Spec.orderly s /\ Spec.poolShape s.
Proof.
  intros [events <-]. destruct (run (new options) events) as [s acts] eqn:E. simpl.
  apply run_advances in E as (_ & _ & Ho & Hp).
  destruct (new_sound options) as (Ho0 & Hp0 & _). auto.
Qed.

(** X16. In every reachable state at most one call is in flight on a
    worker, and a worker is busy exactly when a call is in flight on it: a
    busy worker always has a request timer pending that will free it. *)
Theorem busy_workers_have_a_call_in_flight (options : DetectorOptions) (s : State) :
  reachable options s ->
  List.NoDup (Spec.inFlight s) /\
  (forall a, Spec.busyAt s a = true <-> In a (Spec.inFlight s)) /\
  (forall a request, In (a, request) (running s) ->
     exists w, heap s !! a = Some w /\ Worker.isBusy w = true) /\
  (forall a w, heap s !! a = Some w -> Worker.isBusy w = true ->
     exists request, In (a, request) (running s)).
Proof.
  intros Hr. apply reachable_sound in Hr as (([Hnd Hiff] & _ & _) & _).
  refine (conj Hnd (conj Hiff (conj _ _))).
  - intros a request Hin.
    assert (Hb : Spec.busyAt s a = true).
    { apply Hiff. unfold Spec.inFlight. apply in_map_iff. exists (a, request). auto. }
    unfold Spec.busyAt in Hb. destruct (heap s !! a) as [w|]; [eauto|discriminate].
  - intros a w Hw Hb.
    assert (Hin : In a (Spec.inFlight s)).
    { apply Hiff. unfold Spec.busyAt. now rewrite Hw. }
    unfold Spec.inFlight in Hin. apply in_map_iff in Hin as ([a' request] & <- & Hin).
    eauto.
Qed.

(** X17. In every reachable state the cache of the detector holds at most
    [cacheSize] entries, each text once; every entry is stored under a text
    that is not blank and holds an answer of a worker with a primary
    prediction, which is its first prediction. *)
Theorem detector_cache_stays_sound
    (options : DetectorOptions) (s : State) (c : Cache.DetectionCache) :
  reachable options s -> cache s = Some c ->
  (length (Cache.cache c) <= Cache.maxSize c)%nat /\
  List.NoDup (Spec.keys c) /\
  forall text entry, In (text, entry) (Cache.cache c) ->
    isBlank text = false /\
    primary (Cache.result entry) = head (predictions (Cache.result entry)) /\
    primary (Cache.result entry) <> None.
Proof.
  intros Hr Hc. apply reachable_sound in Hr as ((_ & _ & Hk) & _).
  unfold Spec.cacheKept in Hk. rewrite Hc in Hk.
  destruct Hk as [(_ & Hcap & Hnd & _) Hall].
  refine (conj Hcap (conj Hnd _)). intros text entry Hin.
  rewrite List.Forall_forall in Hall. apply (Hall _ Hin).
Qed.

(** X18. In every reachable state: the queue is empty unless the detector
    is loaded and never longer than [maxQueueSize]; the pool is empty unless
    the detector is loaded or loading, and it never has more than [poolSize]
    workers, so [getStats] never reports more than [poolSize] active or busy
    workers. *)
Theorem pool_and_queue_stay_in_shape (options : DetectorOptions) (s : State) :
  reachable options s ->
  (isLoaded s = false -> requestQueue s = []) /\
  (isLoaded s = false -> isLoading s = false -> workers s = []) /\
  (length (workers s) <= poolSize (config s))%nat /\
  (length (requestQueue s) <= maxQueueSize (config s))%nat /\
  activeWorkers (getStats s) <= Z.of_nat (poolSize (config s)) /\
  busyWorkers (getStats s) <= Z.of_nat (poolSize (config s)).
Proof.
  intros Hr. pose proof Hr as [events Hev].
  apply reachable_sound in Hr as (_ & H1 & H2 & H3).
  assert (Hw : (length (workers s) <= poolSize (config s))%nat).
  { destruct H3 as [Hnil | Hlen]; [rewrite Hnil; simpl|]; lia. }
  assert (Hq : Spec.queueBounded s).
  { destruct (run (new options) events) as [s0 acts] eqn:E. simpl in Hev. subst s0.
    apply (run_bounded events _ _ _ E). unfold Spec.queueBounded. simpl. lia. }
  refine (conj H1 (conj H2 (conj Hw (conj Hq _)))).
  unfold getStats. simpl.
  pose proof (List.filter_length_le
                (fun a => match heap s !! a with
                          | Some w => Worker.isReady w | None => false end) (workers s)).
  pose proof (List.filter_length_le
                (fun a => match heap s !! a with
                          | Some w => Worker.isBusy w | None => false end) (workers s)).
  lia.
Qed.

End Conservation.

(** ** The unloaded detector *)

Section Unloaded.

Local Open Scope list_scope.
Import Detector.
Context `{Builtins}.

Lemma processQueue_idle (s : State) : requestQueue s = [] -> processQueue s = (s, []).
Proof.
  intros Hq. unfold processQueue, processQueueLoop. rewrite Hq. simpl.
  rewrite ?settle_empty. simpl. f_equal. rewrite <- Hq. apply set_requestQueue_same.
Qed.

Lemma settle_one_idle (request : QueuedRequest) (e : Error) (s : State) :
  requestQueue s = [] ->
  settle [(request, e)] s
    = (set_stats (with_failedRequests (failedRequests (stats s) + 1) (stats s)) s,
       [Threw (call request) e]).
Proof.
  intros Hq. unfold settle. rewrite Hq. simpl. unfold processQueueLoop. simpl.
  rewrite Hq. simpl. f_equal. destruct s. simpl in Hq. subst. reflexivity.
Qed.

(** The transition leaves the queue and the loaded flag alone and does only
    what an unloaded detector may do. *)
Lemma stopWorkers_quiet (ws : list addr) :
  forall (s s' : State) (acts : list Action),
  stopWorkers ws s = (s', acts) ->
  forallb Spec.quietAction acts = true /\
  requestQueue s' = requestQueue s /\ isLoaded s' = isLoaded s.
Proof.
  induction ws as [|a ws IH]; intros s s' acts; simpl.
  - intros [= <- <-]. auto.
  - destruct (stopWorker a s) as [s1 acts1] eqn:E1.
    destruct (stopWorkers ws s1) as [s2 acts2] eqn:E2. intros [= <- <-].
    apply IH in E2 as (Hq2 & Hr2 & Hl2).
    unfold stopWorker in E1. destruct (heap s !! a) as [w|].
    + destruct (Worker.stopSignals w); injection E1 as <- <-; simpl in *; auto.
    + injection E1 as <- <-. auto.
Qed.

Lemma load_catch_quiet (e : Error) (s s' : State) (acts : list Action) :
  load_catch e s = (s', acts) ->
  forallb Spec.quietAction acts = true /\
  requestQueue s' = requestQueue s /\ isLoaded s' = isLoaded s.
Proof.
  unfold load_catch. destruct (stopWorkers _ _) as [s2 acts2] eqn:E2.
  intros [= <- <-]. apply stopWorkers_quiet in E2 as (Hq & Hr & Hl).
  rewrite forallb_app, Hq. simpl in *. auto.
Qed.

Lemma start_rejected_quiet (e : Error) (ps : PendingStart) (s s' : State)
  (acts : list Action) :
  start_rejected e ps s = (s', acts) ->
  forallb Spec.quietAction acts = true /\
  requestQueue s' = requestQueue s /\ isLoaded s' = isLoaded s.
Proof.
  unfold start_rejected. destruct (ps_owner ps).
  - destruct (loadJoin s); [|intros [= <- <-]; auto].
    destruct (Nat.eqb _ _); [apply load_catch_quiet|intros [= <- <-]; auto].
  - intros [= <- <-]. auto.
Qed.

Lemma start_resolved_quiet (ps : PendingStart) (s s' : State) (acts : list Action) :
  requestQueue s = [] ->
  start_resolved ps s = (s', acts) ->
  forallb Spec.quietAction acts = true /\ requestQueue s' = [] /\
  (isLoaded s' = isLoaded s \/ In LoadResolved acts).
Proof.
  intros Hq. unfold start_resolved. destruct (ps_owner ps).
  - destruct (loadJoin s); [|intros [= <- <-]; auto].
    destruct (Nat.eqb _ _); [|intros [= <- <-]; auto].
    destruct (List.filter _ _).
    + unfold load_then. rewrite processQueue_idle by exact Hq.
      intros [= <- <-]. simpl. auto.
    + intros [= <- <-]. auto.
  - rewrite processQueue_idle by exact Hq. intros [= <- <-]. auto.
Qed.

Lemma restartWorker_unloaded (workerId : nat) (s : State) :
  isLoaded s = false -> restartWorker workerId s = (s, []).
Proof. intros Hl. unfold restartWorker. now rewrite Hl. Qed.

(** X19. A detector that is not loaded starts nothing: whatever happens
    except a call of [load] (a call of [detect] or [unload], an answer or a
    timeout of a call still in flight, the exit of a process, a timer), no
    process is spawned, no worker is restarted, nothing is written to a
    worker and nothing is queued; and the detector becomes loaded only when
    a [load] in progress completes. *)
Ltac quiet_done :=
  simpl in *;
  refine (conj _ (conj _ _));
  [ auto
  | auto; congruence
  | first [left; congruence | right; simpl; auto] ].

Theorem unloaded_detector_starts_nothing (s : State) (e : Event) :
  isLoaded s = false -> requestQueue s = [] -> Spec.isLoad e = false ->
  forallb Spec.quietAction (snd (step s e)) = true /\
  requestQueue (fst (step s e)) = [] /\
  (isLoaded (fst (step s e)) = true -> In LoadResolved (snd (step s e))).
Proof.
  intros Hl Hq He.
  assert (Hgoal : forall s' acts,
            forallb Spec.quietAction acts = true /\ requestQueue s' = [] /\
            (isLoaded s' = isLoaded s \/ In LoadResolved acts) ->
            forallb Spec.quietAction acts = true /\ requestQueue s' = [] /\
            (isLoaded s' = true -> In LoadResolved acts)).
  { intros s' acts (H1 & H2 & [H3|H3]); repeat split; auto. congruence. }
  destruct e as [m b| |c text options now|a data now|a|a|a|a|a|workerId|a]; simpl;
    try discriminate He; apply Hgoal; clear Hgoal.
  - (* unload *)
    unfold unload. simpl. rewrite Hq. simpl.
    destruct (stopWorkers _ _) as [s3 acts3] eqn:E3. simpl.
    apply stopWorkers_quiet in E3 as (Ha & Hq3 & Hl3). simpl in *. quiet_done.
  - (* detect *)
    unfold detect. destruct (isBlank text); simpl; [quiet_done|]. rewrite Hl. simpl. quiet_done.
  - (* stdout data *)
    unfold onStdoutData.
    destruct (extract _ _) as [[[a0 request] rest]|]; [|simpl; quiet_done].
    destruct (heap s !! a) as [w|]; [|simpl; quiet_done].
    simpl. unfold executeRequest_then.
    destruct (detect_then _ _ _ _) as [s2 acts2] eqn:E2.
    apply detect_then_frame in E2 as (c & -> & ->).
    rewrite processQueue_idle by exact Hq. simpl. quiet_done.
  - (* request timer *)
    unfold onRequestTimer.
    destruct (extract _ _) as [[[a0 request] rest]|]; [|simpl; quiet_done].
    destruct (heap s !! a) as [w|]; [|simpl; quiet_done].
    simpl. unfold executeRequest_catch. rewrite settle_one_idle by exact Hq. simpl. quiet_done.
  - (* write error *)
    unfold onWriteError.
    destruct (extract _ _) as [[[a0 request] rest]|]; [|simpl; quiet_done].
    destruct (heap s !! a) as [w|]; [|simpl; quiet_done].
    unfold executeRequest_catch. rewrite settle_one_idle by exact Hq. simpl. quiet_done.
  - (* process error *)
    unfold onProcessError. destruct (heap s !! a) as [w|]; [|simpl; quiet_done].
    rewrite restartWorker_unloaded by exact Hl.
    destruct (Worker.process w) as [p|]; [|simpl; quiet_done].
    destruct (extract _ _) as [[ps rest]|]; [|simpl; quiet_done].
    destruct (start_rejected _ _ _) as [s3 acts3] eqn:E3. simpl.
    apply start_rejected_quiet in E3 as (Ha & Hq3 & Hl3). simpl in *.
    rewrite Hq3, Hl3. quiet_done.
  - (* process exit *)
    unfold onProcessExit. destruct (heap s !! a) as [w|]; [|simpl; quiet_done].
    rewrite restartWorker_unloaded by exact Hl. simpl. quiet_done.
  - (* start timer *)
    unfold onStartTimer.
    destruct (extract _ _) as [[ps rest]|]; [|simpl; quiet_done].
    destruct (heap s !! a) as [w|]; [|simpl; quiet_done].
    destruct (Worker.onStartTimer w) as [w' r].
    destruct (ps_settled ps); [simpl; quiet_done|].
    destruct r as [err|].
    + destruct (start_rejected _ _ _) as [s3 acts3] eqn:E3. simpl.
      apply start_rejected_quiet in E3 as (Ha & Hq3 & Hl3). simpl in *.
      rewrite Hq3, Hl3. quiet_done.
    + destruct (start_resolved _ _) as [s3 acts3] eqn:E3. simpl.
      apply start_resolved_quiet in E3 as (Ha & Hq3 & Hl3); [|exact Hq].
      exact (conj Ha (conj Hq3 Hl3)).
  - (* retry timer *)
    unfold onRetryTimer. destruct (extract _ _) as [[x rest]|]; [|simpl; quiet_done].
    rewrite restartWorker_unloaded by exact Hl. simpl. quiet_done.
  - (* kill timer *)
    unfold onKillTimer. destruct (extract _ _) as [[x rest]|]; [|simpl; quiet_done].
    destruct (heap s !! a) as [w|]; simpl; quiet_done.
Qed.

Lemma stopWorkers_running (ws : list addr) :
  forall (s s' : State) (acts : list Action),
  stopWorkers ws s = (s', acts) ->
  running s' = running s /\ Spec.answered acts = [] /\
  (forall a, Spec.busyAt s' a = Spec.busyAt s a) /\
  (forall a w, heap s !! a = Some w ->
     exists w', heap s' !! a = Some w' /\ Worker.id w' = Worker.id w).
Proof.
  induction ws as [|a ws IH]; intros s s' acts; simpl.
  - intros [= <- <-]. repeat split; eauto.
  - destruct (stopWorker a s) as [s1 acts1] eqn:E1.
    destruct (stopWorkers ws s1) as [s2 acts2] eqn:E2. intros [= <- <-].
    pose proof (stopWorker_housekeeping _ _ _ _ E1)
      as (_ & Hr1 & _ & _ & _ & _ & Hb1 & [Ha1 _] & _).
    apply IH in E2 as (Hr2 & Ha2 & Hb2 & Hid2).
    refine (conj (eq_trans Hr2 Hr1) (conj _ (conj _ _))).
    + now rewrite answered_app, Ha1, Ha2.
    + intros x. now rewrite Hb2, Hb1.
    + intros x w Hw.
      assert (H1 : exists w1, heap s1 !! x = Some w1 /\ Worker.id w1 = Worker.id w).
      { unfold stopWorker in E1. destruct (heap s !! a) as [w0|] eqn:Hw0.
        - assert (Hh : heap s1 = <[a := Worker.stop w0]> (heap s)).
          { destruct (Worker.stopSignals w0); injection E1 as <- _; reflexivity. }
          rewrite Hh. destruct (Nat.eq_dec x a) as [->|Hne].
          + rewrite list_lookup_insert_eq by (eapply lookup_lt_Some; eauto).
            rewrite Hw in Hw0. injection Hw0 as <-.
            eexists. split; [reflexivity|].
            unfold Worker.stop. destruct (Worker.process w); reflexivity.
          + rewrite list_lookup_insert_ne by auto. eauto.
        - injection E1 as <- _. eauto. }
      destruct H1 as (w1 & Hw1 & Hid1).
      destruct (Hid2 x w1 Hw1) as (w2 & Hw2 & Hid2'). exists w2. split; congruence.
Qed.

(** X20. [unload] rejects the queued requests only. A call in flight on a
    worker is not answered by [unload]: it stays pending, its worker stays
    busy, and when its request timer fires it is rejected with the timeout
    error of that worker and counted as failed. *)
Theorem unload_leaves_calls_in_flight_to_their_timers (s : State) :
  let s' := fst (unload s) in
  running s' = running s /\
  Spec.answered (snd (unload s)) = map call (requestQueue s) /\
  (forall a, Spec.busyAt s' a = Spec.busyAt s a) /\
  (forall a request rest w,
     extract (fun r => Nat.eqb (fst r) a) (running s) = Some ((a, request), rest) ->
     heap s !! a = Some w ->
     snd (onRequestTimer a s') = [Threw (call request) (WorkerTimeout (Worker.id w))] /\
     running (fst (onRequestTimer a s')) = rest /\
     failedRequests (stats (fst (onRequestTimer a s'))) = failedRequests (stats s) + 1 /\
     isLoaded (fst (onRequestTimer a s')) = false).
Proof.
  intros s'. subst s'. unfold unload. simpl.
  destruct (stopWorkers _ _) as [s3 acts3] eqn:E3. simpl.
  pose proof (stopWorkers_housekeeping _ _ _ _ E3) as (Hq & _ & _ & Hs & _ & Hl & _).
  apply stopWorkers_running in E3 as (Hr & Ha & Hb & Hid). simpl in *.
  refine (conj Hr (conj _ (conj Hb _))).
  - rewrite answered_app, Ha, app_nil_r. apply rejectQueued_answers.
  - intros a request rest w Hex Hw. unfold onRequestTimer. simpl. rewrite Hr, Hex.
    destruct (Hid a w Hw) as (w3 & Hw3 & Hidw). rewrite Hw3.
    simpl. unfold executeRequest_catch. rewrite settle_one_idle by (simpl; exact Hq).
    simpl. rewrite Hidw, Hs, Hl. auto.
Qed.

End Unloaded.

Lemma every_call_is_answered_or_pending_witness :
  let s := fst (Detector.run (Detector.new Spec.tinyQueue) Spec.busyRun) in
  let acts := snd (Detector.run (Detector.new Spec.tinyQueue) Spec.busyRun) in
  Spec.issued Spec.busyRun = [0%nat; 1%nat; 2%nat] /\
  Spec.answered acts = [0%nat] /\
  Spec.pendingCalls s = [2%nat; 1%nat] /\
  List.NoDup (Spec.answered acts) /\
  (forall c, In c (Spec.answered acts) -> ~ In c (Spec.pendingCalls s)).
Proof.
  intros s acts.
  destruct (every_call_is_answered_or_pending Spec.busyRun) as [_ Hnew].
  destruct (Hnew Spec.tinyQueue) as [_ Hnd].
  assert (Hissued : List.NoDup (Spec.issued Spec.busyRun)).
  { repeat constructor; simpl; intuition discriminate. }
  destruct (Hnd Hissued) as (Ha & _ & Hdis).
  split; [reflexivity|]. split; [vm_compute; reflexivity|].
  split; [vm_compute; reflexivity|]. split; [exact Ha|exact Hdis].
Defined.

Lemma busy_workers_have_a_call_in_flight_witness :
  let s := fst (Detector.run (Detector.new Spec.tinyQueue) Spec.busyRun) in
  Detector.reachable Spec.tinyQueue s /\
  Spec.inFlight s = [0%nat] /\ List.NoDup (Spec.inFlight s) /\ Spec.busyAt s 0 = true.
Proof.
  intros s.
  assert (Hr : Detector.reachable Spec.tinyQueue s) by (exists Spec.busyRun; reflexivity).
  destruct (busy_workers_have_a_call_in_flight Spec.tinyQueue s Hr) as (Hnd & Hiff & _).
  split; [exact Hr|]. split; [vm_compute; reflexivity|]. split; [exact Hnd|].
  apply Hiff. vm_compute. auto.
Defined.

Lemma detector_cache_stays_sound_witness :
  let s := fst (Detector.run (Detector.new Spec.tinyQueueCached) Spec.cachedRun) in
  let entry := {| Cache.result := {| predictions := [Spec.pred "en" (9 # 10)];
                                     primary := Some (Spec.pred "en" (9 # 10)) |};
                  Cache.timestamp := 1 |} in
  let c := {| Cache.cache := [("a", entry)]; Cache.maxSize := 1000;
              Cache.ttl := 3600000 |} in
  Detector.reachable Spec.tinyQueueCached s /\ Detector.cache s = Some c /\
  (length (Cache.cache c) <= Cache.maxSize c)%nat /\
  Detector.isBlank "a" = false.
Proof.
  intros s entry c.
  assert (Hr : Detector.reachable Spec.tinyQueueCached s)
    by (exists Spec.cachedRun; reflexivity).
  assert (Hc : Detector.cache s = Some c) by (vm_compute; reflexivity).
  destruct (detector_cache_stays_sound Spec.tinyQueueCached s c Hr Hc) as (Hcap & _ & Hall).
  split; [exact Hr|]. split; [exact Hc|]. split; [exact Hcap|].
  apply (Hall "a" entry). simpl. auto.
Defined.

Lemma pool_and_queue_stay_in_shape_witness :
  let s := fst (Detector.run (Detector.new Spec.tinyQueue) Spec.unloadRun) in
  Detector.reachable Spec.tinyQueue s /\ Detector.isLoaded s = false /\
  Detector.requestQueue s = [] /\ Detector.workers s = [] /\
  busyWorkers (Detector.getStats s) <= 1.
Proof.
  intros s.
  assert (Hr : Detector.reachable Spec.tinyQueue s) by (exists Spec.unloadRun; reflexivity).
  destruct (pool_and_queue_stay_in_shape Spec.tinyQueue s Hr)
    as (Hq & Hw & _ & _ & _ & Hbusy).
  assert (Hl : Detector.isLoaded s = false) by (vm_compute; reflexivity).
  assert (Hi : Detector.isLoading s = false) by (vm_compute; reflexivity).
  split; [exact Hr|]. split; [exact Hl|]. split; [exact (Hq Hl)|].
  split; [exact (Hw Hl Hi)|exact Hbusy].
Defined.

(** After [unload], the answer of the call still in flight is returned to
    its caller and nothing else happens. *)
Lemma unloaded_detector_starts_nothing_witness :
  let s := fst (Detector.run (Detector.new Spec.tinyQueue) Spec.unloadRun) in
  Detector.isLoaded s = false /\ Detector.requestQueue s = [] /\
  forallb Spec.quietAction
    (snd (Detector.step s (Detector.StdoutData 0 "__label__en 0.9" 5))) = true /\
  snd (Detector.step s (Detector.ProcessExit 0)) = [].
Proof.
  intros s.
  assert (Hl : Detector.isLoaded s = false) by (vm_compute; reflexivity).
  assert (Hq : Detector.requestQueue s = []) by (vm_compute; reflexivity).
  destruct (unloaded_detector_starts_nothing s (Detector.StdoutData 0 "__label__en 0.9" 5)
              Hl Hq eq_refl) as (Hquiet & _).
  split; [exact Hl|]. split; [exact Hq|]. split; [exact Hquiet|].
  vm_compute. reflexivity.
Defined.

Lemma unload_leaves_calls_in_flight_to_their_timers_witness :
  let s := fst (Detector.run (Detector.new Spec.tinyQueue)
                  [Detector.Load true true; Detector.StartTimer 0;
                   Detector.Detect 0 "Test 0" Spec.noOptions 0;
                   Detector.Detect 1 "Test 1" Spec.noOptions 0]) in
  Spec.answered (snd (Detector.unload s)) = [1%nat] /\
  map (fun r => Detector.call (snd r)) (Detector.running (fst (Detector.unload s))) = [0%nat] /\
  snd (Detector.onRequestTimer 0 (fst (Detector.unload s)))
    = [Detector.Threw 0 (WorkerTimeout 0)].
Proof.
  intros s.
  destruct (unload_leaves_calls_in_flight_to_their_timers s) as (Hr & Ha & _ & Htimer).
  split; [rewrite Ha; vm_compute; reflexivity|].
  split; [rewrite Hr; vm_compute; reflexivity|].
  destruct (Htimer 0%nat
              {| Detector.text := "Test 0"; Detector.call := 0;
                 Detector.options := Spec.noOptions; Detector.startTime := 0 |}
              []
              (Worker.with_isBusy true
                 (Worker.with_isReady true
                    (Worker.start 0 (Worker.new 0 Detector.defaultModelPath 5000)))))
    as (Hthrew & _).
  - vm_compute. reflexivity.
  - vm_compute. reflexivity.
  - exact Hthrew.
Defined.

(** ** Loading the pool ([load], [FastTextWorker.start]) *)

Section Loading.

Local Open Scope list_scope.
Import Detector.
Context `{Builtins}.

(** The setters and projections of the state, evaluated on explicit states *)
Ltac state_cbv :=
  cbv beta iota delta
    [Spec.loadingState Spec.loadedState
     set_cache set_workers set_requestQueue set_isLoaded set_isLoading set_stats set_heap
     set_running set_starting set_loadJoin set_loadGeneration set_retryTimers
     set_killTimers set_nextPid
     config cache workers requestQueue isLoaded isLoading stats heap running starting
     loadJoin loadGeneration retryTimers killTimers nextPid].

Lemma seq_snoc (i m : nat) : seq i (S m) = seq i m ++ [(i + m)%nat].
Proof. apply seq_S. Qed.

Lemma createWorkers_loading (c : Config) (co : option Cache.DetectionCache) (m : nat) :
  forall i,
  createWorkers m i 1 (Spec.loadingState c co i 0 None)
    = (Spec.loadingState c co (i + m) 0 None, seq i m,
       map (fun j => Spawned j j) (seq i m)).
Proof.
  induction m as [|m IH]; intros i.
  - simpl. now rewrite Nat.add_0_r.
  - cbn [createWorkers]. unfold startWorker.
    assert (Hlen : length (map (Spec.spawnedWorker c) (seq 0 i)) = i)
      by now rewrite length_map, length_seq.
    state_cbv. rewrite !Nat.sub_0_r. change (seq 0 0) with (@nil nat). cbn [map app].
    rewrite Hlen.
    rewrite list_lookup_middle by (symmetry; exact Hlen).
    rewrite insert_app_r_alt by (rewrite Hlen; lia).
    rewrite Hlen, Nat.sub_diag. cbn [insert list_insert].
    specialize (IH (S i)). revert IH. state_cbv.
    rewrite !Nat.sub_0_r. change (seq 0 0) with (@nil nat). cbn [map app].
    rewrite (seq_snoc 0 i), !map_app. cbn [map Nat.add]. intros IH.
    change (Worker.start i (Worker.new i (modelPath c) (timeout c)))
      with (Spec.spawnedWorker c i).
    change {| ps_worker := i; ps_pid := i; ps_owner := ByLoad 1; ps_settled := false |}
      with (Spec.loadStart i).
    rewrite IH.
    replace (i + S m)%nat with (S (i + m)) by lia. reflexivity.
Qed.

Lemma filter_above (k m : nat) :
  List.filter (fun p => negb (Nat.eqb p k)) (seq (S k) m) = seq (S k) m.
Proof.
  assert (Hgen : forall j, (k < j)%nat ->
            List.filter (fun p => negb (Nat.eqb p k)) (seq j m) = seq j m).
  { induction m as [|m IH]; intros j Hj; simpl; [reflexivity|].
    destruct (Nat.eqb_spec j k); [lia|]. simpl. rewrite IH by lia. reflexivity. }
  apply Hgen. lia.
Qed.

(** One start timer of a [load] in progress *)
Lemma onStartTimer_loading (c : Config) (co : option Cache.DetectionCache) (k m : nat) :
  poolSize c = (k + S m)%nat ->
  onStartTimer k (Spec.loadingState c co (poolSize c) k (Some (seq k (S m))))
    = match m with
      | O => (Spec.loadedState c co, [LoadResolved])
      | S _ => (Spec.loadingState c co (poolSize c) (S k) (Some (seq (S k) m)), [])
      end.
Proof.
  intros Hn. unfold onStartTimer.
  assert (Hsub : (poolSize c - k)%nat = S m) by lia.
  assert (Hlen : length (map (Spec.readyWorker c) (seq 0 k)) = k)
    by now rewrite length_map, length_seq.
  state_cbv. rewrite Hsub. cbn [seq map extract].
  cbn [Spec.loadStart ps_worker]. rewrite Nat.eqb_refl.
  rewrite list_lookup_middle by (symmetry; exact Hlen).
  cbn [Worker.onStartTimer Spec.spawnedWorker Worker.start Worker.with_process
       Worker.process Worker.killed negb ps_settled ps_owner ps_pid].
  unfold start_resolved. state_cbv.
  cbn [Spec.loadStart ps_settled ps_owner ps_pid Nat.eqb].
  cbn [List.filter]. rewrite Nat.eqb_refl. cbn [negb]. rewrite filter_above.
  rewrite insert_app_r_alt by (rewrite Hlen; lia).
  rewrite Hlen, Nat.sub_diag. cbn [insert list_insert].
  destruct m as [|m].
  - cbn [seq map]. unfold load_then. rewrite processQueue_idle by reflexivity.
    state_cbv. cbn [app]. f_equal. f_equal.
    rewrite Hn. replace (k + 1)%nat with (S k) by lia.
    rewrite (seq_snoc 0 k), map_app. reflexivity.
  - state_cbv. replace (poolSize c - S k)%nat with (S m) by lia.
    change (Spec.readyWorker c 0 :: map (Spec.readyWorker c) (seq 1 k))
      with (map (Spec.readyWorker c) (seq 0 (S k))).
    rewrite (seq_snoc 0 k), map_app, <- app_assoc.
    change (seq (S k) (S m)) with (S k :: seq (S (S k)) m).
    cbv beta iota. reflexivity.
Qed.


Lemma poolSize_positive (options : DetectorOptions) :
  (1 <= poolSize (config (new options)))%nat.
Proof.
  simpl. unfold or_default_nat. destruct (opt_poolSize options) as [[|n]|]; simpl; lia.
Qed.

(** [load] on a new detector spawns the whole pool and waits *)
Lemma load_new (options : DetectorOptions) :
  let c := config (new options) in
  load true true (new options)
    = (Spec.loadingState c (cache (new options)) (poolSize c) 0
         (Some (seq 0 (poolSize c))),
       map (fun j => Spawned j j) (seq 0 (poolSize c))).
Proof.
  intros c. pose proof (poolSize_positive options) as Hn. fold c in Hn.
  unfold load.
  change (isLoading (new options)) with false.
  change (isLoaded (new options)) with false.
  cbn [negb].
  change (set_loadGeneration (S (loadGeneration (set_isLoading true (new options))))
            (set_isLoading true (new options)))
    with (Spec.loadingState c (cache (new options)) 0 0 None).
  change (poolSize (config (set_isLoading true (new options)))) with (poolSize c).
  change (S (loadGeneration (set_isLoading true (new options)))) with 1%nat.
  rewrite createWorkers_loading. cbn [Nat.add].
  destruct (poolSize c) as [|n] eqn:En; [lia|].
  reflexivity.
Qed.

(** The start timers of a [load] in progress, in the order they were armed:
    the load goes on waiting until the last one. *)
Lemma timers_loading (c : Config) (co : option Cache.DetectionCache) :
  forall j k m, poolSize c = (k + j + S m)%nat ->
  run (Spec.loadingState c co (poolSize c) k (Some (seq k (j + S m))))
      (map StartTimer (seq k j))
    = (Spec.loadingState c co (poolSize c) (k + j) (Some (seq (k + j) (S m))), []).
Proof.
  induction j as [|j IH]; intros k m Hn.
  - simpl. now rewrite Nat.add_0_r.
  - change (seq k (S j)) with (k :: seq (S k) j).
    change (S j + S m)%nat with (S (j + S m)).
    cbn [map run step].
    rewrite (onStartTimer_loading c co k (j + S m)) by lia.
    replace (j + S m)%nat with (S (j + m)) at 1 by lia.
    rewrite (IH (S k) m) by lia.
    replace (S k + j)%nat with (k + S j)%nat by lia. reflexivity.
Qed.

Lemma run_app (s : State) (es es' : list Event) :
  run s (es ++ es')
    = (fst (run (fst (run s es)) es'), snd (run s es) ++ snd (run (fst (run s es)) es')).
Proof.
  revert s. induction es as [|e es IH]; intros s.
  - simpl. now destruct (run s es').
  - cbn [app run]. destruct (step s e) as [s1 acts]. rewrite IH.
    destruct (run s1 es) as [s2 acts2]. cbn [fst snd].
    destruct (run s2 es') as [s3 acts3]. cbn [fst snd]. now rewrite app_assoc.
Qed.

(** The last start timer completes the load *)
Lemma timers_loaded (c : Config) (co : option Cache.DetectionCache) (k : nat) :
  poolSize c = S k ->
  run (Spec.loadingState c co (poolSize c) 0 (Some (seq 0 (S k))))
      (map StartTimer (seq 0 (S k)))
    = (Spec.loadedState c co, [LoadResolved]).
Proof.
  intros Hn. rewrite (seq_snoc 0 k) at 2. rewrite map_app, run_app.
  pose proof (timers_loading c co k 0 0) as Ht.
  replace (k + 1)%nat with (S k) in Ht by lia.
  rewrite Ht by lia. cbn [fst snd map run step Nat.add app].
  pose proof (onStartTimer_loading c co k 0) as Hl.
  rewrite Hl by lia. reflexivity.
Qed.

(** X21. A first [load] with the model and the binary in place spawns one
    process per worker of the pool, in order, and is still loading while
    start timers are outstanding; when the last of them has fired, the load
    resolves: the detector is loaded, every worker is ready and idle, the
    queue is empty and [stats.poolSize] is the configured pool size. *)
Theorem load_resolves_after_the_last_start_timer (options : DetectorOptions) :
  let s := new options in
  let n := poolSize (config s) in
  (forall k, (k < n)%nat ->
     run s (Load true true :: map StartTimer (seq 0 k))
       = (Spec.loadingState (config s) (cache s) n k (Some (seq k (n - k))),
          map (fun i => Spawned i i) (seq 0 n))) /\
  run s (Spec.loadRun n)
    = (Spec.loadedState (config s) (cache s),
       map (fun i => Spawned i i) (seq 0 n) ++ [LoadResolved]).
Proof.
  intros s n. pose proof (load_new options) as Hload. cbv zeta in Hload.
  fold s in Hload. fold n in Hload. split.
  - intros k Hk. cbn [run step]. rewrite Hload.
    pose proof (timers_loading (config s) (cache s) k 0 (n - k - 1)) as Ht.
    fold n in Ht. cbn [Nat.add] in Ht.
    replace (k + S (n - k - 1))%nat with n in Ht by lia.
    replace (S (n - k - 1)) with (n - k)%nat in Ht by lia.
    rewrite Ht by lia. now rewrite app_nil_r.
  - unfold Spec.loadRun. cbn [run step]. rewrite Hload.
    destruct n as [|k] eqn:En; [pose proof (poolSize_positive options); fold s in H0; lia|].
    pose proof (timers_loaded (config s) (cache s) k En) as Ht.
    fold s in En. unfold n in En. rewrite En in Ht. rewrite Ht. reflexivity.
Qed.

End Loading.

(** With the default pool of three workers, the load is still in progress
    after two start timers and resolved after the third. *)
Lemma load_resolves_after_the_last_start_timer_witness :
  Detector.isLoaded
    (fst (Detector.run (Detector.new Spec.defaults)
            (Detector.Load true true :: map Detector.StartTimer (seq 0 2)))) = false /\
  Detector.isLoaded
    (fst (Detector.run (Detector.new Spec.defaults) (Spec.loadRun 3))) = true.
Proof.
  pose proof (load_resolves_after_the_last_start_timer Spec.defaults) as Hw.
  cbv zeta in Hw. destruct Hw as [Hk Hn]. split.
  - rewrite (Hk 2%nat) by (vm_compute; lia). reflexivity.
  - change 3%nat with (Detector.poolSize (Detector.config (Detector.new Spec.defaults))).
    rewrite Hn. reflexivity.
Defined.

(** ** The kill timer of [stop] and a restart ([FastTextWorker.stop],
    [restartWorker]) *)

Section KillTimer.

Local Open Scope list_scope.
Import Detector.
Context `{Builtins}.

(** The setters and projections of the state, evaluated on explicit states *)
Ltac state_cbv :=
  cbv beta iota delta
    [set_cache set_workers set_requestQueue set_isLoaded set_isLoading set_stats set_heap
     set_running set_starting set_loadJoin set_loadGeneration set_retryTimers
     set_killTimers set_nextPid
     config cache workers requestQueue isLoaded isLoading stats heap running starting
     loadJoin loadGeneration retryTimers killTimers nextPid].

Ltac worker_cbn :=
  cbn [Worker.onProcessExit Worker.onStartTimer Worker.onKillTimer Worker.start Worker.stop
       Worker.stopSignals Worker.with_process Worker.with_isReady
       Worker.process Worker.killed Worker.pid Worker.id Worker.modelPath Worker.isReady
       Worker.isBusy Worker.processedRequests Worker.timeout negb].

(** X22. The kill timer that [stop] arms acts on whatever process the worker
    holds one second later. Left alone, it finds none and changes nothing.
    When the worker is started again in between, as [restartWorker] does at
    once, the start timer first makes the worker ready with the new process;
    the kill timer then takes that process away and leaves [isReady] set, so
    that an idle worker throws "process streams are not available" at the
    next call. *)
Theorem kill_timer_of_stop_outlives_a_restart
  (w : Worker.FastTextWorker) (p : nat) (text : string) :
  Worker.stopSignals w = true ->
  let stopped := Worker.stop w in
  let restarted := fst (Worker.onStartTimer (Worker.start p stopped)) in
  let w' := Worker.onKillTimer restarted in
  Worker.onKillTimer stopped = stopped /\
  Worker.process restarted = Some {| Worker.pid := p; Worker.killed := false |} /\
  Worker.isReady restarted = true /\
  Worker.process w' = None /\
  Worker.isReady w' = true /\
  Worker.detect w' text
    = inl (if Worker.isBusy w then WorkerBusy (Worker.id w)
           else WorkerNoStreams (Worker.id w)).
Proof.
  intros Hsig stopped restarted w'. subst stopped restarted w'.
  unfold Worker.stopSignals in Hsig. unfold Worker.stop.
  destruct (Worker.process w) as [q|] eqn:Hp; [|discriminate].
  destruct w as [i mp pr rd bs n t]. simpl in *.
  refine (conj eq_refl (conj eq_refl (conj eq_refl (conj eq_refl (conj eq_refl _))))).
  unfold Worker.detect. simpl. now destruct bs.
Qed.

Lemma extract_snoc_fresh {A : Type} (f : A -> bool) (l : list A) (y : A) :
  (forall x, In x l -> f x = false) -> f y = true ->
  extract f (l ++ [y]) = Some (y, l).
Proof.
  intros Hl Hy. induction l as [|x l IH]; simpl.
  - now rewrite Hy.
  - rewrite (Hl x) by now left. rewrite IH by (intros z Hz; apply Hl; now right).
    reflexivity.
Qed.

(** X23. When the process of a pool worker exits on its own, the detector
    restarts the worker: [stop] sends SIGTERM through the old handle and arms
    its kill timer, [start] spawns a new process. After the start timer and
    then that kill timer, the worker is ready and has no process, although
    nothing went wrong with the new one. *)
Theorem restart_after_exit_loses_the_new_process
  (s : State) (i : nat) (a : addr) (w : Worker.FastTextWorker) :
  isLoaded s = true ->
  workers s !! i = Some a ->
  heap s !! a = Some w ->
  Worker.id w = i ->
  Worker.stopSignals w = true ->
  requestQueue s = [] ->
  (forall b, In b (killTimers s) -> Nat.eqb a b = false) ->
  (forall ps, In ps (starting s) -> Nat.eqb (ps_worker ps) a = false) ->
  let s' := fst (run s [ProcessExit a; StartTimer a; KillTimer a]) in
  snd (run s [ProcessExit a; StartTimer a; KillTimer a])
    = [Restarting i; Terminated a; Spawned a (nextPid s)] /\
  heap s' = <[a := Worker.with_process None (Worker.with_isReady true w)]> (heap s) /\
  workers s' = workers s /\ isLoaded s' = true /\ requestQueue s' = [] /\
  killTimers s' = killTimers s /\ starting s' = starting s /\ running s' = running s /\
  stats s' = stats s.
Proof.
  intros Hl Hw Hh Hid Hsig Hq Hk Hst.
  pose proof (lookup_lt_Some _ _ _ Hh) as Hlt.
  destruct s as [c co ws q ld lg st h rn sg lj gen rt kt np]. simpl in *. subst q ld.
  destruct w as [wi mp [pr|] rd bs n t]; [|discriminate Hsig]. simpl in Hid. subst wi.
  cbn [Worker.stopSignals Worker.process] in Hsig.
  unfold run, step, onProcessExit. state_cbv. rewrite Hh.
  unfold restartWorker. state_cbv. worker_cbn. rewrite Hw.
  unfold stopWorker, startWorker. state_cbv.
  rewrite list_lookup_insert_eq by exact Hlt.
  worker_cbn. rewrite Hsig. state_cbv.
  rewrite list_lookup_insert_eq by (rewrite length_insert; exact Hlt).
  rewrite !list_insert_insert_eq.
  unfold onStartTimer. state_cbv.
  rewrite extract_snoc_fresh by (try exact Hst; simpl; apply Nat.eqb_refl).
  rewrite list_lookup_insert_eq by exact Hlt.
  worker_cbn. cbn [ps_settled].
  unfold start_resolved. cbn [ps_owner]. rewrite processQueue_idle by reflexivity.
  state_cbv. rewrite !list_insert_insert_eq.
  unfold onKillTimer. state_cbv.
  rewrite extract_snoc_fresh by (try exact Hk; apply Nat.eqb_refl).
  rewrite list_lookup_insert_eq by exact Hlt.
  state_cbv. rewrite !list_insert_insert_eq.
  worker_cbn. cbn [fst snd app].
  repeat split; reflexivity.
Qed.

(** X24. A worker that is ready and idle but holds no process is the one
    [getAvailableWorker] picks, and it throws before it becomes busy: while
    the queue is empty, a call that misses the cache is given to it and
    fails with "process streams are not available", which counts as one
    failed request, and the same worker is the available one for the next
    call. *)
Theorem worker_without_process_fails_every_call
  (s : State) (call : nat) (text : string) (options : DetectionOptions) (now : Z)
  (a : addr) (w : Worker.FastTextWorker) :
  isBlank text = false ->
  isLoaded s = true ->
  fst (cacheLookup text now s) = None ->
  getAvailableWorker s = Some (a, w) ->
  Worker.process w = None ->
  requestQueue s = [] ->
  let s' := fst (detect call text options now s) in
  snd (detect call text options now s)
    = [Dispatched false call a; Threw call (WorkerNoStreams (Worker.id w))] /\
  getAvailableWorker s' = Some (a, w) /\
  isLoaded s' = true /\ requestQueue s' = [] /\ running s' = running s /\
  totalRequests (stats s') = totalRequests (stats s) + 1 /\
  failedRequests (stats s') = failedRequests (stats s) + 1 /\
  completedRequests (stats s') = completedRequests (stats s).
Proof.
  intros Hb Hl Hc Ha Hp Hq.
  destruct (findAvailable_Some _ _ _ _ Ha) as (_ & _ & Hr & Hi).
  unfold detect. rewrite Hb, Hl. cbn [negb].
  destruct (cacheLookup text now s) as [r s1] eqn:El. simpl in Hc. subst r.
  destruct (cacheLookup_kept _ _ _ _ _ El) as (Hq1 & Hrn1 & Hst1 & Hh1 & Hw1 & Hl1 & _).
  assert (Ha1 : getAvailableWorker
                  (set_stats (with_totalRequests (totalRequests (stats s1) + 1) (stats s1)) s1)
                = Some (a, w)).
  { unfold getAvailableWorker in *. simpl. now rewrite Hh1, Hw1. }
  rewrite Ha1. unfold executeRequest, Worker.detect. cbn [Detector.text].
  rewrite Hr, Hi, Hp. cbn [negb].
  rewrite settle_one_idle by (simpl; congruence).
  cbn [fst snd app Detector.call].
  refine (conj eq_refl _).
  unfold getAvailableWorker in *. simpl. rewrite Hh1, Hw1, Hl1, Hq1, Hrn1, Hst1.
  repeat split; auto.
Qed.

End KillTimer.

(** A worker with a live process, stopped and started again *)
Lemma kill_timer_of_stop_outlives_a_restart_witness :
  let w := Worker.start 0 (Worker.new 0 "lid.176.bin" 5000) in
  Worker.stopSignals w = true /\
  Worker.detect
    (Worker.onKillTimer (fst (Worker.onStartTimer (Worker.start 1 (Worker.stop w)))))
    "Hello" = inl (WorkerNoStreams 0).
Proof.
  intros w. split; [reflexivity|].
  destruct (kill_timer_of_stop_outlives_a_restart w 1 "Hello" eq_refl)
    as (_ & _ & _ & _ & _ & Hd).
  exact Hd.
Defined.

(** The first worker of the default pool of three exits after the load *)
Lemma restart_after_exit_loses_the_new_process_witness :
  let s := fst (Detector.run (Detector.new Spec.defaults) (Spec.loadRun 3)) in
  let events := [Detector.ProcessExit 0; Detector.StartTimer 0; Detector.KillTimer 0] in
  snd (Detector.run s events)
    = [Detector.Restarting 0; Detector.Terminated 0; Detector.Spawned 0 3] /\
  option_map Worker.getStatus (Detector.heap (fst (Detector.run s events)) !! 0%nat)
    = Some (0%nat, true, false, 0) /\
  option_map Worker.process (Detector.heap (fst (Detector.run s events)) !! 0%nat)
    = Some None.
Proof.
  intros s events.
  destruct (restart_after_exit_loses_the_new_process s 0 0
              (Spec.readyWorker (Detector.config (Detector.new Spec.defaults)) 0))
    as (Hacts & Hheap & _).
  - reflexivity.
  - reflexivity.
  - reflexivity.
  - reflexivity.
  - reflexivity.
  - reflexivity.
  - intros b Hb. vm_compute in Hb. destruct Hb.
  - intros ps Hps. vm_compute in Hps. destruct Hps.
  - fold events in Hacts, Hheap. split; [exact Hacts|]. rewrite Hheap.
    split; reflexivity.
Defined.

(** The call that follows is given to that worker and fails, although the
    two other workers are ready. *)
Lemma worker_without_process_fails_every_call_witness :
  let s := fst (Detector.run (Detector.new Spec.defaults)
                  (Spec.loadRun 3 ++
                   [Detector.ProcessExit 0; Detector.StartTimer 0; Detector.KillTimer 0])) in
  activeWorkers (Detector.getStats s) = 3 /\
  snd (Detector.detect 7 "Hello" Spec.noOptions 0 s)
    = [Detector.Dispatched false 7 0; Detector.Threw 7 (WorkerNoStreams 0)].
Proof.
  intros s. split; [reflexivity|].
  destruct (worker_without_process_fails_every_call s 7 "Hello" Spec.noOptions 0 0
              (Worker.with_process None
                 (Spec.readyWorker (Detector.config (Detector.new Spec.defaults)) 0)))
    as (Hacts & _).
  - reflexivity.
  - reflexivity.
  - reflexivity.
  - reflexivity.
  - reflexivity.
  - reflexivity.
  - exact Hacts.
Defined.

(** ** The load flag over the transitions of a detector *)

Section LoadFlag.

Local Open Scope list_scope.
Import Detector.
Context `{Builtins}.

Lemma loadOutcome_app (acts acts' : list Action) :
  Singleton.loadOutcome acts' <> None -> Singleton.loadOutcome (acts ++ acts') <> None.
Proof.
  intros Hn. induction acts as [|a acts IH]; [exact Hn|].
  destruct a; simpl; try exact IH; discriminate.
Qed.

Lemma stopWorker_isLoading (a : addr) (s : State) :
  isLoading (fst (stopWorker a s)) = isLoading s.
Proof.
  unfold stopWorker. destruct (heap s !! a); [destruct (Worker.stopSignals _)|]; reflexivity.
Qed.

Lemma stopWorkers_isLoading (ws : list addr) :
  forall s, isLoading (fst (stopWorkers ws s)) = isLoading s.
Proof.
  induction ws as [|a ws IH]; intros s; simpl; [reflexivity|].
  pose proof (stopWorker_isLoading a s) as H1.
  destruct (stopWorker a s) as [s1 acts1]. specialize (IH s1).
  destruct (stopWorkers ws s1) as [s2 acts2]. simpl in *. congruence.
Qed.

Lemma startWorker_isLoading (a : addr) (owner : StartOwner) (s : State) :
  isLoading (fst (startWorker a owner s)) = isLoading s.
Proof. unfold startWorker. destruct (heap s !! a); reflexivity. Qed.

Lemma restartWorker_isLoading (workerId : nat) (s : State) :
  isLoading (fst (restartWorker workerId s)) = isLoading s.
Proof.
  unfold restartWorker. destruct (negb (isLoaded s)); [reflexivity|].
  destruct (workers s !! workerId) as [a|]; [|reflexivity].
  pose proof (stopWorker_isLoading a s) as H1.
  destruct (stopWorker a s) as [s1 acts1].
  pose proof (startWorker_isLoading a (ByRestart workerId) s1) as H2.
  destruct (startWorker a (ByRestart workerId) s1) as [s2 acts2]. simpl in *. congruence.
Qed.

Lemma executeRequest_isLoading (a : addr) (w : Worker.FastTextWorker)
  (request : QueuedRequest) (s : State) :
  isLoading (fst (fst (executeRequest a w request s))) = isLoading s.
Proof.
  unfold executeRequest. destruct (Worker.detect w (text request)) as [e|[w' line]]; reflexivity.
Qed.

Lemma drain_isLoading (q : list QueuedRequest) :
  forall s, isLoading (fst (fst (drain q s))) = isLoading s.
Proof.
  induction q as [|request rest IH]; intros s; simpl; [reflexivity|].
  destruct (getAvailableWorker s) as [[a w]|]; [|reflexivity].
  match goal with |- context [executeRequest a w request ?s1] =>
    pose proof (executeRequest_isLoading a w request s1) as H1;
    destruct (executeRequest a w request s1) as [[s2 acts2] dfd2] end.
  specialize (IH s2). destruct (drain rest s2) as [[s3 acts3] dfd3].
  simpl in *. congruence.
Qed.

Lemma runCatches_isLoading (fuel : nat) :
  forall pending s, isLoading (fst (runCatches fuel pending s)) = isLoading s.
Proof.
  induction fuel as [|fuel IH]; intros [|[request e] more] s; simpl; try reflexivity.
  unfold processQueueLoop.
  match goal with |- context [drain ?q ?s1] =>
    pose proof (drain_isLoading q s1) as H1;
    destruct (drain q s1) as [[s2 acts2] new] end.
  specialize (IH (more ++ new) s2). destruct (runCatches fuel (more ++ new) s2) as [s3 acts3].
  simpl in *. congruence.
Qed.

Lemma settle_isLoading (pending : Deferred) (s : State) :
  isLoading (fst (settle pending s)) = isLoading s.
Proof. apply runCatches_isLoading. Qed.

Lemma processQueue_isLoading (s : State) :
  isLoading (fst (processQueue s)) = isLoading s.
Proof.
  unfold processQueue, processQueueLoop.
  pose proof (drain_isLoading (requestQueue s) s) as H1.
  destruct (drain (requestQueue s) s) as [[s1 acts1] dfd].
  pose proof (settle_isLoading dfd s1) as H2.
  destruct (settle dfd s1) as [s2 acts2]. simpl in *. congruence.
Qed.

Lemma unload_isLoading (s : State) : isLoading (fst (unload s)) = isLoading s.
Proof.
  unfold unload.
  match goal with |- context [stopWorkers ?ws ?s1] =>
    pose proof (stopWorkers_isLoading ws s1) as H1;
    destruct (stopWorkers ws s1) as [s3 acts3] end.
  simpl in *. exact H1.
Qed.

Lemma detect_isLoading (call : nat) (text : string) (options : DetectionOptions)
  (now : Z) (s : State) :
  isLoading (fst (detect call text options now s)) = isLoading s.
Proof.
  unfold detect. destruct (isBlank text); [reflexivity|].
  destruct (negb (isLoaded s)); [reflexivity|].
  destruct (cacheLookup text now s) as [cached s1] eqn:El.
  apply cacheLookup_kept in El as (_ & _ & _ & _ & _ & _ & Hi & _).
  destruct cached as [result|]; [exact Hi|].
  match goal with |- context [getAvailableWorker ?s2] =>
    destruct (getAvailableWorker s2) as [[a w]|] end.
  - match goal with |- context [executeRequest a w ?r ?s2] =>
      pose proof (executeRequest_isLoading a w r s2) as H1;
      destruct (executeRequest a w r s2) as [[s3 acts3] dfd] end.
    pose proof (settle_isLoading dfd s3) as H2.
    destruct (settle dfd s3) as [s4 acts4]. simpl in *. congruence.
  - match goal with |- context [if ?b then _ else _] => destruct b end; simpl; exact Hi.
Qed.

Lemma executeRequest_then_isLoading (request : QueuedRequest) (result : DetectionResult)
  (now : Z) (s : State) :
  isLoading (fst (executeRequest_then request result now s)) = isLoading s.
Proof.
  unfold executeRequest_then, detect_then.
  match goal with |- context [processQueue ?s2] =>
    pose proof (processQueue_isLoading s2) as H1;
    destruct (processQueue s2) as [s3 acts3] end.
  simpl in *. rewrite H1.
  destruct (cache _) as [c|]; [destruct (primary result)|]; reflexivity.
Qed.

(** The two ways a [load] ends tell its caller. *)
Lemma load_then_outcome (s : State) :
  Singleton.loadOutcome (snd (load_then s)) <> None.
Proof.
  unfold load_then.
  match goal with |- context [processQueue ?s2] => destruct (processQueue s2) as [s4 acts] end.
  simpl. apply loadOutcome_app. discriminate.
Qed.

Lemma load_catch_outcome (e : Error) (s : State) :
  Singleton.loadOutcome (snd (load_catch e s)) <> None.
Proof.
  unfold load_catch.
  match goal with |- context [stopWorkers ?ws ?s2] => destruct (stopWorkers ws s2) as [s4 acts] end.
  simpl. apply loadOutcome_app. discriminate.
Qed.

Lemma start_resolved_loading (ps : PendingStart) (s : State) :
  Singleton.loadOutcome (snd (start_resolved ps s)) = None ->
  isLoading (fst (start_resolved ps s)) = isLoading s.
Proof.
  unfold start_resolved. destruct (ps_owner ps) as [generation|workerId].
  - destruct (loadJoin s) as [pids|]; [|reflexivity].
    destruct (Nat.eqb generation (loadGeneration s)); [|reflexivity].
    destruct (List.filter _ pids); [|reflexivity].
    intros Hn. now apply load_then_outcome in Hn.
  - intros _. apply processQueue_isLoading.
Qed.

Lemma start_rejected_loading (e : Error) (ps : PendingStart) (s : State) :
  Singleton.loadOutcome (snd (start_rejected e ps s)) = None ->
  isLoading (fst (start_rejected e ps s)) = isLoading s.
Proof.
  unfold start_rejected. destruct (ps_owner ps) as [generation|workerId]; [|reflexivity].
  destruct (loadJoin s) as [pids|]; [|reflexivity].
  destruct (Nat.eqb generation (loadGeneration s)); [|reflexivity].
  intros Hn. now apply load_catch_outcome in Hn.
Qed.

Lemma createWorkers_isLoading (n : nat) :
  forall i generation s,
  isLoading (fst (fst (createWorkers n i generation s))) = isLoading s.
Proof.
  induction n as [|n IH]; intros i generation s; simpl; [reflexivity|].
  match goal with |- context [startWorker ?a ?o ?s1] =>
    pose proof (startWorker_isLoading a o s1) as H1;
    destruct (startWorker a o s1) as [s2 acts2] end.
  specialize (IH (S i) generation s2).
  destruct (createWorkers n (S i) generation s2) as [[s3 pids] acts3].
  simpl in *. congruence.
Qed.

(** A [load()] that does not settle at once is in progress. *)
Lemma load_loading (modelExists binaryFound : bool) (s : State) :
  Singleton.loadOutcome (snd (load modelExists binaryFound s)) = None ->
  isLoading (fst (load modelExists binaryFound s)) = true.
Proof.
  unfold load. destruct (isLoading s) eqn:Ei; [discriminate|].
  destruct (isLoaded s); [discriminate|].
  destruct (negb modelExists);
    [intros Hn; now apply load_catch_outcome in Hn|].
  destruct (negb binaryFound);
    [intros Hn; now apply load_catch_outcome in Hn|].
  match goal with |- context [createWorkers ?n ?i ?g ?s1] =>
    pose proof (createWorkers_isLoading n i g s1) as H1;
    destruct (createWorkers n i g s1) as [[s2 pids] acts2] end.
  simpl in H1. destruct pids as [|p pids].
  - pose proof (load_then_outcome s2) as Ho.
    destruct (load_then s2) as [s3 acts3]. simpl in *. intros Hn. exfalso.
    revert Hn. apply loadOutcome_app. exact Ho.
  - intros _. exact H1.
Qed.

(** Any other transition leaves the flag of a [load] in progress alone,
    unless that [load] settles in it. *)
Lemma step_loading (s : State) (e : Event) :
  (forall modelExists binaryFound, e <> Load modelExists binaryFound) ->
  Singleton.loadOutcome (snd (step s e)) = None ->
  isLoading (fst (step s e)) = isLoading s.
Proof.
  intros Hload. destruct e as [me bf| |c t o n|a d n|a|a|a|a|a|i|a]; simpl.
  - now contradiction (Hload me bf).
  - intros _. apply unload_isLoading.
  - intros _. apply detect_isLoading.
  - intros _. unfold onStdoutData.
    destruct (extract _ (running s)) as [[[a0 request] rest]|]; [|reflexivity].
    destruct (heap s !! a) as [w|]; [|reflexivity].
    destruct (Worker.onData w d) as [w' result].
    now rewrite executeRequest_then_isLoading.
  - intros _. unfold onRequestTimer.
    destruct (extract _ (running s)) as [[[a0 request] rest]|]; [|reflexivity].
    destruct (heap s !! a) as [w|]; [|reflexivity].
    destruct (Worker.onTimeout w) as [w' e].
    unfold executeRequest_catch. now rewrite settle_isLoading.
  - intros _. unfold onWriteError.
    destruct (extract _ (running s)) as [[[a0 request] rest]|]; [|reflexivity].
    destruct (heap s !! a) as [w|]; [|reflexivity].
    unfold executeRequest_catch. now rewrite settle_isLoading.
  - unfold onProcessError. destruct (heap s !! a) as [w|]; [|reflexivity].
    match goal with |- context [restartWorker ?i ?s1] =>
      pose proof (restartWorker_isLoading i s1) as H1;
      destruct (restartWorker i s1) as [s2 acts2] end.
    simpl in H1. destruct (Worker.process w) as [p|]; [|intros _; exact H1].
    destruct (extract _ (starting s2)) as [[ps rest]|]; [|intros _; exact H1].
    match goal with |- context [start_rejected ?e ?ps ?s3] =>
      pose proof (start_rejected_loading e ps s3) as H2;
      destruct (start_rejected e ps s3) as [s4 acts4] end.
    simpl in *. intros Hn. rewrite H2; [exact H1|].
    destruct (Singleton.loadOutcome acts4) eqn:Eo; [|reflexivity].
    exfalso. revert Hn. apply loadOutcome_app. congruence.
  - intros _. unfold onProcessExit. destruct (heap s !! a) as [w|]; [|reflexivity].
    now rewrite restartWorker_isLoading.
  - unfold onStartTimer.
    destruct (extract _ (starting s)) as [[ps rest]|]; [|reflexivity].
    destruct (heap s !! a) as [w|]; [|reflexivity].
    destruct (Worker.onStartTimer w) as [w' r].
    destruct (ps_settled ps); [reflexivity|].
    destruct r as [e|]; intros Hn.
    + now rewrite start_rejected_loading.
    + now rewrite start_resolved_loading.
  - intros _. unfold onRetryTimer.
    destruct (extract _ (retryTimers s)) as [[w rest]|]; [|reflexivity].
    now rewrite restartWorker_isLoading.
  - intros _. unfold onKillTimer.
    destruct (extract _ (killTimers s)) as [[w rest]|]; [|reflexivity].
    destruct (heap s !! a); reflexivity.
Qed.

End LoadFlag.

(** ** The module variables of the singleton ([getInstance], [unloadInstance]) *)

Section SingletonFacts.

Local Open Scope list_scope.
Import Singleton.
Context `{Builtins}.

Lemma lookup_insert_cases {A : Type} (l : list A) (i j : nat) (x y : A) :
  l !! i = Some x ->
  (<[i := y]> l) !! j = if Nat.eqb j i then Some y else l !! j.
Proof.
  intros Hi. destruct (Nat.eqb_spec j i) as [->|Hne].
  - apply list_lookup_insert_eq. eapply lookup_lt_Some; eauto.
  - apply list_lookup_insert_ne. congruence.
Qed.

Lemma lookup_snoc_cases {A : Type} (l : list A) (j : nat) (y : A) :
  (l ++ [y]) !! j = if Nat.eqb j (length l) then Some y else l !! j.
Proof.
  destruct (Nat.eqb_spec j (length l)) as [->|Hne].
  - now apply list_lookup_middle.
  - destruct (Nat.lt_ge_cases j (length l)) as [Hlt|Hge].
    + now apply lookup_app_l.
    + rewrite (lookup_ge_None_2 l) by exact Hge.
      apply lookup_ge_None_2. rewrite length_app. simpl. lia.
Qed.

Lemma afterLoad_pending (acts : list Detector.Action) (e : Error) :
  afterLoad acts <> Rejected e.
Proof. unfold afterLoad. destruct (loadOutcome acts); discriminate. Qed.

Lemma afterLoad_awaiting (acts : list Detector.Action) :
  afterLoad acts = Awaiting -> loadOutcome acts = None.
Proof. unfold afterLoad. destruct (loadOutcome acts); [discriminate|reflexivity]. Qed.

Lemma initialize_sound (call : nat) (options : DetectorOptions) (me bf : bool) (s : State) :
  attributed s -> sound (fst (initialize call options me bf s)).
Proof.
  intros Ha. unfold initialize.
  pose proof (load_loading me bf (Detector.new options)) as Hl.
  destruct (Detector.load me bf (Detector.new options)) as [ds acts]. simpl in Hl.
  split.
  - split; [reflexivity|]. simpl. intros d [= <-].
    exists ds, (afterLoad acts). rewrite lookup_snoc_cases, Nat.eqb_refl.
    split; [reflexivity|]. intros e. apply afterLoad_pending.
  - intros d ds0. simpl. rewrite lookup_snoc_cases.
    destruct (Nat.eqb d (length (created s))); [|apply Ha].
    intros [= <- Hp]. apply Hl, afterLoad_awaiting, Hp.
Qed.

Lemma same_sound (s s' : State) :
  created s' = created s -> instance s' = instance s ->
  initializationPromise s' = initializationPromise s ->
  sound s -> sound s'.
Proof.
  intros Hc Hi Hp [[H1 H2] H3]. unfold sound, consistent, attributed.
  rewrite Hc, Hi, Hp. auto.
Qed.

Lemma join_sound (call : nat) (options : DetectorOptions) (me bf : bool) (s : State) :
  sound s -> sound (fst (join call options me bf s)).
Proof.
  intros Hs. unfold join. destruct (initializationPromise s) as [p|] eqn:Ep.
  - destruct (created s !! p) as [[ds [ | | |]]|]; simpl; try exact Hs;
      apply (same_sound s); auto.
  - apply initialize_sound, Hs.
Qed.

Lemma getInstance_sound (call : nat) (options : DetectorOptions) (me bf : bool) (s : State) :
  sound s -> sound (fst (getInstance call options me bf s)).
Proof.
  intros Hs. unfold getInstance. destruct (instance s) as [d|].
  - destruct (isModelLoaded s d); [exact Hs|]. now apply join_sound.
  - now apply join_sound.
Qed.

Lemma initContinue_sound (p : nat) (s : State) :
  sound s -> sound (fst (initContinue p s)).
Proof.
  intros [[H1 H2] H3]. unfold initContinue.
  destruct (created s !! p) as [[ds [ |[e|]| |]]|] eqn:Ep; simpl;
    try (split; [split|]; assumption).
  - split; [split; [reflexivity|discriminate]|].
    intros d ds0. simpl. rewrite (lookup_insert_cases _ _ _ _ _ Ep).
    destruct (Nat.eqb d p); [discriminate|apply H3].
  - split; [split; [exact H1|]|].
    + simpl. intros d Hd. rewrite (lookup_insert_cases _ _ _ _ _ Ep).
      destruct (Nat.eqb d p); [|now apply H2].
      eexists _, _. split; [reflexivity|discriminate].
    + intros d ds0. simpl. rewrite (lookup_insert_cases _ _ _ _ _ Ep).
      destruct (Nat.eqb d p); [discriminate|apply H3].
Qed.

Lemma onDetector_sound (d : nat) (e : Detector.Event) (s : State) :
  sound s -> sound (fst (onDetector d e s)).
Proof.
  intros [[H1 H2] H3]. unfold onDetector.
  destruct (created s !! d) as [[ds pr]|] eqn:Ed; [|split; [split|]; assumption].
  pose proof (step_loading ds e) as Hstep.
  destruct (Detector.step ds e) as [ds' acts] eqn:Es. simpl in Hstep.
  assert (Hlt : (d < length (created s))%nat) by (eapply lookup_lt_Some; eauto).
  split; [split; [exact H1|]|]; cbn [fst created instance initializationPromise].
  - intros d0 Hd0. destruct (H2 d0 Hd0) as (ds0 & pr0 & Hl & Hp).
    destruct (Nat.eqb_spec d0 d) as [->|Hne].
    + rewrite Ed in Hl. injection Hl as <- <-. eexists _, _.
      split; [apply list_lookup_insert_eq, Hlt|].
      intros e0. destruct pr; try apply Hp.
      destruct e; try apply afterLoad_pending; discriminate.
    + exists ds0, pr0. split; [|exact Hp].
      rewrite list_lookup_insert_ne by congruence. exact Hl.
  - intros d0 ds0. cbn [created]. destruct (Nat.eqb_spec d0 d) as [->|Hne].
    + rewrite list_lookup_insert_eq by exact Hlt. intros [= <- Hp].
      destruct pr; try discriminate Hp.
      pose proof (H3 d ds Ed) as Hi.
      destruct e as [me bf| | | | | | | | | |];
        try (rewrite Hstep; [exact Hi|discriminate|apply afterLoad_awaiting, Hp]).
      simpl in Es. unfold Detector.load in Es. rewrite Hi in Es.
      injection Es as <- _. exact Hi.
    + rewrite list_lookup_insert_ne by congruence. apply H3.
Qed.

Lemma unloadInstance_sound (s : State) : sound s -> sound (fst (unloadInstance s)).
Proof.
  intros Hs. unfold unloadInstance. destruct (instance s) as [d|]; [|exact Hs].
  pose proof (onDetector_sound d Detector.Unload s Hs) as H1.
  destruct (onDetector d Detector.Unload s) as [s1 acts]. simpl in *.
  now apply (same_sound s1).
Qed.

Lemma unloadInstanceThen_sound (s : State) :
  sound s -> sound (fst (unloadInstanceThen s)).
Proof.
  intros Hs. unfold unloadInstanceThen. destruct (unloading s); [exact Hs|].
  destruct Hs as [_ Ha]. split; [split; [reflexivity|discriminate]|exact Ha].
Qed.

Lemma step_sound (s : State) (e : Event) : sound s -> sound (fst (step s e)).
Proof.
  destruct e; simpl.
  - apply getInstance_sound.
  - apply unloadInstance_sound.
  - apply unloadInstanceThen_sound.
  - apply initContinue_sound.
  - apply onDetector_sound.
Qed.

Lemma run_sound (events : list Event) : forall s, sound s -> sound (fst (run s events)).
Proof.
  induction events as [|e events IH]; intros s Hs; simpl; [exact Hs|].
  pose proof (step_sound s e Hs) as H1. destruct (step s e) as [s1 acts].
  specialize (IH s1 H1). destruct (run s1 events) as [s2 acts']. exact IH.
Qed.

(** X25. Whatever is called and whatever happens to the detectors, the two
    module variables go together: [instance] and [initializationPromise] are
    both null or name the same initialization, and that initialization has
    not failed, so [getInstance] never hands out the promise of a failed
    initialization. As long as the promise of an initialization is pending
    on [load()], the detector it created has [isLoading] set. *)
Theorem module_variables_name_one_live_initialization (events : list Event) :
  let s := fst (run init events) in
  instance s = initializationPromise s /\
  (forall d, instance s = Some d ->
     exists ds pr, created s !! d = Some (ds, pr) /\ forall e, pr <> Rejected e) /\
  (forall d ds, created s !! d = Some (ds, Awaiting) -> Detector.isLoading ds = true).
Proof.
  intros s.
  assert (Hs : sound s).
  { apply run_sound. split; [split; [reflexivity|discriminate]|].
    intros d ds. simpl. rewrite lookup_nil. discriminate. }
  destruct Hs as [[H1 H2] H3]. exact (conj H1 (conj H2 H3)).
Qed.

End SingletonFacts.

(** ** Calls of [getInstance] that share an initialization *)

Section SingletonRuns.

Local Open Scope list_scope.
Import Singleton.
Context `{Builtins}.

Lemma loadOutcome_spawned (l : list nat) :
  loadOutcome (map (fun j => Detector.Spawned j j) l) = None.
Proof. induction l as [|j l IH]; [reflexivity|exact IH]. Qed.

Lemma getInstance_first (call : nat) (options : DetectorOptions) :
  let c := Detector.config (Detector.new options) in
  let n := Detector.poolSize c in
  getInstance call options true true init
    = (sole (Spec.loadingState c (Detector.cache (Detector.new options)) n 0
               (Some (seq 0 n))) Awaiting [call],
       map (Inner 0) (map (fun j => Detector.Spawned j j) (seq 0 n))).
Proof.
  intros c n. unfold getInstance, join, initialize. cbn [instance initializationPromise init].
  pose proof (load_new options) as Hl. cbv zeta in Hl. rewrite Hl.
  unfold afterLoad. rewrite loadOutcome_spawned. reflexivity.
Qed.

Lemma getInstance_joins (ds : Detector.State) (w : list nat) (call : nat)
  (options : DetectorOptions) (me bf : bool) :
  Detector.isLoaded ds = false ->
  getInstance call options me bf (sole ds Awaiting w) = (sole ds Awaiting (w ++ [call]), []).
Proof.
  intros Hl. unfold getInstance, join, isModelLoaded, sole.
  cbn [instance initializationPromise created waiting unloading].
  change ([(ds, Awaiting)] !! 0%nat) with (Some (ds, Awaiting)).
  cbv beta iota. rewrite Hl, map_app. reflexivity.
Qed.

Lemma getAll_join (ds : Detector.State) (me bf : bool) (calls : list (nat * DetectorOptions)) :
  Detector.isLoaded ds = false ->
  forall w,
  run (sole ds Awaiting w) (getAll calls me bf)
    = (sole ds Awaiting (w ++ map fst calls), []).
Proof.
  intros Hl. induction calls as [|[call options] calls IH]; intros w.
  - simpl. now rewrite app_nil_r.
  - cbn [getAll map run step fst snd]. rewrite getInstance_joins by exact Hl.
    fold (getAll calls me bf). rewrite IH, <- app_assoc. reflexivity.
Qed.

Lemma startTimer_sole (c : Detector.Config) (co : option Cache.DetectionCache)
  (k m : nat) (w : list nat) :
  Detector.poolSize c = (k + S m)%nat ->
  onDetector 0 (Detector.StartTimer k)
    (sole (Spec.loadingState c co (Detector.poolSize c) k (Some (seq k (S m)))) Awaiting w)
    = match m with
      | O => (sole (Spec.loadedState c co) (Resuming None) w, [Inner 0 Detector.LoadResolved])
      | S _ =>
          (sole (Spec.loadingState c co (Detector.poolSize c) (S k) (Some (seq (S k) m)))
             Awaiting w, [])
      end.
Proof.
  intros Hn. unfold onDetector, sole. cbn [created].
  match goal with |- context [[?x] !! 0%nat] => change ([x] !! 0%nat) with (Some x) end.
  cbv beta iota. cbn [Detector.step].
  rewrite (onStartTimer_loading c co k m Hn). destruct m; reflexivity.
Qed.

Lemma startTimers_sole (c : Detector.Config) (co : option Cache.DetectionCache)
  (w : list nat) :
  forall j k m, Detector.poolSize c = (k + j + S m)%nat ->
  run (sole (Spec.loadingState c co (Detector.poolSize c) k (Some (seq k (j + S m))))
         Awaiting w)
      (startTimers 0 k j)
    = (sole (Spec.loadingState c co (Detector.poolSize c) (k + j)
               (Some (seq (k + j) (S m)))) Awaiting w, []).
Proof.
  induction j as [|j IH]; intros k m Hn.
  - simpl. now rewrite Nat.add_0_r.
  - unfold startTimers. change (seq k (S j)) with (k :: seq (S k) j).
    change (S j + S m)%nat with (S (j + S m)).
    cbn [map run step].
    rewrite (startTimer_sole c co k (j + S m)) by lia.
    replace (j + S m)%nat with (S (j + m)) at 1 by lia.
    fold (startTimers 0 (S k) j).
    rewrite (IH (S k) m) by lia.
    replace (S k + j)%nat with (k + S j)%nat by lia. reflexivity.
Qed.

Lemma startTimers_snoc (d k n : nat) :
  startTimers d k (S n)
    = startTimers d k n ++ [OnDetector d (Detector.StartTimer (k + n))].
Proof. unfold startTimers. now rewrite seq_S, map_app. Qed.

Lemma singleton_run_app (s s1 s2 : State) (es es' : list Event) (a1 a2 : list Action) :
  run s es = (s1, a1) -> run s1 es' = (s2, a2) -> run s (es ++ es') = (s2, a1 ++ a2).
Proof.
  revert s a1. induction es as [|e es IH]; intros s a1.
  - simpl. intros [= <- <-]. now intros ->.
  - cbn [app run]. destruct (step s e) as [s0 acts].
    destruct (run s0 es) as [s0' acts'] eqn:E. intros [= <- <-] E2.
    rewrite (IH s0 acts' E E2). now rewrite app_assoc.
Qed.

Lemma settlements_app (a b : list Action) :
  settlements (a ++ b) = settlements a ++ settlements b.
Proof. apply List.filter_app. Qed.

Lemma settlements_inner (d : nat) (acts : list Detector.Action) :
  settlements (map (Inner d) acts) = [].
Proof. induction acts as [|a acts IH]; [reflexivity|exact IH]. Qed.

Lemma callers_sole (ds : Detector.State) (pr : Promise) (w : list nat) :
  callers 0 (sole ds pr w) = w /\ others 0 (sole ds pr w) = [].
Proof.
  unfold callers, others, sole. cbn [waiting].
  induction w as [|c w [IH1 IH2]]; [split; reflexivity|].
  simpl. simpl in IH1, IH2. rewrite IH1, IH2. split; reflexivity.
Qed.

Lemma shared_run (call : nat) (options : DetectorOptions)
  (calls : list (nat * DetectorOptions)) (me bf : bool) :
  let c := Detector.config (Detector.new options) in
  let n := Detector.poolSize c in
  run init (GetInstance call options true true :: getAll calls me bf
            ++ startTimers 0 0 n ++ [InitContinue 0])
    = (sole (Spec.loadedState c (Detector.cache (Detector.new options)))
         (Fulfilled (Some 0%nat)) [],
       map (Inner 0) (map (fun j => Detector.Spawned j j) (seq 0 n))
       ++ [Inner 0 Detector.LoadResolved]
       ++ map (fun k => Resolved k (Some 0%nat)) (call :: map fst calls)).
Proof.
  intros c n. set (co := Detector.cache (Detector.new options)).
  pose proof (poolSize_positive options) as Hpos. fold c in Hpos. fold n in Hpos.
  destruct n as [|m] eqn:En; [lia|]. unfold n in En.
  change (GetInstance call options true true :: getAll calls me bf
          ++ startTimers 0 0 (S m) ++ [InitContinue 0])
    with ([GetInstance call options true true]
          ++ getAll calls me bf ++ startTimers 0 0 (S m) ++ [InitContinue 0]).
  eapply singleton_run_app.
  { cbn [run step]. pose proof (getInstance_first call options) as Hg.
    cbv zeta in Hg. fold c in Hg. rewrite En in Hg. rewrite Hg, app_nil_r. reflexivity. }
  change (call :: map fst calls) with ([call] ++ map fst calls).
  apply (singleton_run_app _
           (sole (Spec.loadingState c co (S m) 0 (Some (seq 0 (S m)))) Awaiting
              ([call] ++ map fst calls)) _ _ _ [] _);
    [apply getAll_join; reflexivity|].
  rewrite startTimers_snoc, <- app_assoc.
  apply (singleton_run_app _
           (sole (Spec.loadingState c co (S m) m (Some (seq m 1))) Awaiting
              ([call] ++ map fst calls)) _ _ _ [] _).
  { pose proof (startTimers_sole c co ([call] ++ map fst calls) m 0 0) as Ht.
    rewrite En in Ht. replace (m + 1)%nat with (S m) in Ht by lia.
    apply Ht. lia. }
  change ([OnDetector 0 (Detector.StartTimer (0 + m))] ++ [InitContinue 0])
    with [OnDetector 0 (Detector.StartTimer m); InitContinue 0].
  cbn [run step].
  pose proof (startTimer_sole c co m 0 ([call] ++ map fst calls)) as Hl.
  rewrite En in Hl. rewrite Hl by lia.
  unfold initContinue.
  destruct (callers_sole (Spec.loadedState c co) (Resuming None) ([call] ++ map fst calls))
    as [Hc Ho].
  rewrite Hc, Ho. unfold sole at 1. cbn [created].
  match goal with |- context [[?x] !! 0%nat] => change ([x] !! 0%nat) with (Some x) end.
  cbv beta iota zeta. rewrite app_nil_r. reflexivity.
Qed.

(** X26. Calls of [getInstance] made while the first initialization is
    under way share it, whatever options they pass: only the first call
    creates a detector, with its own options, and when the last start timer
    of that detector has fired and the initialization goes on, every call is
    resolved with that one detector, which is loaded. *)
Theorem concurrent_calls_share_one_detector
  (call : nat) (options : DetectorOptions) (calls : list (nat * DetectorOptions))
  (me bf : bool) :
  let c := Detector.config (Detector.new options) in
  let events :=
    GetInstance call options true true :: getAll calls me bf
    ++ startTimers 0 0 (Detector.poolSize c) ++ [InitContinue 0] in
  let s := fst (run init events) in
  settlements (snd (run init events))
    = map (fun k => Resolved k (Some 0%nat)) (call :: map fst calls) /\
  created s
    = [(Spec.loadedState c (Detector.cache (Detector.new options)), Fulfilled (Some 0%nat))] /\
  instance s = Some 0%nat /\ initializationPromise s = Some 0%nat /\ waiting s = [].
Proof.
  intros c events s. subst s events.
  pose proof (shared_run call options calls me bf) as Hr. cbv zeta in Hr. fold c in Hr.
  rewrite Hr. cbn [fst snd]. refine (conj _ (conj eq_refl (conj eq_refl (conj eq_refl eq_refl)))).
  rewrite !settlements_app, !settlements_inner.
  change (settlements [Inner 0 Detector.LoadResolved]) with (@nil Action).
  cbn [app]. generalize (call :: map fst calls). intros l.
  induction l as [|k l IH]; [reflexivity|]. simpl. simpl in IH. now rewrite IH.
Qed.

End SingletonRuns.

(** ** What [getInstance] resolves with *)

Section SingletonValues.

Local Open Scope list_scope.
Import Singleton.
Context `{Builtins}.

Lemma unload_isLoaded (ds : Detector.State) :
  Detector.isLoaded (fst (Detector.unload ds)) = false.
Proof.
  unfold Detector.unload.
  destruct (Detector.stopWorkers _ _) as [s3 acts3] eqn:E3.
  apply stopWorkers_housekeeping in E3 as (_ & _ & _ & _ & _ & Hl & _).
  simpl in *. exact Hl.
Qed.

(** X27. [getInstance] starts an initialization only when
    [initializationPromise] is null, and only [unloadInstance] and a failed
    initialization reset it. So once the instance has been unloaded through
    its own [unload()], every call of [getInstance] is resolved with what
    the old promise was fulfilled with, that same detector, which is not
    loaded, and nothing is created or changed. *)
Theorem getInstance_after_direct_unload_returns_the_old_instance
  (s : State) (d : nat) (value : option nat)
  (call : nat) (options : DetectorOptions) (me bf : bool) :
  instance s = Some d ->
  initializationPromise s = Some d ->
  option_map snd (created s !! d) = Some (Fulfilled value) ->
  let s1 := fst (onDetector d Detector.Unload s) in
  isModelLoaded s1 d = false /\
  getInstance call options me bf s1 = (s1, [Resolved call value]).
Proof.
  intros Hi Hp Hc s1. subst s1. unfold onDetector.
  destruct (created s !! d) as [[ds pr]|] eqn:Ed; [|discriminate].
  injection Hc as ->.
  assert (Hlt : (d < length (created s))%nat) by (eapply lookup_lt_Some; eauto).
  pose proof (unload_isLoaded ds) as Hl. cbn [Detector.step].
  destruct (Detector.unload ds) as [ds' acts]. cbn [fst snd] in *.
  unfold getInstance, join, isModelLoaded.
  cbn [instance initializationPromise created]. rewrite Hi, Hp.
  rewrite list_lookup_insert_eq by exact Hlt. rewrite Hl. split; reflexivity.
Qed.

Lemma detectorEvents_variables (des : list (nat * Detector.Event)) :
  forall s,
  instance (fst (run s (detectorEvents des))) = instance s /\
  initializationPromise (fst (run s (detectorEvents des))) = initializationPromise s.
Proof.
  induction des as [|[d e] des IH]; intros s; [split; reflexivity|].
  cbn [detectorEvents map run step fst snd]. fold (detectorEvents des).
  assert (Hs : instance (fst (onDetector d e s)) = instance s /\
               initializationPromise (fst (onDetector d e s)) = initializationPromise s).
  { unfold onDetector. destruct (created s !! d) as [[ds pr]|]; [|split; reflexivity].
    destruct (Detector.step ds e) as [ds' acts]. split; reflexivity. }
  destruct (onDetector d e s) as [s1 acts1]. specialize (IH s1).
  destruct (run s1 (detectorEvents des)) as [s2 acts2]. cbn [fst] in *.
  destruct IH as [IH1 IH2]. destruct Hs as [Hs1 Hs2]. split; congruence.
Qed.

(** X28. The [catch] block of an initialization resets both module
    variables, whichever initialization they name by then. After the failure
    of an initialization that was given up, the variables are null although
    a newer initialization is under way; when the [load()] of that one
    resolves, [return instance] reads null, and every call of [getInstance]
    that waits for it is resolved with null. *)
Theorem late_failure_makes_getInstance_resolve_with_null
  (s : State) (p : nat) (e : Error) (des : list (nat * Detector.Event)) :
  option_map snd (created s !! p) = Some (Resuming (Some e)) ->
  let s1 := fst (run s (InitContinue p :: detectorEvents des)) in
  instance s1 = None /\ initializationPromise s1 = None /\
  forall q, option_map snd (created s1 !! q) = Some (Resuming None) ->
    snd (initContinue q s1) = map (fun c => Resolved c None) (callers q s1) /\
    option_map snd (created (fst (initContinue q s1)) !! q) = Some (Fulfilled None).
Proof.
  intros Hc s1.
  assert (Hv : instance s1 = None /\ initializationPromise s1 = None).
  { subst s1. cbn [run step]. unfold initContinue.
    destruct (created s !! p) as [[ds pr]|] eqn:Ep; [|discriminate].
    injection Hc as ->.
    match goal with |- context [run ?s0 (detectorEvents des)] =>
      pose proof (detectorEvents_variables des s0) as [Hi Hp];
      destruct (run s0 (detectorEvents des)) as [s1 acts1] end.
    cbn [fst snd instance initializationPromise] in *. exact (conj Hi Hp). }
  clearbody s1. destruct Hv as [Hi Hp].
  refine (conj Hi (conj Hp _)). intros q Hq. unfold initContinue.
  destruct (created s1 !! q) as [[dq pr]|] eqn:Eq; [|discriminate].
  injection Hq as ->. rewrite Hi. cbn [fst snd created].
  split; [reflexivity|].
  rewrite list_lookup_insert_eq by (eapply lookup_lt_Some; eauto). reflexivity.
Qed.

End SingletonValues.

(** The default detector, initialized and then unloaded by its holder *)
Lemma getInstance_after_direct_unload_returns_the_old_instance_witness :
  let s := fst (Singleton.run Singleton.init (Singleton.getRun 0 Spec.defaults 3)) in
  let s1 := fst (Singleton.onDetector 0 Detector.Unload s) in
  Singleton.isModelLoaded s 0 = true /\
  Singleton.isModelLoaded s1 0 = false /\
  Singleton.getInstance 1 Spec.defaults true true s1
    = (s1, [Singleton.Resolved 1 (Some 0%nat)]).
Proof.
  intros s s1. split; [vm_compute; reflexivity|].
  assert (Hi : Singleton.instance s = Some 0%nat) by (vm_compute; reflexivity).
  assert (Hp : Singleton.initializationPromise s = Some 0%nat) by (vm_compute; reflexivity).
  assert (Hc : option_map snd (Singleton.created s !! 0%nat)
               = Some (Singleton.Fulfilled (Some 0%nat))) by (vm_compute; reflexivity).
  exact (getInstance_after_direct_unload_returns_the_old_instance s 0 (Some 0%nat)
           1 Spec.defaults true true Hi Hp Hc).
Defined.

(** The second call of [getInstance] in [abandonedRun] is resolved with
    null, while the detector it created is loaded. *)
Lemma late_failure_makes_getInstance_resolve_with_null_witness :
  let s := fst (Singleton.run Singleton.init (Singleton.abandonedRun Spec.defaults)) in
  let timers := [(1%nat, Detector.StartTimer 0); (1%nat, Detector.StartTimer 1);
                 (1%nat, Detector.StartTimer 2)] in
  let s1 := fst (Singleton.run s
                   (Singleton.InitContinue 0 :: Singleton.detectorEvents timers)) in
  snd (Singleton.run s [Singleton.InitContinue 0])
    = [Singleton.Failed 0 (WorkerStartFailed 0)] /\
  Singleton.isModelLoaded s1 1 = true /\
  snd (Singleton.initContinue 1 s1) = [Singleton.Resolved 1 None].
Proof.
  intros s timers s1.
  split; [vm_compute; reflexivity|]. split; [vm_compute; reflexivity|].
  assert (Hc : option_map snd (Singleton.created s !! 0%nat)
               = Some (Singleton.Resuming (Some (WorkerStartFailed 0))))
    by (vm_compute; reflexivity).
  assert (Hq : option_map snd (Singleton.created s1 !! 1%nat)
               = Some (Singleton.Resuming None)) by (vm_compute; reflexivity).
  assert (Hw : Singleton.callers 1 s1 = [1%nat]) by (vm_compute; reflexivity).
  pose proof (late_failure_makes_getInstance_resolve_with_null
                s 0 (WorkerStartFailed 0) timers Hc) as Hl.
  cbv zeta in Hl. destruct Hl as (_ & _ & Hl).
  destruct (Hl 1%nat Hq) as [Hacts _].
  exact (eq_trans Hacts (f_equal (map (fun c => Singleton.Resolved c None)) Hw)).
Defined.
